(** * pydal/adapters/mongo.py: the MongoDB adapter of pyDAL

    A shallow embedding of the adapter's identifier codec, blob codec,
    value coercion, expression compiler and query executor, and the
    properties of its specification that were checked against it.

    Conventions of the embedding.
    - Python values are the inductive [pyval]; integers are [Z], strings are
      [string].  Floats, dates and unicode objects are left out of the value
      universe.
    - The adapter runs on Python 2 and on Python 3 (it takes [long] and
      [basestring] from [_compat]).  Where the library functions it calls
      differ between interpreters ([int(s, 0)], [re.escape], bson's Binary
      and its [str]), the embedding takes the interpreter as a parameter,
      [python].
    - A raised exception is an [Err] result carrying the exception class.
    - Objects the adapter does not define (bson's ObjectId and Binary, the
      pymongo collection, the base adapter's coercion) are modelled next to
      the code that uses them and are marked as such. *)

From Stdlib Require Import ZArith NArith List String Ascii Bool Lia.
Import ListNotations.

Open Scope string_scope.
Open Scope Z_scope.

(** ** Exceptions and results *)

Inductive pyerror : Type :=
| ValueError
| TypeError
| RuntimeError
| SyntaxError
| NotImplementedError
| IndexError
| KeyError
| AttributeError
| InvalidId.       (* bson.errors.InvalidId *)

Inductive res (A : Type) : Type :=
| Ok (a : A)
| Err (e : pyerror).

Arguments Ok {A} a.
Arguments Err {A} e.

Definition res_bind {A B : Type} (m : res A) (k : A -> res B) : res B :=
  match m with
  | Ok a => k a
  | Err e => Err e
  end.

Notation "x <- m ;; k" := (res_bind m (fun x => k))
  (at level 61, m at next level, right associativity).

Definition ok_of {A : Type} (m : res A) : option A :=
  match m with
  | Ok a => Some a
  | Err _ => None
  end.

(** What a call whose recursion depth is bounded comes to: it returns, it
    raises, or the bound of the model was reached before it did either. *)
Inductive outcome (A : Type) : Type :=
| Returns (a : A)
| Raises (e : pyerror)
| OutOfFuel.

Arguments Returns {A} a.
Arguments Raises {A} e.
Arguments OutOfFuel {A}.

Definition of_res {A : Type} (r : res A) : outcome A :=
  match r with
  | Ok a => Returns a
  | Err e => Raises e
  end.

Definition returned {A : Type} (o : outcome A) : option A :=
  match o with
  | Returns a => Some a
  | _ => None
  end.

Fixpoint mapM {A B : Type} (f : A -> res B) (l : list A) : res (list B) :=
  match l with
  | [] => Ok []
  | x :: r => y <- f x ;; ys <- mapM f r ;; Ok (y :: ys)
  end.

(** ** The interpreter *)

(** Python 2 with the width in bits of its C long (32 or 64), or Python 3
    with its minor version. *)
Inductive python : Type :=
| Python2 (long_bits : N)
| Python3 (minor : N).

Definition is_python3 (py : python) : bool :=
  match py with
  | Python2 _ => false
  | Python3 _ => true
  end.

(** ** Python string methods used by the adapter *)

Module PyStr.

Definition of_list (l : list ascii) : string :=
  fold_right String EmptyString l.

Definition in_range (lo hi c : ascii) : bool :=
  ((nat_of_ascii lo <=? nat_of_ascii c) && (nat_of_ascii c <=? nat_of_ascii hi))%nat.

Definition is_digit_char (c : ascii) : bool := in_range "0" "9" c.

Definition is_alpha_char (c : ascii) : bool :=
  in_range "a" "z" c || in_range "A" "Z" c.

Definition is_alnum_char (c : ascii) : bool :=
  is_digit_char c || is_alpha_char c.

Fixpoint all_chars (p : ascii -> bool) (s : string) : bool :=
  match s with
  | EmptyString => true
  | String c r => p c && all_chars p r
  end.

Definition nonempty (s : string) : bool :=
  match s with EmptyString => false | _ => true end.

(** [s.isdigit()], [s.isalnum()]: false on the empty string. *)
Definition isdigit (s : string) : bool := nonempty s && all_chars is_digit_char s.
Definition isalnum (s : string) : bool := nonempty s && all_chars is_alnum_char s.

(** [s.startswith(p)] *)
Definition startswith (p s : string) : bool := String.prefix p s.

(** [sub in s] *)
Fixpoint contains (sub s : string) : bool :=
  String.prefix sub s ||
  match s with
  | EmptyString => false
  | String _ r => contains sub r
  end.

(** [s.replace(old, new)] for a non-empty [old]: non-overlapping
    occurrences, leftmost first.  [skip] counts the characters of a
    matched occurrence that are still to be passed over. *)
Fixpoint replace_from (old new s : string) (skip : nat) : string :=
  match s with
  | EmptyString => EmptyString
  | String c r =>
      match skip with
      | S k => replace_from old new r k
      | O =>
          if String.prefix old s
          then new ++ replace_from old new r (String.length old - 1)
          else String c (replace_from old new r 0)
      end
  end.

Definition replace (old new s : string) : string := replace_from old new s 0.

(** [s.rstrip(c)] for a one-character set. *)
Fixpoint rstrip (c : ascii) (s : string) : string :=
  match s with
  | EmptyString => EmptyString
  | String d r =>
      match rstrip c r with
      | EmptyString => if Ascii.eqb d c then EmptyString else String d EmptyString
      | r' => String d r'
      end
  end.

Fixpoint repeat_char (c : ascii) (n : nat) : string :=
  match n with
  | O => EmptyString
  | S k => String c (repeat_char c k)
  end.

(** [s.zfill(width)]: zeros go after a leading sign. *)
Definition zfill (width : nat) (s : string) : string :=
  let pad := repeat_char "0" (width - String.length s) in
  match s with
  | String c r =>
      if Ascii.eqb c "+" || Ascii.eqb c "-" then String c (pad ++ r) else pad ++ s
  | EmptyString => pad
  end.

(** [s[n:]] *)
Fixpoint drop (n : nat) (s : string) : string :=
  match n, s with
  | O, _ => s
  | S k, String _ r => drop k r
  | S _, EmptyString => EmptyString
  end.

End PyStr.

(** ** Integers and their hexadecimal text *)

Module PyInt.

Definition hex_char (d : N) : ascii :=
  if (d <? 10)%N then ascii_of_N (48 + d) else ascii_of_N (87 + d).

(** The value of a hexadecimal digit, either case. *)
Definition digit16 (c : ascii) : option N :=
  let n := N_of_ascii c in
  if ((48 <=? n) && (n <=? 57))%N then Some (n - 48)%N
  else if ((97 <=? n) && (n <=? 102))%N then Some (n - 87)%N
  else if ((65 <=? n) && (n <=? 70))%N then Some (n - 55)%N
  else None.

Definition digit10 (c : ascii) : option N :=
  let n := N_of_ascii c in
  if ((48 <=? n) && (n <=? 57))%N then Some (n - 48)%N else None.

(** Base-16 digits, least significant first. *)
Fixpoint to_digits16 (fuel : nat) (n : N) : list N :=
  match fuel with
  | O => []
  | S f => if (n =? 0)%N then [] else (n mod 16)%N :: to_digits16 f (n / 16)%N
  end.

Definition hex_digits (n : N) : string :=
  if (n =? 0)%N then "0"
  else PyStr.of_list (map hex_char (rev (to_digits16 (N.to_nat (N.size n)) n))).

(** [hex(z)], without the [L] suffix of a Python 2 long (the adapter
    strips it). *)
Definition hex (z : Z) : string :=
  if z <? 0 then "-0x" ++ hex_digits (Z.abs_N z) else "0x" ++ hex_digits (Z.abs_N z).

(** Digits read most significant first into an accumulator. *)
Fixpoint parse_digits (digit : ascii -> option N) (base acc : N) (s : string) : option N :=
  match s with
  | EmptyString => Some acc
  | String c r =>
      match digit c with
      | Some d => parse_digits digit base (acc * base + d)%N r
      | None => None
      end
  end.

Definition parse_nonempty (digit : ascii -> option N) (base : N) (s : string) : res Z :=
  match s with
  | EmptyString => Err ValueError
  | _ => match parse_digits digit base 0%N s with
         | Some n => Ok (Z.of_N n)
         | None => Err ValueError
         end
  end.

(** [int(s)] on a string of decimal digits. *)
Definition int10 (s : string) : res Z := parse_nonempty digit10 10 s.

(** [long(s, 16)] on the text of an identifier: hexadecimal digits with
    an optional [0x] prefix. *)
Definition int16 (s : string) : res Z :=
  if PyStr.startswith "0x" s || PyStr.startswith "0X" s
  then parse_nonempty digit16 16 (PyStr.drop 2 s)
  else parse_nonempty digit16 16 s.

(** The [L] suffix of a Python 2 long literal. *)
Fixpoint strip_long_suffix (s : string) : string :=
  match s with
  | EmptyString => EmptyString
  | String c EmptyString =>
      if Ascii.eqb c "L" || Ascii.eqb c "l" then EmptyString else s
  | String c r => String c (strip_long_suffix r)
  end.

(** [int(s, 0)] on an alphanumeric literal with the [0x] prefix.  Python 3
    takes hexadecimal digits only.  Python 2 reads a C long first and
    refuses what follows the digits; only a value that does not fit a
    C long is read again as a long, whose literal may end in [L]. *)
Definition int_literal_0x (py : python) (s : string) : res Z :=
  if PyStr.startswith "0x" s || PyStr.startswith "0X" s then
    let digits := PyStr.drop 2 s in
    match parse_nonempty digit16 16 digits with
    | Ok z => Ok z
    | Err _ =>
        match py with
        | Python3 _ => Err ValueError
        | Python2 long_bits =>
            z <- parse_nonempty digit16 16 (strip_long_suffix digits) ;;
            if 2 ^ (Z.of_N long_bits - 1) <=? z then Ok z else Err ValueError
        end
    end
  else Err ValueError.

End PyInt.

(** ** The native identifier

    Modelled from the spec: bson's ObjectId is not part of the adapter.  A
    native identifier is a 12-byte value whose textual form is its 24
    lowercase hexadecimal digits; the constructor accepts a text of exactly
    24 hexadecimal digits and rejects any other text. *)

Module ObjectId.

Record t : Type := make { binary : list N }.

Fixpoint unhexlify (s : string) : option (list N) :=
  match s with
  | EmptyString => Some []
  | String a (String b r) =>
      match PyInt.digit16 a, PyInt.digit16 b, unhexlify r with
      | Some hi, Some lo, Some bs => Some ((16 * hi + lo)%N :: bs)
      | _, _, _ => None
      end
  | String _ EmptyString => None
  end.

Fixpoint hexlify (bs : list N) : string :=
  match bs with
  | [] => EmptyString
  | b :: r => String (PyInt.hex_char (b / 16)%N) (String (PyInt.hex_char (b mod 16)%N) (hexlify r))
  end.

(** [ObjectId(text)] *)
Definition of_str (s : string) : res t :=
  if (String.length s =? 24)%nat
  then match unhexlify s with
       | Some bs => Ok (make bs)
       | None => Err InvalidId
       end
  else Err InvalidId.

(** [str(oid)] *)
Definition str (o : t) : string := hexlify (binary o).

Definition eqb (a b : t) : bool :=
  if list_eq_dec N.eq_dec (binary a) (binary b) then true else false.

End ObjectId.

(** ** Python values *)

#[local] Set Warnings "-register-all".


Inductive seqkind : Type := KList | KTuple | KSet.

Inductive pyval : Type :=
| PNone
| PBool (b : bool)
| PInt (z : Z)
| PStr (s : string)
| PByteArray (data : string)
| PBinary (subtype : Z) (data : string)     (* bson.Binary and MongoBlob *)
| POid (o : ObjectId.t)
| PSeq (k : seqkind) (items : list pyval)
| PDict (entries : list (pyval * pyval)).

Definition seqkind_eqb (a b : seqkind) : bool :=
  match a, b with
  | KList, KList | KTuple, KTuple | KSet, KSet => true
  | _, _ => false
  end.

Fixpoint pyval_eqb (a b : pyval) {struct a} : bool :=
  let fix list_eqb (l m : list pyval) {struct l} : bool :=
    match l, m with
    | [], [] => true
    | x :: l', y :: m' => pyval_eqb x y && list_eqb l' m'
    | _, _ => false
    end in
  let fix dict_eqb (l m : list (pyval * pyval)) {struct l} : bool :=
    match l, m with
    | [], [] => true
    | (k, v) :: l', (k', v') :: m' => pyval_eqb k k' && pyval_eqb v v' && dict_eqb l' m'
    | _, _ => false
    end in
  match a, b with
  | PNone, PNone => true
  | PBool x, PBool y => Bool.eqb x y
  | PInt x, PInt y => Z.eqb x y
  | PStr x, PStr y => String.eqb x y
  | PByteArray x, PByteArray y => String.eqb x y
  | PBinary t x, PBinary u y => Z.eqb t u && String.eqb x y
  | POid x, POid y => ObjectId.eqb x y
  | PSeq k l, PSeq k' m => seqkind_eqb k k' && list_eqb l m
  | PDict l, PDict m => dict_eqb l m
  | _, _ => false
  end.

(** Truth value of an object ([if x:], [not x]). *)
Definition truthy (v : pyval) : bool :=
  match v with
  | PNone => false
  | PBool b => b
  | PInt z => negb (z =? 0)
  | PStr s | PByteArray s | PBinary _ s => PyStr.nonempty s
  | POid _ => true
  | PSeq _ l => match l with [] => false | _ => true end
  | PDict d => match d with [] => false | _ => true end
  end.

(** [isinstance(v, basestring)]: [str], and bson's Binary, which
    subclasses it. *)
Definition as_basestring (v : pyval) : option string :=
  match v with
  | PStr s | PBinary _ s => Some s
  | _ => None
  end.

(** [isinstance(v, (int, long))]; [bool] is a subclass of [int]. *)
Definition as_int (v : pyval) : option Z :=
  match v with
  | PInt z => Some z
  | PBool b => Some (if b then 1 else 0)
  | _ => None
  end.

(** ** The identifier codec *)

Section IdentifierCodec.

Variable py : python.

(** [self.random.choice(alphabet)] for the x-th element of the
    comprehension: the position in the alphabet that the generator
    picks.  The generator's own state is outside the model. *)
Variable random_choice : nat -> nat.

Definition hex_alphabet : list ascii :=
  list_ascii_of_string "0123456789abcdef".

Definition random_hex24 : string :=
  PyStr.of_list
    (map (fun x => nth (random_choice x mod 16)%nat hex_alphabet "0"%char) (seq 0 24)).

(** The string branch of [object_id]: the integer a text stands for.
    [has_random] is false on the aggregate expander, whose constructor
    never sets [self.random]. *)
Definition object_id_of_string (has_random : bool) (arg : pyval) (s : string) : res Z :=
  let rawhex :=
    (String.length (PyStr.replace "L" "" (PyStr.replace "0x" "" s)) =? 24)%nat in
  if PyStr.isdigit s && negb rawhex then PyInt.int10 s
  else if pyval_eqb arg (PStr "<random>") then
    if has_random then PyInt.int_literal_0x py ("0x" ++ random_hex24 ++ "L")
    else Err AttributeError
  else if PyStr.isalnum s then
    PyInt.int_literal_0x py (if PyStr.startswith "0x" s then s else "0x" ++ s)
  else Err ValueError.

(** [MongoDBAdapter.object_id] *)
Definition object_id (has_random : bool) (arg : pyval) : res pyval :=
  let arg := if truthy arg then arg else PInt 0 in
  match arg with
  | POid o => Ok (POid o)
  | _ =>
      n <- match as_basestring arg with
           | Some s => object_id_of_string has_random arg s
           | None =>
               match as_int arg with
               | Some z => Ok z
               | None => Err TypeError
               end
           end ;;
      let hexvalue := PyStr.zfill 24 (PyStr.rstrip "L" (PyStr.drop 2 (PyInt.hex n))) in
      o <- ObjectId.of_str hexvalue ;;
      Ok (POid o)
  end.

(** The conversion [long(str(value), 16)] that [parse_id] and
    [parse_reference] apply to a native identifier. *)
Definition long_of_oid (o : ObjectId.t) : res Z := PyInt.int16 (ObjectId.str o).

(** The base adapter's [parse_id], which is not part of this file. *)
Variable base_parse_id : pyval -> string -> res pyval.

(** [MongoDBAdapter.parse_id] *)
Definition parse_id (value : pyval) (field_type : string) : res pyval :=
  value' <- match value with
            | POid o => z <- long_of_oid o ;; Ok (PInt z)
            | _ => Ok value
            end ;;
  base_parse_id value' field_type.

End IdentifierCodec.

(** ** The blob codec

    Modelled from the spec: bson's Binary is not part of the adapter.  A
    Binary value is a byte string tagged with a subtype in 0..255; the
    constructor takes a byte string and refuses any other object; the
    subtype of an untagged Binary is 0, and the subtypes from
    [USER_DEFINED_SUBTYPE] = 128 on are free for the application.  On
    Python 2 a [str] is a byte string; on Python 3 it is a text, which the
    constructor refuses, and [str()] of a Binary is the text of the
    [repr] of its bytes. *)

Definition BINARY_SUBTYPE : Z := 0.
Definition USER_DEFINED_SUBTYPE : Z := 128.

(** [Binary.__new__(cls, data, subtype)] on a byte string. *)
Definition Binary_of_bytes (data : string) (subtype : Z) : res pyval :=
  if (0 <=? subtype) && (subtype <? 256) then Ok (PBinary subtype data)
  else Err ValueError.

(** [Binary.__new__(cls, data, subtype)] *)
Definition Binary_new (py : python) (data : pyval) (subtype : Z) : res pyval :=
  match data with
  | PBinary _ s => Binary_of_bytes s subtype
  | PStr s => if is_python3 py then Err TypeError else Binary_of_bytes s subtype
  | _ => Err TypeError
  end.

(** The double quote character. *)
Definition double_quote : ascii := ascii_of_nat 34.

(** One byte of the [repr], inside the quote [quote]. *)
Definition repr_byte (quote c : ascii) : string :=
  let n := N_of_ascii c in
  if Ascii.eqb c quote || Ascii.eqb c "\" then String "\" (String c EmptyString)
  else if (n =? 9)%N then "\t"
  else if (n =? 10)%N then "\n"
  else if (n =? 13)%N then "\r"
  else if (n <? 32)%N || (127 <=? n)%N
  then String "\" (String "x" (String (PyInt.hex_char (n / 16)%N)
                                   (String (PyInt.hex_char (n mod 16)%N) EmptyString)))
  else String c EmptyString.

Fixpoint repr_bytes_body (quote : ascii) (data : string) : string :=
  match data with
  | EmptyString => EmptyString
  | String c r => repr_byte quote c ++ repr_bytes_body quote r
  end.

Fixpoint has_char (c : ascii) (s : string) : bool :=
  match s with
  | EmptyString => false
  | String d r => Ascii.eqb d c || has_char c r
  end.

(** [repr] of the bytes [data] on Python 3: the quote is the double one
    when the bytes hold a single quote and no double one; the quote and
    the backslash get a backslash, tab, newline and return their letter,
    and every other byte outside the printable ASCII range its two
    hexadecimal digits. *)
Definition bytes_repr (data : string) : string :=
  let quote := if has_char "'" data && negb (has_char double_quote data)
               then double_quote else "'"%char in
  String "b" (String quote (repr_bytes_body quote data ++ String quote EmptyString)).

Module MongoBlob.

Definition MONGO_BLOB_BYTES : Z := USER_DEFINED_SUBTYPE.
Definition MONGO_BLOB_NON_UTF8_STR : Z := USER_DEFINED_SUBTYPE + 1.

Section Codec.

Variable py : python.

(** [value.encode('utf-8')], the interpreter's codec: the encoded text, or
    the error it raises. *)
Variable encode_utf8 : string -> res string.

(** [MongoBlob.__new__], written [MongoBlob(value)] in the adapter. *)
Definition new (value : pyval) : res pyval :=
  match value with
  | PNone | PBinary _ _ => Ok value
  | PByteArray b => Binary_of_bytes b MONGO_BLOB_BYTES
  | PStr s =>
      match encode_utf8 s with
      | Ok _ => Ok value
      | Err _ => Binary_new py value MONGO_BLOB_NON_UTF8_STR
      end
  | _ => Binary_new py value BINARY_SUBTYPE
  end.

End Codec.

(** [MongoBlob.decode] *)
Definition decode (py : python) (value : pyval) : pyval :=
  match value with
  | PBinary subtype data =>
      if subtype =? MONGO_BLOB_BYTES then PByteArray data
      else if subtype =? MONGO_BLOB_NON_UTF8_STR
      then PStr (if is_python3 py then bytes_repr data else data)
      else value
  | _ => value
  end.

(** The codec of a Python 2 byte string: encoding to UTF-8 first decodes
    the bytes as ASCII. *)
Definition encode_utf8_py2 (s : string) : res string :=
  if PyStr.all_chars (fun c => (N_of_ascii c <? 128)%N) s then Ok s else Err ValueError.

End MongoBlob.

(** ** Containers *)

(** [hash(v)] is defined: lists, sets, dicts and byte arrays cannot be
    dictionary keys. *)
Fixpoint hashable (v : pyval) : bool :=
  match v with
  | PByteArray _ | PDict _ | PSeq KList _ | PSeq KSet _ => false
  | PSeq KTuple l => forallb hashable l
  | _ => true
  end.

(** The display [{k: v}]. *)
Definition dict1 (k v : pyval) : res pyval :=
  if hashable k then Ok (PDict [(k, v)]) else Err TypeError.

Fixpoint dict_get (d : list (pyval * pyval)) (k : pyval) : res pyval :=
  match d with
  | [] => Err KeyError
  | (k', v) :: r => if pyval_eqb k' k then Ok v else dict_get r k
  end.

Definition char_items (s : string) : list pyval :=
  map (fun c => PStr (String c EmptyString)) (list_ascii_of_string s).

Definition byte_items (s : string) : list pyval :=
  map (fun c => PInt (Z.of_N (N_of_ascii c))) (list_ascii_of_string s).

(** [list(v)], the elements [for x in v] goes through. *)
Definition py_iter (v : pyval) : res (list pyval) :=
  match v with
  | PSeq _ l => Ok l
  | PDict d => Ok (map fst d)
  | PStr s | PBinary _ s => Ok (char_items s)
  | PByteArray s => Ok (byte_items s)
  | PNone | PBool _ | PInt _ | POid _ => Err TypeError
  end.

(** [l[i]] on a sequence of length [length l], negative indices counted
    from the end. *)
Definition seq_index {A : Type} (l : list A) (i : Z) : res A :=
  let n := Z.of_nat (List.length l) in
  let j := if i <? 0 then i + n else i in
  if (0 <=? j) && (j <? n)
  then match nth_error l (Z.to_nat j) with
       | Some x => Ok x
       | None => Err IndexError
       end
  else Err IndexError.

(** [v[k]] *)
Definition py_getitem (v k : pyval) : res pyval :=
  match v with
  | PDict d => if hashable k then dict_get d k else Err TypeError
  | PSeq KSet _ => Err TypeError
  | PSeq _ l =>
      match as_int k with
      | Some i => seq_index l i
      | None => Err TypeError
      end
  | PStr s | PBinary _ s =>
      match as_int k with
      | Some i => seq_index (char_items s) i
      | None => Err TypeError
      end
  | PByteArray s =>
      match as_int k with
      | Some i => seq_index (byte_items s) i
      | None => Err TypeError
      end
  | PNone | PBool _ | PInt _ | POid _ => Err TypeError
  end.

(** [list(v)[0]] *)
Definition first_item (v : pyval) : res pyval :=
  l <- py_iter v ;;
  match l with
  | [] => Err IndexError
  | x :: _ => Ok x
  end.

(** ** The query algebra the adapter consumes

    [Field], [Query] and [Expression] are defined in pydal/objects.py; the
    adapter reads and writes the attributes listed here. *)

Record Field : Type := mkField {
  f_name : string;
  f_type : string;
  f_tablename : string;
  f_ondelete : string
}.

Definition set_field_name (f : Field) (n : string) : Field :=
  mkField n (f_type f) (f_tablename f) (f_ondelete f).

Inductive operator : Type :=
| INVERT | NOT | AND | OR | BELONGS
| EQ | NE | LT | LE | GT | GE
| ADD | SUB | MUL | DIV | MOD
| AGGREGATE | COUNT | AS | ON | COMMA
| LIKE | ILIKE | STARTSWITH | ENDSWITH | CONTAINS.

(** [expression.op]: one of the adapter's methods, or a literal string. *)
Inductive opref : Type :=
| OpFunc (o : operator)
| OpStr (s : string).

(** A keyword-argument dictionary. *)
Definition kwargs : Type := list (string * pyval).

Fixpoint kw_get (kw : kwargs) (key : string) : option pyval :=
  match kw with
  | [] => None
  | (k, v) :: r => if String.eqb k key then Some v else kw_get r key
  end.

Definition kw_default (kw : kwargs) (key : string) (default : pyval) : pyval :=
  match kw_get kw key with
  | Some v => v
  | None => default
  end.

(** Every keyword passed is one the method declares. *)
Definition kw_accepted (allowed : list string) (kw : kwargs) : bool :=
  forallb (fun kv => existsb (String.eqb (fst kv)) allowed) kw.

(** An object handed to the compiler: a plain Python value, a [Field], a
    [Query] or an [Expression].  A missing operand is the value [None]. *)
Inductive expr : Type :=
| Lit (v : pyval)
| FieldE (f : Field)
| QueryE (first : expr) (op : opref) (second : expr) (optional_args : kwargs)
| ExprE (first : expr) (op : opref) (second : expr) (type : option string)
        (optional_args : kwargs).

Definition is_none (e : expr) : bool :=
  match e with
  | Lit PNone => true
  | _ => false
  end.

(** [e.type] *)
Definition type_of (e : expr) : res (option string) :=
  match e with
  | FieldE f => Ok (Some (f_type f))
  | ExprE _ _ _ ty _ => Ok ty
  | QueryE _ _ _ _ | Lit _ => Err AttributeError
  end.

(** [e.first] and [e.second]; a [Field] carries both as [None]. *)
Definition operands (e : expr) : res (expr * expr) :=
  match e with
  | QueryE f _ s _ | ExprE f _ s _ _ => Ok (f, s)
  | FieldE _ => Ok (Lit PNone, Lit PNone)
  | Lit _ => Err AttributeError
  end.

(** The object after its two operands were mutated in place. *)
Definition with_operands (e : expr) (f s : expr) : expr :=
  match e with
  | QueryE _ op _ oa => QueryE f op s oa
  | ExprE _ op _ ty oa => ExprE f op s ty oa
  | FieldE _ | Lit _ => e
  end.

(** The truth value of [field_type] in [elif field_type:]. *)
Definition type_given (ft : option string) : bool :=
  match ft with
  | Some s => PyStr.nonempty s
  | None => false
  end.

Definition type_is (ft : option string) (s : string) : bool :=
  match ft with
  | Some t => String.eqb t s
  | None => false
  end.

Definition type_startswith (ft : option string) (p : string) : bool :=
  match ft with
  | Some t => PyStr.startswith p t
  | None => false
  end.

(** ** The interpreter and the base adapter

    What the adapter calls and does not define: the interpreter, its
    random generator, the base adapter's [represent], the UTF-8 codec and
    [str()] of an object that is not a string. *)

Record runtime : Type := mkRuntime {
  rt_random_choice : nat -> nat;
  rt_base_represent : pyval -> option string -> res pyval;
  rt_encode_utf8 : string -> res string;
  rt_repr : pyval -> string;
  rt_python : python
}.

(** ['%s' % v] *)
Definition format_s (rt : runtime) (v : pyval) : string :=
  match v with
  | PStr s => s
  | _ => rt_repr rt v
  end.

(** [re.escape].  Up to Python 3.6 every character that is not
    alphanumeric gets a backslash (the underscore too before 3.3) and the
    NUL character becomes [\000]; from 3.7 on only the characters that are
    special in a regular expression get one. *)
Definition escapes_special_only (py : python) : bool :=
  match py with
  | Python2 _ => false
  | Python3 minor => (7 <=? minor)%N
  end.

Definition escapes_underscore (py : python) : bool :=
  match py with
  | Python2 _ => true
  | Python3 minor => (minor <? 3)%N
  end.

(** The special characters of Python 3.7: [()[]{}?*+-|^$\.&~#], the space
    and the white space characters tab, newline, return, vertical tab and
    form feed. *)
Definition re_special_chars : list ascii :=
  (list_ascii_of_string "()[]{}?*+-|^$\.&~# "
   ++ map ascii_of_nat [9; 10; 13; 11; 12]%nat)%list.

Definition re_escape_char (py : python) (c : ascii) : string :=
  if escapes_special_only py then
    if existsb (Ascii.eqb c) re_special_chars then String "\" (String c EmptyString)
    else String c EmptyString
  else if PyStr.is_alnum_char c || (negb (escapes_underscore py) && Ascii.eqb c "_")
  then String c EmptyString
  else if Ascii.eqb c zero then "\000"
  else String "\" (String c EmptyString).

Fixpoint re_escape (py : python) (s : string) : string :=
  match s with
  | EmptyString => EmptyString
  | String c r => re_escape_char py c ++ re_escape py r
  end.

(** ** Value coercion *)

Section Represent.

Variable rt : runtime.

(** [self]: the adapter itself, or its aggregate expander, whose
    [aggregate] flag is set and which has no [random] attribute. *)
Variable aggregate : bool.

Definition self_object_id (arg : pyval) : res pyval :=
  object_id (rt_python rt) (rt_random_choice rt) (negb aggregate) arg.

(** [MongoDBAdapter.represent] *)
Definition represent (obj : pyval) (fieldtype : option string) : res pyval :=
  value <- match obj with
           | POid _ => Ok obj
           | _ => rt_base_represent rt obj fieldtype
           end ;;
  if type_is fieldtype "date" || type_is fieldtype "time" then
    match value with
    | PNone => Ok value
    | _ => Err TypeError            (* [datetime.combine] of an object that is no date *)
    end
  else if type_is fieldtype "blob" then MongoBlob.new (rt_python rt) (rt_encode_utf8 rt) value
  else
    match fieldtype with
    | Some ft =>
        if PyStr.startswith "list:" ft then
          if PyStr.startswith "list:reference" ft then
            items <- py_iter value ;;
            oids <- mapM self_object_id items ;;
            Ok (PSeq KList oids)
          else Ok value
        else if PyStr.startswith "reference" ft || String.eqb ft "id" then
          self_object_id value
        else Ok value
    | None => Ok value
    end.

End Represent.

(** ** The expression compiler *)

(** The compiler mutates the objects it is given ([expression.first.name],
    [expression.second]); every function below returns, next to its
    result, the operand objects as the call leaves them. *)

Definition opM (A : Type) : Type := expr * expr -> outcome A * (expr * expr).

Definition op_ret {A : Type} (a : A) : opM A := fun st => (Returns a, st).

Definition op_lift {A : Type} (r : res A) : opM A := fun st => (of_res r, st).

Definition op_bind {A B : Type} (m : opM A) (k : A -> opM B) : opM B :=
  fun st =>
    match m st with
    | (Returns a, st') => k a st'
    | (Raises e, st') => (Raises e, st')
    | (OutOfFuel, st') => (OutOfFuel, st')
    end.

Notation "x <~ m ;; k" := (op_bind m (fun x => k))
  (at level 61, m at next level, right associativity).

(** Run a compiler call on the first, or the second, operand. *)
Definition on_first (run : expr -> outcome pyval * expr) : opM pyval :=
  fun st => let (r, f') := run (fst st) in (r, (f', snd st)).

Definition on_second (run : expr -> outcome pyval * expr) : opM pyval :=
  fun st => let (r, s') := run (snd st) in (r, (fst st, s')).

Definition first_type : opM (option string) := fun st => (of_res (type_of (fst st)), st).

Definition get_first : opM expr := fun st => (Returns (fst st), st).
Definition get_second : opM expr := fun st => (Returns (snd st), st).

(** A comprehension [[f(x) for x in l]] whose body calls the compiler. *)
Fixpoint op_map {A B : Type} (f : A -> opM B) (l : list A) : opM (list B) :=
  match l with
  | [] => op_ret []
  | x :: r => y <~ f x ;; ys <~ op_map f r ;; op_ret (y :: ys)
  end.

(** The recursive calls a method makes: [self.expand] and [self.NOT], each
    with the [aggregate] flag of the object it is called on. *)
Definition expander : Type := bool -> expr -> option string -> outcome pyval * expr.
Definition negator : Type := bool -> expr -> outcome pyval * expr.

Section Operators.

Variable rt : runtime.
Variable expand : expander.
Variable self_NOT : negator.
Variable aggregate : bool.

Definition expand_first (ft : option string) : opM pyval :=
  on_first (fun f => expand aggregate f ft).

Definition expand_second (ft : option string) : opM pyval :=
  on_second (fun s => expand aggregate s ft).

Definition INVERT_ : opM pyval :=
  v <~ expand_first None ;;
  op_ret (PStr ("-" ++ format_s rt v)).

(** What [NOT] does with [op = self.expand(first)], before any recursive
    call: it fails, it has its result, or it has to negate both operands of
    [first] and join them under [not_op] (De Morgan). *)
Inductive not_step : Type :=
| NotDone (r : res pyval)
| NotDeMorgan (not_op : string).

Definition NOT_step (op : pyval) : not_step :=
  match first_item op with
  | Err e => NotDone (Err e)
  | Ok op_k =>
      match py_getitem op op_k with
      | Err e => NotDone (Err e)
      | Ok op_body =>
          match op_body with
          | PSeq KList _ =>
              NotDeMorgan (if pyval_eqb op_k (PStr "$or") then "$and" else "$or")
          | _ =>
              let attempt : res (option pyval) :=
                match op_body with
                | PDict d =>
                    match map fst d with
                    | [k] =>
                        if pyval_eqb k (PStr "$ne")
                        then v <- dict_get d (PStr "$ne") ;; r <- dict1 op_k v ;; Ok (Some r)
                        else Ok None
                    | _ => Ok None
                    end
                | _ => Err AttributeError
                end in
              let r : res (option pyval) :=
                match attempt with
                | Ok r => Ok r
                | Err _ => r <- dict1 op_k (PDict [(PStr "$ne", op_body)]) ;; Ok (Some r)
                end in
              NotDone (o <- r ;;
                       match o with
                       | Some v => Ok v
                       | None => dict1 op_k (PDict [(PStr "$not", op_body)])
                       end)
          end
      end
  end.

(** [{not_op: [self.NOT(first.first), self.NOT(first.second)]}], run on the
    two operands of [first]. *)
Definition NOT_operands (not_op : string) : opM pyval :=
  a <~ on_first (self_NOT aggregate) ;;
  b <~ on_second (self_NOT aggregate) ;;
  op_lift (dict1 (PStr not_op) (PSeq KList [a; b])).

(** The body of [NOT] once [op] is known; [first] is the operand as
    [self.expand(first)] left it. *)
Definition NOT_rewrite (first : expr) (op : pyval) : outcome pyval * expr :=
  match NOT_step op with
  | NotDone r => (of_res r, first)
  | NotDeMorgan not_op =>
      match operands first with
      | Err e => (Raises e, first)
      | Ok st =>
          let (r, st') := NOT_operands not_op st in
          (r, with_operands first (fst st') (snd st'))
      end
  end.

Definition NOT_body (first : expr) : outcome pyval * expr :=
  let (rop, first1) := expand aggregate first None in
  match rop with
  | Returns op => NOT_rewrite first1 op
  | Raises e => (Raises e, first1)
  | OutOfFuel => (OutOfFuel, first1)
  end.

Definition AND_ : opM pyval :=
  a <~ expand_first None ;;
  b <~ expand_second None ;;
  op_lift (dict1 (PStr "$and") (PSeq KList [a; b])).

Definition OR_ : opM pyval :=
  a <~ expand_first None ;;
  b <~ expand_second None ;;
  op_lift (dict1 (PStr "$or") (PSeq KList [a; b])).

(** The elements of the right operand of [BELONGS], a plain value. *)
Definition belongs_items (second : expr) : res (list pyval) :=
  match second with
  | Lit v =>
      match as_basestring v with
      | Some _ => Err RuntimeError
      | None => py_iter v
      end
  | _ => Err TypeError
  end.

Definition BELONGS_ : opM pyval :=
  second <~ get_second ;;
  vs <~ op_lift (belongs_items second) ;;
  items <~ op_map (fun item =>
                     t <~ first_type ;;
                     fun st => (fst (expand aggregate (Lit item) t), st)) vs ;;
  k <~ expand_first None ;;
  op_lift (dict1 k (PDict [(PStr "$in", PSeq KList items)])).

Definition _validate_second : opM unit :=
  second <~ get_second ;;
  if is_none second then op_lift (Err RuntimeError) else op_ret tt.

Definition EQ_ : opM pyval :=
  k <~ expand_first None ;;
  t <~ first_type ;;
  v <~ expand_second t ;;
  op_lift (dict1 k v).

(** [{self.expand(first): {code: self.expand(second, first.type)}}] *)
Definition compare (code : string) : opM pyval :=
  k <~ expand_first None ;;
  t <~ first_type ;;
  v <~ expand_second t ;;
  op_lift (dict1 k (PDict [(PStr code, v)])).

Definition NE_ : opM pyval := compare "$ne".

Definition LT_ : opM pyval := _ <~ _validate_second ;; compare "$lt".
Definition LE_ : opM pyval := _ <~ _validate_second ;; compare "$lte".
Definition GT_ : opM pyval := _ <~ _validate_second ;; compare "$gt".
Definition GE_ : opM pyval := _ <~ _validate_second ;; compare "$gte".

(** [{code: [self.expand(first), self.expand(second, first.type)]}] *)
Definition arith (code : string) : opM pyval :=
  a <~ expand_first None ;;
  t <~ first_type ;;
  b <~ expand_second t ;;
  op_lift (dict1 (PStr code) (PSeq KList [a; b])).

Definition is_text_type (e : expr) : bool :=
  match type_of e with
  | Ok (Some t) => existsb (String.eqb t) ["string"; "text"; "password"]
  | _ => false
  end.

Definition ADD_ : opM pyval :=
  first <~ get_first ;;
  second <~ get_second ;;
  arith (if is_text_type first || is_text_type second then "$concat" else "$add").

Definition SUB_ : opM pyval := arith "$subtract".
Definition MUL_ : opM pyval := arith "$multiply".
Definition DIV_ : opM pyval := arith "$divide".
Definition MOD_ : opM pyval := arith "$mod".

Definition _aggregate_map : list (pyval * pyval) :=
  [(PStr "SUM", PStr "$sum"); (PStr "MAX", PStr "$max");
   (PStr "MIN", PStr "$min"); (PStr "AVG", PStr "$avg")].

(** [AGGREGATE]: whatever is raised inside becomes NotImplementedError. *)
Definition AGGREGATE_ : opM pyval :=
  fun st =>
    let attempt : opM pyval :=
      what <~ get_second ;;
      code <~ op_lift (match what with
                       | Lit w => if hashable w then dict_get _aggregate_map w else Err TypeError
                       | _ => Err KeyError
                       end) ;;
      v <~ on_first (fun f => expand true f None) ;;
      op_lift (dict1 code v) in
    match attempt st with
    | (Returns v, st') => (Returns v, st')
    | (Raises _, st') => (Raises NotImplementedError, st')
    | (OutOfFuel, st') => (OutOfFuel, st')
    end.

(** [COUNT(first, distinct)] *)
Definition COUNT_ (distinct : pyval) : opM pyval :=
  if truthy distinct then op_lift (Err NotImplementedError)
  else op_ret (PDict [(PStr "$sum", PInt 1)]).

Definition AS_ : opM pyval := op_lift (Err NotImplementedError).
Definition ON_ : opM pyval := op_lift (Err NotImplementedError).

Definition COMMA_ : opM pyval :=
  a <~ expand_first None ;;
  b <~ expand_second None ;;
  op_ret (PStr (format_s rt a ++ ", " ++ format_s rt b)).

(** [sub in base] *)
Definition py_in_str (sub : string) (base : pyval) : res bool :=
  match base with
  | PStr s | PBinary _ s => Ok (PyStr.contains sub s)
  | _ => items <- py_iter base ;; Ok (existsb (pyval_eqb (PStr sub)) items)
  end.

(** [_build_like_regex], run on the second operand of the pattern
    operators. *)
Definition _build_like_regex
    (case_sensitive ends_with starts_with whole_string like_wildcards : bool)
  : opM pyval :=
  base <~ expand_second (Some "string") ;;
  need_regex <~ op_lift
    (if whole_string || negb case_sensitive || starts_with || ends_with then Ok true
     else if like_wildcards then
       u <- py_in_str "_" base ;;
       if u then Ok true else py_in_str "%" base
     else Ok false) ;;
  if negb need_regex then op_ret base
  else
    text <~ op_lift (match base with
                     | PStr s | PBinary _ s => Ok s
                     | _ => Err TypeError
                     end) ;;
    let expr0 := re_escape (rt_python rt) text in
    let expr1 :=
      if like_wildcards
      then PyStr.replace "_" "." (PyStr.replace "\_" "." (PyStr.replace "\%" ".*" expr0))
      else expr0 in
    let pattern :=
      if starts_with then "^" ++ expr1
      else if ends_with then expr1 ++ "$"
      else if whole_string then "^" ++ expr1 ++ "$"
      else expr1 in
    op_ret (PDict ((PStr "$regex", PStr pattern)
                   :: if negb case_sensitive then [(PStr "$options", PStr "i")] else [])).

Definition LIKE_ (case_sensitive : pyval) : opM pyval :=
  regex <~ _build_like_regex (truthy case_sensitive) false false true true ;;
  k <~ expand_first None ;;
  op_lift (dict1 k regex).

Definition ILIKE_ : opM pyval := LIKE_ (PBool false).

Definition STARTSWITH_ : opM pyval :=
  regex <~ _build_like_regex true false true true false ;;
  k <~ expand_first None ;;
  op_lift (dict1 k regex).

Definition ENDSWITH_ : opM pyval :=
  regex <~ _build_like_regex true true false true false ;;
  k <~ expand_first None ;;
  op_lift (dict1 k regex).

Definition CONTAINS_ (case_sensitive : pyval) : opM pyval :=
  first <~ get_first ;;
  second <~ get_second ;;
  match second, first with
  | Lit (POid o), _ =>
      k <~ expand_first None ;;
      op_lift (dict1 k (POid o))
  | _, FieldE f =>
      if String.eqb (f_type f) "list:string" then
        match second with
        | FieldE g =>
            if String.eqb (f_type g) "string"
            then op_ret (PDict [(PStr "$where",
                                 PStr ("this." ++ f_name f ++ ".indexOf(this."
                                       ++ f_name g ++ ") > -1"))])
            else
              val <~ _build_like_regex (truthy case_sensitive) false false true false ;;
              k <~ expand_first None ;;
              op_lift (dict1 k val)
        | _ =>
            val <~ _build_like_regex (truthy case_sensitive) false false true false ;;
            k <~ expand_first None ;;
            op_lift (dict1 k val)
        end
      else
        val <~ _build_like_regex (truthy case_sensitive) false false false false ;;
        k <~ expand_first None ;;
        op_lift (dict1 k val)
  | _, _ =>
      val <~ _build_like_regex (truthy case_sensitive) false false false false ;;
      k <~ expand_first None ;;
      op_lift (dict1 k val)
  end.

(** [op.__func__(self, ...)] with [nargs] positional operands and the
    keyword arguments of the expression: binding the arguments to the
    method's signature, then the method. *)
Definition call_operator (o : operator) (nargs : nat) (kw : kwargs) : opM pyval :=
  let declared : list string :=
    match o with
    | LIKE => ["case_sensitive"; "escape"]
    | ILIKE => ["escape"]
    | CONTAINS => ["case_sensitive"]
    | COUNT => if (nargs =? 2)%nat then [] else ["distinct"]
    | _ => []
    end in
  let required : nat :=
    match o with
    | INVERT | NOT | COUNT | EQ | NE | LT | LE | GT | GE => 1%nat
    | _ => 2%nat
    end in
  let accepted : nat :=
    match o with
    | INVERT | NOT => 1%nat
    | _ => 2%nat
    end in
  if negb ((required <=? nargs)%nat && (nargs <=? accepted)%nat && kw_accepted declared kw)
  then op_lift (Err TypeError)
  else
    match o with
    | INVERT => INVERT_
    | NOT => on_first (self_NOT aggregate)
    | AND => AND_
    | OR => OR_
    | BELONGS => BELONGS_
    | EQ => EQ_
    | NE => NE_
    | LT => LT_
    | LE => LE_
    | GT => GT_
    | GE => GE_
    | ADD => ADD_
    | SUB => SUB_
    | MUL => MUL_
    | DIV => DIV_
    | MOD => MOD_
    | AGGREGATE => AGGREGATE_
    | COUNT =>
        second <~ get_second ;;
        match second with
        | Lit v => COUNT_ (if (nargs =? 2)%nat then v else kw_default kw "distinct" PNone)
        | _ => COUNT_ (PBool true)        (* an object is true *)
        end
    | AS => AS_
    | ON => ON_
    | COMMA => COMMA_
    | LIKE => LIKE_ (kw_default kw "case_sensitive" (PBool true))
    | ILIKE => ILIKE_
    | STARTSWITH => STARTSWITH_
    | ENDSWITH => ENDSWITH_
    | CONTAINS => CONTAINS_ (kw_default kw "case_sensitive" (PBool true))
    end.

(** The first branch of [expand]: a [Query] whose left operand is a
    [Field] of type id or reference has the field renamed and its right
    operand cast to ObjectId, in place. *)
Definition cast_second (second : expr) : res expr :=
  match second with
  | Lit (PSeq _ items) =>
      oids <- mapM (self_object_id rt aggregate) items ;;
      Ok (Lit (PSeq KList oids))
  | Lit v => o <- self_object_id rt aggregate v ;; Ok (Lit o)
  | _ => Err TypeError
  end.

Definition is_id_or_reference (f : Field) : bool :=
  String.eqb (f_type f) "id" || PyStr.contains "reference" (f_type f).

Definition rename_id (f : Field) : Field :=
  if String.eqb (f_type f) "id" then set_field_name f "_id" else f.

Definition cast_query (expression : expr) : res unit * expr :=
  match expression with
  | QueryE (FieldE f) op second kw =>
      if is_id_or_reference f then
        match cast_second second with
        | Ok second' => (Ok tt, QueryE (FieldE (rename_id f)) op second' kw)
        | Err e => (Err e, QueryE (FieldE (rename_id f)) op second kw)
        end
      else (Ok tt, expression)
  | _ => (Ok tt, expression)
  end.

(** The branch of [expand] on a [Field]: the key it compiles to. *)
Definition field_key (f : Field) : string :=
  if String.eqb (f_type f) "id" then "_id"
  else if aggregate then "$" ++ f_name f
  else f_name f.

(** The dispatch of [expand] on an [Expression] or a [Query]. *)
Definition expand_node (op : opref) (kw : kwargs) : opM pyval :=
  fun st =>
    if negb (is_none (snd st)) then
      match op with
      | OpFunc o => call_operator o 2 kw st
      | OpStr _ => (Raises AttributeError, st)
      end
    else if negb (is_none (fst st)) then
      match op with
      | OpFunc o => call_operator o 1 kw st
      | OpStr _ => (Raises AttributeError, st)
      end
    else
      match op with
      | OpStr s => (Returns (PStr s), st)
      | OpFunc o => call_operator o 0 kw st
      end.

(** [MongoDBAdapter.expand] *)
Definition expand_body (expression : expr) (field_type : option string)
  : outcome pyval * expr :=
  let (cast, expression) := cast_query expression in
  match cast with
  | Err e => (Raises e, expression)
  | Ok _ =>
      match expression with
      | FieldE f => (Returns (PStr (field_key f)), expression)
      | QueryE first op second kw =>
          let (r, st') := expand_node op kw (first, second) in
          (r, QueryE (fst st') op (snd st') kw)
      | ExprE first op second ty kw =>
          let (r, st') := expand_node op kw (first, second) in
          (r, ExprE (fst st') op (snd st') ty kw)
      | Lit v =>
          if type_given field_type
          then (of_res (represent rt aggregate v field_type), expression)
          else
            match v with
            | PSeq KList items | PSeq KTuple items =>
                (of_res (l <- mapM (fun item => represent rt aggregate item field_type) items ;;
                         Ok (PSeq KList l)),
                 expression)
            | _ => (Returns v, expression)
            end
      end
  end.

End Operators.

(** The compiler, with the depth of its recursion bounded by [fuel]. *)
Fixpoint expand (rt : runtime) (fuel : nat) (aggregate : bool)
    (expression : expr) (field_type : option string) {struct fuel}
  : outcome pyval * expr :=
  match fuel with
  | O => (OutOfFuel, expression)
  | S n => expand_body rt (expand rt n) (NOT_ rt n) aggregate expression field_type
  end
with NOT_ (rt : runtime) (fuel : nat) (aggregate : bool) (first : expr)
    {struct fuel} : outcome pyval * expr :=
  match fuel with
  | O => (OutOfFuel, first)
  | S n => NOT_body (expand rt n) (NOT_ rt n) aggregate first
  end.

(** A runtime for examples: a base adapter whose [represent] passes every
    value through, on Python 2 with a C long of 64 bits and its codec. *)
Definition sample_runtime : runtime :=
  mkRuntime (fun x => x) (fun v _ => Ok v) MongoBlob.encode_utf8_py2
            (fun _ => "<object>") (Python2 64).

(** The same base adapter on Python 3.7, where every text of the universe
    encodes to UTF-8. *)
Definition sample_runtime_py3 : runtime :=
  mkRuntime (fun x => x) (fun v _ => Ok v) (fun s => Ok s)
            (fun _ => "<object>") (Python3 7).

(** ** Queries *)

(** The queries [~a], [a & b], [a | b] and [f == v] as the DAL builds them. *)
Definition q_not (a : expr) : expr := QueryE a (OpFunc NOT) (Lit PNone) [].
Definition q_and (a b : expr) : expr := QueryE a (OpFunc AND) b [].
Definition q_or (a b : expr) : expr := QueryE a (OpFunc OR) b [].
Definition q_eq (f : Field) (v : expr) : expr := QueryE (FieldE f) (OpFunc EQ) v [].

Definition is_query (e : expr) : Prop :=
  match e with
  | QueryE _ _ _ _ => True
  | _ => False
  end.

(** A compiled right-hand side that [NOT] wraps in [$ne]: anything but a
    list (taken for the operands of [$and]/[$or]) or a dictionary. *)
Definition plain_body (v : pyval) : bool :=
  match v with
  | PSeq KList _ | PDict _ => false
  | _ => true
  end.

(** ** The document store

    Modelled from the spec: MongoDB and its driver are not part of the
    adapter.  A collection is a list of documents.  The model runs what
    the adapter builds on its own when it maintains references (a filter
    [{field: value}] or [{field: {"$in": values}}], the update [$pull], the
    stages [$match], [$group] on no input, [$project]) as the server
    documents them, and asks [server] for everything else. *)

Record document : Type := mkDoc {
  doc_id : ObjectId.t;
  doc_fields : list (string * pyval)
}.

(** The dictionary a cursor yields for a stored document. *)
Definition doc_dict (d : document) : pyval :=
  PDict ((PStr "_id", POid (doc_id d))
           :: map (fun kv => (PStr (fst kv), snd kv)) (doc_fields d)).

Fixpoint assoc_get (k : string) (l : list (string * pyval)) : option pyval :=
  match l with
  | [] => None
  | (k', v) :: r => if String.eqb k' k then Some v else assoc_get k r
  end.

(** The value a filter sees in a field; a missing field reads as null. *)
Definition doc_field (d : document) (k : string) : pyval :=
  if String.eqb k "_id" then POid (doc_id d)
  else match assoc_get k (doc_fields d) with
       | Some v => v
       | None => PNone
       end.

(** The options of a [find]. *)
Record find_options : Type := mkFindOptions {
  fo_projection : list string;
  fo_skip : pyval;
  fo_limit : Z;
  fo_sort : list (string * Z);
  fo_snapshot : bool
}.

Record server : Type := mkServer {
  sv_matches : pyval -> document -> bool;
  sv_find : find_options -> list document -> list pyval;
  sv_group : pyval -> list pyval -> list pyval;
  sv_project : pyval -> pyval -> pyval;
  sv_stage : pyval -> list pyval -> list pyval;
  sv_update : pyval -> document -> document;
  sv_replace : pyval -> document -> document
}.

(** [{k: c}]: the field equals [c], or is an array with an element equal
    to [c]. *)
Definition field_holds (d : document) (k : string) (c : pyval) : bool :=
  pyval_eqb (doc_field d k) c
  || match doc_field d k with
     | PSeq KList l => existsb (fun x => pyval_eqb x c) l
     | _ => false
     end.

(** The values of a condition [{"$in": values}]. *)
Definition in_values (cond : pyval) : option (list pyval) :=
  match cond with
  | PDict [(PStr op, PSeq KList cs)] => if String.eqb op "$in" then Some cs else None
  | _ => None
  end.

Definition matches (sv : server) (flt : pyval) (d : document) : bool :=
  match flt with
  | PNone => true
  | PDict [(PStr k, cond)] =>
      if PyStr.startswith "$" k then sv_matches sv flt d
      else
        match cond with
        | PDict _ =>
            match in_values cond with
            | Some cs => existsb (field_holds d k) cs
            | None => sv_matches sv flt d
            end
        | _ => field_holds d k cond
        end
  | _ => sv_matches sv flt d
  end.

(** [{"$pull": {k: c}}]: the elements equal to [c] leave the array. *)
Definition pull (k : string) (c : pyval) (d : document) : document :=
  mkDoc (doc_id d)
        (map (fun kv =>
                if String.eqb (fst kv) k then
                  (fst kv,
                   match snd kv with
                   | PSeq KList l => PSeq KList (filter (fun x => negb (pyval_eqb x c)) l)
                   | v => v
                   end)
                else kv)
             (doc_fields d)).

Definition apply_update (sv : server) (u : pyval) (d : document) : document :=
  match u with
  | PDict [(PStr op, PDict [(PStr k, c)])] =>
      if String.eqb op "$pull" then
        match c with
        | PDict _ => sv_update sv u d
        | _ => pull k c d
        end
      else sv_update sv u d
  | _ => sv_update sv u d
  end.

Definition run_stage (sv : server) (docs : list pyval) (stage : pyval) : list pyval :=
  match stage with
  | PDict [(PStr k, spec)] =>
      if String.eqb k "$group" then
        match docs with
        | [] => []
        | _ => sv_group sv spec docs
        end
      else if String.eqb k "$project" then map (sv_project sv spec) docs
      else sv_stage sv stage docs
  | _ => sv_stage sv stage docs
  end.

Definition run_pipeline (sv : server) (pipeline : list pyval) (docs : list document)
  : list pyval :=
  match pipeline with
  | PDict [(PStr k, flt)] :: rest =>
      if String.eqb k "$match"
      then fold_left (run_stage sv) rest (map doc_dict (filter (matches sv flt) docs))
      else fold_left (run_stage sv) pipeline (map doc_dict docs)
  | _ => fold_left (run_stage sv) pipeline (map doc_dict docs)
  end.

(** A call of a method of a collection; [w] is the write concern of the
    collection object the call goes through. *)
Inductive call : Type :=
| Find (name : string) (flt : pyval) (options : option find_options)
| Count (name : string) (flt : pyval)
| Aggregate (name : string) (pipeline : list pyval)
| UpdateMany (name : string) (w : Z) (flt update : pyval)
| ReplaceOne (name : string) (w : Z) (flt replacement : pyval)
| DeleteMany (name : string) (w : Z) (flt : pyval).

Definition is_write (c : call) : bool :=
  match c with
  | Find _ _ _ | Count _ _ | Aggregate _ _ => false
  | UpdateMany _ _ _ _ | ReplaceOne _ _ _ _ | DeleteMany _ _ _ => true
  end.

(** The database: its collections, and the calls made so far. *)
Record mongo : Type := mkMongo {
  collections : string -> list document;
  calls : list call
}.

(** A collection object: its name and its write concern. *)
Definition collection : Type := (string * Z)%type.

(** [result.acknowledged], and [matched_count] or [deleted_count]. *)
Record write_result : Type := mkWriteResult {
  acknowledged : bool;
  affected : Z
}.

(** Code that runs against the database. *)
Definition dbM (A : Type) : Type := mongo -> outcome A * mongo.

Definition db_ret {A : Type} (a : A) : dbM A := fun st => (Returns a, st).

Definition db_out {A : Type} (o : outcome A) : dbM A := fun st => (o, st).

Definition db_lift {A : Type} (r : res A) : dbM A := db_out (of_res r).

Definition db_raise {A : Type} (e : pyerror) : dbM A := db_out (Raises e).

Definition db_bind {A B : Type} (m : dbM A) (k : A -> dbM B) : dbM B :=
  fun st =>
    match m st with
    | (Returns a, st') => k a st'
    | (Raises e, st') => (Raises e, st')
    | (OutOfFuel, st') => (OutOfFuel, st')
    end.

Notation "x <== m ;; k" := (db_bind m (fun x => k))
  (at level 61, m at next level, right associativity).

(** [for x in l: body(x)] *)
Fixpoint db_for {A : Type} (l : list A) (body : A -> dbM unit) : dbM unit :=
  match l with
  | [] => db_ret tt
  | x :: r => _ <== body x ;; db_for r body
  end.

Definition log (c : call) : dbM unit :=
  fun st => (Returns tt, mkMongo (collections st) (calls st ++ [c])%list).

Definition documents (name : string) : dbM (list document) :=
  fun st => (Returns (collections st name), st).

Definition store (name : string) (docs : list document) : dbM unit :=
  fun st =>
    (Returns tt,
     mkMongo (fun n => if String.eqb n name then docs else collections st n) (calls st)).

Section Driver.

Variable sv : server.

Definition find (c : collection) (flt : pyval) (options : option find_options)
  : dbM (list pyval) :=
  _ <== log (Find (fst c) flt options) ;;
  docs <== documents (fst c) ;;
  db_ret (match options with
          | None => map doc_dict (filter (matches sv flt) docs)
          | Some o => sv_find sv o (filter (matches sv flt) docs)
          end).

Definition count_documents (c : collection) (flt : pyval) : dbM Z :=
  _ <== log (Count (fst c) flt) ;;
  docs <== documents (fst c) ;;
  db_ret (Z.of_nat (List.length (filter (matches sv flt) docs))).

Definition aggregate (c : collection) (pipeline : list pyval) : dbM (list pyval) :=
  _ <== log (Aggregate (fst c) pipeline) ;;
  docs <== documents (fst c) ;;
  db_ret (run_pipeline sv pipeline docs).

Definition update_many (c : collection) (flt update : pyval) : dbM write_result :=
  _ <== log (UpdateMany (fst c) (snd c) flt update) ;;
  docs <== documents (fst c) ;;
  _ <== store (fst c)
        (map (fun d => if matches sv flt d then apply_update sv update d else d) docs) ;;
  db_ret (mkWriteResult (negb (snd c =? 0))
                        (Z.of_nat (List.length (filter (matches sv flt) docs)))).

(** The first document the filter matches is replaced. *)
Fixpoint replace_first (flt replacement : pyval) (docs : list document)
  : list document * Z :=
  match docs with
  | [] => ([], 0)
  | d :: r =>
      if matches sv flt d then (sv_replace sv replacement d :: r, 1)
      else let (r', n) := replace_first flt replacement r in (d :: r', n)
  end.

Definition replace_one (c : collection) (flt replacement : pyval) : dbM write_result :=
  _ <== log (ReplaceOne (fst c) (snd c) flt replacement) ;;
  docs <== documents (fst c) ;;
  _ <== store (fst c) (fst (replace_first flt replacement docs)) ;;
  db_ret (mkWriteResult (negb (snd c =? 0)) (snd (replace_first flt replacement docs))).

Definition delete_many (c : collection) (flt : pyval) : dbM write_result :=
  _ <== log (DeleteMany (fst c) (snd c) flt) ;;
  docs <== documents (fst c) ;;
  _ <== store (fst c) (filter (fun d => negb (matches sv flt d)) docs) ;;
  db_ret (mkWriteResult (negb (snd c =? 0))
                        (Z.of_nat (List.length (filter (matches sv flt) docs)))).

End Driver.

(** ** Vocabulary for the state of collections *)

(** The identifiers of documents, as a cursor yields them. *)
Definition ids_of (docs : list document) : list pyval :=
  map (fun d => POid (doc_id d)) docs.

(** The documents left when, for each identifier in turn, those whose
    field [k] is the list of that identifier alone are removed. *)
Definition drop_sole (k : string) (ids : list pyval) (docs : list document)
  : list document :=
  fold_left (fun docs id => filter (fun d => negb (field_holds d k (PSeq KList [id]))) docs)
            ids docs.

(** The documents after each identifier in turn was pulled from the field
    [k] of those that hold it. *)
Definition pull_each (k : string) (ids : list pyval) (docs : list document)
  : list document :=
  fold_left (fun docs id => map (fun d => if field_holds d k id then pull k id d else d) docs)
            ids docs.

(** ** The DAL around the adapter

    Modelled from the spec: tables, the base adapter's [get_table], the
    common filters, the row parser and the [Set] returned by [db(query)]
    are defined by the DAL, not by the adapter. *)

Record Table : Type := mkTable {
  t_tablename : string;
  t_fields : list Field;
  t_referenced_by : list Field;
  t_referenced_by_list : list Field
}.

(** [processor(rows, fields, colnames, blob_decode=True)] *)
Definition processor : Type := list pyval -> list expr -> list string -> res pyval.

Record adapter : Type := mkAdapter {
  ad_safe : Z;                                       (* [self.safe], 0 or 1 *)
  ad_server_version : Z * Z;                         (* [self.server_version], two places *)
  ad_tables : list Table;                            (* [self.db] *)
  ad_use_common_filters : expr -> bool;
  ad_common_filter : expr -> list pyval -> expr;
  ad_parse : processor                               (* [self.parse] *)
}.

(** [self.server_version_major >= 2.6], where the major version is
    [version[0] + version[1] / 10.0]. *)
Definition server_version_major_ge_2_6 (ad : adapter) : bool :=
  26 <=? 10 * fst (ad_server_version ad) + snd (ad_server_version ad).

Definition isinstance_Query (e : expr) : bool :=
  match e with
  | QueryE _ _ _ _ => true
  | _ => false
  end.

Definition isinstance_Field (e : expr) : bool :=
  match e with
  | FieldE _ => true
  | _ => false
  end.

Definition isinstance_Expression (e : expr) : bool :=
  match e with
  | FieldE _ | ExprE _ _ _ _ _ => true
  | _ => false
  end.

(** The truth value of an object of the DAL or of a plain value. *)
Definition query_truthy (e : expr) : bool :=
  match e with
  | Lit v => truthy v
  | _ => true
  end.

(** The names of the tables of the fields of a query. *)
Fixpoint tables (e : expr) : list string :=
  match e with
  | Lit _ => []
  | FieldE f => [f_tablename f]
  | QueryE first _ second _ | ExprE first _ second _ _ =>
      (tables first ++ tables second)%list
  end.

Definition get_table (query : expr) : res string :=
  match nodup string_dec (tables query) with
  | [t] => Ok t
  | _ => Err RuntimeError
  end.

(** [db[tablename]] *)
Fixpoint db_getitem (ts : list Table) (name : string) : res Table :=
  match ts with
  | [] => Err AttributeError
  | t :: r => if String.eqb (t_tablename t) name then Ok t else db_getitem r name
  end.

(** [a | b] on objects of the DAL, and [xorify], which joins a list of
    orderings with it. *)
Definition py_or (a b : expr) : res expr :=
  match a with
  | FieldE _ | ExprE _ _ _ _ _ => Ok (ExprE a (OpFunc COMMA) b None [])
  | QueryE _ _ _ _ => Ok (QueryE a (OpFunc OR) b [])
  | Lit _ => Err TypeError
  end.

Definition xorify (orderby : list expr) : res expr :=
  match orderby with
  | [] => Ok (Lit PNone)
  | x :: r => fold_left (fun acc item => a <- acc ;; py_or a item) r (Ok x)
  end.

(** [field.belongs(values)]: the values are passed on as a set. *)
Fixpoint py_set_items (l : list pyval) : list pyval :=
  match l with
  | [] => []
  | x :: r => x :: filter (fun y => negb (pyval_eqb y x)) (py_set_items r)
  end.

Definition belongs (field : Field) (values : list pyval) : expr :=
  QueryE (FieldE field) (OpFunc BELONGS) (Lit (PSeq KSet (py_set_items values))) [].

(** ** Python helpers of the executor *)

(** [int(v)] of an integer or of a string of decimal digits. *)
Definition py_int (v : pyval) : res Z :=
  match v with
  | PInt z => Ok z
  | PBool b => Ok (if b then 1 else 0)
  | PStr s => if PyStr.isdigit s then PyInt.int10 s else Err ValueError
  | _ => Err TypeError
  end.

(** [s.split(c)] *)
Fixpoint split_on (c : ascii) (s : string) : list string :=
  match s with
  | EmptyString => [EmptyString]
  | String x r =>
      if Ascii.eqb x c then EmptyString :: split_on c r
      else match split_on c r with
           | h :: t => String x h :: t
           | [] => [String x EmptyString]
           end
  end.

(** [d[k] = v] on a dictionary *)
Fixpoint dict_set (d : list (pyval * pyval)) (k v : pyval) : list (pyval * pyval) :=
  match d with
  | [] => [(k, v)]
  | (k', v') :: r => if pyval_eqb k' k then (k', v) :: r else (k', v') :: dict_set r k v
  end.

(** [name in ("_id", "id")] *)
Definition is_id_name (name : string) : bool :=
  String.eqb name "_id" || String.eqb name "id".

(** ** The query executor *)

(** An entry of the [fields] of a select: [table.ALL] or an object. *)
Inductive select_item : Type :=
| SQLALL (table : Table)
| Item (e : expr).

(** [attributes["orderby"]]: one ordering or a list of them. *)
Inductive order_spec : Type :=
| OrderBy (e : expr)
| OrderByList (l : list expr).

(** The attributes of a select that the adapter reads; it only logs a
    warning for every other one. *)
Record attributes : Type := mkAttributes {
  at_orderby : option order_spec;
  at_limitby : option pyval;
  at_processor : option processor
}.

Section Executor.

Variable rt : runtime.
Variable sv : server.
Variable ad : adapter.

(** The fuel of each call of the compiler. *)
Variable cfuel : nat.

(** [self.expand(e)] and [self.expand_aggregate(e, field_type)]; the
    objects they are called on are not read again afterwards. *)
Definition self_expand (e : expr) : dbM pyval :=
  db_out (fst (expand rt cfuel false e None)).

Definition expand_aggregate (e : expr) (field_type : option string) : dbM pyval :=
  db_out (fst (expand rt cfuel true e field_type)).

Definition _get_safe (val : pyval) : Z :=
  match val with
  | PNone => ad_safe ad
  | _ => if truthy val then 1 else 0
  end.

(** [self.connection[tablename]]: the driver takes a string. *)
Definition connection_getitem (tablename : pyval) : res collection :=
  match tablename with
  | PStr name => Ok (name, ad_safe ad)
  | _ => Err TypeError
  end.

(** [safe != self.safe] *)
Definition differs_from_safe (safe : pyval) : bool :=
  match as_int safe with
  | Some z => negb (z =? ad_safe ad)
  | None => true
  end.

Definition _get_collection (tablename safe : pyval) : res collection :=
  ctable <- connection_getitem tablename ;;
  match safe with
  | PNone => Ok ctable
  | _ => if differs_from_safe safe then Ok (fst ctable, _get_safe safe) else Ok ctable
  end.

(** [if query: if use_common_filters(query): query = self.common_filter(...)] *)
Definition common_filtered (query : expr) (tablename : pyval) : expr :=
  if query_truthy query && ad_use_common_filters ad query
  then ad_common_filter ad query [tablename]
  else query.

Definition _expand_query (query : expr) (tablename safe : pyval) : dbM (collection * pyval) :=
  tablename <== (if negb (truthy tablename)
                 then db_lift (t <- get_table query ;; Ok (PStr t))
                 else db_ret tablename) ;;
  ctable <== db_lift (_get_collection tablename safe) ;;
  if query_truthy query then
    _filter <== self_expand (common_filtered query tablename) ;;
    db_ret (ctable, _filter)
  else db_ret (ctable, PNone).

(** [count], with [return_tuple=True]. *)
Definition count (query : expr) (distinct : pyval) : dbM (collection * pyval * Z) :=
  if truthy distinct then db_raise RuntimeError
  else if negb (isinstance_Query query) then db_raise SyntaxError
  else
    cf <== _expand_query query PNone PNone ;;
    result <== count_documents sv (fst cf) (snd cf) ;;
    db_ret (fst cf, snd cf, result).

(** *** select *)

Definition limit_window (limitby : option pyval) : res (pyval * Z) :=
  match limitby with
  | Some l =>
      if truthy l then
        limitby_skip <- py_getitem l (PInt 0) ;;
        upper <- py_getitem l (PInt 1) ;;
        n <- py_int upper ;;
        Ok (limitby_skip, n - 1)
      else Ok (PInt 0, 0)
  | None => Ok (PInt 0, 0)
  end.

Definition order_truthy (o : order_spec) : bool :=
  match o with
  | OrderBy e => query_truthy e
  | OrderByList l => match l with [] => false | _ => true end
  end.

Definition sort_key (f : string) : string * Z :=
  if PyStr.startswith "-" f then (PyStr.drop 1 f, -1) else (f, 1).

Definition sort_list (orderby : option order_spec) : dbM (list (string * Z)) :=
  match orderby with
  | Some o =>
      if order_truthy o then
        e <== db_lift (match o with
                       | OrderByList l => xorify l
                       | OrderBy e => Ok e
                       end) ;;
        s <== self_expand e ;;
        match as_basestring s with
        | Some s => db_ret (map sort_key (split_on "," s))
        | None => db_raise AttributeError
        end
      else db_ret []
  | None => db_ret []
  end.

Definition all_fields (fields : list select_item) : list expr :=
  flat_map (fun item =>
              match item with
              | SQLALL t => map FieldE (t_fields t)
              | Item e => [e]
              end) fields.

Definition select_table (query : expr) (fields : list expr) : res string :=
  if isinstance_Query query then get_table query
  else
    match fields with
    | f0 :: _ => if isinstance_Expression f0 then get_table f0 else Err AttributeError
    | [] => Err SyntaxError
    end.

(** The fields with the [name] the aggregation gives to those that are
    not a [Field], and the projection. *)
Fixpoint name_fields (fields : list expr) (projection : list (pyval * pyval))
  : dbM (list (expr * option string) * list (pyval * pyval)) :=
  match fields with
  | [] => db_ret ([], projection)
  | field :: r =>
      if negb (isinstance_Field field) then
        p <== expand_aggregate field None ;;
        match field with
        | Lit _ => db_raise AttributeError         (* no attribute can be set *)
        | _ =>
            let name := format_s rt p in
            rest <== name_fields r (dict_set projection (PStr name) p) ;;
            db_ret ((field, Some name) :: fst rest, snd rest)
        end
      else
        rest <== name_fields r projection ;;
        db_ret ((field, None) :: fst rest, snd rest)
  end.

(** [field.name] *)
Definition field_name (field : expr * option string) : res string :=
  match field with
  | (_, Some name) => Ok name
  | (FieldE f, None) => Ok (f_name f)
  | _ => Err AttributeError
  end.

Definition is_aggregation (fields : list expr) : bool :=
  existsb (fun field => negb (isinstance_Field field) && isinstance_Expression field) fields.

(** [mongofields_dict[field.name] = 1] for every field. *)
Fixpoint projection_keys (names : list string) (keys : list string) : list string :=
  match names with
  | [] => keys
  | n :: r => projection_keys r (if existsb (String.eqb n) keys then keys else (keys ++ [n])%list)
  end.

Definition colname (tablename : string) (field : expr * option string)
  : res (string * string) :=
  match field with
  | (FieldE f, _) =>
      name <- field_name field ;;
      if String.eqb name "id" || String.eqb name "_id"
      then Ok (tablename ++ "." ++ "id", "_id")
      else Ok (tablename ++ "." ++ name, name)
  | _ => name <- field_name field ;; Ok (name, name)
  end.

(** [record[colname]], [None] when it raises. *)
Definition row_of (colnames : list string) (record : pyval) : pyval :=
  PSeq KList (map (fun c => match py_getitem record (PStr c) with
                            | Ok value => value
                            | Err _ => PNone
                            end) colnames).

(** [if not rows: rows = null_rows] *)
Definition rows_or (null_rows rows : list pyval) : list pyval :=
  match rows with
  | [] => null_rows
  | _ => rows
  end.

(** The fields of a direct find: none gets a new name. *)
Definition unnamed (fields : list expr) : list (expr * option string) :=
  map (fun f => (f, @None string)) fields.

(** [attributes.get('processor', self.parse)] *)
Definition the_processor (attrs : attributes) : processor :=
  match at_processor attrs with
  | Some p => p
  | None => ad_parse ad
  end.

(** [fields or self.db[tablename]] *)
Definition find_fields (fields : list expr) (tablename : string) : res (list expr) :=
  match fields with
  | [] => t <- db_getitem (ad_tables ad) tablename ;; Ok (map FieldE (t_fields t))
  | _ => Ok fields
  end.

(** [MongoDBAdapter.select].  The fields are the objects as the
    compilation of the query leaves them. *)
Definition select (query : expr) (fields : list select_item) (attrs : attributes)
    (snapshot : bool) : dbM pyval :=
  window <== db_lift (limit_window (at_limitby attrs)) ;;
  mongosort_list <== sort_list (at_orderby attrs) ;;
  let fields := all_fields fields in
  tablename <== db_lift (select_table query fields) ;;
  mongoqry_dict <== self_expand (common_filtered query (PStr tablename)) ;;
  ctable <== db_lift (connection_getitem (PStr tablename)) ;;
  found <== (if is_aggregation fields then
               named <== name_fields fields [] ;;
               let projection := dict_set (snd named) (PStr "_id") PNone in
               let pipeline :=
                 ((if negb (pyval_eqb mongoqry_dict PNone)
                   then [PDict [(PStr "$match", mongoqry_dict)]] else [])
                  ++ [PDict [(PStr "$group", PDict projection)]])%list in
               mongo_list_dicts <== aggregate sv ctable pipeline ;;
               db_ret (fst named, mongo_list_dicts, [PSeq KTuple [PNone]])
             else
               fields <== db_lift (find_fields fields tablename) ;;
               let named := unnamed fields in
               names <== db_lift (mapM field_name named) ;;
               mongo_list_dicts <==
                 find sv ctable mongoqry_dict
                      (Some (mkFindOptions (projection_keys names []) (fst window)
                                           (snd window) mongosort_list snapshot)) ;;
               db_ret (named, mongo_list_dicts, [])) ;;
  let '(named, mongo_list_dicts, null_rows) := found in
  names <== db_lift (mapM (colname tablename) named) ;;
  let rows := map (row_of (map snd names)) mongo_list_dicts in
  let rows := rows_or null_rows rows in
  db_lift (the_processor attrs rows (map fst named) (map fst names)).

(** *** update *)

(** [except Exception as e: raise RuntimeError(...)] *)
Definition reraise_RuntimeError {A : Type} (m : dbM A) : dbM A :=
  fun st =>
    match m st with
    | (Raises _, st') => (Raises RuntimeError, st')
    | r => r
    end.

(** The projection entry of a value that is not an expression. *)
Definition literal_projection (field : Field) (expanded : pyval) : res pyval :=
  let among (l : list string) := existsb (String.eqb (f_type field)) l in
  if server_version_major_ge_2_6 ad then Ok (PDict [(PStr "$literal", expanded)])
  else if among ["string"; "text"; "password"]
  then Ok (PDict [(PStr "$concat", PSeq KList [expanded])])
  else if among ["integer"; "bigint"; "float"; "double"]
  then Ok (PDict [(PStr "$add", PSeq KList [expanded])])
  else if String.eqb (f_type field) "boolean"
  then Ok (PDict [(PStr "$and", PSeq KList [expanded])])
  else if among ["date"; "time"; "datetime"]
  then Ok (PDict [(PStr "$add", PSeq KList [expanded])])
  else Err RuntimeError.

Fixpoint update_projection (fields : list (Field * expr)) (projection : list (pyval * pyval))
  : dbM (list (pyval * pyval)) :=
  match fields with
  | [] => db_ret projection
  | (field, value) :: r =>
      if negb (is_id_name (f_name field)) then
        expanded <== expand_aggregate value (Some (f_type field)) ;;
        expanded <== (if negb (isinstance_Expression value)
                      then db_lift (literal_projection field expanded)
                      else db_ret expanded) ;;
        update_projection r (dict_set projection (PStr (f_name field)) expanded)
      else update_projection r projection
  end.

(** [for doc in ctable.aggregate(pipeline): ctable.replace_one(...)] *)
Fixpoint replace_each (ctable : collection) (safe : Z) (docs : list pyval) (amount : Z)
  : dbM Z :=
  match docs with
  | [] => db_ret amount
  | doc :: r =>
      id <== db_lift (py_getitem doc (PStr "_id")) ;;
      result <== replace_one sv ctable (PDict [(PStr "_id", id)]) doc ;;
      replace_each ctable safe r
                   (if negb (safe =? 0) && acknowledged result
                    then amount + affected result else amount)
  end.

(** The [$set] of the values that are no expression. *)
Fixpoint update_set (fields : list (Field * expr)) (values : list (pyval * pyval))
  : res (list (pyval * pyval)) :=
  match fields with
  | [] => Ok values
  | (k, v) :: r =>
      if negb (is_id_name (f_name k)) then
        match v with
        | Lit x =>
            value <- represent rt false x (Some (f_type k)) ;;
            update_set r (dict_set values (PStr (f_name k)) value)
        | _ => Err TypeError       (* coercing an object of the DAL: not modelled *)
        end
      else update_set r values
  end.

(** The body of [update] once the collection, the filter and the count
    are known. *)
Definition update_rows (ctable : collection) (_filter : pyval) (safe amount : Z)
    (fields : list (Field * expr)) : dbM Z :=
  match List.find (fun fv => isinstance_Expression (snd fv)) fields with
  | Some (field, _) =>
      t <== db_lift (db_getitem (ad_tables ad) (f_tablename field)) ;;
      let projection :=
        fold_left (fun d f => dict_set d (PStr f) (PInt 1))
                  (filter (fun f => negb (is_id_name f)) (map f_name (t_fields t))) [] in
      projection <== update_projection fields projection ;;
      let pipeline :=
        ((if negb (pyval_eqb _filter PNone) then [PDict [(PStr "$match", _filter)]] else [])
         ++ [PDict [(PStr "$project", PDict projection)]])%list in
      reraise_RuntimeError
        (docs <== aggregate sv ctable pipeline ;;
         replace_each ctable safe docs amount)
  | None =>
      values <== db_lift (update_set fields []) ;;
      let update := PDict [(PStr "$set", PDict values)] in
      reraise_RuntimeError
        (result <== update_many sv ctable _filter update ;;
         db_ret (if negb (safe =? 0) && acknowledged result
                 then affected result else amount))
  end.

(** [MongoDBAdapter.update] *)
Definition update (tablename : string) (query : expr) (fields : list (Field * expr))
    (safe : pyval) : dbM Z :=
  if negb (isinstance_Query query) then db_raise RuntimeError
  else
    let safe := _get_safe safe in
    if negb (safe =? 0) then
      cf <== _expand_query query (PStr tablename) (PInt safe) ;;
      update_rows (fst cf) (snd cf) safe 0 fields
    else
      r <== count query (PBool false) ;;
      let '(ctable, _filter, amount) := r in
      if amount =? 0 then db_ret amount
      else update_rows ctable _filter safe amount fields.

(** *** delete *)

(** [db(query).delete()] and [db(query).update(name=None)] of the
    DAL: the table of the query is looked up and the adapter is called
    with the default [safe]; the callbacks of the table are left out. *)
Definition Set_delete (self_delete : string -> expr -> pyval -> dbM Z) (query : expr)
  : dbM Z :=
  tablename <== db_lift (get_table query) ;;
  _ <== db_lift (db_getitem (ad_tables ad) tablename) ;;
  self_delete tablename query PNone.

Definition Set_update (query : expr) (field : Field) (value : pyval) : dbM Z :=
  tablename <== db_lift (get_table query) ;;
  _ <== db_lift (db_getitem (ad_tables ad) tablename) ;;
  update tablename query [(field, Lit value)] PNone.

(** The fields of [referenced] with the given type and policy. *)
Definition with_policy (referenced : list Field) (type policy : string) : list Field :=
  filter (fun field => String.eqb (f_type field) type && String.eqb (f_ondelete field) policy)
         referenced.

Definition remove_from_list (field : Field) (deleted : list pyval) (safe : pyval)
  : dbM unit :=
  db_for deleted (fun delete =>
    let modify := PDict [(PStr (f_name field), delete)] in
    dtable <== db_lift (_get_collection (PStr (f_tablename field)) safe) ;;
    _ <== update_many sv dtable modify (PDict [(PStr "$pull", modify)]) ;;
    db_ret tt).

Definition delete_body (self_delete : string -> expr -> pyval -> dbM Z)
    (tablename : string) (query : expr) (safe : pyval) : dbM Z :=
  if negb (isinstance_Query query) then db_raise RuntimeError
  else
    cf <== _expand_query query safe PNone ;;
    let (ctable, _filter) := cf in
    found <== find sv ctable _filter None ;;
    deleted <== db_lift (mapM (fun x => py_getitem x (PStr "_id")) found) ;;
    table <== db_lift (db_getitem (ad_tables ad) tablename) ;;
    let cascade := with_policy (t_referenced_by table) ("reference " ++ tablename) "CASCADE" in
    let set_null := with_policy (t_referenced_by table) ("reference " ++ tablename) "SET NULL" in
    let cascade_list :=
      with_policy (t_referenced_by_list table) ("list:reference " ++ tablename) "CASCADE" in
    let set_null_list :=
      with_policy (t_referenced_by_list table) ("list:reference " ++ tablename) "SET NULL" in
    result <== delete_many sv ctable _filter ;;
    let amount := if acknowledged result then affected result
                  else Z.of_nat (List.length deleted) in
    _ <== (if negb (amount =? 0) && truthy (PSeq KList deleted) then
             _ <== db_for cascade_list (fun field =>
                     _ <== db_for deleted (fun delete =>
                             let modify :=
                               PDict [(PStr (f_name field), PSeq KList [delete])] in
                             dtable <== db_lift (_get_collection (PStr (f_tablename field))
                                                                 safe) ;;
                             _ <== delete_many sv dtable modify ;;
                             db_ret tt) ;;
                     remove_from_list field deleted safe) ;;
             _ <== db_for set_null_list (fun field => remove_from_list field deleted safe) ;;
             _ <== db_for cascade (fun field =>
                     _ <== Set_delete self_delete (belongs field deleted) ;;
                     db_ret tt) ;;
             db_for set_null (fun field =>
               _ <== Set_update (belongs field deleted) field PNone ;;
               db_ret tt)
           else db_ret tt) ;;
    db_ret amount.

(** [MongoDBAdapter.delete]; [fuel] bounds the depth of the cascade. *)
Fixpoint delete (fuel : nat) (tablename : string) (query : expr) (safe : pyval)
    {struct fuel} : dbM Z :=
  match fuel with
  | O => db_out OutOfFuel
  | S n => delete_body (delete n) tablename query safe
  end.

End Executor.

(** ** A server and a DAL to run the executor on *)

(** A server that matches nothing beyond what [matches] interprets, returns
    the documents of a find as they are stored and computes no group. *)
Definition sample_server : server :=
  mkServer (fun _ _ => false)
           (fun _ docs => map doc_dict docs)
           (fun _ _ => [])
           (fun _ d => d)
           (fun _ docs => docs)
           (fun _ d => d)
           (fun _ d => d).

(** An adapter over the given tables: acknowledged writes by default or
    not, a server of version 3.0, no common filter, and a parser that
    returns the rows as a list. *)
Definition sample_adapter (safe : Z) (ts : list Table) : adapter :=
  mkAdapter safe (3, 0) ts (fun _ => false) (fun q _ => q)
            (fun rows _ _ => Ok (PSeq KList rows)).

Definition empty_mongo : mongo := mkMongo (fun _ => []) [].

(** * Properties *)

(** ** The identifier codec *)

Module CodecFacts.

Import PyInt.

Definition value_lsb (ds : list N) : N :=
  fold_right (fun d acc => (acc * 16 + d)%N) 0%N ds.

Definition digits_str (ds : list N) : string :=
  PyStr.of_list (map hex_char ds).

Lemma digit16_hex_char (d : N) : (d < 16)%N -> digit16 (hex_char d) = Some d.
Proof.
  intros H. destruct d as [|p]; [reflexivity|].
  do 4 (destruct p as [p|p|]; try reflexivity; try lia).
Qed.

Lemma hex_char_not_x (d : N) : (d < 16)%N -> hex_char d <> "x"%char.
Proof.
  intros H E. apply digit16_hex_char in H. rewrite E in H. discriminate.
Qed.

Lemma hex_char_not_L (d : N) : (d < 16)%N -> hex_char d <> "L"%char.
Proof.
  intros H E. apply digit16_hex_char in H. rewrite E in H. discriminate.
Qed.

Lemma hex_char_not_sign (d : N) :
  (d < 16)%N -> (Ascii.eqb (hex_char d) "+" || Ascii.eqb (hex_char d) "-")%bool = false.
Proof.
  intros H. apply digit16_hex_char in H.
  destruct (Ascii.eqb_spec (hex_char d) "+") as [E|_].
  - rewrite E in H. discriminate.
  - destruct (Ascii.eqb_spec (hex_char d) "-") as [E|_]; [|reflexivity].
    rewrite E in H. discriminate.
Qed.

Lemma to_digits16_bound (fuel : nat) :
  forall n, Forall (fun d => (d < 16)%N) (to_digits16 fuel n).
Proof.
  induction fuel as [|f IH]; intros n; simpl; [constructor|].
  destruct (n =? 0)%N; constructor; [|apply IH].
  apply N.mod_lt. discriminate.
Qed.

Lemma to_digits16_value (fuel : nat) :
  forall n, (n < 2 ^ N.of_nat fuel)%N -> value_lsb (to_digits16 fuel n) = n.
Proof.
  induction fuel as [|f IH]; intros n Hn.
  - simpl in *. lia.
  - cbn [to_digits16]. destruct (N.eqb_spec n 0) as [->|Hz]; [reflexivity|].
    cbn [value_lsb fold_right]. fold (value_lsb (to_digits16 f (n / 16))).
    rewrite IH.
    + pose proof (N.div_mod n 16). lia.
    + rewrite Nnat.Nat2N.inj_succ, N.pow_succ_r' in Hn.
      apply N.Div0.div_lt_upper_bound.
      assert (0 < 2 ^ N.of_nat f)%N by (apply N.neq_0_lt_0, N.pow_nonzero; discriminate).
      lia.
Qed.

Lemma to_digits16_length (fuel : nat) :
  forall n k, (n < 16 ^ N.of_nat k)%N -> (List.length (to_digits16 fuel n) <= k)%nat.
Proof.
  induction fuel as [|f IH]; intros n k Hn; simpl; [lia|].
  destruct (N.eqb_spec n 0) as [->|Hz]; simpl; [lia|].
  destruct k as [|k]; [simpl in Hn; lia|].
  apply le_n_S, IH.
  rewrite Nnat.Nat2N.inj_succ, N.pow_succ_r' in Hn.
  apply N.Div0.div_lt_upper_bound. lia.
Qed.

Lemma to_digits16_nonempty (fuel : nat) (n : N) :
  n <> 0%N -> fuel <> O -> to_digits16 fuel n <> [].
Proof.
  intros Hn Hf. destruct fuel; [congruence|]. simpl.
  destruct (N.eqb_spec n 0); [congruence|discriminate].
Qed.

(** Reading the digits back, most significant first. *)
Lemma parse_digits_str (ds : list N) :
  Forall (fun d => (d < 16)%N) ds ->
  forall acc,
    parse_digits digit16 16 acc (digits_str ds)
    = Some (fold_left (fun a d => (a * 16 + d)%N) ds acc).
Proof.
  induction 1 as [|d ds Hd _ IH]; intros acc; [reflexivity|].
  cbn. rewrite (digit16_hex_char d Hd). apply IH.
Qed.

Lemma fold_left_zeros (k : nat) (ds : list N) :
  fold_left (fun a d => (a * 16 + d)%N) (repeat 0%N k ++ ds) 0%N
  = fold_left (fun a d => (a * 16 + d)%N) ds 0%N.
Proof.
  induction k as [|k IH]; [reflexivity|]. exact IH.
Qed.

Lemma value_lsb_rev (ds : list N) :
  fold_left (fun a d => (a * 16 + d)%N) (rev ds) 0%N = value_lsb ds.
Proof.
  unfold value_lsb. rewrite <- fold_left_rev_right, rev_involutive. reflexivity.
Qed.

Lemma digits_str_length (ds : list N) : String.length (digits_str ds) = List.length ds.
Proof.
  induction ds as [|d ds IH]; [reflexivity|]. cbn. f_equal. exact IH.
Qed.

Lemma digits_str_app (l m : list N) : digits_str (l ++ m) = digits_str l ++ digits_str m.
Proof.
  induction l as [|d l IH]; [reflexivity|]. cbn. f_equal. exact IH.
Qed.

Lemma repeat_char_zeros (k : nat) : PyStr.repeat_char "0" k = digits_str (repeat 0%N k).
Proof.
  induction k as [|k IH]; [reflexivity|]. cbn. f_equal. exact IH.
Qed.

Lemma rstrip_digits (ds : list N) :
  Forall (fun d => (d < 16)%N) ds -> PyStr.rstrip "L" (digits_str ds) = digits_str ds.
Proof.
  induction 1 as [|d ds Hd _ IH]; [reflexivity|].
  change (digits_str (d :: ds)) with (String (hex_char d) (digits_str ds)).
  change (PyStr.rstrip "L" (String (hex_char d) (digits_str ds)))
    with (match PyStr.rstrip "L" (digits_str ds) with
          | EmptyString =>
              if Ascii.eqb (hex_char d) "L" then EmptyString
              else String (hex_char d) EmptyString
          | r' => String (hex_char d) r'
          end).
  rewrite IH.
  destruct (digits_str ds); [|reflexivity].
  destruct (Ascii.eqb_spec (hex_char d) "L") as [E|_]; [|reflexivity].
  exfalso. exact (hex_char_not_L d Hd E).
Qed.

Lemma unhexlify_cons2 (a b : ascii) (r : string) :
  ObjectId.unhexlify (String a (String b r))
  = match digit16 a, digit16 b, ObjectId.unhexlify r with
    | Some hi, Some lo, Some bs => Some ((16 * hi + lo)%N :: bs)
    | _, _, _ => None
    end.
Proof. reflexivity. Qed.

(** The text of an identifier built from 2k digits is these digits. *)
Lemma hexlify_unhexlify (k : nat) :
  forall ds, List.length ds = (2 * k)%nat -> Forall (fun d => (d < 16)%N) ds ->
    exists bs, ObjectId.unhexlify (digits_str ds) = Some bs
               /\ ObjectId.hexlify bs = digits_str ds.
Proof.
  induction k as [|k IH]; intros ds Hlen Hds.
  - destruct ds; [|discriminate]. exists []. split; reflexivity.
  - destruct ds as [|a [|b ds]]; try (simpl in Hlen; lia).
    inversion Hds as [|? ? Ha Hds']; subst. inversion Hds' as [|? ? Hb Hds'']; subst.
    destruct (IH ds) as (bs & Hu & Hh); [simpl in Hlen; lia|assumption|].
    exists ((16 * a + b)%N :: bs). split.
    + change (digits_str (a :: b :: ds))
        with (String (hex_char a) (String (hex_char b) (digits_str ds))).
      rewrite unhexlify_cons2, (digit16_hex_char a Ha), (digit16_hex_char b Hb), Hu.
      reflexivity.
    + change (digits_str (a :: b :: ds))
        with (String (hex_char a) (String (hex_char b) (digits_str ds))).
      cbn [ObjectId.hexlify]. rewrite Hh.
      replace ((16 * a + b) / 16)%N with a.
      * replace ((16 * a + b) mod 16)%N with b; [reflexivity|].
        symmetry. rewrite N.add_comm, N.mul_comm, N.Div0.mod_add. apply N.mod_small, Hb.
      * symmetry. rewrite N.add_comm, N.mul_comm, N.div_add by discriminate.
        rewrite N.div_small by exact Hb. reflexivity.
Qed.

Lemma int16_digits (ds : list N) :
  (2 <= List.length ds)%nat -> Forall (fun d => (d < 16)%N) ds ->
  int16 (digits_str ds)
  = Ok (Z.of_N (fold_left (fun a d => (a * 16 + d)%N) ds 0%N)).
Proof.
  intros Hlen Hds. destruct ds as [|a [|b ds]]; try (simpl in Hlen; lia).
  inversion Hds as [|? ? Ha Hds']; subst. inversion Hds' as [|? ? Hb Hds'']; subst.
  unfold int16.
  assert (Hp : forall c, PyStr.startswith (String c "x") (digits_str (a :: b :: ds)) = false).
  { intros c. unfold PyStr.startswith.
    destruct (String.prefix _ _) eqn:E; [|reflexivity].
    apply prefix_correct in E. cbn in E. injection E as _ E.
    exfalso. exact (hex_char_not_x b Hb E). }
  assert (Hq : forall c, PyStr.startswith (String c "X") (digits_str (a :: b :: ds)) = false).
  { intros c. unfold PyStr.startswith.
    destruct (String.prefix _ _) eqn:E; [|reflexivity].
    apply prefix_correct in E. cbn in E. injection E as _ E.
    exfalso. apply digit16_hex_char in Hb. rewrite E in Hb. discriminate. }
  rewrite Hp, Hq. cbn [orb]. unfold parse_nonempty.
  rewrite (parse_digits_str (a :: b :: ds) Hds 0%N). reflexivity.
Qed.

(** The digits of the padded hexadecimal text of [n]. *)
Definition padded_digits (n : N) : list N :=
  let ds := if (n =? 0)%N then [0%N] else rev (to_digits16 (N.to_nat (N.size n)) n) in
  repeat 0%N (24 - List.length ds) ++ ds.

Lemma hex_digits_str (n : N) :
  hex_digits n
  = digits_str (if (n =? 0)%N then [0%N] else rev (to_digits16 (N.to_nat (N.size n)) n)).
Proof.
  unfold hex_digits. destruct (n =? 0)%N; reflexivity.
Qed.

Lemma unpadded_bound (n : N) :
  Forall (fun d => (d < 16)%N)
    (if (n =? 0)%N then [0%N] else rev (to_digits16 (N.to_nat (N.size n)) n)).
Proof.
  destruct (n =? 0)%N.
  - repeat constructor.
  - apply Forall_rev, to_digits16_bound.
Qed.

Lemma unpadded_length (n : N) :
  (n < 16 ^ 24)%N ->
  (1 <= List.length (if (n =? 0)%N then [0%N] else rev (to_digits16 (N.to_nat (N.size n)) n)) <= 24)%nat.
Proof.
  intros Hn. destruct (N.eqb_spec n 0) as [->|Hz]; [simpl; lia|].
  rewrite length_rev. split.
  - assert (to_digits16 (N.to_nat (N.size n)) n <> []).
    { apply to_digits16_nonempty; [exact Hz|].
      destruct n; [congruence|]. simpl. lia. }
    destruct (to_digits16 (N.to_nat (N.size n)) n); [congruence|simpl; lia].
  - apply (to_digits16_length _ n 24). exact Hn.
Qed.

Lemma unpadded_value (n : N) :
  fold_left (fun a d => (a * 16 + d)%N)
    (if (n =? 0)%N then [0%N] else rev (to_digits16 (N.to_nat (N.size n)) n)) 0%N = n.
Proof.
  destruct (N.eqb_spec n 0) as [->|Hz]; [reflexivity|].
  rewrite value_lsb_rev. apply to_digits16_value.
  rewrite Nnat.N2Nat.id. apply N.size_gt.
Qed.

Lemma zfill_unsigned (width : nat) (c : ascii) (r : string) :
  (Ascii.eqb c "+" || Ascii.eqb c "-")%bool = false ->
  PyStr.zfill width (String c r)
  = PyStr.repeat_char "0" (width - String.length (String c r)) ++ String c r.
Proof.
  intros H. unfold PyStr.zfill. rewrite H. reflexivity.
Qed.

Lemma zfill_hex_digits (n : N) :
  (n < 16 ^ 24)%N -> PyStr.zfill 24 (hex_digits n) = digits_str (padded_digits n).
Proof.
  intros Hn. rewrite hex_digits_str. unfold padded_digits.
  pose proof (unpadded_bound n) as Hb. pose proof (unpadded_length n Hn) as Hl.
  destruct (if (n =? 0)%N then [0%N] else rev (to_digits16 (N.to_nat (N.size n)) n))
    as [|d ds]; [simpl in Hl; lia|].
  inversion Hb as [|? ? Hd _]; subst.
  rewrite digits_str_app, <- repeat_char_zeros, <- digits_str_length.
  change (digits_str (d :: ds)) with (String (hex_char d) (digits_str ds)).
  apply zfill_unsigned, hex_char_not_sign, Hd.
Qed.

Lemma padded_digits_ok (n : N) :
  (n < 16 ^ 24)%N ->
  List.length (padded_digits n) = 24%nat
  /\ Forall (fun d => (d < 16)%N) (padded_digits n)
  /\ fold_left (fun a d => (a * 16 + d)%N) (padded_digits n) 0%N = n.
Proof.
  intros Hn. unfold padded_digits.
  pose proof (unpadded_bound n) as Hb. pose proof (unpadded_length n Hn) as Hl.
  pose proof (unpadded_value n) as Hv.
  remember (if (n =? 0)%N then [0%N] else rev (to_digits16 (N.to_nat (N.size n)) n))
    as ds eqn:Eds.
  clear Eds.
  repeat split.
  - rewrite length_app, repeat_length. lia.
  - apply Forall_app. split; [|exact Hb].
    apply Forall_forall. intros x Hx. apply repeat_spec in Hx. subst. reflexivity.
  - rewrite fold_left_zeros. exact Hv.
Qed.

End CodecFacts.

Lemma object_id_int_normal (py : python) (random_choice : nat -> nat) (has_random : bool) (n : Z) :
  object_id py random_choice has_random (PInt n)
  = (o <- ObjectId.of_str (PyStr.zfill 24 (PyStr.rstrip "L" (PyStr.drop 2 (PyInt.hex n)))) ;;
     Ok (POid o)).
Proof.
  unfold object_id. cbn [truthy]. destruct (Z.eqb_spec n 0) as [->|_]; reflexivity.
Qed.

Lemma hexvalue_of_nonneg (n : Z) :
  0 <= n < 2 ^ 96 ->
  PyStr.zfill 24 (PyStr.rstrip "L" (PyStr.drop 2 (PyInt.hex n)))
  = CodecFacts.digits_str (CodecFacts.padded_digits (Z.to_N n)).
Proof.
  intros Hn. unfold PyInt.hex.
  destruct (Z.ltb_spec n 0) as [?|_]; [lia|].
  replace (Z.abs_N n) with (Z.to_N n) by (destruct n; try reflexivity; lia).
  change (PyStr.drop 2 ("0x" ++ PyInt.hex_digits (Z.to_N n))) with (PyInt.hex_digits (Z.to_N n)).
  rewrite <- CodecFacts.zfill_hex_digits by (change (16 ^ 24)%N with (Z.to_N (2 ^ 96)); lia).
  f_equal. rewrite CodecFacts.hex_digits_str.
  apply CodecFacts.rstrip_digits, CodecFacts.unpadded_bound.
Qed.

(** A number of at least [16^k] has more than [k] hexadecimal digits. *)
Lemma to_digits16_long (k : nat) :
  forall (fuel : nat) (n : N),
    (16 ^ N.of_nat k <= n)%N -> (n < 2 ^ N.of_nat fuel)%N ->
    (k < List.length (PyInt.to_digits16 fuel n))%nat.
Proof.
  induction k as [|k IH]; intros fuel n Hlow Hfuel.
  - destruct fuel as [|f]; [cbn in *; lia|].
    cbn [PyInt.to_digits16]. destruct (N.eqb_spec n 0) as [->|_]; [cbn in Hlow; lia|].
    cbn. lia.
  - rewrite Nnat.Nat2N.inj_succ, N.pow_succ_r' in Hlow.
    assert (0 < 16 ^ N.of_nat k)%N by (apply N.neq_0_lt_0, N.pow_nonzero; discriminate).
    destruct fuel as [|f]; [cbn in Hfuel; lia|].
    cbn [PyInt.to_digits16]. destruct (N.eqb_spec n 0) as [->|_]; [lia|].
    cbn [List.length]. apply -> Nat.succ_lt_mono. apply IH.
    + apply N.div_le_lower_bound; [discriminate|lia].
    + rewrite Nnat.Nat2N.inj_succ, N.pow_succ_r' in Hfuel.
      apply N.Div0.div_lt_upper_bound. lia.
Qed.

(** The text [object_id] hands to the identifier constructor for an
    integer that does not fit twelve bytes has more than 24 digits. *)
Lemma hexvalue_of_large (n : Z) :
  2 ^ 96 <= n ->
  (24 < String.length (PyStr.zfill 24 (PyStr.rstrip "L" (PyStr.drop 2 (PyInt.hex n)))))%nat.
Proof.
  intros Hn. unfold PyInt.hex.
  destruct (Z.ltb_spec n 0) as [?|_]; [lia|].
  change (PyStr.drop 2 ("0x" ++ PyInt.hex_digits (Z.abs_N n))) with (PyInt.hex_digits (Z.abs_N n)).
  assert (Hlow : (16 ^ N.of_nat 24 <= Z.abs_N n)%N).
  { change (16 ^ N.of_nat 24)%N with (Z.to_N (2 ^ 96)). lia. }
  rewrite CodecFacts.hex_digits_str.
  destruct (N.eqb_spec (Z.abs_N n) 0) as [E|Hz]; [rewrite E in Hlow; cbn in Hlow; lia|].
  pose proof (CodecFacts.unpadded_bound (Z.abs_N n)) as Hb.
  rewrite (proj2 (N.eqb_neq _ _) Hz) in Hb.
  pose proof (to_digits16_long 24 (N.to_nat (N.size (Z.abs_N n))) (Z.abs_N n) Hlow) as Hlen.
  rewrite Nnat.N2Nat.id in Hlen. specialize (Hlen (N.size_gt _)).
  rewrite <- length_rev in Hlen.
  set (ds := rev (PyInt.to_digits16 (N.to_nat (N.size (Z.abs_N n))) (Z.abs_N n))) in *.
  rewrite (CodecFacts.rstrip_digits ds Hb).
  destruct ds as [|d ds']; [cbn in Hlen; lia|].
  inversion Hb as [|? ? Hd _]; subst.
  change (CodecFacts.digits_str (d :: ds'))
    with (String (PyInt.hex_char d) (CodecFacts.digits_str ds')).
  rewrite CodecFacts.zfill_unsigned by (apply CodecFacts.hex_char_not_sign, Hd).
  assert (Hl : String.length (String (PyInt.hex_char d) (CodecFacts.digits_str ds'))
               = S (List.length ds'))
    by (cbn [String.length]; rewrite CodecFacts.digits_str_length; reflexivity).
  cbn [List.length] in Hlen. rewrite Hl.
  replace (24 - S (List.length ds'))%nat with 0%nat by lia.
  cbn [PyStr.repeat_char append]. rewrite Hl. lia.
Qed.

(** C2, as amended.  For every integer n with 0 <= n < 2^96, [object_id]
    builds a native identifier whose text is the hexadecimal form of n
    left-padded with zeros to exactly 24 digits, and reinterpreting that
    text in base 16, as [parse_id] does before it hands the value to the
    base adapter, yields n back.  The hexadecimal form is never truncated:
    for every n >= 2^96 it has more than 24 digits and [object_id] raises
    bson's InvalidId. *)
Theorem object_id_parse_id_roundtrip :
  forall (py : python) (random_choice : nat -> nat) (has_random : bool)
         (base_parse_id : pyval -> string -> res pyval) (field_type : string) (n : Z),
    (0 <= n < 2 ^ 96 ->
     exists o : ObjectId.t,
       object_id py random_choice has_random (PInt n) = Ok (POid o)
       /\ ObjectId.str o = PyStr.zfill 24 (PyInt.hex_digits (Z.to_N n))
       /\ String.length (ObjectId.str o) = 24%nat
       /\ long_of_oid o = Ok n
       /\ parse_id base_parse_id (POid o) field_type = base_parse_id (PInt n) field_type)
    /\ (2 ^ 96 <= n ->
        (24 < String.length (PyStr.zfill 24 (PyStr.rstrip "L" (PyStr.drop 2 (PyInt.hex n)))))%nat
        /\ object_id py random_choice has_random (PInt n) = Err InvalidId).
Proof.
  intros py rc hr base ft n. split.
  - intros Hn.
    assert (Hn' : (Z.to_N n < 16 ^ 24)%N) by (change (16 ^ 24)%N with (Z.to_N (2 ^ 96)); lia).
    destruct (CodecFacts.padded_digits_ok _ Hn') as (Hlen & Hds & Hval).
    destruct (CodecFacts.hexlify_unhexlify 12 _ Hlen Hds) as (bs & Hu & Hh).
    assert (Hstr : ObjectId.str (ObjectId.make bs)
                   = CodecFacts.digits_str (CodecFacts.padded_digits (Z.to_N n))) by exact Hh.
    assert (Hlong : long_of_oid (ObjectId.make bs) = Ok n).
    { unfold long_of_oid. rewrite Hstr, CodecFacts.int16_digits by (rewrite ?Hlen; auto; lia).
      rewrite Hval. f_equal. lia. }
    exists (ObjectId.make bs). repeat split.
    + rewrite object_id_int_normal, (hexvalue_of_nonneg n Hn).
      unfold ObjectId.of_str. rewrite CodecFacts.digits_str_length, Hlen, Hu. reflexivity.
    + rewrite Hstr. symmetry. apply CodecFacts.zfill_hex_digits, Hn'.
    + rewrite Hstr, CodecFacts.digits_str_length. exact Hlen.
    + exact Hlong.
    + unfold parse_id. rewrite Hlong. reflexivity.
  - intros Hn. pose proof (hexvalue_of_large n Hn) as Hlen. split; [exact Hlen|].
    rewrite object_id_int_normal. unfold ObjectId.of_str.
    destruct (Nat.eqb_spec
                (String.length
                   (PyStr.zfill 24 (PyStr.rstrip "L" (PyStr.drop 2 (PyInt.hex n))))) 24)
      as [E|_]; [lia|reflexivity].
Qed.

Lemma object_id_parse_id_roundtrip_witness :
  (exists o : ObjectId.t,
      object_id (Python3 7) (fun x => x) true (PInt 255) = Ok (POid o)
      /\ ObjectId.str o = PyStr.zfill 24 (PyInt.hex_digits (Z.to_N 255))
      /\ String.length (ObjectId.str o) = 24%nat
      /\ long_of_oid o = Ok 255
      /\ parse_id (fun v _ => Ok v) (POid o) "id" = (fun v _ => Ok v) (PInt 255) "id")
  /\ object_id (Python3 7) (fun x => x) true (PInt (2 ^ 100)) = Err InvalidId.
Proof.
  split.
  - apply (object_id_parse_id_roundtrip (Python3 7) (fun x => x) true (fun v _ => Ok v)
             "id" 255). lia.
  - apply (object_id_parse_id_roundtrip (Python3 7) (fun x => x) true (fun v _ => Ok v)
             "id" (2 ^ 100)). lia.
Defined.

(** C2, as stated, fails at n = 2^96: the hexadecimal form has 25 digits,
    [zfill] pads and never truncates, so the text stays 25 digits long, the
    identifier constructor rejects it and there is no identifier to read
    back. *)
Lemma object_id_no_truncation_counterexample :
  String.length (PyStr.zfill 24 (PyStr.rstrip "L" (PyStr.drop 2 (PyInt.hex (2 ^ 96))))) = 25%nat
  /\ object_id (Python3 7) (fun x => x) true (PInt (2 ^ 96)) = Err InvalidId
  /\ ~ (exists o : ObjectId.t,
          object_id (Python3 7) (fun x => x) true (PInt (2 ^ 96)) = Ok (POid o)
          /\ long_of_oid o = Ok (2 ^ 96)).
Proof.
  assert (H : object_id (Python3 7) (fun x => x) true (PInt (2 ^ 96)) = Err InvalidId)
    by (vm_compute; reflexivity).
  split; [vm_compute; reflexivity|]. split; [exact H|].
  intros (o & Ho & _). rewrite H in Ho. discriminate.
Qed.

(** ** The blob codec *)

Lemma string_length_app (s t : string) :
  String.length (s ++ t) = (String.length s + String.length t)%nat.
Proof. induction s as [|c s IH]; [reflexivity|]. cbn. rewrite IH. reflexivity. Qed.

Lemma repr_byte_length (quote c : ascii) : (1 <= String.length (repr_byte quote c))%nat.
Proof.
  unfold repr_byte.
  repeat match goal with
         | |- context [if ?b then _ else _] => destruct b
         end; cbn; lia.
Qed.

Lemma repr_bytes_body_length (quote : ascii) (data : string) :
  (String.length data <= String.length (repr_bytes_body quote data))%nat.
Proof.
  induction data as [|c r IH]; [reflexivity|].
  cbn [repr_bytes_body String.length]. rewrite string_length_app.
  pose proof (repr_byte_length quote c). lia.
Qed.

(** The [repr] of bytes is longer than the bytes. *)
Lemma bytes_repr_longer (data : string) :
  (String.length data + 3 <= String.length (bytes_repr data))%nat.
Proof.
  unfold bytes_repr. cbn [String.length]. rewrite string_length_app. cbn [String.length].
  match goal with
  | |- context [repr_bytes_body ?q data] => pose proof (repr_bytes_body_length q data)
  end.
  lia.
Qed.

(** C7.  What the codec does, by interpreter.  On every interpreter a
    byte array is encoded as a Binary carrying the raw-bytes subtype and
    decodes to the same bytes, and a string that encodes to UTF-8 is left
    as it is by [MongoBlob] and by [decode].  For a string that does not
    encode to UTF-8 the round trip holds on Python 2: [MongoBlob] wraps it
    with the subtype of a string that is no UTF-8 and [decode] gives the
    string back.  On Python 3 [MongoBlob] raises TypeError for such a
    string, because Binary takes bytes only, and [decode] of a Binary of
    that subtype gives the text of the [repr] of its bytes, which is never
    the bytes themselves. *)
Theorem MongoBlob_decode_roundtrip :
  forall encode_utf8 : string -> res string,
    (forall (py : python) (b : string),
        MongoBlob.new py encode_utf8 (PByteArray b)
        = Ok (PBinary MongoBlob.MONGO_BLOB_BYTES b)
        /\ MongoBlob.decode py (PBinary MongoBlob.MONGO_BLOB_BYTES b) = PByteArray b)
    /\ (forall (py : python) (s e : string),
           encode_utf8 s = Ok e ->
           MongoBlob.new py encode_utf8 (PStr s) = Ok (PStr s)
           /\ MongoBlob.decode py (PStr s) = PStr s)
    /\ (forall (long_bits : N) (s : string) (err : pyerror),
           encode_utf8 s = Err err ->
           MongoBlob.new (Python2 long_bits) encode_utf8 (PStr s)
           = Ok (PBinary MongoBlob.MONGO_BLOB_NON_UTF8_STR s)
           /\ MongoBlob.decode (Python2 long_bits)
                               (PBinary MongoBlob.MONGO_BLOB_NON_UTF8_STR s)
              = PStr s)
    /\ (forall (minor : N) (s : string) (err : pyerror),
           encode_utf8 s = Err err ->
           MongoBlob.new (Python3 minor) encode_utf8 (PStr s) = Err TypeError)
    /\ (forall (minor : N) (data : string),
           MongoBlob.decode (Python3 minor) (PBinary MongoBlob.MONGO_BLOB_NON_UTF8_STR data)
           = PStr (bytes_repr data)
           /\ bytes_repr data <> data).
Proof.
  intros enc. split; [|split; [|split; [|split]]].
  - intros py b. split; reflexivity.
  - intros py s e H. unfold MongoBlob.new. rewrite H. split; reflexivity.
  - intros bits s err H. unfold MongoBlob.new. rewrite H. split; reflexivity.
  - intros minor s err H. unfold MongoBlob.new. rewrite H. reflexivity.
  - intros minor data. split; [reflexivity|].
    intros E. pose proof (bytes_repr_longer data) as Hl. rewrite E in Hl. lia.
Qed.

Lemma MongoBlob_decode_roundtrip_witness :
  (MongoBlob.new (Python3 7) MongoBlob.encode_utf8_py2 (PByteArray "xyz")
   = Ok (PBinary 128 "xyz")
   /\ MongoBlob.decode (Python3 7) (PBinary 128 "xyz") = PByteArray "xyz")
  /\ MongoBlob.new (Python2 64) MongoBlob.encode_utf8_py2 (PStr "abc") = Ok (PStr "abc")
  /\ (MongoBlob.new (Python2 64) MongoBlob.encode_utf8_py2
                    (PStr (String (ascii_of_nat 200) "a"))
      = Ok (PBinary 129 (String (ascii_of_nat 200) "a"))
      /\ MongoBlob.decode (Python2 64) (PBinary 129 (String (ascii_of_nat 200) "a"))
         = PStr (String (ascii_of_nat 200) "a"))
  /\ MongoBlob.decode (Python3 7) (PBinary 129 "xyz") = PStr "b'xyz'".
Proof.
  pose proof (MongoBlob_decode_roundtrip MongoBlob.encode_utf8_py2)
    as (Hbytes & Hok & Hpy2 & _ & Hpy3).
  split; [exact (Hbytes (Python3 7) "xyz")|].
  split; [exact (proj1 (Hok (Python2 64) "abc" "abc" eq_refl))|].
  split; [exact (Hpy2 64%N (String (ascii_of_nat 200) "a") ValueError eq_refl)|].
  exact (proj1 (Hpy3 7%N "xyz")).
Defined.

(** C7, as stated, fails on Python 3 for a string that does not encode to
    UTF-8 (there, one that holds a lone surrogate; the codec of the
    example refuses the one text that stands for it): [MongoBlob] raises
    TypeError, so there is nothing to decode; and the Binary that Python 2
    stored for such a string decodes to the text of a [repr]. *)
Lemma MongoBlob_python3_counterexample :
  let encode_utf8 (s : string) :=
    if String.eqb s "surrogate" then @Err string ValueError else Ok s in
  encode_utf8 "surrogate" = Err ValueError
  /\ MongoBlob.new (Python3 7) encode_utf8 (PStr "surrogate") = Err TypeError
  /\ ~ (exists v, MongoBlob.new (Python3 7) encode_utf8 (PStr "surrogate") = Ok v
                  /\ MongoBlob.decode (Python3 7) v = PStr "surrogate")
  /\ MongoBlob.decode (Python3 7) (PBinary 129 "surrogate") = PStr "b'surrogate'".
Proof.
  cbv zeta. split; [reflexivity|]. split; [reflexivity|]. split; [|reflexivity].
  intros (v & Hv & _). discriminate Hv.
Qed.

(** ** Python values *)

Section PyvalInduction.

Variable P : pyval -> Prop.

Hypothesis HNone : P PNone.
Hypothesis HBool : forall b, P (PBool b).
Hypothesis HInt : forall z, P (PInt z).
Hypothesis HStr : forall s, P (PStr s).
Hypothesis HByteArray : forall s, P (PByteArray s).
Hypothesis HBinary : forall t s, P (PBinary t s).
Hypothesis HOid : forall o, P (POid o).
Hypothesis HSeq : forall k l, Forall P l -> P (PSeq k l).
Hypothesis HDict : forall d, Forall (fun kv => P (fst kv) /\ P (snd kv)) d -> P (PDict d).

(** Induction over a value and the values nested in its sequences and
    dictionaries. *)
Fixpoint pyval_nested_ind (v : pyval) : P v :=
  match v with
  | PNone => HNone
  | PBool b => HBool b
  | PInt z => HInt z
  | PStr s => HStr s
  | PByteArray s => HByteArray s
  | PBinary t s => HBinary t s
  | POid o => HOid o
  | PSeq k l =>
      HSeq k l
        ((fix items (l : list pyval) : Forall P l :=
            match l with
            | [] => Forall_nil P
            | x :: r => Forall_cons x (pyval_nested_ind x) (items r)
            end) l)
  | PDict d =>
      HDict d
        ((fix entries (d : list (pyval * pyval))
            : Forall (fun kv => P (fst kv) /\ P (snd kv)) d :=
            match d with
            | [] => Forall_nil _
            | kv :: r =>
                Forall_cons kv (conj (pyval_nested_ind (fst kv)) (pyval_nested_ind (snd kv)))
                  (entries r)
            end) d)
  end.

End PyvalInduction.

Lemma ObjectId_eqb_refl (o : ObjectId.t) : ObjectId.eqb o o = true.
Proof.
  unfold ObjectId.eqb. destruct (list_eq_dec N.eq_dec _ _); congruence.
Qed.

Lemma pyval_eqb_refl (v : pyval) : pyval_eqb v v = true.
Proof.
  induction v using pyval_nested_ind; cbn;
    rewrite ?Z.eqb_refl, ?String.eqb_refl, ?ObjectId_eqb_refl; auto.
  - destruct b; reflexivity.
  - destruct k; cbn; induction H as [|x l Hx _ IH]; cbn; rewrite ?Hx; auto.
  - induction H as [|[k v] d [Hk Hv] _ IH]; cbn in *; rewrite ?Hk, ?Hv; auto.
Qed.

Lemma dict_get_head (k v : pyval) (d : list (pyval * pyval)) :
  dict_get ((k, v) :: d) k = Ok v.
Proof.
  cbn. rewrite pyval_eqb_refl. reflexivity.
Qed.

(** ** The expression compiler: what a method does to its operands *)

Definition any_value {A : Type} : A -> Prop := fun _ => True.

Lemma dict1_is_dict (k v r : pyval) : dict1 k v = Ok r -> r = PDict [(k, v)].
Proof.
  unfold dict1. destruct (hashable k); [intros [= <-]; reflexivity|discriminate].
Qed.

Section OpInvariant.

(** An invariant of the first and of the second operand, whether a call
    is allowed to run out of fuel, and a property of what the compiler
    returns that strings and dictionaries have. *)
Variables (I1 I2 : expr -> Prop) (oof_ok : Prop) (Qv : pyval -> Prop).

Hypothesis Qv_str : forall s, Qv (PStr s).
Hypothesis Qv_dict : forall d, Qv (PDict d).

Definition operands_inv (st : expr * expr) : Prop := I1 (fst st) /\ I2 (snd st).

Definition op_inv {A : Type} (Q : A -> Prop) (m : opM A) : Prop :=
  forall st, operands_inv st ->
             operands_inv (snd (m st))
             /\ (fst (m st) = OutOfFuel -> oof_ok)
             /\ (forall a, fst (m st) = Returns a -> Q a).

Definition run_inv (I : expr -> Prop) (Q : pyval -> Prop)
    (run : expr -> outcome pyval * expr) : Prop :=
  forall e, I e -> I (snd (run e))
                   /\ (fst (run e) = OutOfFuel -> oof_ok)
                   /\ (forall a, fst (run e) = Returns a -> Q a).

Lemma op_inv_ret {A : Type} (Q : A -> Prop) (a : A) : Q a -> op_inv Q (op_ret a).
Proof.
  intros Ha st H. split; [exact H|]. split; [discriminate|].
  intros b [= <-]. exact Ha.
Qed.

Lemma op_inv_lift {A : Type} (Q : A -> Prop) (r : res A) :
  (forall a, r = Ok a -> Q a) -> op_inv Q (op_lift r).
Proof.
  intros Hr st H. split; [exact H|]. unfold op_lift. cbn.
  destruct r as [a|e]; cbn; (split; [discriminate|]); [|discriminate].
  intros b [= <-]. apply Hr. reflexivity.
Qed.

Lemma op_inv_bind {A B : Type} (QA : A -> Prop) (QB : B -> Prop)
      (m : opM A) (k : A -> opM B) :
  op_inv QA m -> (forall a, QA a -> op_inv QB (k a)) -> op_inv QB (op_bind m k).
Proof.
  intros Hm Hk st H. unfold op_bind. specialize (Hm st H).
  destruct (m st) as [[a|e|] st']; cbn in Hm; destruct Hm as (Hi & Ho & Hq).
  - apply Hk; [apply Hq; reflexivity|exact Hi].
  - split; [exact Hi|]. split; discriminate.
  - split; [exact Hi|]. split; [|discriminate]. intros _. apply Ho. reflexivity.
Qed.

Lemma op_inv_bind_any {A B : Type} (QB : B -> Prop) (m : opM A) (k : A -> opM B) :
  op_inv any_value m -> (forall a, op_inv QB (k a)) -> op_inv QB (op_bind m k).
Proof.
  intros Hm Hk. apply (op_inv_bind any_value); [exact Hm|]. intros a _. apply Hk.
Qed.

Lemma op_inv_on_first (Q : pyval -> Prop) (run : expr -> outcome pyval * expr) :
  run_inv I1 Q run -> op_inv Q (on_first run).
Proof.
  intros Hr [f s] [H1 H2]. unfold on_first. cbn [fst snd].
  specialize (Hr f H1). destruct (run f) as [r f']. cbn in *.
  destruct Hr as (Hi & Ho & Hq). repeat split; assumption.
Qed.

Lemma op_inv_on_second (Q : pyval -> Prop) (run : expr -> outcome pyval * expr) :
  run_inv I2 Q run -> op_inv Q (on_second run).
Proof.
  intros Hr [f s] [H1 H2]. unfold on_second. cbn [fst snd].
  specialize (Hr s H2). destruct (run s) as [r s']. cbn in *.
  destruct Hr as (Hi & Ho & Hq). repeat split; assumption.
Qed.

Lemma op_inv_first_type : op_inv any_value first_type.
Proof.
  intros st H. split; [exact H|]. unfold first_type. cbn.
  split; [destruct (type_of (fst st)); discriminate|]. intros; exact I.
Qed.

Lemma op_inv_get_first : op_inv any_value get_first.
Proof. intros st H. split; [exact H|]. split; [discriminate|]. intros; exact I. Qed.

Lemma op_inv_get_second : op_inv any_value get_second.
Proof. intros st H. split; [exact H|]. split; [discriminate|]. intros; exact I. Qed.

(** A call that leaves both operands alone. *)
Lemma op_inv_const {A : Type} (o : expr * expr -> outcome A) :
  (forall st, o st = OutOfFuel -> oof_ok) -> op_inv any_value (fun st => (o st, st)).
Proof.
  intros Ho st H. split; [exact H|]. split; [apply Ho|]. intros; exact I.
Qed.

Lemma op_inv_map {A B : Type} (f : A -> opM B) (l : list A) :
  (forall x, op_inv any_value (f x)) -> op_inv any_value (op_map f l).
Proof.
  intros Hf. induction l as [|x l IH]; cbn [op_map].
  - apply op_inv_ret. exact I.
  - apply op_inv_bind_any; [apply Hf|]. intros y.
    apply op_inv_bind_any; [exact IH|]. intros ys. apply op_inv_ret. exact I.
Qed.

(** Catching what the attempt raises keeps the invariant. *)
Lemma op_inv_catch {A : Type} (Q : A -> Prop) (m : opM A) (e' : pyerror) :
  op_inv Q m ->
  op_inv Q (fun st => match m st with
                      | (Returns v, st') => (Returns v, st')
                      | (Raises _, st') => (Raises e', st')
                      | (OutOfFuel, st') => (OutOfFuel, st')
                      end).
Proof.
  intros Hm st H. specialize (Hm st H).
  destruct (m st) as [[a|e|] st']; cbn in *; destruct Hm as (Hi & Ho & Hq);
    (split; [exact Hi|]); split; try discriminate; try assumption.
Qed.

Lemma op_inv_dict1 (k v : pyval) : op_inv Qv (op_lift (dict1 k v)).
Proof.
  apply op_inv_lift. intros a H. apply dict1_is_dict in H. subst a. apply Qv_dict.
Qed.

Lemma op_inv_lift_any {A : Type} (r : res A) : op_inv any_value (op_lift r).
Proof. apply op_inv_lift. intros; exact I. Qed.

Lemma op_inv_ret_any {A : Type} (a : A) : op_inv any_value (op_ret a).
Proof. apply op_inv_ret. exact I. Qed.

Lemma op_inv_fail {A : Type} (Q : A -> Prop) (e : pyerror) : op_inv Q (op_lift (Err e)).
Proof. apply op_inv_lift. discriminate. Qed.

Section Methods.

Variables (rt : runtime) (ex : expander) (nt : negator) (aggregate : bool).

Ltac inv_step :=
  lazymatch goal with
  | |- op_inv _ (op_bind _ _) => apply op_inv_bind_any; [|intro]
  | |- op_inv _ (op_lift (dict1 _ _)) => apply op_inv_dict1
  | |- op_inv _ (op_lift (Err _)) => apply op_inv_fail
  | |- op_inv any_value (op_lift _) => apply op_inv_lift_any
  | |- op_inv any_value (op_ret _) => apply op_inv_ret_any
  | |- op_inv _ (op_ret (PStr _)) => apply op_inv_ret, Qv_str
  | |- op_inv _ (op_ret (PDict _)) => apply op_inv_ret, Qv_dict
  | |- op_inv _ get_first => apply op_inv_get_first
  | |- op_inv _ get_second => apply op_inv_get_second
  | |- op_inv _ first_type => apply op_inv_first_type
  | |- op_inv _ (if ?b then _ else _) => destruct b
  | |- op_inv _ (match ?x with _ => _ end) => destruct x
  end.

Section Aggregate.

Hypothesis HexT : run_inv I1 any_value (fun f => ex true f None).

Lemma AGGREGATE_inv : op_inv Qv (AGGREGATE_ ex).
Proof.
  unfold AGGREGATE_. apply op_inv_catch.
  repeat inv_step. apply op_inv_on_first, HexT.
Qed.

End Aggregate.

Section Negation.

Hypothesis Hnt1 : run_inv I1 any_value (nt aggregate).
Hypothesis Hnt2 : run_inv I2 any_value (nt aggregate).

Lemma NOT_operands_inv (not_op : string) : op_inv Qv (NOT_operands nt aggregate not_op).
Proof.
  unfold NOT_operands. repeat inv_step.
  - apply op_inv_on_first, Hnt1.
  - apply op_inv_on_second, Hnt2.
Qed.

End Negation.

Hypothesis Hex1 : forall ft, run_inv I1 any_value (fun f => ex aggregate f ft).
Hypothesis Hex2 : forall ft, run_inv I2 any_value (fun s => ex aggregate s ft).
Hypothesis Hnt1 : run_inv I1 Qv (nt aggregate).
Hypothesis Hlit : forall v ft, fst (ex aggregate (Lit v) ft) = OutOfFuel -> oof_ok.

Lemma expand_first_inv (ft : option string) :
  op_inv any_value (expand_first ex aggregate ft).
Proof. apply op_inv_on_first, Hex1. Qed.

Lemma expand_second_inv (ft : option string) :
  op_inv any_value (expand_second ex aggregate ft).
Proof. apply op_inv_on_second, Hex2. Qed.

Ltac inv_auto :=
  repeat first [ apply expand_first_inv | apply expand_second_inv | inv_step ].

Lemma compare_inv (code : string) : op_inv Qv (compare ex aggregate code).
Proof. unfold compare. inv_auto. Qed.

Lemma arith_inv (code : string) : op_inv Qv (arith ex aggregate code).
Proof. unfold arith. inv_auto. Qed.

Lemma _validate_second_inv : op_inv any_value _validate_second.
Proof. unfold _validate_second. inv_auto. Qed.

Lemma _build_like_regex_inv (cs ew sw ws lw : bool) :
  op_inv any_value (_build_like_regex rt ex aggregate cs ew sw ws lw).
Proof. unfold _build_like_regex. inv_auto. Qed.

Lemma LIKE_inv (cs : pyval) : op_inv Qv (LIKE_ rt ex aggregate cs).
Proof.
  unfold LIKE_. apply op_inv_bind_any; [apply _build_like_regex_inv|]. intro. inv_auto.
Qed.

Lemma CONTAINS_inv (cs : pyval) : op_inv Qv (CONTAINS_ rt ex aggregate cs).
Proof.
  unfold CONTAINS_.
  repeat first [ apply _build_like_regex_inv | apply expand_first_inv | inv_step ].
Qed.

Lemma BELONGS_inv : op_inv Qv (BELONGS_ ex aggregate).
Proof.
  unfold BELONGS_. inv_auto.
  apply op_inv_map. intros item. inv_auto.
  apply op_inv_const. intros _. apply Hlit.
Qed.

(** Every method but [AGGREGATE], which compiles its operand on the
    aggregate expander. *)
Lemma call_operator_inv (o : operator) (nargs : nat) (kw : kwargs) :
  o <> AGGREGATE -> op_inv Qv (call_operator rt ex nt aggregate o nargs kw).
Proof.
  intros Ho. unfold call_operator.
  destruct (negb _); [apply op_inv_fail|].
  destruct o; try congruence;
    unfold INVERT_, AND_, OR_, EQ_, NE_, LT_, LE_, GT_, GE_, ADD_, SUB_, MUL_, DIV_, MOD_,
      COUNT_, AS_, ON_, COMMA_, ILIKE_, STARTSWITH_, ENDSWITH_;
    repeat first [ apply compare_inv | apply arith_inv | apply _validate_second_inv
                 | apply _build_like_regex_inv | apply LIKE_inv | apply CONTAINS_inv
                 | apply BELONGS_inv | apply expand_first_inv | apply expand_second_inv
                 | apply op_inv_on_first, Hnt1 | inv_step ].
Qed.

End Methods.

End OpInvariant.

(** ** The expression compiler: leaves, fields and literals *)

Definition is_leaf (e : expr) : Prop :=
  match e with
  | Lit _ | FieldE _ => True
  | _ => False
  end.

Lemma expand_field (rt : runtime) (n : nat) (agg : bool) (f : Field) (ft : option string) :
  expand rt (S n) agg (FieldE f) ft = (Returns (PStr (field_key agg f)), FieldE f).
Proof. reflexivity. Qed.

Lemma expand_lit_typed (rt : runtime) (n : nat) (agg : bool) (v : pyval) (ft : option string) :
  type_given ft = true ->
  expand rt (S n) agg (Lit v) ft = (of_res (represent rt agg v ft), Lit v).
Proof.
  intros H. cbn [expand]. unfold expand_body. cbn [cast_query]. rewrite H. reflexivity.
Qed.

Lemma expand_leaf (rt : runtime) (n : nat) (agg : bool) (e : expr) (ft : option string) :
  is_leaf e -> snd (expand rt n agg e ft) = e.
Proof.
  intros H. destruct n as [|n]; [reflexivity|].
  destruct e as [v|f| |]; try contradiction.
  - cbn [expand]. unfold expand_body. cbn [cast_query].
    destruct (type_given ft); [reflexivity|].
    destruct v as [| | | | | | |[]|]; reflexivity.
  - reflexivity.
Qed.

Lemma NOT_leaf (rt : runtime) (n : nat) (agg : bool) (e : expr) :
  is_leaf e -> snd (NOT_ rt n agg e) = e.
Proof.
  intros H. destruct n as [|n]; [reflexivity|].
  cbn [NOT_]. unfold NOT_body.
  pose proof (expand_leaf rt n agg e None H) as He.
  destruct (expand rt n agg e None) as [[op|err|] e1]; cbn in He; subst e1; try reflexivity.
  unfold NOT_rewrite. destruct (NOT_step op) as [r|not_op]; [reflexivity|].
  destruct e as [v|f| |]; try contradiction; cbn [operands]; [reflexivity|].
  destruct (NOT_operands _ _ _ _) as [r st']. reflexivity.
Qed.

Lemma cast_second_lit (rt : runtime) (agg : bool) (s s' : expr) :
  cast_second rt agg s = Ok s' -> exists v, s' = Lit v.
Proof.
  destruct s as [v| | |]; try discriminate.
  assert (H : forall r : res pyval, (o <- r ;; Ok (Lit o)) = Ok s' -> exists v, s' = Lit v).
  { intros [o|e]; [intros [= <-]; eauto|discriminate]. }
  destruct v; cbn [cast_second]; try apply H.
  destruct (mapM (self_object_id rt agg) items); [intros [= <-]; eauto|discriminate].
Qed.

Lemma operator_eq_dec (a b : operator) : {a = b} + {a <> b}.
Proof. decide equality. Qed.

Lemma operator_eq_dec_ref (op : opref) : {op = OpFunc AGGREGATE} + {op <> OpFunc AGGREGATE}.
Proof.
  destruct op as [o|s]; [|right; discriminate].
  destruct (operator_eq_dec o AGGREGATE) as [->|H]; [left; reflexivity|right; congruence].
Qed.

(** A method called on a field and a literal hands both back as they
    were. *)
Lemma expand_node_leaves (rt : runtime) (n : nat) (agg : bool)
      (op : opref) (kw : kwargs) (f : Field) (v : pyval) :
  snd (expand_node rt (expand rt n) (NOT_ rt n) agg op kw (FieldE f, Lit v))
  = (FieldE f, Lit v).
Proof.
  set (I1 := fun e => e = FieldE f). set (I2 := fun e => e = Lit v).
  assert (Hex : forall (a : bool) (I : expr -> Prop) (e0 : expr) (ft : option string),
             is_leaf e0 -> I = (fun e => e = e0) ->
             run_inv True I any_value (fun e => expand rt n a e ft)).
  { intros a I e0 ft Hl -> e ->. split; [apply expand_leaf, Hl|]. split; intros; exact I. }
  assert (Hnt : run_inv True I1 any_value (NOT_ rt n agg)).
  { intros e ->. split; [apply NOT_leaf; exact I|]. split; intros; exact I. }
  assert (H : op_inv I1 I2 True any_value
                (expand_node rt (expand rt n) (NOT_ rt n) agg op kw)).
  { intros st Hst. unfold expand_node.
    assert (Hcall : forall o nargs,
               op_inv I1 I2 True any_value
                 (call_operator rt (expand rt n) (NOT_ rt n) agg o nargs kw)).
    { intros o nargs. destruct (operator_eq_dec o AGGREGATE) as [->|Ho].
      - unfold call_operator. destruct (negb _); [apply op_inv_fail|].
        apply AGGREGATE_inv; [intros; exact I|].
        apply (Hex true I1 (FieldE f)); [exact I|reflexivity].
      - apply call_operator_inv; try assumption; try (intros; exact I).
        + intros ft. apply (Hex agg I1 (FieldE f)); [exact I|reflexivity].
        + intros ft. apply (Hex agg I2 (Lit v)); [exact I|reflexivity]. }
    destruct (negb (is_none (snd st))); [|destruct (negb (is_none (fst st)))];
      destruct op as [o|s]; try (apply Hcall, Hst);
      (split; [exact Hst|]); split; try discriminate; intros; exact I. }
  destruct (H (FieldE f, Lit v)) as [[H1 H2] _]; [split; reflexivity|].
  destruct (expand_node _ _ _ _ _ _ _) as [r [f' s']]. cbn in *.
  unfold I1 in H1. unfold I2 in H2. congruence.
Qed.

(** ** The expression compiler: comparisons with [None] *)

(** Through [expand]: the query [f > None] on a field that is neither id
    nor reference typed reaches the method with [None] and fails. *)
Lemma expand_ordered_comparison_None :
  forall (rt : runtime) (n : nat) (aggregate : bool) (f : Field) (o : operator)
         (field_type : option string),
    In o [LT; LE; GT; GE] -> is_id_or_reference f = false ->
    fst (expand rt (S n) aggregate (QueryE (FieldE f) (OpFunc o) (Lit PNone) []) field_type)
    = Raises RuntimeError.
Proof.
  intros rt n agg f o ft Ho Hid.
  cbn [expand]. unfold expand_body. cbn [cast_query]. rewrite Hid.
  unfold expand_node. cbn [snd fst is_none negb].
  cbn in Ho. destruct Ho as [<-|[<-|[<-|[<-|[]]]]]; reflexivity.
Qed.


(** ** The expression compiler: patterns *)

Lemma represent_string (rt : runtime) (agg : bool) (s : string) :
  rt_base_represent rt (PStr s) (Some "string") = Ok (PStr s) ->
  represent rt agg (PStr s) (Some "string") = Ok (PStr s).
Proof.
  intros H. unfold represent. rewrite H. reflexivity.
Qed.

(** A pattern method on a field that is neither id nor reference typed and
    a string: the string is coerced as a 'string' value, the pattern is
    built from it, and the field gives the key. *)
Lemma expand_pattern_query (rt : runtime) (n : nat) (agg : bool) (f : Field)
      (o : operator) (s : string) (cs ew sw ws lw : bool) :
  is_id_or_reference f = false ->
  rt_base_represent rt (PStr s) (Some "string") = Ok (PStr s) ->
  (forall st,
      call_operator rt (expand rt (S n)) (NOT_ rt (S n)) agg o 2 [] st
      = (regex <~ _build_like_regex rt (expand rt (S n)) agg cs ew sw ws lw ;;
         k <~ expand_first (expand rt (S n)) agg None ;;
         op_lift (dict1 k regex)) st) ->
  (ws || negb cs || sw || ew = true)%bool ->
  fst (expand rt (S (S n)) agg (QueryE (FieldE f) (OpFunc o) (Lit (PStr s)) []) None)
  = Returns
      (PDict [(PStr (field_key agg f),
               PDict ((PStr "$regex",
                       PStr (let expr0 := re_escape (rt_python rt) s in
                             let expr1 :=
                               if lw
                               then PyStr.replace "_" "."
                                      (PyStr.replace "\_" "." (PyStr.replace "\%" ".*" expr0))
                               else expr0 in
                             if sw then "^" ++ expr1
                             else if ew then expr1 ++ "$"
                             else if ws then "^" ++ expr1 ++ "$"
                             else expr1))
                      :: (if negb cs then [(PStr "$options", PStr "i")] else [])))]).
Proof.
  intros Hid Hbase Hcall Hneed.
  change (expand rt (S (S n)) agg ?e None)
    with (expand_body rt (expand rt (S n)) (NOT_ rt (S n)) agg e None).
  unfold expand_body. cbn [cast_query]. rewrite Hid.
  unfold expand_node. cbn [snd fst is_none negb]. rewrite Hcall.
  unfold _build_like_regex, op_bind, expand_second, expand_first, on_second, on_first.
  cbn [fst snd].
  rewrite expand_lit_typed by reflexivity.
  rewrite (represent_string rt agg s Hbase). cbn [of_res].
  rewrite Hneed. cbn [op_lift of_res negb].
  unfold op_ret. cbn [fst snd].
  rewrite expand_field. cbn [fst snd op_lift dict1 hashable of_res]. reflexivity.
Qed.

(** [re.escape] of the three patterns of C5, by interpreter. *)
Lemma re_escape_python2 (bits : N) :
  re_escape (Python2 bits) "a%b_c" = "a\%b\_c"
  /\ re_escape (Python2 bits) "a.b" = "a\.b"
  /\ re_escape (Python2 bits) "ab%" = "ab\%".
Proof. repeat split. Qed.

Lemma re_escape_before_37 (minor : N) :
  (minor < 7)%N ->
  PyStr.replace "_" "." (PyStr.replace "\_" "."
    (PyStr.replace "\%" ".*" (re_escape (Python3 minor) "a%b_c"))) = "a.*b.c"
  /\ re_escape (Python3 minor) "a.b" = "a\.b"
  /\ re_escape (Python3 minor) "ab%" = "ab\%".
Proof.
  intros H. apply N.leb_gt in H.
  unfold re_escape, re_escape_char. cbn [escapes_special_only escapes_underscore].
  rewrite H. destruct (minor <? 3)%N; repeat split.
Qed.

Lemma re_escape_from_37 (minor : N) :
  (7 <= minor)%N ->
  re_escape (Python3 minor) "a%b_c" = "a%b_c"
  /\ re_escape (Python3 minor) "a.b" = "a\.b"
  /\ re_escape (Python3 minor) "ab%" = "ab%".
Proof.
  intros H. apply N.leb_le in H.
  unfold re_escape, re_escape_char. cbn [escapes_special_only escapes_underscore].
  rewrite H. repeat split.
Qed.

(** C5.  With a base adapter that hands a string of a 'string' field back
    as it is, and on a field that is neither id nor reference typed.  On
    every interpreter [LIKE(field, "a.b")] compiles to [^a\.b$], the dot of
    the literal escaped and both ends anchored.  On Python 2 and on
    Python 3 before 3.7, where [re.escape] puts a backslash before the
    percent sign, [LIKE(field, "a%b_c")] compiles to [^a.*b.c$] and
    [STARTSWITH(field, "ab%")] to [^ab\%], the percent sign a literal
    character and the start alone anchored.  From Python 3.7 on
    [re.escape] leaves the percent sign as it is, the replacement of the
    escaped percent sign finds nothing, and [LIKE(field, "a%b_c")] compiles
    to [^a%b.c$], where the percent sign matches itself only;
    [STARTSWITH(field, "ab%")] compiles to [^ab%].  No case-insensitivity
    option is added. *)
Theorem like_and_startswith_regex :
  forall (rt : runtime) (n : nat) (aggregate : bool) (f : Field),
    is_id_or_reference f = false ->
    (forall s : string, rt_base_represent rt (PStr s) (Some "string") = Ok (PStr s)) ->
    fst (expand rt (S (S n)) aggregate
           (QueryE (FieldE f) (OpFunc LIKE) (Lit (PStr "a.b")) []) None)
    = Returns (PDict [(PStr (field_key aggregate f),
                       PDict [(PStr "$regex", PStr "^a\.b$")])])
    /\ ((exists long_bits, rt_python rt = Python2 long_bits)
        \/ (exists minor, rt_python rt = Python3 minor /\ (minor < 7)%N) ->
        fst (expand rt (S (S n)) aggregate
               (QueryE (FieldE f) (OpFunc LIKE) (Lit (PStr "a%b_c")) []) None)
        = Returns (PDict [(PStr (field_key aggregate f),
                           PDict [(PStr "$regex", PStr "^a.*b.c$")])])
        /\ fst (expand rt (S (S n)) aggregate
                  (QueryE (FieldE f) (OpFunc STARTSWITH) (Lit (PStr "ab%")) []) None)
           = Returns (PDict [(PStr (field_key aggregate f),
                              PDict [(PStr "$regex", PStr "^ab\%")])]))
    /\ (forall minor, rt_python rt = Python3 minor -> (7 <= minor)%N ->
        fst (expand rt (S (S n)) aggregate
               (QueryE (FieldE f) (OpFunc LIKE) (Lit (PStr "a%b_c")) []) None)
        = Returns (PDict [(PStr (field_key aggregate f),
                           PDict [(PStr "$regex", PStr "^a%b.c$")])])
        /\ fst (expand rt (S (S n)) aggregate
                  (QueryE (FieldE f) (OpFunc STARTSWITH) (Lit (PStr "ab%")) []) None)
           = Returns (PDict [(PStr (field_key aggregate f),
                              PDict [(PStr "$regex", PStr "^ab%")])])).
Proof.
  intros rt n agg f Hid Hbase.
  rewrite (expand_pattern_query rt n agg f LIKE "a%b_c" true false false true true);
    [|assumption|apply Hbase|reflexivity|reflexivity].
  rewrite (expand_pattern_query rt n agg f LIKE "a.b" true false false true true);
    [|assumption|apply Hbase|reflexivity|reflexivity].
  rewrite (expand_pattern_query rt n agg f STARTSWITH "ab%" true false true true false);
    [|assumption|apply Hbase|reflexivity|reflexivity].
  cbv zeta. cbn [negb].
  split; [|split].
  - destruct (rt_python rt) as [bits|minor].
    + reflexivity.
    + destruct (N.lt_ge_cases minor 7) as [H|H].
      * destruct (re_escape_before_37 minor H) as (_ & -> & _). reflexivity.
      * destruct (re_escape_from_37 minor H) as (_ & -> & _). reflexivity.
  - intros [[bits ->]|(minor & -> & H)].
    + split; reflexivity.
    + destruct (re_escape_before_37 minor H) as (-> & _ & ->). split; reflexivity.
  - intros minor -> H.
    destruct (re_escape_from_37 minor H) as (-> & _ & ->). split; reflexivity.
Qed.

Lemma like_and_startswith_regex_witness :
  let name := mkField "name" "string" "person" "" in
  (fst (expand sample_runtime 2 false
          (QueryE (FieldE name) (OpFunc LIKE) (Lit (PStr "a%b_c")) []) None)
   = Returns (PDict [(PStr "name", PDict [(PStr "$regex", PStr "^a.*b.c$")])])
   /\ fst (expand sample_runtime 2 false
             (QueryE (FieldE name) (OpFunc STARTSWITH) (Lit (PStr "ab%")) []) None)
      = Returns (PDict [(PStr "name", PDict [(PStr "$regex", PStr "^ab\%")])]))
  /\ (fst (expand sample_runtime_py3 2 false
             (QueryE (FieldE name) (OpFunc LIKE) (Lit (PStr "a%b_c")) []) None)
      = Returns (PDict [(PStr "name", PDict [(PStr "$regex", PStr "^a%b.c$")])])
      /\ fst (expand sample_runtime_py3 2 false
                (QueryE (FieldE name) (OpFunc STARTSWITH) (Lit (PStr "ab%")) []) None)
         = Returns (PDict [(PStr "name", PDict [(PStr "$regex", PStr "^ab%")])])).
Proof.
  intros name.
  assert (Hid : is_id_or_reference name = false) by reflexivity.
  split.
  - assert (Hbase : forall s : string,
               rt_base_represent sample_runtime (PStr s) (Some "string") = Ok (PStr s))
      by reflexivity.
    destruct (like_and_startswith_regex sample_runtime 0 false name Hid Hbase)
      as (_ & H2 & _).
    apply H2. left. exists 64%N. reflexivity.
  - assert (Hbase : forall s : string,
               rt_base_represent sample_runtime_py3 (PStr s) (Some "string") = Ok (PStr s))
      by reflexivity.
    destruct (like_and_startswith_regex sample_runtime_py3 0 false name Hid Hbase)
      as (_ & _ & H3).
    apply (H3 7%N); [reflexivity|]. intros E. discriminate E.
Defined.

(** C5, as stated, fails on Python 3.7 and later: with a runtime of
    Python 3.7 [LIKE(name, "a%b_c")] compiles to [^a%b.c$] and not to
    [^a.*b.c$]; the percent sign has not become [.*]. *)
Lemma like_python37_counterexample :
  let name := mkField "name" "string" "person" "" in
  rt_python sample_runtime_py3 = Python3 7
  /\ fst (expand sample_runtime_py3 2 false
            (QueryE (FieldE name) (OpFunc LIKE) (Lit (PStr "a%b_c")) []) None)
     = Returns (PDict [(PStr "name", PDict [(PStr "$regex", PStr "^a%b.c$")])])
  /\ fst (expand sample_runtime_py3 2 false
            (QueryE (FieldE name) (OpFunc LIKE) (Lit (PStr "a%b_c")) []) None)
     <> Returns (PDict [(PStr "name", PDict [(PStr "$regex", PStr "^a.*b.c$")])]).
Proof.
  cbv zeta. split; [reflexivity|]. split; [vm_compute; reflexivity|].
  vm_compute. intros E. discriminate E.
Qed.

(** ** The expression compiler: a query that was compiled before

    [NOT] compiles its operand and then, for a conjunction or disjunction,
    compiles the operands of that operand again, after the first pass has
    renamed fields and cast right operands in place.  [settled] is the form
    of a query in which every such cast that succeeds has been made; two
    queries with the same settled form compile alike. *)

Lemma rename_id_idem (f : Field) : rename_id (rename_id f) = rename_id f.
Proof.
  unfold rename_id. destruct (String.eqb (f_type f) "id") eqn:E; [|rewrite E; reflexivity].
  cbn. rewrite E. reflexivity.
Qed.

Lemma rename_id_type (f : Field) : f_type (rename_id f) = f_type f.
Proof.
  unfold rename_id. destruct (String.eqb (f_type f) "id"); reflexivity.
Qed.

Lemma rename_id_is_id (f : Field) :
  is_id_or_reference (rename_id f) = is_id_or_reference f.
Proof.
  unfold is_id_or_reference. rewrite rename_id_type. reflexivity.
Qed.

Lemma rename_id_field_key (agg : bool) (f : Field) :
  field_key agg (rename_id f) = field_key agg f.
Proof.
  unfold field_key. rewrite rename_id_type.
  unfold rename_id. destruct (String.eqb (f_type f) "id"); reflexivity.
Qed.

Lemma rename_id_other (f : Field) : String.eqb (f_type f) "id" = false -> rename_id f = f.
Proof.
  intros H. unfold rename_id. rewrite H. reflexivity.
Qed.

(** Two fields that differ by the rename only. *)
Lemma rename_id_eq_other (f g : Field) :
  rename_id g = rename_id f -> String.eqb (f_type f) "id" = false -> g = f.
Proof.
  intros H Hf.
  assert (Hg : String.eqb (f_type g) "id" = false).
  { rewrite <- (rename_id_type g), H, rename_id_type. exact Hf. }
  rewrite (rename_id_other f Hf), (rename_id_other g Hg) in H. exact H.
Qed.

Lemma mapM_ext {A B : Type} (f g : A -> res B) (l : list A) (l' : list B) :
  (forall x y, f x = Ok y -> g x = Ok y) -> mapM f l = Ok l' -> mapM g l = Ok l'.
Proof.
  intros Hfg. revert l'. induction l as [|x l IH]; intros l'; cbn; [auto|].
  destruct (f x) as [y|e] eqn:Hx; [|discriminate]. rewrite (Hfg x y Hx). cbn.
  destruct (mapM f l) as [ys|e]; [|discriminate]. rewrite (IH ys eq_refl). auto.
Qed.

Lemma mapM_Forall {A B : Type} (P : B -> Prop) (f : A -> res B) (l : list A) (l' : list B) :
  (forall x y, f x = Ok y -> P y) -> mapM f l = Ok l' -> Forall P l'.
Proof.
  intros Hf. revert l'. induction l as [|x l IH]; intros l'; cbn.
  - intros [= <-]. constructor.
  - destruct (f x) as [y|e] eqn:Hx; [|discriminate]. cbn.
    destruct (mapM f l) as [ys|e]; [|discriminate]. intros [= <-].
    constructor; [exact (Hf x y Hx)|apply IH; reflexivity].
Qed.

Lemma mapM_fixed {A : Type} (f : A -> res A) (l : list A) :
  Forall (fun x => f x = Ok x) l -> mapM f l = Ok l.
Proof.
  induction 1 as [|x l Hx _ IH]; cbn; [reflexivity|]. rewrite Hx. cbn. rewrite IH. reflexivity.
Qed.

Section ObjectIdFacts.

Variable py : python.
Variable random_choice : nat -> nat.

Lemma object_id_returns_oid (hr : bool) (v w : pyval) :
  object_id py random_choice hr v = Ok w -> exists o, w = POid o.
Proof.
  assert (H : forall (r : res Z) (g : Z -> res ObjectId.t),
             (n <- r ;; o <- g n ;; Ok (POid o)) = Ok w -> exists o, w = POid o).
  { intros [n|e] g; cbn; [|discriminate].
    destruct (g n) as [o|e]; cbn; [intros [= <-]; eauto|discriminate]. }
  unfold object_id. destruct (if truthy v then v else PInt 0); try apply H.
  intros [= <-]. eauto.
Qed.

Lemma object_id_oid (hr : bool) (o : ObjectId.t) :
  object_id py random_choice hr (POid o) = Ok (POid o).
Proof. reflexivity. Qed.

(** What an adapter without a random generator casts, the adapter with
    one casts to the same identifier. *)
Lemma object_id_random_mono (v w : pyval) :
  object_id py random_choice false v = Ok w -> object_id py random_choice true v = Ok w.
Proof.
  assert (Hs : forall arg s z,
             object_id_of_string py random_choice false arg s = Ok z ->
             object_id_of_string py random_choice true arg s = Ok z).
  { intros arg s z. unfold object_id_of_string.
    destruct (PyStr.isdigit s && negb _)%bool; [auto|].
    destruct (pyval_eqb arg (PStr "<random>")); [discriminate|auto]. }
  assert (H : forall (r r' : res Z) (g : Z -> res pyval),
             (forall z, r = Ok z -> r' = Ok z) ->
             (n <- r ;; g n) = Ok w -> (n <- r' ;; g n) = Ok w).
  { intros [z|e] r' g Hr; cbn; [|discriminate]. rewrite (Hr z eq_refl). auto. }
  unfold object_id. destruct (if truthy v then v else PInt 0); auto;
    apply H; cbn [as_basestring]; auto.
Qed.

End ObjectIdFacts.

Section Settled.

Variable rt : runtime.

Lemma self_object_id_mono (v w : pyval) :
  self_object_id rt true v = Ok w -> self_object_id rt false v = Ok w.
Proof. apply object_id_random_mono. Qed.

Lemma cast_second_nonlit (agg : bool) (s : expr) :
  (forall v, s <> Lit v) -> cast_second rt agg s = Err TypeError.
Proof.
  intros H. destruct s as [v| | |]; try reflexivity. exfalso. exact (H v eq_refl).
Qed.

Lemma cast_second_idem (agg agg' : bool) (s s' : expr) :
  cast_second rt agg s = Ok s' -> cast_second rt agg' s' = Ok s'.
Proof.
  destruct s as [v| | |]; try discriminate.
  assert (H : forall r : res pyval,
             (forall w, r = Ok w -> exists o, w = POid o) ->
             (o <- r ;; Ok (Lit o)) = Ok s' -> cast_second rt agg' s' = Ok s').
  { intros [w|e] Hw; [|discriminate]. intros [= <-].
    destruct (Hw w eq_refl) as [o ->]. reflexivity. }
  assert (Hoid : forall w, (exists v0, self_object_id rt agg v0 = Ok w) -> exists o, w = POid o).
  { intros w [v0 Hv0]. exact (object_id_returns_oid _ _ _ _ _ Hv0). }
  destruct v; cbn [cast_second]; try (apply H; intros w Hw; apply Hoid; eauto).
  destruct (mapM (self_object_id rt agg) items) as [oids|e] eqn:Hm; [|discriminate].
  intros [= <-]. cbn [cast_second].
  rewrite mapM_fixed; [reflexivity|].
  apply (mapM_Forall (fun y => self_object_id rt agg' y = Ok y) _ _ _) with (2 := Hm).
  intros x y Hxy. destruct (object_id_returns_oid _ _ _ _ _ Hxy) as [o ->]. reflexivity.
Qed.

Lemma cast_second_mono (s s' : expr) :
  cast_second rt true s = Ok s' -> cast_second rt false s = Ok s'.
Proof.
  destruct s as [v| | |]; try discriminate.
  assert (H : forall v0, (o <- self_object_id rt true v0 ;; Ok (Lit o)) = Ok s' ->
                         (o <- self_object_id rt false v0 ;; Ok (Lit o)) = Ok s').
  { intros v0. destruct (self_object_id rt true v0) as [w|e] eqn:Hw; [|discriminate].
    rewrite (self_object_id_mono _ _ Hw). auto. }
  destruct v; cbn [cast_second]; try apply H.
  destruct (mapM (self_object_id rt true) items) as [oids|e] eqn:Hm; [|discriminate].
  rewrite (mapM_ext _ _ _ _ self_object_id_mono Hm). auto.
Qed.

(** The aggregate flag under which the first operand of a node is
    compiled: [AGGREGATE] compiles it on the aggregate expander. *)
Definition child_agg (op : opref) (agg : bool) : bool :=
  match op with
  | OpFunc AGGREGATE => true
  | _ => agg
  end.

(** The first operand is a field of type id or reference. *)
Definition id_first (e : expr) : bool :=
  match e with
  | FieldE f => is_id_or_reference f
  | _ => false
  end.

Fixpoint settled (agg : bool) (e : expr) : expr :=
  match e with
  | Lit v => Lit v
  | FieldE f => FieldE (rename_id f)
  | QueryE first op second kw =>
      QueryE (settled (child_agg op agg) first) op
             (if id_first first
              then match cast_second rt agg second with
                   | Ok second' => second'
                   | Err _ => settled agg second
                   end
              else settled agg second) kw
  | ExprE first op second ty kw =>
      ExprE (settled (child_agg op agg) first) op (settled agg second) ty kw
  end.

(** The recursion depth a query needs. *)
Fixpoint height (e : expr) : nat :=
  match e with
  | Lit _ => 1
  | FieldE _ => 2
  | QueryE first _ second _ | ExprE first _ second _ _ =>
      S (Nat.max (height first) (height second))
  end.

Lemma settled_lit_inv (agg : bool) (e : expr) (v : pyval) :
  settled agg e = Lit v -> e = Lit v.
Proof. destruct e; cbn; congruence. Qed.

Lemma settled_field_inv (agg : bool) (e : expr) (f : Field) :
  settled agg e = FieldE f -> exists g, e = FieldE g /\ rename_id g = f.
Proof. destruct e; cbn; try discriminate. intros [= <-]. eauto. Qed.

Lemma settled_id_first (agg : bool) (e : expr) : id_first (settled agg e) = id_first e.
Proof. destruct e; cbn; try reflexivity. apply rename_id_is_id. Qed.

Lemma settled_eq_id_first (agg : bool) (e e' : expr) :
  settled agg e = settled agg e' -> id_first e = id_first e'.
Proof.
  intros H. rewrite <- (settled_id_first agg e), H. apply settled_id_first.
Qed.

Lemma settled_eq_is_none (agg : bool) (e e' : expr) :
  settled agg e = settled agg e' -> is_none e = is_none e'.
Proof.
  intros H. destruct e as [v| | |].
  - symmetry in H. apply settled_lit_inv in H. subst. reflexivity.
  - destruct e'; cbn in H; try discriminate; reflexivity.
  - destruct e'; cbn in H; try discriminate; reflexivity.
  - destruct e'; cbn in H; try discriminate; reflexivity.
Qed.

Lemma settled_eq_type_of (agg : bool) (e e' : expr) :
  settled agg e = settled agg e' -> type_of e = type_of e'.
Proof.
  intros H. destruct e as [v|f| |]; destruct e'; cbn in H; try discriminate; cbn.
  - reflexivity.
  - injection H as H. do 2 f_equal. rewrite <- (rename_id_type f), H. apply rename_id_type.
  - reflexivity.
  - congruence.
Qed.

Lemma settled_height (agg : bool) (e : expr) : height (settled agg e) = height e.
Proof.
  revert agg. induction e as [v|f|f IHf op s IHs kw|f IHf op s IHs ty kw]; intros agg; cbn;
    try reflexivity.
  - rewrite IHf. f_equal. f_equal.
    destruct (id_first f); [|apply IHs].
    destruct (cast_second rt agg s) as [s'|e] eqn:Hc; [|apply IHs].
    destruct (cast_second_lit _ _ _ _ Hc) as [v ->].
    destruct s; try discriminate. reflexivity.
  - rewrite IHf, IHs. reflexivity.
Qed.

Lemma settled_eq_height (agg : bool) (e e' : expr) :
  settled agg e = settled agg e' -> height e = height e'.
Proof.
  intros H. rewrite <- (settled_height agg e), H. apply settled_height.
Qed.

(** The right operand of a node, settled. *)
Definition settled_second (agg : bool) (first second : expr) : expr :=
  if id_first first
  then match cast_second rt agg second with
       | Ok second' => second'
       | Err _ => settled agg second
       end
  else settled agg second.

Lemma settled_query (agg : bool) (f : expr) (op : opref) (s : expr) (kw : kwargs) :
  settled agg (QueryE f op s kw)
  = QueryE (settled (child_agg op agg) f) op (settled_second agg f s) kw.
Proof. reflexivity. Qed.

(** A cast that succeeds gives the settled form of what it casts, and a
    cast right operand is settled. *)
Lemma settled_second_cast (agg : bool) (f s s' : expr) :
  id_first f = true -> cast_second rt agg s = Ok s' ->
  settled_second agg f s = s' /\ settled_second agg f s' = s'.
Proof.
  intros Hid Hc. unfold settled_second. rewrite Hid, Hc.
  rewrite (cast_second_idem _ agg _ _ Hc). auto.
Qed.

(** Two right operands of an id or reference field with the same settled
    form are cast alike. *)
Lemma settled_second_eq_cast (agg : bool) (f f' s s' : expr) :
  id_first f = true -> id_first f' = true ->
  settled_second agg f s = settled_second agg f' s' ->
  cast_second rt agg s = cast_second rt agg s'.
Proof.
  unfold settled_second. intros -> ->.
  destruct (cast_second rt agg s) as [a|e] eqn:Ha;
    destruct (cast_second rt agg s') as [b|e'] eqn:Hb.
  - congruence.
  - intros H. destruct (cast_second_lit _ _ _ _ Ha) as [v ->].
    symmetry in H. apply settled_lit_inv in H. subst s'.
    rewrite (cast_second_idem _ agg _ _ Ha) in Hb. discriminate.
  - intros H. destruct (cast_second_lit _ _ _ _ Hb) as [v ->].
    apply settled_lit_inv in H. subst s.
    rewrite (cast_second_idem _ agg _ _ Hb) in Ha. discriminate.
  - intros H. destruct s as [v| | |].
    + symmetry in H. apply settled_lit_inv in H. subst s'. congruence.
    + destruct s'; cbn in H; try discriminate. cbn in Ha, Hb. congruence.
    + destruct s'; cbn in H; try discriminate. cbn in Ha, Hb. congruence.
    + destruct s'; cbn in H; try discriminate. cbn in Ha, Hb. congruence.
Qed.

End Settled.

(** ** The expression compiler: compiling keeps the settled form *)

Section SettledKept.

Variable rt : runtime.

Lemma settled_second_congr (agg : bool) (f f' s s' : expr) :
  id_first f' = id_first f -> settled rt agg s' = settled rt agg s ->
  settled_second rt agg f' s' = settled_second rt agg f s.
Proof.
  intros Hid Hs. unfold settled_second. rewrite Hid.
  destruct (id_first f); [|exact Hs].
  destruct s as [v| | |].
  - apply settled_lit_inv in Hs. subst s'. reflexivity.
  - destruct s'; cbn in Hs; try discriminate. exact Hs.
  - destruct s'; try discriminate. exact Hs.
  - destruct s'; try discriminate. exact Hs.
Qed.

Lemma settled_query_congr (agg : bool) (f f' : expr) (op : opref) (s s' : expr) (kw : kwargs) :
  settled rt (child_agg op agg) f' = settled rt (child_agg op agg) f ->
  settled rt agg s' = settled rt agg s ->
  settled rt agg (QueryE f' op s' kw) = settled rt agg (QueryE f op s kw).
Proof.
  intros Hf Hs. rewrite !settled_query, Hf.
  rewrite (settled_second_congr agg f f' s s'); [reflexivity| |exact Hs].
  exact (settled_eq_id_first rt _ _ _ Hf).
Qed.

Lemma settled_expr_congr (agg : bool) (f f' : expr) (op : opref) (s s' : expr)
      (ty : option string) (kw : kwargs) :
  settled rt (child_agg op agg) f' = settled rt (child_agg op agg) f ->
  settled rt agg s' = settled rt agg s ->
  settled rt agg (ExprE f' op s' ty kw) = settled rt agg (ExprE f op s ty kw).
Proof.
  intros Hf Hs. cbn. rewrite Hf, Hs. reflexivity.
Qed.

(** What settles on the aggregate expander settles the same way on the
    adapter. *)
Lemma settled_mono (e1 : expr) :
  forall e2, settled rt true e1 = settled rt true e2 ->
             settled rt false e1 = settled rt false e2.
Proof.
  induction e1 as [v|f|f1 IHf op s1 IHs kw|f1 IHf op s1 IHs ty kw]; intros e2 H.
  - symmetry in H. apply settled_lit_inv in H. subst. reflexivity.
  - destruct e2; cbn in H; try discriminate. exact H.
  - destruct e2 as [| |f2 op2 s2 kw2|]; try discriminate.
    rewrite !settled_query in H. injection H as Hf Hop Hs Hkw. subst op2 kw2.
    assert (Hf' : settled rt (child_agg op false) f1 = settled rt (child_agg op false) f2).
    { destruct op as [[]|]; cbn [child_agg] in *; auto. }
    rewrite !settled_query, Hf'. f_equal.
    pose proof (settled_eq_id_first rt _ _ _ Hf) as Hid.
    unfold settled_second in *. rewrite <- Hid in *.
    destruct (id_first f1) eqn:Hid1; [|auto].
    assert (Hcast : cast_second rt true s1 = cast_second rt true s2).
    { apply (settled_second_eq_cast rt true f1 f2); auto.
      unfold settled_second. rewrite <- Hid, Hid1. exact Hs. }
    rewrite <- Hcast in Hs.
    destruct (cast_second rt true s1) as [a|e] eqn:Ha.
    + rewrite (cast_second_mono rt _ _ Ha).
      symmetry in Hcast. rewrite (cast_second_mono rt _ _ Hcast). reflexivity.
    + destruct s1 as [v| | |].
      * symmetry in Hs. apply settled_lit_inv in Hs. subst s2. reflexivity.
      * destruct s2; try discriminate. cbn [cast_second]. auto.
      * destruct s2; try discriminate. cbn [cast_second]. auto.
      * destruct s2; try discriminate. cbn [cast_second]. auto.
  - destruct e2 as [| | |f2 op2 s2 ty2 kw2]; try discriminate.
    cbn in H. injection H as Hf Hop Hs Hty Hkw. subst op2 ty2 kw2.
    cbn. f_equal; [|auto].
    destruct op as [[]|]; cbn [child_agg] in *; auto.
Qed.

Lemma settled_down (agg : bool) (e1 e2 : expr) :
  settled rt true e1 = settled rt true e2 -> settled rt agg e1 = settled rt agg e2.
Proof.
  destruct agg; [auto|apply settled_mono].
Qed.

Lemma cast_query_settled (agg : bool) (e : expr) :
  settled rt agg (snd (cast_query rt agg e)) = settled rt agg e.
Proof.
  destruct e as [v|f|first op second kw|]; try reflexivity.
  destruct first as [|f| |]; try reflexivity.
  cbn [cast_query]. destruct (is_id_or_reference f) eqn:Hid; [|reflexivity].
  assert (Hid' : id_first (FieldE (rename_id f)) = true)
    by (cbn; rewrite rename_id_is_id; exact Hid).
  destruct (cast_second rt agg second) as [s'|e] eqn:Hc; cbn [snd];
    rewrite !settled_query; cbn [settled]; rewrite rename_id_idem; f_equal.
  - destruct (settled_second_cast rt agg (FieldE f) second s' Hid Hc) as [-> _].
    exact (proj1 (settled_second_cast rt agg (FieldE (rename_id f)) s' s' Hid'
                    (cast_second_idem rt agg agg _ _ Hc))).
  - unfold settled_second. rewrite Hid'. cbn [id_first]. rewrite Hid. reflexivity.
Qed.

(** *** The compiler returns strings and dictionaries for what is not a
    plain value *)

Definition str_or_dict (v : pyval) : Prop :=
  match v with
  | PStr _ | PDict _ => True
  | _ => False
  end.

Lemma NOT_step_done (op v : pyval) : NOT_step op = NotDone (Ok v) -> str_or_dict v.
Proof.
  unfold NOT_step.
  destruct (first_item op) as [op_k|e]; [|discriminate].
  destruct (py_getitem op op_k) as [op_body|e]; [|discriminate].
  assert (Hdict : forall k b a, dict1 k b = Ok a -> str_or_dict a).
  { intros k b a H. apply dict1_is_dict in H. subst. exact I. }
  assert (Hfinal : forall (r : res (option pyval)),
             (forall a, r = Ok (Some a) -> str_or_dict a) ->
             NotDone (o <- r ;; match o with
                                | Some v0 => Ok v0
                                | None => dict1 op_k (PDict [(PStr "$not", op_body)])
                                end) = NotDone (Ok v) -> str_or_dict v).
  { intros [[a|]|e] Hr; cbn; intros H; inversion H as [H'].
    - subst. apply Hr. reflexivity.
    - exact (Hdict _ _ _ H'). }
  assert (Hne : forall a,
             (r <- dict1 op_k (PDict [(PStr "$ne", op_body)]) ;; Ok (Some r)) = Ok (Some a) ->
             str_or_dict a).
  { intros a. destruct (dict1 op_k (PDict [(PStr "$ne", op_body)])) as [r|e] eqn:E.
    - cbn. intros H. injection H as <-. exact (Hdict _ _ _ E).
    - cbn. intros H. discriminate H. }
  destruct op_body as [| | | | | | |k l|d]; try (apply Hfinal; cbn; exact Hne).
  - destruct k; try discriminate; apply Hfinal; cbn; exact Hne.
  - apply Hfinal. intros a.
    destruct (map fst d) as [|k [|k' ks]]; try discriminate.
    destruct (pyval_eqb k (PStr "$ne")); [|discriminate].
    destruct (dict_get d (PStr "$ne")) as [w|e]; cbn; [|exact (Hne a)].
    destruct (dict1 op_k w) as [r|e] eqn:E; cbn; [|exact (Hne a)].
    intros [= <-]. exact (Hdict _ _ _ E).
Qed.

Lemma expand_NOT_str_or_dict (n : nat) :
  (forall agg e ft v, (forall w, e <> Lit w) ->
                      fst (expand rt n agg e ft) = Returns v -> str_or_dict v)
  /\ (forall agg e v, fst (NOT_ rt n agg e) = Returns v -> str_or_dict v).
Proof.
  induction n as [|n [IHe IHn]]; [split; intros; discriminate|].
  assert (Hrun : forall (I : expr -> Prop) agg ft,
             I = (fun _ => True) ->
             run_inv True I any_value (fun e => expand rt n agg e ft)).
  { intros I agg ft -> e _. repeat split. }
  assert (Hnot : forall agg, run_inv True (fun _ => True) str_or_dict (NOT_ rt n agg)).
  { intros agg e _. repeat split. intros a Ha. exact (IHn agg e a Ha). }
  assert (Hnot' : forall agg, run_inv True (fun _ => True) any_value (NOT_ rt n agg)).
  { intros agg e _. repeat split. }
  split.
  - intros agg e ft v Hnl. cbn [expand]. unfold expand_body.
    assert (Hnode : forall op kw st,
               fst (expand_node rt (expand rt n) (NOT_ rt n) agg op kw st) = Returns v ->
               str_or_dict v).
    { intros op kw st.
      assert (Hcall : forall o nargs,
                 op_inv (fun _ => True) (fun _ => True) True str_or_dict
                   (call_operator rt (expand rt n) (NOT_ rt n) agg o nargs kw)).
      { intros o nargs. destruct (operator_eq_dec o AGGREGATE) as [->|Ho].
        - unfold call_operator. destruct (negb _); [apply op_inv_fail|].
          apply AGGREGATE_inv; [intros; exact I|]. apply Hrun. reflexivity.
        - apply call_operator_inv; try (intros; exact I); try assumption.
          + intros ft'. apply Hrun. reflexivity.
          + intros ft'. apply Hrun. reflexivity.
          + apply Hnot. }
      unfold expand_node.
      destruct (negb (is_none (snd st))); [|destruct (negb (is_none (fst st)))];
        destruct op as [o|s]; cbn [fst]; try discriminate;
        try (intros H;
             match type of H with
             | fst (call_operator _ _ _ _ _ ?k _ _) = _ =>
                 destruct (Hcall o k st) as (_ & _ & Hq); [split; exact I|]; exact (Hq v H)
             end).
      intros H. inversion H. exact I. }
    pose proof (cast_query_settled agg e) as Hc.
    destruct (cast_query rt agg e) as [[[]|err] e']; cbn [snd] in Hc; [|discriminate].
    destruct e' as [w|f|first op second kw|first op second ty kw].
    + symmetry in Hc. apply settled_lit_inv in Hc. exfalso. exact (Hnl w Hc).
    + intros [= <-]. exact I.
    + destruct (expand_node _ _ _ _ _ _ _) as [r st'] eqn:E. intros H. cbn in H. subst r.
      apply (Hnode op kw (first, second)). rewrite E. reflexivity.
    + destruct (expand_node _ _ _ _ _ _ _) as [r st'] eqn:E. intros H. cbn in H. subst r.
      apply (Hnode op kw (first, second)). rewrite E. reflexivity.
  - intros agg e v. cbn [NOT_]. unfold NOT_body.
    destruct (expand rt n agg e None) as [[op|err|] e1]; try discriminate.
    unfold NOT_rewrite. destruct (NOT_step op) as [r|not_op] eqn:Hstep.
    + destruct r as [a|err]; cbn; [|discriminate]. intros [= <-].
      exact (NOT_step_done _ _ Hstep).
    + destruct (operands e1) as [st|err]; [|discriminate].
      pose proof (NOT_operands_inv (fun _ => True) (fun _ => True) True str_or_dict
                    (fun _ => I) (NOT_ rt n) agg (Hnot' agg) (Hnot' agg) not_op st) as H.
      destruct (NOT_operands _ _ _ _) as [r st']. cbn [fst snd] in *.
      intros Hr. subst r. destruct H as (_ & _ & Hq); [split; exact I|].
      apply Hq. reflexivity.
Qed.

End SettledKept.

Section SettledKept2.

Variable rt : runtime.

Lemma AGGREGATE_returns (ex : expander) (nt : negator) (agg : bool) (nargs : nat)
      (kw : kwargs) (st st' : expr * expr) (op : pyval) :
  call_operator rt ex nt agg AGGREGATE nargs kw st = (Returns op, st') ->
  exists c v, fst (ex true (fst st) None) = Returns v
              /\ fst st' = snd (ex true (fst st) None)
              /\ op = PDict [(c, v)] /\ hashable c = true.
Proof.
  unfold call_operator. destruct (negb _); [discriminate|].
  unfold AGGREGATE_, op_bind, get_second, op_lift, on_first. cbn [fst snd].
  destruct (match snd st with
            | Lit w => if hashable w then dict_get _aggregate_map w else Err TypeError
            | _ => Err KeyError
            end) as [c|e]; cbn [of_res]; [|discriminate].
  destruct (ex true (fst st) None) as [[v|e|] f']; cbn [fst snd]; try discriminate.
  unfold dict1. destruct (hashable c) eqn:Hc; cbn [of_res]; [|discriminate].
  intros [= <- <-]. exists c, v. auto.
Qed.

Lemma NOT_step_demorgan_dict1 (c v : pyval) (not_op : string) :
  hashable c = true -> NOT_step (PDict [(c, v)]) = NotDeMorgan not_op ->
  exists l, v = PSeq KList l.
Proof.
  intros Hc. unfold NOT_step. cbn [first_item py_iter map fst res_bind py_getitem].
  rewrite Hc, dict_get_head.
  destruct v as [| | | | | | |[] l|]; try discriminate; eauto.
  all: cbn; destruct (dict1 _ _); cbn; try discriminate.
  all: try (destruct (map fst entries) as [|? [|? ?]]; try discriminate;
            repeat match goal with
                   | |- context [if ?b then _ else _] => destruct b
                   | |- context [res_bind ?r _] => destruct r; cbn
                   end; discriminate).
Qed.

(** When [NOT] goes on to negate the operands of an [AGGREGATE] node, the
    first of them is a plain value. *)
Lemma aggregate_demorgan_leaf (n : nat) (agg : bool) (e e' : expr) (ft : option string)
      (op : pyval) (not_op : string) :
  expand rt n agg e ft = (Returns op, e') -> NOT_step op = NotDeMorgan not_op ->
  match e' with
  | QueryE f (OpFunc AGGREGATE) _ _ | ExprE f (OpFunc AGGREGATE) _ _ _ => is_leaf f
  | _ => True
  end.
Proof.
  destruct n as [|n]; [discriminate|].
  cbn [expand]. unfold expand_body.
  assert (Hnode : forall first second kw st' r,
             expand_node rt (expand rt n) (NOT_ rt n) agg (OpFunc AGGREGATE) kw (first, second)
             = (r, st') -> r = Returns op -> NOT_step op = NotDeMorgan not_op ->
             is_leaf (fst st')).
  { intros first second kw st' r E -> Hstep. unfold expand_node in E. cbn [fst snd] in E.
    assert (Hcall : forall nargs,
               call_operator rt (expand rt n) (NOT_ rt n) agg AGGREGATE nargs kw (first, second)
               = (Returns op, st') -> is_leaf (fst st')).
    { intros nargs Hc. apply AGGREGATE_returns in Hc.
      destruct Hc as (c & v & Hv & Hst & -> & Hh). cbn [fst] in *.
      destruct (NOT_step_demorgan_dict1 _ _ _ Hh Hstep) as [l ->].
      destruct first as [w|f| |];
        try (exfalso;
             refine (proj1 (expand_NOT_str_or_dict rt n) true _ None _ _ Hv); discriminate).
      rewrite Hst, expand_leaf; exact I. }
    destruct (negb (is_none second)); [|destruct (negb (is_none first))]; eauto. }
  destruct (cast_query rt agg e) as [[[]|err] ec]; [|discriminate].
  destruct ec as [w|f|first op0 second kw|first op0 second ty kw].
  - destruct (type_given ft); [intros [= _ <-] _; exact I|].
    destruct w as [| | | | | | |[]|]; intros [= _ <-] _; exact I.
  - intros [= _ <-] _. exact I.
  - destruct (expand_node _ _ _ _ _ _ _) as [r st'] eqn:E. intros [= -> <-] Hstep.
    destruct op0 as [[]|]; try exact I. exact (Hnode _ _ _ _ _ E eq_refl Hstep).
  - destruct (expand_node _ _ _ _ _ _ _) as [r st'] eqn:E. intros [= -> <-] Hstep.
    destruct op0 as [[]|]; try exact I. exact (Hnode _ _ _ _ _ E eq_refl Hstep).
Qed.

Lemma NOT_operands_snd (nt : negator) (agg : bool) (not_op : string) (f s : expr) :
  snd (NOT_operands nt agg not_op (f, s))
  = (snd (nt agg f),
     match fst (nt agg f) with
     | Returns _ => snd (nt agg s)
     | _ => s
     end).
Proof.
  unfold NOT_operands, op_bind, on_first, on_second, op_lift. cbn [fst snd].
  destruct (nt agg f) as [[a|e|] f']; cbn [fst snd]; try reflexivity.
  destruct (nt agg s) as [[b|e|] s']; reflexivity.
Qed.

(** Compiling a query, or negating it, keeps its settled form. *)
Lemma expand_NOT_settled (n : nat) :
  (forall agg e ft, settled rt agg (snd (expand rt n agg e ft)) = settled rt agg e)
  /\ (forall agg e, settled rt agg (snd (NOT_ rt n agg e)) = settled rt agg e).
Proof.
  induction n as [|n [IHe IHn]]; [split; reflexivity|].
  assert (Hnode : forall agg op kw first second,
             let st' := snd (expand_node rt (expand rt n) (NOT_ rt n) agg op kw (first, second)) in
             settled rt (child_agg op agg) (fst st') = settled rt (child_agg op agg) first
             /\ settled rt agg (snd st') = settled rt agg second).
  { intros agg op kw first second.
    set (I1 := fun e => settled rt (child_agg op agg) e = settled rt (child_agg op agg) first).
    set (I2 := fun e => settled rt agg e = settled rt agg second).
    assert (H2 : forall ft, run_inv True I2 any_value (fun s => expand rt n agg s ft)).
    { intros ft s Hs. unfold I2 in *. rewrite IHe. repeat split; auto. }
    assert (H : op_inv I1 I2 True any_value
                  (expand_node rt (expand rt n) (NOT_ rt n) agg op kw)).
    { assert (Hcall : forall o nargs,
                 op = OpFunc o ->
                 op_inv I1 I2 True any_value
                   (call_operator rt (expand rt n) (NOT_ rt n) agg o nargs kw)).
      { intros o nargs ->. destruct (operator_eq_dec o AGGREGATE) as [->|Ho].
        - unfold call_operator. destruct (negb _); [apply op_inv_fail|].
          apply AGGREGATE_inv; [intros; exact I|].
          intros f Hf. unfold I1 in *. cbn [child_agg] in *. rewrite IHe. repeat split; auto.
        - assert (Hc : child_agg (OpFunc o) agg = agg) by (destruct o; try reflexivity; congruence).
          apply call_operator_inv; try assumption; try (intros; exact I).
          + intros ft f Hf. unfold I1 in *. rewrite Hc in *. rewrite IHe. repeat split; auto.
          + intros f Hf. unfold I1 in *. rewrite Hc in *. rewrite IHn. repeat split; auto. }
      intros st Hst. unfold expand_node.
      destruct (negb (is_none (snd st))); [|destruct (negb (is_none (fst st)))];
        destruct op as [o|s]; try (apply (Hcall o _ eq_refl), Hst);
        (split; [exact Hst|]); split; try discriminate; intros; exact I. }
    destruct (H (first, second)) as [[H1' H2'] _]; [split; reflexivity|].
    split; assumption. }
  split.
  - intros agg e ft. cbn [expand]. unfold expand_body.
    pose proof (cast_query_settled rt agg e) as Hc.
    destruct (cast_query rt agg e) as [[[]|err] ec]; cbn [snd] in *; [|exact Hc].
    rewrite <- Hc. clear Hc.
    destruct ec as [w|f|first op second kw|first op second ty kw].
    + destruct (type_given ft); [reflexivity|].
      destruct w as [| | | | | | |[]|]; reflexivity.
    + reflexivity.
    + destruct (Hnode agg op kw first second) as [H1 H2].
      destruct (expand_node _ _ _ _ _ _ _) as [r st']. cbn [fst snd] in *.
      apply settled_query_congr; assumption.
    + destruct (Hnode agg op kw first second) as [H1 H2].
      destruct (expand_node _ _ _ _ _ _ _) as [r st']. cbn [fst snd] in *.
      apply settled_expr_congr; assumption.
  - intros agg e. cbn [NOT_]. unfold NOT_body.
    pose proof (IHe agg e None) as He.
    destruct (expand rt n agg e None) as [[op|err|] e1] eqn:Eexp; cbn [snd] in *;
      try exact He.
    rewrite <- He. clear He.
    unfold NOT_rewrite. destruct (NOT_step op) as [r|not_op] eqn:Hstep; [reflexivity|].
    pose proof (aggregate_demorgan_leaf _ _ _ _ _ _ _ Eexp Hstep) as Hleaf.
    assert (Hkids : forall f s o,
               (o = OpFunc AGGREGATE -> is_leaf f) ->
               let st' := snd (NOT_operands (NOT_ rt n) agg not_op (f, s)) in
               settled rt (child_agg o agg) (fst st') = settled rt (child_agg o agg) f
               /\ settled rt agg (snd st') = settled rt agg s).
    { intros f s o Ho. cbn zeta. rewrite NOT_operands_snd. cbn [fst snd]. split.
      - destruct (operator_eq_dec_ref o) as [->|Hne].
        + rewrite NOT_leaf; auto.
        + replace (child_agg o agg) with agg; [apply IHn|].
          destruct o as [[]|]; try reflexivity. congruence.
      - destruct (fst (NOT_ rt n agg f)); try reflexivity. apply IHn. }
    destruct e1 as [w|f|first o second kw|first o second ty kw]; cbn [operands];
      try reflexivity.
    + destruct (NOT_operands _ _ _ _); reflexivity.
    + destruct (Hkids first second o) as [H1 H2].
      { intros ->. exact Hleaf. }
      destruct (NOT_operands _ _ _ _) as [r st']. cbn [fst snd with_operands] in *.
      apply settled_query_congr; assumption.
    + destruct (Hkids first second o) as [H1 H2].
      { intros ->. exact Hleaf. }
      destruct (NOT_operands _ _ _ _) as [r st']. cbn [fst snd with_operands] in *.
      apply settled_expr_congr; assumption.
Qed.

End SettledKept2.

(** ** The expression compiler: a method run on two pairs of operands *)

(** What a method reads off an operand without compiling it. *)
Inductive expr_view : Type :=
| VLit (v : pyval)
| VField (f : Field)
| VQuery
| VExpr (ty : option string).

Definition view (e : expr) : expr_view :=
  match e with
  | Lit v => VLit v
  | FieldE f => VField (rename_id f)
  | QueryE _ _ _ _ => VQuery
  | ExprE _ _ _ ty _ => VExpr ty
  end.

Lemma view_is_none (e e' : expr) : view e = view e' -> is_none e = is_none e'.
Proof. destruct e, e'; cbn; try discriminate; try reflexivity. intros [= ->]. reflexivity. Qed.

Lemma view_type_of (e e' : expr) : view e = view e' -> type_of e = type_of e'.
Proof.
  destruct e as [|f| |], e' as [|g| |]; cbn; try discriminate; try reflexivity.
  - intros [= H]. do 2 f_equal. rewrite <- (rename_id_type f), H. apply rename_id_type.
  - intros [= ->]. reflexivity.
Qed.

Lemma view_belongs_items (e e' : expr) :
  view e = view e' -> belongs_items e = belongs_items e'.
Proof. destruct e, e'; cbn; try discriminate; try reflexivity. intros [= ->]. reflexivity. Qed.

Lemma view_is_text_type (e e' : expr) : view e = view e' -> is_text_type e = is_text_type e'.
Proof. intros H. unfold is_text_type. rewrite (view_type_of _ _ H). reflexivity. Qed.

(** The literal an operand is, if it is one. *)
Definition as_lit (e : expr) : option pyval :=
  match e with
  | Lit v => Some v
  | _ => None
  end.

Lemma view_as_lit (e e' : expr) : view e = view e' -> as_lit e = as_lit e'.
Proof. destruct e, e'; cbn; try discriminate; try reflexivity. intros [= ->]. reflexivity. Qed.

(** The branch [CONTAINS] takes. *)
Inductive contains_mode : Type :=
| ContainsOid (o : ObjectId.t)
| ContainsWhere (first_name second_name : string)
| ContainsRegex (whole_string : bool).

Definition contains_branch (first second : expr) : contains_mode :=
  match second, first with
  | Lit (POid o), _ => ContainsOid o
  | _, FieldE f =>
      if String.eqb (f_type f) "list:string" then
        match second with
        | FieldE g =>
            if String.eqb (f_type g) "string" then ContainsWhere (f_name f) (f_name g)
            else ContainsRegex true
        | _ => ContainsRegex true
        end
      else ContainsRegex false
  | _, _ => ContainsRegex false
  end.

Lemma CONTAINS_by_branch (rt : runtime) (ex : expander) (agg : bool) (cs : pyval)
      (st : expr * expr) :
  CONTAINS_ rt ex agg cs st
  = match contains_branch (fst st) (snd st) with
    | ContainsOid o =>
        (k <~ expand_first ex agg None ;; op_lift (dict1 k (POid o))) st
    | ContainsWhere a b =>
        op_ret (PDict [(PStr "$where", PStr ("this." ++ a ++ ".indexOf(this." ++ b ++ ") > -1"))])
               st
    | ContainsRegex ws =>
        (val <~ _build_like_regex rt ex agg (truthy cs) false false ws false ;;
         k <~ expand_first ex agg None ;;
         op_lift (dict1 k val)) st
    end.
Proof.
  destruct st as [first second]. unfold CONTAINS_, contains_branch, op_bind at 1 2.
  cbn [get_first get_second fst snd].
  destruct second as [[]|g| |]; destruct first as [|f| |]; try reflexivity;
    try (destruct (String.eqb (f_type f) "list:string"); reflexivity).
  destruct (String.eqb (f_type f) "list:string"); [|reflexivity].
  destruct (String.eqb (f_type g) "string"); reflexivity.
Qed.

Lemma view_field_name (f g : Field) (ty : string) :
  rename_id f = rename_id g -> String.eqb ty "id" = false ->
  String.eqb (f_type f) ty = true -> f_name f = f_name g.
Proof.
  intros H Hty Hf. apply String.eqb_eq in Hf. subst ty.
  rewrite (rename_id_eq_other f g); auto.
Qed.

Lemma view_contains_branch (f f' s s' : expr) :
  view f = view f' -> view s = view s' -> contains_branch f s = contains_branch f' s'.
Proof.
  intros Hf Hs.
  assert (Hty : forall a b : Field, rename_id a = rename_id b -> f_type a = f_type b).
  { intros a b H. rewrite <- (rename_id_type a), H. apply rename_id_type. }
  destruct s as [v|g| |], s' as [v'|g'| |]; cbn in Hs; try discriminate;
    destruct f as [w|a| |], f' as [w'|a'| |]; cbn in Hf; try discriminate;
    try (injection Hs as Hs); try (injection Hf as Hf); subst;
    unfold contains_branch; try reflexivity;
    try (rewrite (Hty a a' Hf));
    try (destruct v'; reflexivity).
  - destruct (String.eqb (f_type a') "list:string") eqn:Ea; [|reflexivity].
    rewrite <- (Hty a a' Hf) in Ea. rewrite (Hty g g' Hs).
    destruct (String.eqb (f_type g') "string") eqn:Eg; [|reflexivity].
    rewrite <- (Hty g g' Hs) in Eg.
    rewrite (view_field_name a a' "list:string" Hf eq_refl Ea).
    rewrite (view_field_name g g' "string" Hs eq_refl Eg). reflexivity.
  - reflexivity.
  - reflexivity.
Qed.

Definition outcome_rel {A : Type} (V : A -> A -> Prop) (o o' : outcome A) : Prop :=
  match o, o' with
  | Returns a, Returns b => V a b
  | Raises e, Raises e' => e = e'
  | OutOfFuel, OutOfFuel => True
  | _, _ => False
  end.

Lemma outcome_rel_eq {A : Type} (o o' : outcome A) : outcome_rel eq o o' <-> o = o'.
Proof.
  destruct o, o'; cbn; split; intros H; try congruence; try contradiction; try discriminate;
    auto.
Qed.

Section OpSim.

(** How the first and the second operands of the two runs are related. *)
Variables (R1 R2 : expr -> expr -> Prop).

Hypothesis R1_view : forall e e', R1 e e' -> view e = view e'.
Hypothesis R2_view : forall e e', R2 e e' -> view e = view e'.

Definition operands_rel (st st' : expr * expr) : Prop :=
  R1 (fst st) (fst st') /\ R2 (snd st) (snd st').

Definition op_sim {A : Type} (V : A -> A -> Prop) (m m' : opM A) : Prop :=
  forall st st', operands_rel st st' ->
                 operands_rel (snd (m st)) (snd (m' st'))
                 /\ outcome_rel V (fst (m st)) (fst (m' st')).

Definition run_sim (R : expr -> expr -> Prop) (run : expr -> outcome pyval * expr) : Prop :=
  forall e e', R e e' -> R (snd (run e)) (snd (run e')) /\ fst (run e) = fst (run e').

Lemma sim_ret {A : Type} (V : A -> A -> Prop) (a b : A) :
  V a b -> op_sim V (op_ret a) (op_ret b).
Proof. intros H st st' Hst. split; [exact Hst|exact H]. Qed.

Lemma sim_lift {A : Type} (r : res A) : op_sim eq (op_lift r) (op_lift r).
Proof. intros st st' Hst. split; [exact Hst|]. destruct r; reflexivity. Qed.

Lemma sim_bind {A B : Type} (V : A -> A -> Prop) (W : B -> B -> Prop)
      (m m' : opM A) (k k' : A -> opM B) :
  op_sim V m m' -> (forall a b, V a b -> op_sim W (k a) (k' b)) ->
  op_sim W (op_bind m k) (op_bind m' k').
Proof.
  intros Hm Hk st st' Hst. unfold op_bind. specialize (Hm st st' Hst).
  destruct (m st) as [[a|e|] s1], (m' st') as [[b|e'|] s2]; cbn in Hm;
    destruct Hm as [Hs Ho]; try contradiction.
  - apply Hk; assumption.
  - split; assumption.
  - split; assumption.
Qed.

Lemma sim_bind_eq {A B : Type} (W : B -> B -> Prop) (m m' : opM A) (k k' : A -> opM B) :
  op_sim eq m m' -> (forall a, op_sim W (k a) (k' a)) ->
  op_sim W (op_bind m k) (op_bind m' k').
Proof.
  intros Hm Hk. apply (sim_bind eq); [exact Hm|]. intros a b <-. apply Hk.
Qed.

Lemma sim_on_first (run : expr -> outcome pyval * expr) :
  run_sim R1 run -> op_sim eq (on_first run) (on_first run).
Proof.
  intros Hr [f s] [f' s'] [H1 H2]. unfold on_first. cbn [fst snd] in *.
  specialize (Hr f f' H1). destruct (run f) as [r f1], (run f') as [r' f1']. cbn in *.
  destruct Hr as [Hf ->]. split; [split; assumption|]. apply outcome_rel_eq. reflexivity.
Qed.

Lemma sim_on_second (run : expr -> outcome pyval * expr) :
  run_sim R2 run -> op_sim eq (on_second run) (on_second run).
Proof.
  intros Hr [f s] [f' s'] [H1 H2]. unfold on_second. cbn [fst snd] in *.
  specialize (Hr s s' H2). destruct (run s) as [r s1], (run s') as [r' s1']. cbn in *.
  destruct Hr as [Hs ->]. split; [split; assumption|]. apply outcome_rel_eq. reflexivity.
Qed.

Lemma sim_first_type : op_sim eq first_type first_type.
Proof.
  intros st st' Hst. split; [exact Hst|]. unfold first_type. cbn.
  rewrite (view_type_of _ _ (R1_view _ _ (proj1 Hst))). apply outcome_rel_eq. reflexivity.
Qed.

Lemma sim_get_first : op_sim R1 get_first get_first.
Proof. intros st st' Hst. split; [exact Hst|apply Hst]. Qed.

Lemma sim_get_second : op_sim R2 get_second get_second.
Proof. intros st st' Hst. split; [exact Hst|apply Hst]. Qed.

Lemma sim_const {A : Type} (o : outcome A) :
  op_sim eq (fun st => (o, st)) (fun st => (o, st)).
Proof. intros st st' Hst. split; [exact Hst|]. apply outcome_rel_eq. reflexivity. Qed.

Lemma sim_map {A B : Type} (f : A -> opM B) (l : list A) :
  (forall x, op_sim eq (f x) (f x)) -> op_sim eq (op_map f l) (op_map f l).
Proof.
  intros Hf. induction l as [|x l IH]; cbn [op_map].
  - apply sim_ret. reflexivity.
  - apply sim_bind_eq; [apply Hf|]. intros y.
    apply sim_bind_eq; [exact IH|]. intros ys. apply sim_ret. reflexivity.
Qed.

Lemma sim_catch {A : Type} (m m' : opM A) (e0 : pyerror) :
  op_sim eq m m' ->
  op_sim eq (fun st => match m st with
                       | (Returns v, st') => (Returns v, st')
                       | (Raises _, st') => (Raises e0, st')
                       | (OutOfFuel, st') => (OutOfFuel, st')
                       end)
            (fun st => match m' st with
                       | (Returns v, st') => (Returns v, st')
                       | (Raises _, st') => (Raises e0, st')
                       | (OutOfFuel, st') => (OutOfFuel, st')
                       end).
Proof.
  intros Hm st st' Hst. specialize (Hm st st' Hst).
  destruct (m st) as [[a|e|] s1], (m' st') as [[b|e'|] s2]; cbn in *;
    destruct Hm as [Hs Ho]; try contradiction; split; auto.
Qed.

Section Methods.

Variables (rt : runtime) (ex : expander) (nt : negator) (aggregate : bool).

Ltac sim_step :=
  lazymatch goal with
  | |- op_sim _ (op_bind _ _) (op_bind _ _) => apply sim_bind_eq; [|intro]
  | |- op_sim _ (op_lift _) (op_lift _) => apply sim_lift
  | |- op_sim _ (op_ret _) (op_ret _) => apply sim_ret; reflexivity
  | |- op_sim _ first_type first_type => apply sim_first_type
  | |- op_sim _ (if ?b then _ else _) _ => destruct b
  | |- op_sim _ (match ?x with _ => _ end) _ => destruct x
  end.

Section Aggregate.

Hypothesis HexT : run_sim R1 (fun f => ex true f None).

Lemma AGGREGATE_sim : op_sim eq (AGGREGATE_ ex) (AGGREGATE_ ex).
Proof.
  unfold AGGREGATE_. apply sim_catch.
  apply (sim_bind R2); [apply sim_get_second|]. intros a b Hab.
  replace (match b with
           | Lit w => if hashable w then dict_get _aggregate_map w else Err TypeError
           | _ => Err KeyError
           end)
    with (match a with
          | Lit w => if hashable w then dict_get _aggregate_map w else Err TypeError
          | _ => Err KeyError
          end).
  - repeat sim_step. apply sim_on_first, HexT.
  - apply R2_view in Hab. destruct a, b; cbn in Hab; try discriminate; try reflexivity.
    injection Hab as ->. reflexivity.
Qed.

End Aggregate.

Section Negation.

Hypothesis Hnt1 : run_sim R1 (nt aggregate).
Hypothesis Hnt2 : run_sim R2 (nt aggregate).

Lemma NOT_operands_sim (not_op : string) :
  op_sim eq (NOT_operands nt aggregate not_op) (NOT_operands nt aggregate not_op).
Proof.
  unfold NOT_operands. repeat sim_step.
  - apply sim_on_first, Hnt1.
  - apply sim_on_second, Hnt2.
Qed.

End Negation.

Hypothesis Hex1 : forall ft, run_sim R1 (fun f => ex aggregate f ft).
Hypothesis Hex2 : forall ft, run_sim R2 (fun s => ex aggregate s ft).
Hypothesis Hnt1 : run_sim R1 (nt aggregate).

Lemma expand_first_sim (ft : option string) :
  op_sim eq (expand_first ex aggregate ft) (expand_first ex aggregate ft).
Proof. apply sim_on_first, Hex1. Qed.

Lemma expand_second_sim (ft : option string) :
  op_sim eq (expand_second ex aggregate ft) (expand_second ex aggregate ft).
Proof. apply sim_on_second, Hex2. Qed.

Ltac sim_auto :=
  repeat first [ apply expand_first_sim | apply expand_second_sim | sim_step ].

Lemma compare_sim (code : string) :
  op_sim eq (compare ex aggregate code) (compare ex aggregate code).
Proof. unfold compare. sim_auto. Qed.

Lemma arith_sim (code : string) :
  op_sim eq (arith ex aggregate code) (arith ex aggregate code).
Proof. unfold arith. sim_auto. Qed.

Lemma _validate_second_sim : op_sim eq _validate_second _validate_second.
Proof.
  unfold _validate_second. apply (sim_bind R2); [apply sim_get_second|].
  intros a b Hab. rewrite (view_is_none _ _ (R2_view _ _ Hab)). sim_auto.
Qed.

Lemma _build_like_regex_sim (cs ew sw ws lw : bool) :
  op_sim eq (_build_like_regex rt ex aggregate cs ew sw ws lw)
            (_build_like_regex rt ex aggregate cs ew sw ws lw).
Proof. unfold _build_like_regex. sim_auto. Qed.

Lemma LIKE_sim (cs : pyval) :
  op_sim eq (LIKE_ rt ex aggregate cs) (LIKE_ rt ex aggregate cs).
Proof.
  unfold LIKE_. apply sim_bind_eq; [apply _build_like_regex_sim|]. intro. sim_auto.
Qed.

Lemma pattern_sim (cs ew sw ws lw : bool) :
  op_sim eq
    (regex <~ _build_like_regex rt ex aggregate cs ew sw ws lw ;;
     k <~ expand_first ex aggregate None ;; op_lift (dict1 k regex))
    (regex <~ _build_like_regex rt ex aggregate cs ew sw ws lw ;;
     k <~ expand_first ex aggregate None ;; op_lift (dict1 k regex)).
Proof.
  apply sim_bind_eq; [apply _build_like_regex_sim|]. intro. sim_auto.
Qed.

Lemma CONTAINS_sim (cs : pyval) :
  op_sim eq (CONTAINS_ rt ex aggregate cs) (CONTAINS_ rt ex aggregate cs).
Proof.
  intros st st' Hst. rewrite !CONTAINS_by_branch.
  rewrite (view_contains_branch _ _ _ _ (R1_view _ _ (proj1 Hst)) (R2_view _ _ (proj2 Hst))).
  destruct (contains_branch (fst st') (snd st')) as [o|a b|ws].
  - revert st st' Hst. change (op_sim eq
      (k <~ expand_first ex aggregate None ;; op_lift (dict1 k (POid o)))
      (k <~ expand_first ex aggregate None ;; op_lift (dict1 k (POid o)))). sim_auto.
  - split; [exact Hst|reflexivity].
  - apply pattern_sim. exact Hst.
Qed.

Lemma BELONGS_sim : op_sim eq (BELONGS_ ex aggregate) (BELONGS_ ex aggregate).
Proof.
  unfold BELONGS_. apply (sim_bind R2); [apply sim_get_second|].
  intros a b Hab. rewrite (view_belongs_items _ _ (R2_view _ _ Hab)).
  apply sim_bind_eq; [apply sim_lift|]. intros vs.
  apply sim_bind_eq; [|intro; sim_auto].
  apply sim_map. intros item. apply sim_bind_eq; [apply sim_first_type|].
  intros t. apply sim_const.
Qed.

Lemma ADD_sim : op_sim eq (ADD_ ex aggregate) (ADD_ ex aggregate).
Proof.
  unfold ADD_. apply (sim_bind R1); [apply sim_get_first|]. intros a b Hab.
  apply (sim_bind R2); [apply sim_get_second|]. intros c d Hcd.
  rewrite (view_is_text_type _ _ (R1_view _ _ Hab)), (view_is_text_type _ _ (R2_view _ _ Hcd)).
  apply arith_sim.
Qed.

Lemma COUNT_sim (nargs : nat) (kw : kwargs) :
  op_sim eq
    (second <~ get_second ;;
     match second with
     | Lit v => COUNT_ (if (nargs =? 2)%nat then v else kw_default kw "distinct" PNone)
     | _ => COUNT_ (PBool true)
     end)
    (second <~ get_second ;;
     match second with
     | Lit v => COUNT_ (if (nargs =? 2)%nat then v else kw_default kw "distinct" PNone)
     | _ => COUNT_ (PBool true)
     end).
Proof.
  apply (sim_bind R2); [apply sim_get_second|]. intros a b Hab.
  apply R2_view in Hab.
  destruct a, b; cbn in Hab; try discriminate; try injection Hab as ->;
    unfold COUNT_; sim_auto.
Qed.

(** Every method but [AGGREGATE]. *)
Lemma call_operator_sim (o : operator) (nargs : nat) (kw : kwargs) :
  o <> AGGREGATE ->
  op_sim eq (call_operator rt ex nt aggregate o nargs kw)
            (call_operator rt ex nt aggregate o nargs kw).
Proof.
  intros Ho. unfold call_operator.
  destruct (negb _); [apply sim_lift|].
  destruct o; try congruence;
    unfold INVERT_, AND_, OR_, EQ_, NE_, LT_, LE_, GT_, GE_, SUB_, MUL_, DIV_, MOD_,
      AS_, ON_, COMMA_, ILIKE_, STARTSWITH_, ENDSWITH_;
    try apply COUNT_sim; try apply ADD_sim; try apply BELONGS_sim; try apply CONTAINS_sim;
    try apply LIKE_sim; try apply pattern_sim;
    repeat first [ apply compare_sim | apply arith_sim | apply _validate_second_sim
                 | apply expand_first_sim | apply expand_second_sim
                 | apply sim_on_first, Hnt1 | sim_step ].
Qed.

End Methods.

End OpSim.

(** ** The expression compiler: queries with the same settled form compile alike *)

Section SettledEqual.

Variable rt : runtime.

(** The node is a Query on a field of type id or reference. *)
Definition id_node (e : expr) : bool :=
  match e with
  | QueryE f _ _ _ => id_first f
  | _ => false
  end.

Lemma settled_eq_view (agg : bool) (e e' : expr) :
  settled rt agg e = settled rt agg e' -> view e = view e'.
Proof.
  destruct e, e'; cbn; try discriminate; try congruence.
Qed.

Lemma settled_query_inv (agg : bool) (f1 : expr) (op : opref) (s1 : expr) (kw : kwargs)
      (e2 : expr) :
  settled rt agg (QueryE f1 op s1 kw) = settled rt agg e2 ->
  exists f2 s2, e2 = QueryE f2 op s2 kw
                /\ settled rt (child_agg op agg) f1 = settled rt (child_agg op agg) f2
                /\ settled_second rt agg f1 s1 = settled_second rt agg f2 s2.
Proof.
  destruct e2 as [| |f2 op2 s2 kw2|]; try discriminate.
  rewrite !settled_query. intros [= Hf -> Hs ->]. eauto.
Qed.

Lemma settled_expr_inv (agg : bool) (f1 : expr) (op : opref) (s1 : expr)
      (ty : option string) (kw : kwargs) (e2 : expr) :
  settled rt agg (ExprE f1 op s1 ty kw) = settled rt agg e2 ->
  exists f2 s2, e2 = ExprE f2 op s2 ty kw
                /\ settled rt (child_agg op agg) f1 = settled rt (child_agg op agg) f2
                /\ settled rt agg s1 = settled rt agg s2.
Proof.
  destruct e2 as [| | |f2 op2 s2 ty2 kw2]; try discriminate.
  cbn. intros [= Hf -> Hs -> ->]. eauto.
Qed.

Lemma settled_eq_id_node (agg : bool) (e e' : expr) :
  settled rt agg e = settled rt agg e' -> id_node e = id_node e'.
Proof.
  intros H. destruct e as [| |f1 op s1 kw|].
  - symmetry in H. apply settled_lit_inv in H. subst. reflexivity.
  - destruct e'; try discriminate. reflexivity.
  - destruct (settled_query_inv _ _ _ _ _ _ H) as (f2 & s2 & -> & Hf & _).
    exact (settled_eq_id_first rt _ _ _ Hf).
  - destruct e'; try discriminate. reflexivity.
Qed.

Lemma cast_query_other (agg : bool) (e : expr) :
  id_node e = false -> cast_query rt agg e = (Ok tt, e).
Proof.
  destruct e as [| |[]| ]; try reflexivity. cbn. intros ->. reflexivity.
Qed.

(** The query a compilation leaves behind, for an id node. *)
Lemma expand_id_query_snd (n : nat) (agg : bool) (f : Field) (op : opref) (s : expr)
      (kw : kwargs) (ft : option string) :
  is_id_or_reference f = true ->
  snd (expand rt (S n) agg (QueryE (FieldE f) op s kw) ft)
  = QueryE (FieldE (rename_id f)) op
           (match cast_second rt agg s with
            | Ok s' => s'
            | Err _ => s
            end) kw.
Proof.
  intros Hid.
  cbn [expand]. unfold expand_body. cbn [cast_query]. rewrite Hid.
  destruct (cast_second rt agg s) as [s'|e] eqn:Hcast; [|reflexivity].
  destruct (cast_second_lit _ _ _ _ Hcast) as [v ->].
  pose proof (expand_node_leaves rt n agg op kw (rename_id f) v) as H.
  destruct (expand_node _ _ _ _ _ _ _) as [r st']. cbn in H. subst st'. reflexivity.
Qed.

Lemma expand_id_query_fails (n : nat) (agg : bool) (f : Field) (op : opref) (s : expr)
      (kw : kwargs) (ft : option string) (e : pyerror) :
  is_id_or_reference f = true -> cast_second rt agg s = Err e ->
  fst (expand rt (S n) agg (QueryE (FieldE f) op s kw) ft) = Raises e.
Proof.
  intros Hid Hc. cbn [expand]. unfold expand_body. cbn [cast_query].
  rewrite Hid, Hc. reflexivity.
Qed.

(** Two id nodes with the same settled form: the same field up to the
    rename, and right operands that are cast alike. *)
Lemma settled_eq_id_nodes (agg : bool) (e1 e2 : expr) :
  settled rt agg e1 = settled rt agg e2 -> id_node e1 = true ->
  exists f1 f2 op s1 s2 kw,
    e1 = QueryE (FieldE f1) op s1 kw /\ e2 = QueryE (FieldE f2) op s2 kw
    /\ is_id_or_reference f1 = true /\ is_id_or_reference f2 = true
    /\ rename_id f1 = rename_id f2
    /\ cast_second rt agg s1 = cast_second rt agg s2.
Proof.
  intros H Hid. destruct e1 as [| |[|f1| |] op s1 kw|]; try discriminate.
  destruct (settled_query_inv _ _ _ _ _ _ H) as (g & s2 & -> & Hf & Hs).
  cbn [settled] in Hf. symmetry in Hf. apply settled_field_inv in Hf.
  destruct Hf as (f2 & -> & Hf).
  assert (Hid2 : is_id_or_reference f2 = true).
  { rewrite <- rename_id_is_id, Hf, rename_id_is_id. exact Hid. }
  exists f1, f2, op, s1, s2, kw. repeat split; auto.
  exact (settled_second_eq_cast rt agg (FieldE f1) (FieldE f2) s1 s2 Hid Hid2 Hs).
Qed.

Lemma expand_NOT_settled_eq (n : nat) :
  (forall agg e1 e2 ft,
      settled rt agg e1 = settled rt agg e2 ->
      fst (expand rt n agg e1 ft) = fst (expand rt n agg e2 ft))
  /\ (forall agg e1 e2,
         settled rt agg e1 = settled rt agg e2 ->
         fst (NOT_ rt n agg e1) = fst (NOT_ rt n agg e2)).
Proof.
  induction n as [|n [IHe IHn]]; [split; reflexivity|].
  destruct (expand_NOT_settled rt n) as [Ae An].
  assert (Hex : forall agg ft,
             run_sim (fun e e' => settled rt agg e = settled rt agg e')
                     (fun f => expand rt n agg f ft)).
  { intros agg ft e e' H. split; [rewrite !Ae; exact H|apply IHe, H]. }
  assert (Hnt : forall agg,
             run_sim (fun e e' => settled rt agg e = settled rt agg e') (NOT_ rt n agg)).
  { intros agg e e' H. split; [rewrite !An; exact H|apply IHn, H]. }
  assert (Hnode : forall agg op kw f1 s1 f2 s2,
             settled rt (child_agg op agg) f1 = settled rt (child_agg op agg) f2 ->
             settled rt agg s1 = settled rt agg s2 ->
             fst (expand_node rt (expand rt n) (NOT_ rt n) agg op kw (f1, s1))
             = fst (expand_node rt (expand rt n) (NOT_ rt n) agg op kw (f2, s2))).
  { intros agg op kw f1 s1 f2 s2 Hf Hs.
    set (R1 := fun e e' => settled rt (child_agg op agg) e = settled rt (child_agg op agg) e').
    set (R2 := fun e e' => settled rt agg e = settled rt agg e').
    assert (Hcall : forall o nargs,
               op = OpFunc o ->
               op_sim R1 R2 eq (call_operator rt (expand rt n) (NOT_ rt n) agg o nargs kw)
                               (call_operator rt (expand rt n) (NOT_ rt n) agg o nargs kw)).
    { intros o nargs ->. destruct (operator_eq_dec o AGGREGATE) as [->|Ho].
      - unfold call_operator. destruct (negb _); [apply sim_lift|].
        apply AGGREGATE_sim.
        + intros e e' He. exact (settled_eq_view agg e e' He).
        + exact (Hex true None).
      - assert (Hc : child_agg (OpFunc o) agg = agg) by (destruct o; try reflexivity; congruence).
        unfold R1. rewrite Hc.
        apply call_operator_sim; try assumption.
        + intros e e' He. exact (settled_eq_view agg e e' He).
        + intros e e' He. exact (settled_eq_view agg e e' He).
        + intros ft. apply Hex.
        + intros ft. apply Hex.
        + apply Hnt. }
    unfold expand_node. cbn [fst snd].
    rewrite (settled_eq_is_none rt _ _ _ Hf), (settled_eq_is_none rt _ _ _ Hs).
    destruct (negb (is_none s2)); [|destruct (negb (is_none f2))];
      destruct op as [o|s]; try reflexivity;
      apply outcome_rel_eq, (Hcall o _ eq_refl); split; assumption. }
  split.
  - intros agg e1 e2 ft H. cbn [expand]. unfold expand_body.
    destruct (id_node e1) eqn:Hid.
    + destruct (settled_eq_id_nodes _ _ _ H Hid)
        as (f1 & f2 & op & s1 & s2 & kw & -> & -> & H1 & H2 & Hr & Hc).
      cbn [cast_query]. rewrite H1, H2, Hr, Hc.
      destruct (cast_second rt agg s2); reflexivity.
    + rewrite (cast_query_other agg e1 Hid).
      rewrite (cast_query_other agg e2) by (rewrite <- (settled_eq_id_node _ _ _ H); exact Hid).
      destruct e1 as [v|f|f1 op s1 kw|f1 op s1 ty kw].
      * symmetry in H. apply settled_lit_inv in H. subst e2. reflexivity.
      * cbn in H. symmetry in H. apply settled_field_inv in H. destruct H as (g & -> & H).
        cbn [fst]. rewrite <- (rename_id_field_key agg g), H, rename_id_field_key. reflexivity.
      * destruct (settled_query_inv _ _ _ _ _ _ H) as (f2 & s2 & -> & Hf & Hs).
        cbn [id_node] in Hid. unfold settled_second in Hs.
        rewrite <- (settled_eq_id_first rt _ _ _ Hf), Hid in Hs.
        pose proof (Hnode agg op kw f1 s1 f2 s2 Hf Hs) as Hn.
        destruct (expand_node _ _ _ _ _ _ (f1, s1)), (expand_node _ _ _ _ _ _ (f2, s2)).
        exact Hn.
      * destruct (settled_expr_inv _ _ _ _ _ _ _ H) as (f2 & s2 & -> & Hf & Hs).
        pose proof (Hnode agg op kw f1 s1 f2 s2 Hf Hs) as Hn.
        destruct (expand_node _ _ _ _ _ _ (f1, s1)), (expand_node _ _ _ _ _ _ (f2, s2)).
        exact Hn.
  - intros agg e1 e2 H. cbn [NOT_]. unfold NOT_body.
    pose proof (IHe agg e1 e2 None H) as Hr.
    pose proof (Ae agg e1 None) as H1. pose proof (Ae agg e2 None) as H2.
    destruct (id_node e1) eqn:Hid.
    + (* both compilations leave the same node *)
      destruct (settled_eq_id_nodes _ _ _ H Hid)
        as (f1 & f2 & op & s1 & s2 & kw & -> & -> & Hi1 & Hi2 & Hrn & Hc).
      destruct n as [|m]; [reflexivity|].
      destruct (cast_second rt agg s1) as [c|e] eqn:Hcast.
      * pose proof (expand_id_query_snd m agg f1 op s1 kw None Hi1) as Ho1.
        pose proof (expand_id_query_snd m agg f2 op s2 kw None Hi2) as Ho2.
        rewrite <- Hrn, <- Hc in Ho2. rewrite Hcast in Ho1.
        destruct (expand rt (S m) agg (QueryE (FieldE f1) op s1 kw) None) as [r1 o1],
                 (expand rt (S m) agg (QueryE (FieldE f2) op s2 kw) None) as [r2 o2].
        cbn [fst snd] in *. subst r2 o1 o2.
        destruct r1 as [opv|e|]; reflexivity.
      * pose proof (expand_id_query_fails m agg f1 op s1 kw None e Hi1 Hcast) as Hf1.
        destruct (expand rt (S m) agg (QueryE (FieldE f1) op s1 kw) None) as [r1 o1],
                 (expand rt (S m) agg (QueryE (FieldE f2) op s2 kw) None) as [r2 o2].
        cbn [fst snd] in *. subst r2 r1. reflexivity.
    + assert (Ho : forall o1 o2,
                 settled rt agg o1 = settled rt agg o2 -> id_node o1 = false ->
                 forall opv,
                   fst (NOT_rewrite (NOT_ rt n) agg o1 opv)
                   = fst (NOT_rewrite (NOT_ rt n) agg o2 opv)).
      { intros o1 o2 Hs Hido opv. unfold NOT_rewrite.
        destruct (NOT_step opv) as [r|not_op]; [reflexivity|].
        assert (Hkids : forall f1 s1 f2 s2,
                   settled rt agg f1 = settled rt agg f2 ->
                   settled rt agg s1 = settled rt agg s2 ->
                   fst (NOT_operands (NOT_ rt n) agg not_op (f1, s1))
                   = fst (NOT_operands (NOT_ rt n) agg not_op (f2, s2))).
        { intros f1 s1 f2 s2 Hf Hs'.
          apply outcome_rel_eq.
          apply (NOT_operands_sim (fun e e' => settled rt agg e = settled rt agg e')
                                  (fun e e' => settled rt agg e = settled rt agg e')
                                  (NOT_ rt n) agg (Hnt agg) (Hnt agg) not_op);
            split; assumption. }
        assert (Hdown : forall op f1 f2,
                   settled rt (child_agg op agg) f1 = settled rt (child_agg op agg) f2 ->
                   settled rt agg f1 = settled rt agg f2).
        { intros op f1 f2. destruct op as [[]|]; cbn [child_agg]; auto.
          apply settled_down. }
        destruct o1 as [v|f|f1 op s1 kw|f1 op s1 ty kw].
        - symmetry in Hs. apply settled_lit_inv in Hs. subst o2. reflexivity.
        - cbn in Hs. symmetry in Hs. apply settled_field_inv in Hs.
          destruct Hs as (g & -> & _). cbn [operands].
          destruct (NOT_operands _ _ _ _). reflexivity.
        - destruct (settled_query_inv _ _ _ _ _ _ Hs) as (f2 & s2 & -> & Hf & Hs2).
          cbn [id_node] in Hido. unfold settled_second in Hs2.
          rewrite <- (settled_eq_id_first rt _ _ _ Hf), Hido in Hs2.
          cbn [operands].
          pose proof (Hkids f1 s1 f2 s2 (Hdown _ _ _ Hf) Hs2) as Hk.
          destruct (NOT_operands _ _ _ (f1, s1)), (NOT_operands _ _ _ (f2, s2)). exact Hk.
        - destruct (settled_expr_inv _ _ _ _ _ _ _ Hs) as (f2 & s2 & -> & Hf & Hs2).
          cbn [operands].
          pose proof (Hkids f1 s1 f2 s2 (Hdown _ _ _ Hf) Hs2) as Hk.
          destruct (NOT_operands _ _ _ (f1, s1)), (NOT_operands _ _ _ (f2, s2)). exact Hk. }
      destruct (expand rt n agg e1 None) as [r1 o1], (expand rt n agg e2 None) as [r2 o2].
      cbn [fst snd] in *. subst r2.
      destruct r1 as [opv|e|]; try reflexivity.
      apply Ho; [congruence|].
      rewrite (settled_eq_id_node agg o1 e1 H1). exact Hid.
Qed.

End SettledEqual.

(** ** The expression compiler: enough fuel *)

Section EnoughFuel.

Variable rt : runtime.

Lemma height_pos (e : expr) : (1 <= height e)%nat.
Proof. destruct e; cbn; lia. Qed.

(** With fuel for twice the height of the query the compiler returns or
    raises: the bound of the model is not reached. *)
Lemma expand_NOT_enough (n : nat) :
  (forall agg e ft, (2 * height e <= S n)%nat -> fst (expand rt n agg e ft) <> OutOfFuel)
  /\ (forall agg e, (2 * height e <= n)%nat -> fst (NOT_ rt n agg e) <> OutOfFuel).
Proof.
  induction n as [|n [IHe IHn]].
  { split; intros; pose proof (height_pos e); lia. }
  destruct (expand_NOT_settled rt n) as [Ae An].
  assert (Hex : forall agg ft,
             run_inv False (fun e => (2 * height e <= n)%nat) any_value
                     (fun e => expand rt n agg e ft)).
  { intros agg ft e He. split; [|split; [|intros; exact I]].
    - rewrite (settled_eq_height rt agg _ e (Ae agg e ft)). exact He.
    - apply IHe. lia. }
  assert (Hnt : forall agg,
             run_inv False (fun e => (2 * height e <= n)%nat) any_value (NOT_ rt n agg)).
  { intros agg e He. split; [|split; [|intros; exact I]].
    - rewrite (settled_eq_height rt agg _ e (An agg e)). exact He.
    - apply IHn. exact He. }
  split.
  - intros agg e ft He. cbn [expand]. unfold expand_body.
    pose proof (cast_query_settled rt agg e) as Hc.
    destruct (cast_query rt agg e) as [[[]|err] ec]; cbn [snd] in Hc; [|discriminate].
    apply settled_eq_height in Hc. rewrite <- Hc in He. clear Hc.
    assert (Hnode : forall op kw first second,
               (2 * height first <= n)%nat -> (2 * height second <= n)%nat ->
               fst (expand_node rt (expand rt n) (NOT_ rt n) agg op kw (first, second))
               <> OutOfFuel).
    { intros op kw first second Hf Hs Hoof.
      assert (Hlit : forall v ft', fst (expand rt n agg (Lit v) ft') = OutOfFuel -> False).
      { intros v ft'. apply IHe. pose proof (height_pos first). cbn. lia. }
      assert (Hcall : forall o nargs,
                 op_inv (fun e => (2 * height e <= n)%nat) (fun e => (2 * height e <= n)%nat)
                        False any_value
                        (call_operator rt (expand rt n) (NOT_ rt n) agg o nargs kw)).
      { intros o nargs. destruct (operator_eq_dec o AGGREGATE) as [->|Ho].
        - unfold call_operator. destruct (negb _); [apply op_inv_fail|].
          apply AGGREGATE_inv; [intros; exact I|]. apply Hex.
        - apply call_operator_inv; try assumption; try (intros; exact I); auto. }
      unfold expand_node in Hoof. cbn [fst snd] in Hoof.
      destruct (negb (is_none second)); [|destruct (negb (is_none first))];
        destruct op as [o|s]; try discriminate;
        match type of Hoof with
        | fst (call_operator _ _ _ _ _ ?k _ _) = _ =>
            destruct (Hcall o k (first, second)) as (_ & Hq & _); [split; assumption|];
            exact (Hq Hoof)
        end. }
    destruct ec as [w|f|first op second kw|first op second ty kw].
    + destruct (type_given ft); [destruct (represent rt agg w ft); discriminate|].
      destruct w as [| | | | | | |[]|]; try discriminate;
        destruct (mapM _ _); discriminate.
    + discriminate.
    + cbn [height] in He.
      pose proof (Hnode op kw first second ltac:(lia) ltac:(lia)) as Hn.
      destruct (expand_node _ _ _ _ _ _ _). exact Hn.
    + cbn [height] in He.
      pose proof (Hnode op kw first second ltac:(lia) ltac:(lia)) as Hn.
      destruct (expand_node _ _ _ _ _ _ _). exact Hn.
  - intros agg e He. cbn [NOT_]. unfold NOT_body.
    pose proof (IHe agg e None ltac:(lia)) as Hexp.
    pose proof (settled_eq_height rt agg _ e (Ae agg e None)) as Hh.
    destruct (expand rt n agg e None) as [[op|err|] e1]; cbn [fst snd] in *;
      [|discriminate|congruence].
    unfold NOT_rewrite. destruct (NOT_step op) as [r|not_op]; [destruct r; discriminate|].
    assert (Hkids : forall f s,
               (2 * height f <= n)%nat -> (2 * height s <= n)%nat ->
               fst (NOT_operands (NOT_ rt n) agg not_op (f, s)) <> OutOfFuel).
    { intros f s Hf Hs Hoof.
      destruct (NOT_operands_inv (fun e => (2 * height e <= n)%nat)
                                 (fun e => (2 * height e <= n)%nat) False any_value
                                 (fun _ => I) (NOT_ rt n) agg (Hnt agg) (Hnt agg) not_op (f, s))
        as (_ & Hq & _); [split; assumption|]. exact (Hq Hoof). }
    destruct e1 as [w|f|first op0 second kw|first op0 second ty kw]; cbn [operands].
    + discriminate.
    + cbn [height] in Hh.
      pose proof (Hkids (Lit PNone) (Lit PNone) ltac:(cbn; lia) ltac:(cbn; lia)) as Hk.
      destruct (NOT_operands _ _ _ _). exact Hk.
    + cbn [height] in Hh.
      pose proof (Hkids first second ltac:(lia) ltac:(lia)) as Hk.
      destruct (NOT_operands _ _ _ _). exact Hk.
    + cbn [height] in Hh.
      pose proof (Hkids first second ltac:(lia) ltac:(lia)) as Hk.
      destruct (NOT_operands _ _ _ _). exact Hk.
Qed.

End EnoughFuel.

(** ** Negation: De Morgan and double negation *)

Section Negation.

Variable rt : runtime.

Lemma expand_q_not (n : nat) (agg : bool) (a : expr) (ft : option string) :
  is_query a ->
  expand rt (S n) agg (q_not a) ft = (fst (NOT_ rt n agg a), q_not (snd (NOT_ rt n agg a))).
Proof.
  destruct a as [| |f o s kw|]; try contradiction. intros _.
  unfold q_not. cbn [expand]. unfold expand_body. cbn [cast_query].
  unfold expand_node. cbn [fst snd is_none negb].
  unfold call_operator. cbn. unfold on_first. cbn [fst snd].
  destruct (NOT_ rt n agg (QueryE f o s kw)). reflexivity.
Qed.

Definition junction_code (c : operator) : string :=
  match c with
  | OR => "$or"
  | _ => "$and"
  end.

Definition junction (c : operator) (ra rb : outcome pyval) : outcome pyval :=
  match ra with
  | Returns va =>
      match rb with
      | Returns vb => Returns (PDict [(PStr (junction_code c), PSeq KList [va; vb])])
      | r => r
      end
  | r => r
  end.

Lemma expand_junction (c : operator) (n : nat) (agg : bool) (a b : expr) (ft : option string) :
  c = AND \/ c = OR -> is_query a -> is_query b ->
  expand rt (S n) agg (QueryE a (OpFunc c) b []) ft =
    match expand rt n agg a None with
    | (Returns va, a1) =>
        (junction c (Returns va) (fst (expand rt n agg b None)),
         QueryE a1 (OpFunc c) (snd (expand rt n agg b None)) [])
    | (r, a1) => (r, QueryE a1 (OpFunc c) b [])
    end.
Proof.
  intros Hc Ha Hb.
  destruct a as [| |fa oa sa kwa|]; try contradiction.
  destruct b as [| |fb ob sb kwb|]; try contradiction.
  cbn [expand]. unfold expand_body. cbn [cast_query].
  unfold expand_node. cbn [fst snd is_none negb].
  destruct Hc as [-> | ->]; unfold call_operator; cbn -[expand];
    unfold AND_, OR_, op_bind, expand_first, expand_second, on_first, on_second, op_lift;
    cbn [fst snd];
    destruct (expand rt n agg (QueryE fa oa sa kwa) None) as [[va|e|] a1]; try reflexivity;
    cbn [fst snd];
    destruct (expand rt n agg (QueryE fb ob sb kwb) None) as [[vb|e|] b1]; reflexivity.
Qed.

Lemma NOT_S (n : nat) (agg : bool) (e : expr) :
  NOT_ rt (S n) agg e = NOT_body (expand rt n) (NOT_ rt n) agg e.
Proof. reflexivity. Qed.

Lemma NOT_of_failed (n : nat) (agg : bool) (e : expr) :
  returned (fst (expand rt n agg e None)) = None ->
  returned (fst (NOT_ rt (S n) agg e)) = None.
Proof.
  rewrite NOT_S. unfold NOT_body.
  destruct (expand rt n agg e None) as [[v|err|] e1]; cbn; try reflexivity. discriminate.
Qed.

Lemma NOT_step_junction (c : operator) (va vb : pyval) :
  c = AND \/ c = OR ->
  NOT_step (PDict [(PStr (junction_code c), PSeq KList [va; vb])])
  = NotDeMorgan (match c with OR => "$and" | _ => "$or" end).
Proof. intros [-> | ->]; reflexivity. Qed.

(** [NOT] of a conjunction or disjunction compiles to what the junction of
    the negated operands under the dual operator compiles to. *)
Lemma expand_de_morgan (c c' : operator) (m : nat) (agg : bool) (a b : expr) :
  (c = AND /\ c' = OR) \/ (c = OR /\ c' = AND) -> is_query a -> is_query b ->
  returned (fst (expand rt (S (S (S m))) agg (q_not (QueryE a (OpFunc c) b [])) None))
  = returned (fst (expand rt (S (S (S m))) agg
                          (QueryE (q_not a) (OpFunc c') (q_not b) []) None)).
Proof.
  intros Hc Ha Hb.
  assert (Hc1 : c = AND \/ c = OR) by tauto.
  assert (Hc2 : c' = AND \/ c' = OR) by tauto.
  assert (Hcode : junction_code c' = match c with OR => "$and" | _ => "$or" end).
  { destruct Hc as [[-> ->]|[-> ->]]; reflexivity. }
  destruct (expand_NOT_settled rt m) as [Ae _].
  destruct (expand_NOT_settled_eq rt (S m)) as [_ Bn].
  rewrite expand_q_not by exact I.
  rewrite (expand_junction c') by (assumption || exact I).
  rewrite !expand_q_not by assumption.
  cbn [fst snd].
  rewrite (NOT_S (S m) agg (QueryE a (OpFunc c) b [])). unfold NOT_body.
  rewrite (expand_junction c) by assumption.
  pose proof (Ae agg a None) as Sa. pose proof (Ae agg b None) as Sb.
  pose proof (NOT_of_failed m agg a) as Fa. pose proof (NOT_of_failed m agg b) as Fb.
  destruct (expand rt m agg a None) as [[va|e|] a1]; cbn [fst snd] in *;
    [|destruct (NOT_ rt (S m) agg a) as [[]]; cbn [fst snd returned] in *;
      solve [reflexivity | discriminate (Fa eq_refl)]..].
  destruct (expand rt m agg b None) as [[vb|e|] b1]; cbn [fst snd junction] in *;
    [|destruct (NOT_ rt (S m) agg a) as [[]]; cbn [fst snd returned junction];
      try reflexivity;
      destruct (NOT_ rt (S m) agg b) as [[]]; cbn [fst snd returned junction] in *;
      solve [reflexivity | discriminate (Fb eq_refl)]..].
  clear Fa Fb.
  unfold NOT_rewrite. rewrite NOT_step_junction by assumption. cbn [operands].
  unfold NOT_operands, op_bind, on_first, on_second, op_lift. cbn [fst snd].
  pose proof (Bn agg a1 a Sa) as Ea. pose proof (Bn agg b1 b Sb) as Eb.
  destruct (NOT_ rt (S m) agg a1) as [ra a2]. destruct (NOT_ rt (S m) agg a) as [ra' a2'].
  cbn [fst snd] in *. subst ra'.
  destruct ra as [v1|e|]; cbn [fst snd returned junction]; try reflexivity.
  destruct (NOT_ rt (S m) agg b1) as [rb b2]. destruct (NOT_ rt (S m) agg b) as [rb' b2'].
  cbn [fst snd] in *. subst rb'.
  destruct rb as [v2|e|]; cbn [fst snd returned junction of_res dict1 hashable];
    try reflexivity.
  rewrite Hcode. reflexivity.
Qed.


Lemma NOT_step_plain (k body : pyval) :
  hashable k = true -> plain_body body = true ->
  NOT_step (PDict [(k, body)]) = NotDone (Ok (PDict [(k, PDict [(PStr "$ne", body)])])).
Proof.
  intros Hk Hb. unfold NOT_step. cbn [first_item py_iter map fst res_bind].
  unfold py_getitem. rewrite Hk, dict_get_head. unfold dict1. rewrite Hk.
  destruct body as [| | | | | | |[]|]; try discriminate; reflexivity.
Qed.

Lemma NOT_step_ne (k body : pyval) :
  hashable k = true ->
  NOT_step (PDict [(k, PDict [(PStr "$ne", body)])]) = NotDone (Ok (PDict [(k, body)])).
Proof.
  intros Hk. unfold NOT_step. cbn [first_item py_iter map fst res_bind].
  unfold py_getitem. rewrite Hk, dict_get_head. cbn [map fst].
  rewrite pyval_eqb_refl, dict_get_head. unfold dict1. rewrite Hk. reflexivity.
Qed.

(** What [f == v] compiles to is a dictionary with one key. *)
Lemma expand_q_eq_returns (n : nat) (agg : bool) (f : Field) (s : expr) (frag : pyval) :
  fst (expand rt n agg (q_eq f s) None) = Returns frag ->
  exists k body, frag = PDict [(k, body)] /\ hashable k = true.
Proof.
  destruct n as [|n]; [discriminate|].
  unfold q_eq. cbn [expand]. unfold expand_body.
  assert (Hc : exists f' s', snd (cast_query rt agg (QueryE (FieldE f) (OpFunc EQ) s []))
                             = QueryE (FieldE f') (OpFunc EQ) s' []).
  { cbn [cast_query]. destruct (is_id_or_reference f); [|do 2 eexists; reflexivity].
    destruct (cast_second rt agg s); do 2 eexists; reflexivity. }
  destruct Hc as (f' & s' & Hc).
  destruct (cast_query rt agg _) as [[[]|err] ec]; [|discriminate].
  cbn [snd] in Hc. subst ec.
  assert (Hcall : forall st,
             fst (EQ_ (expand rt n) agg st) = Returns frag ->
             exists k body, frag = PDict [(k, body)] /\ hashable k = true).
  { intros st. unfold EQ_, op_bind, expand_first, expand_second, on_first, on_second,
      first_type, op_lift.
    destruct (expand rt n agg (fst st) None) as [[k|e|] f1]; try discriminate.
    cbn [fst snd]. destruct (type_of f1) as [t|e]; [|discriminate]. cbn [of_res].
    destruct (expand rt n agg (snd st) t) as [[v|e|] s1]; try discriminate.
    unfold dict1. destruct (hashable k) eqn:Hk; [|discriminate].
    intros [= <-]. eauto. }
  unfold expand_node. cbn [fst snd is_none negb].
  destruct (negb (is_none s')); unfold call_operator; cbn [Nat.leb andb negb];
    change (kw_accepted [] []) with true; cbn [negb];
    match goal with
    | |- context [EQ_ ?x ?y ?z] =>
        pose proof (Hcall z) as H; destruct (EQ_ x y z); exact H
    end.
Qed.

(** Negating twice an equality whose compiled right-hand side is neither
    a list nor a dictionary gives the equality back. *)
Lemma expand_double_negation (n : nat) (agg : bool) (f : Field) (s : expr) (k body : pyval) :
  fst (expand rt n agg (q_eq f s) None) = Returns (PDict [(k, body)]) ->
  plain_body body = true ->
  fst (expand rt (4 + n) agg (q_not (q_not (q_eq f s))) None) = Returns (PDict [(k, body)]).
Proof.
  intros He Hb.
  destruct (expand_q_eq_returns _ _ _ _ _ He) as (k' & body' & [= <- <-] & Hk).
  assert (H1 : fst (NOT_ rt (S n) agg (q_eq f s))
               = Returns (PDict [(k, PDict [(PStr "$ne", body)])])).
  { rewrite NOT_S. unfold NOT_body.
    destruct (expand rt n agg (q_eq f s) None) as [r e1]. cbn [fst] in He. subst r.
    unfold NOT_rewrite. rewrite NOT_step_plain by assumption. reflexivity. }
  cbn [Nat.add]. rewrite expand_q_not by exact I. cbn [fst].
  rewrite NOT_S. unfold NOT_body. rewrite expand_q_not by exact I.
  destruct (NOT_ rt (S n) agg (q_eq f s)) as [r e1]. cbn [fst snd] in *. subst r.
  unfold NOT_rewrite. rewrite NOT_step_ne by assumption. reflexivity.
Qed.


End Negation.

(** C3 (amended).  For all queries [a] and [b], with fuel for the height of
    the query: [NOT(AND(a, b))] compiles to a fragment exactly when
    [OR(NOT(a), NOT(b))] does, and to the same one; dually for
    [NOT(OR(a, b))] and [AND(NOT(a), NOT(b))].  For every field [f] and
    right-hand side [v]: when [EQ(f, v)] compiles to [{k: body}] with [body]
    neither a list nor a dictionary, [NOT(NOT(EQ(f, v)))] compiles to the
    same [{k: body}]. *)
Theorem negation_de_morgan_and_double (rt : runtime) (agg : bool) (n : nat) :
  (forall a b,
      is_query a -> is_query b -> (2 * height (q_not (q_and a b)) <= S n)%nat ->
      fst (expand rt n agg (q_not (q_and a b)) None) <> OutOfFuel
      /\ fst (expand rt n agg (q_or (q_not a) (q_not b)) None) <> OutOfFuel
      /\ returned (fst (expand rt n agg (q_not (q_and a b)) None))
         = returned (fst (expand rt n agg (q_or (q_not a) (q_not b)) None)))
  /\ (forall a b,
         is_query a -> is_query b -> (2 * height (q_not (q_or a b)) <= S n)%nat ->
         fst (expand rt n agg (q_not (q_or a b)) None) <> OutOfFuel
         /\ fst (expand rt n agg (q_and (q_not a) (q_not b)) None) <> OutOfFuel
         /\ returned (fst (expand rt n agg (q_not (q_or a b)) None))
            = returned (fst (expand rt n agg (q_and (q_not a) (q_not b)) None)))
  /\ (forall f v k body,
         fst (expand rt n agg (q_eq f v) None) = Returns (PDict [(k, body)]) ->
         plain_body body = true ->
         fst (expand rt (4 + n) agg (q_not (q_not (q_eq f v))) None)
         = Returns (PDict [(k, body)])).
Proof.
  destruct (expand_NOT_enough rt n) as [Hfuel _].
  assert (Hh : forall c c' a b,
             height (QueryE (q_not a) (OpFunc c') (q_not b) [])
             = height (q_not (QueryE a (OpFunc c) b []))).
  { intros c c' a b. pose proof (height_pos a). pose proof (height_pos b). cbn. lia. }
  split; [|split].
  - intros a b Ha Hb Hn. split; [|split].
    + apply Hfuel. exact Hn.
    + apply Hfuel. unfold q_or. rewrite (Hh AND). exact Hn.
    + pose proof (height_pos a). destruct n as [|[|[|m]]]; try (cbn in Hn; lia).
      apply (expand_de_morgan rt AND OR); auto.
  - intros a b Ha Hb Hn. split; [|split].
    + apply Hfuel. exact Hn.
    + apply Hfuel. unfold q_and. rewrite (Hh OR). exact Hn.
    + pose proof (height_pos a). destruct n as [|[|[|m]]]; try (cbn in Hn; lia).
      apply (expand_de_morgan rt OR AND); auto.
  - intros f v k body. apply expand_double_negation.
Qed.

Lemma negation_de_morgan_and_double_witness :
  let year := mkField "year" "integer" "book" "CASCADE" in
  let title := mkField "title" "string" "book" "CASCADE" in
  let a := q_eq year (Lit (PInt 1984)) in
  let b := q_eq title (Lit (PStr "x")) in
  returned (fst (expand sample_runtime 9 false (q_not (q_and a b)) None))
  = returned (fst (expand sample_runtime 9 false (q_or (q_not a) (q_not b)) None))
  /\ returned (fst (expand sample_runtime 9 false (q_not (q_or a b)) None))
     = returned (fst (expand sample_runtime 9 false (q_and (q_not a) (q_not b)) None))
  /\ fst (expand sample_runtime (4 + 9) false (q_not (q_not a)) None)
     = Returns (PDict [(PStr "year", PInt 1984)]).
Proof.
  intros year title a b.
  destruct (negation_de_morgan_and_double sample_runtime false 9) as (Hand & Hor & Hnn).
  split; [|split].
  - apply (Hand a b); [exact I|exact I|vm_compute; lia].
  - apply (Hor a b); [exact I|exact I|vm_compute; lia].
  - apply (Hnn year (Lit (PInt 1984))); reflexivity.
Defined.

(** C3, as stated, fails for double negation: an equality with an
    expression on the right compiles to [{year: {$add: [...]}}], a
    dictionary body that is no [$ne] test, which each [NOT] wraps in
    [$not]. *)
Lemma double_negation_counterexample :
  let year := mkField "year" "integer" "book" "CASCADE" in
  let b := q_eq year (ExprE (FieldE year) (OpFunc ADD) (Lit (PInt 1)) (Some "integer") []) in
  fst (expand sample_runtime 9 false b None)
  = Returns (PDict [(PStr "year",
                     PDict [(PStr "$add", PSeq KList [PStr "year"; PInt 1])])])
  /\ fst (expand sample_runtime 13 false (q_not (q_not b)) None)
     = Returns (PDict [(PStr "year",
                        PDict [(PStr "$not",
                          PDict [(PStr "$not",
                            PDict [(PStr "$add",
                                    PSeq KList [PStr "year"; PInt 1])])])])])
  /\ fst (expand sample_runtime 13 false (q_not (q_not b)) None)
     <> fst (expand sample_runtime 9 false b None).
Proof.
  cbv zeta. split; [vm_compute; reflexivity|]. split; [vm_compute; reflexivity|].
  vm_compute. intros E. discriminate E.
Qed.

(** [NOT] takes a body that is a list for the operands of [$and] or
    [$or]: an equality on a list field compiles to [{tags: ["a"]}], and its
    negation negates the operands of the equality, a field and a list, and
    raises. *)
Example NOT_of_list_equality_raises :
  let tags := mkField "tags" "list:string" "book" "CASCADE" in
  let a := q_eq tags (Lit (PSeq KList [PStr "a"])) in
  fst (expand sample_runtime 9 false a None)
  = Returns (PDict [(PStr "tags", PSeq KList [PStr "a"])])
  /\ fst (expand sample_runtime 9 false (q_not a) None) = Raises TypeError.
Proof. vm_compute. split; reflexivity. Qed.

(** ** Code that runs against the database *)

Lemma db_bind_eq {A B : Type} (m : dbM A) (k : A -> dbM B) (st st1 : mongo) (a : A) :
  m st = (Returns a, st1) -> db_bind m k st = k a st1.
Proof. intros H. unfold db_bind. rewrite H. reflexivity. Qed.

Lemma db_bind_fails {A B : Type} (m : dbM A) (k : A -> dbM B) (st : mongo) :
  returned (fst (m st)) = None ->
  returned (fst (db_bind m k st)) = None /\ snd (db_bind m k st) = snd (m st).
Proof.
  unfold db_bind. destruct (m st) as [[a|e|] st1]; cbn; try discriminate; auto.
Qed.

(** Code that leaves the database as it is. *)
Definition pure {A : Type} (m : dbM A) : Prop := forall st, snd (m st) = st.

Lemma pure_eq {A : Type} (m : dbM A) (st : mongo) (o : outcome A) :
  pure m -> fst (m st) = o -> m st = (o, st).
Proof.
  intros Hp Ho. specialize (Hp st). destruct (m st) as [o' st']. cbn in *. congruence.
Qed.

Lemma pure_out {A : Type} (o : outcome A) : pure (db_out o).
Proof. intros st. reflexivity. Qed.

Lemma pure_lift {A : Type} (r : res A) : pure (db_lift r).
Proof. intros st. reflexivity. Qed.

Lemma pure_ret {A : Type} (a : A) : pure (db_ret a).
Proof. intros st. reflexivity. Qed.

Lemma pure_raise {A : Type} (e : pyerror) : pure (@db_raise A e).
Proof. intros st. reflexivity. Qed.

Lemma pure_bind {A B : Type} (m : dbM A) (k : A -> dbM B) :
  pure m -> (forall a, pure (k a)) -> pure (db_bind m k).
Proof.
  intros Hm Hk st. unfold db_bind. specialize (Hm st).
  destruct (m st) as [[a|e|] st1]; cbn in *; subst; auto. apply Hk.
Qed.

Section ExecutorFacts.

Variable rt : runtime.
Variable sv : server.
Variable ad : adapter.
Variable cfuel : nat.

Lemma pure_self_expand (e : expr) : pure (self_expand rt cfuel e).
Proof. apply pure_out. Qed.

Lemma pure_expand_aggregate (e : expr) (ft : option string) :
  pure (expand_aggregate rt cfuel e ft).
Proof. apply pure_out. Qed.

Lemma pure_sort_list (o : option order_spec) : pure (sort_list rt cfuel o).
Proof.
  unfold sort_list. destruct o as [o|]; [|apply pure_ret].
  destruct (order_truthy o); [|apply pure_ret].
  apply pure_bind; [apply pure_lift|]. intros e.
  apply pure_bind; [apply pure_self_expand|]. intros s.
  destruct (as_basestring s); [apply pure_ret|apply pure_raise].
Qed.

Lemma pure_name_fields (fields : list expr) (projection : list (pyval * pyval)) :
  pure (name_fields rt cfuel fields projection).
Proof.
  revert projection. induction fields as [|field r IH]; intros projection; cbn [name_fields].
  - apply pure_ret.
  - destruct (negb (isinstance_Field field)).
    + apply pure_bind; [apply pure_expand_aggregate|]. intros p.
      destruct field; try apply pure_raise;
        (apply pure_bind; [apply IH|intros; apply pure_ret]).
    + apply pure_bind; [apply IH|intros; apply pure_ret].
Qed.

Lemma pure_update_projection (fields : list (Field * expr))
    (projection : list (pyval * pyval)) :
  pure (update_projection rt ad cfuel fields projection).
Proof.
  revert projection. induction fields as [|[field value] r IH]; intros projection;
    cbn [update_projection].
  - apply pure_ret.
  - destruct (negb (is_id_name (f_name field))); [|apply IH].
    apply pure_bind; [apply pure_expand_aggregate|]. intros expanded.
    apply pure_bind; [destruct (negb _); [apply pure_lift|apply pure_ret]|].
    intros expanded'. apply IH.
Qed.

(** What the calls of the driver do. *)
Lemma find_eq (c : collection) (flt : pyval) (options : option find_options) (st : mongo) :
  find sv c flt options st =
    (Returns (match options with
              | None => map doc_dict (filter (matches sv flt) (collections st (fst c)))
              | Some o => sv_find sv o (filter (matches sv flt) (collections st (fst c)))
              end),
     mkMongo (collections st) (calls st ++ [Find (fst c) flt options])).
Proof. reflexivity. Qed.

Lemma count_documents_eq (c : collection) (flt : pyval) (st : mongo) :
  count_documents sv c flt st =
    (Returns (Z.of_nat (List.length (filter (matches sv flt) (collections st (fst c))))),
     mkMongo (collections st) (calls st ++ [Count (fst c) flt])).
Proof. reflexivity. Qed.

Lemma aggregate_eq (c : collection) (pipeline : list pyval) (st : mongo) :
  aggregate sv c pipeline st =
    (Returns (run_pipeline sv pipeline (collections st (fst c))),
     mkMongo (collections st) (calls st ++ [Aggregate (fst c) pipeline])).
Proof. reflexivity. Qed.

Lemma update_many_eq (c : collection) (flt update : pyval) (st : mongo) :
  update_many sv c flt update st =
    (Returns (mkWriteResult (negb (snd c =? 0))
                (Z.of_nat (List.length (filter (matches sv flt) (collections st (fst c)))))),
     mkMongo (fun n => if String.eqb n (fst c)
                       then map (fun d => if matches sv flt d
                                          then apply_update sv update d else d)
                                (collections st (fst c))
                       else collections st n)
             (calls st ++ [UpdateMany (fst c) (snd c) flt update])).
Proof. reflexivity. Qed.

Lemma delete_many_eq (c : collection) (flt : pyval) (st : mongo) :
  delete_many sv c flt st =
    (Returns (mkWriteResult (negb (snd c =? 0))
                (Z.of_nat (List.length (filter (matches sv flt) (collections st (fst c)))))),
     mkMongo (fun n => if String.eqb n (fst c)
                       then filter (fun d => negb (matches sv flt d)) (collections st (fst c))
                       else collections st n)
             (calls st ++ [DeleteMany (fst c) (snd c) flt])).
Proof. reflexivity. Qed.

End ExecutorFacts.

(** ** select *)

Section SelectFacts.

Variable rt : runtime.
Variable sv : server.
Variable ad : adapter.
Variable cfuel : nat.

Lemma map_fst_unnamed (fields : list expr) : map fst (unnamed fields) = fields.
Proof.
  unfold unnamed. rewrite map_map. cbn. apply map_id.
Qed.

(** The direct find: when the attributes, the table and the query compile,
    [select] issues one [find] and hands its rows to the processor. *)
Lemma select_find_path (query : expr) (fields : list select_item) (attrs : attributes)
    (snapshot : bool) (st : mongo) (window : pyval * Z) (sorts : list (string * Z))
    (name : string) (flt : pyval) (fs : list expr) (names : list string)
    (cols : list (string * string)) :
  limit_window (at_limitby attrs) = Ok window ->
  fst (sort_list rt cfuel (at_orderby attrs) st) = Returns sorts ->
  select_table query (all_fields fields) = Ok name ->
  fst (expand rt cfuel false (common_filtered ad query (PStr name)) None) = Returns flt ->
  is_aggregation (all_fields fields) = false ->
  find_fields ad (all_fields fields) name = Ok fs ->
  mapM field_name (unnamed fs) = Ok names ->
  mapM (colname name) (unnamed fs) = Ok cols ->
  let options := mkFindOptions (projection_keys names []) (fst window) (snd window)
                               sorts snapshot in
  let found := sv_find sv options (filter (matches sv flt) (collections st name)) in
  select rt sv ad cfuel query fields attrs snapshot st =
    (of_res (the_processor ad attrs (rows_or [] (map (row_of (map snd cols)) found))
                           fs (map fst cols)),
     mkMongo (collections st) (calls st ++ [Find name flt (Some options)])).
Proof.
  intros Hw Hsort Hname Hflt Hagg Hfs Hnames Hcols options found.
  unfold select.
  rewrite Hw. rewrite (db_bind_eq _ _ st st window) by reflexivity.
  rewrite (db_bind_eq _ _ st st sorts) by (apply pure_eq; [apply pure_sort_list|exact Hsort]).
  rewrite Hname. rewrite (db_bind_eq _ _ st st name) by reflexivity.
  rewrite (db_bind_eq _ _ st st flt)
    by (apply pure_eq; [apply pure_self_expand|exact Hflt]).
  rewrite (db_bind_eq _ _ st st (name, ad_safe ad)) by reflexivity.
  rewrite Hagg.
  erewrite db_bind_eq.
  2:{ rewrite Hfs. rewrite (db_bind_eq _ _ st st fs) by reflexivity.
      fold (unnamed fs). rewrite Hnames.
      rewrite (db_bind_eq _ _ st st names) by reflexivity.
      erewrite db_bind_eq by apply find_eq. reflexivity. }
  cbn [fst snd]. rewrite Hcols.
  erewrite db_bind_eq by reflexivity.
  rewrite map_fst_unnamed. reflexivity.
Qed.

(** The aggregation: one [aggregate] call, and a row of [None] when it
    yields no document. *)
Lemma select_aggregate_path (query : expr) (fields : list select_item) (attrs : attributes)
    (snapshot : bool) (st : mongo) (window : pyval * Z) (sorts : list (string * Z))
    (name : string) (flt : pyval) (named : list (expr * option string))
    (projection : list (pyval * pyval)) (cols : list (string * string)) :
  limit_window (at_limitby attrs) = Ok window ->
  fst (sort_list rt cfuel (at_orderby attrs) st) = Returns sorts ->
  select_table query (all_fields fields) = Ok name ->
  fst (expand rt cfuel false (common_filtered ad query (PStr name)) None) = Returns flt ->
  is_aggregation (all_fields fields) = true ->
  fst (name_fields rt cfuel (all_fields fields) [] st) = Returns (named, projection) ->
  mapM (colname name) named = Ok cols ->
  let pipeline :=
    ((if negb (pyval_eqb flt PNone) then [PDict [(PStr "$match", flt)]] else [])
     ++ [PDict [(PStr "$group", PDict (dict_set projection (PStr "_id") PNone))]])%list in
  let found := run_pipeline sv pipeline (collections st name) in
  select rt sv ad cfuel query fields attrs snapshot st =
    (of_res (the_processor ad attrs
               (rows_or [PSeq KTuple [PNone]] (map (row_of (map snd cols)) found))
               (map fst named) (map fst cols)),
     mkMongo (collections st) (calls st ++ [Aggregate name pipeline])).
Proof.
  intros Hw Hsort Hname Hflt Hagg Hnamed Hcols pipeline found.
  unfold select.
  rewrite Hw. rewrite (db_bind_eq _ _ st st window) by reflexivity.
  rewrite (db_bind_eq _ _ st st sorts) by (apply pure_eq; [apply pure_sort_list|exact Hsort]).
  rewrite Hname. rewrite (db_bind_eq _ _ st st name) by reflexivity.
  rewrite (db_bind_eq _ _ st st flt)
    by (apply pure_eq; [apply pure_self_expand|exact Hflt]).
  rewrite (db_bind_eq _ _ st st (name, ad_safe ad)) by reflexivity.
  rewrite Hagg.
  erewrite db_bind_eq.
  2:{ rewrite (db_bind_eq _ _ st st (named, projection))
        by (apply pure_eq; [apply pure_name_fields|exact Hnamed]).
      cbn [fst snd].
      erewrite db_bind_eq by apply aggregate_eq. reflexivity. }
  cbn [fst snd]. rewrite Hcols.
  erewrite db_bind_eq by reflexivity. reflexivity.
Qed.

Lemma pyval_eqb_None (v : pyval) : pyval_eqb v PNone = true -> v = PNone.
Proof. destruct v; cbn; congruence. Qed.

(** A pipeline of the filter and a group yields nothing when the filter
    matches no document. *)
Lemma run_pipeline_group_none (flt spec : pyval) (docs : list document) :
  filter (matches sv flt) docs = [] ->
  run_pipeline sv
    ((if negb (pyval_eqb flt PNone) then [PDict [(PStr "$match", flt)]] else [])
     ++ [PDict [(PStr "$group", spec)]])%list docs = [].
Proof.
  intros Hnone. destruct (pyval_eqb flt PNone) eqn:E; cbn [negb app].
  - apply pyval_eqb_None in E. subst flt.
    assert (docs = []) as ->.
    { rewrite <- Hnone. clear Hnone. induction docs as [|d r IH]; [reflexivity|].
      cbn. f_equal. exact IH. }
    reflexivity.
  - unfold run_pipeline. cbn [String.eqb Ascii.eqb Bool.eqb]. rewrite Hnone. reflexivity.
Qed.

(** Fields that have a name have a column. *)
Lemma colname_of_named (name : string) (named : list (expr * option string)) :
  (forall e, In (e, @None string) named -> isinstance_Field e = true) ->
  exists cols, mapM (colname name) named = Ok cols.
Proof.
  induction named as [|[e o] r IH]; intros H; [exists []; reflexivity|].
  destruct IH as [cols Hc]; [intros e' He'; apply H; right; exact He'|].
  cbn [mapM]. rewrite Hc.
  assert (exists c, colname name (e, o) = Ok c) as [c ->].
  { destruct o as [n|].
    - destruct e; cbn; try (eexists; reflexivity).
      destruct (_ || _); eexists; reflexivity.
    - specialize (H e (or_introl eq_refl)). destruct e; try discriminate.
      cbn. destruct (_ || _); eexists; reflexivity. }
  eexists. reflexivity.
Qed.

Lemma name_fields_named (fields : list expr) (projection : list (pyval * pyval)) (st : mongo)
    (named : list (expr * option string)) (projection' : list (pyval * pyval)) :
  fst (name_fields rt cfuel fields projection st) = Returns (named, projection') ->
  forall e, In (e, @None string) named -> isinstance_Field e = true.
Proof.
  revert projection named projection' st.
  induction fields as [|field r IH]; intros projection named projection' st;
    cbn [name_fields].
  - intros [= <- _] e [].
  - destruct (isinstance_Field field) eqn:Ef; cbn [negb].
    + unfold db_bind.
      destruct (name_fields rt cfuel r projection st) as [[[n p]|err|] st1] eqn:Er;
        try discriminate.
      cbn. intros [= <- _] e [[= <-]|Hin]; [exact Ef|].
      eapply IH; [rewrite Er; reflexivity|exact Hin].
    + unfold db_bind at 1.
      destruct (expand_aggregate rt cfuel field None st) as [[p|err|] st1]; try discriminate.
      destruct field; try discriminate; unfold db_bind;
        match goal with
        | |- context [name_fields rt cfuel r ?d ?s] =>
            destruct (name_fields rt cfuel r d s) as [[[n q]|err|] st2] eqn:Er;
            try discriminate;
            cbn; intros [= <- _] e [[=]|Hin];
            eapply (IH d); [rewrite Er; reflexivity|exact Hin]
        end.
Qed.


End SelectFacts.

(** ** select: the window of a find, and the rows of an empty result *)

Lemma field_name_unnamed (fs : list expr) (names : list string) :
  mapM field_name (unnamed fs) = Ok names ->
  forall e, In (e, @None string) (unnamed fs) -> isinstance_Field e = true.
Proof.
  unfold unnamed. revert names.
  induction fs as [|f r IH]; intros names; cbn; [intros _ e []|].
  destruct f as [v|f|a o b kw|a o b ty kw]; cbn; try discriminate.
  destruct (mapM field_name (map (fun f0 : expr => (f0, None)) r)) as [ns|err] eqn:E;
    cbn; [|discriminate].
  intros _ e [[= <-]|Hin]; [reflexivity|]. exact (IH ns eq_refl e Hin).
Qed.

Lemma limit_window_pair (skip upper : pyval) (mx : Z) :
  py_int upper = Ok mx ->
  limit_window (Some (PSeq KTuple [skip; upper])) = Ok (skip, mx - 1).
Proof.
  intros H. cbn -[py_int Z.sub]. replace (Pos.to_nat 1) with 1%nat by reflexivity.
  cbn -[py_int Z.sub]. rewrite H. reflexivity.
Qed.

(** C10.  On the direct-find path, for attributes and a query that compile,
    [select] issues one [find]; with [limitby = (skip, upper)] its offset is
    [skip] and its limit is [int(upper) - 1], whatever [skip] is; without
    [limitby] both are 0. *)
Theorem select_find_skip_limit (rt : runtime) (sv : server) (ad : adapter) (cfuel : nat)
    (query : expr) (fields : list select_item) (attrs : attributes) (snapshot : bool)
    (st : mongo) (sorts : list (string * Z)) (name : string) (flt : pyval)
    (fs : list expr) (names : list string) :
  fst (sort_list rt cfuel (at_orderby attrs) st) = Returns sorts ->
  select_table query (all_fields fields) = Ok name ->
  fst (expand rt cfuel false (common_filtered ad query (PStr name)) None) = Returns flt ->
  is_aggregation (all_fields fields) = false ->
  find_fields ad (all_fields fields) name = Ok fs ->
  mapM field_name (unnamed fs) = Ok names ->
  (forall skip upper mx,
      at_limitby attrs = Some (PSeq KTuple [skip; upper]) ->
      py_int upper = Ok mx ->
      calls (snd (select rt sv ad cfuel query fields attrs snapshot st))
      = (calls st
         ++ [Find name flt
                  (Some (mkFindOptions (projection_keys names []) skip (mx - 1)
                                       sorts snapshot))])%list)
  /\ (at_limitby attrs = None ->
      calls (snd (select rt sv ad cfuel query fields attrs snapshot st))
      = (calls st
         ++ [Find name flt
                  (Some (mkFindOptions (projection_keys names []) (PInt 0) 0
                                       sorts snapshot))])%list).
Proof.
  intros Hsort Hname Hflt Hagg Hfs Hnames.
  destruct (colname_of_named name (unnamed fs) (field_name_unnamed fs names Hnames))
    as [cols Hcols].
  split.
  - intros skip upper mx Hl Hmx.
    rewrite (select_find_path rt sv ad cfuel query fields attrs snapshot st (skip, mx - 1)
               sorts name flt fs names cols); try assumption; [reflexivity|].
    rewrite Hl. apply limit_window_pair. exact Hmx.
  - intros Hl.
    rewrite (select_find_path rt sv ad cfuel query fields attrs snapshot st (PInt 0, 0)
               sorts name flt fs names cols); try assumption; [reflexivity|].
    rewrite Hl. reflexivity.
Qed.

Lemma select_find_skip_limit_witness :
  let year := mkField "year" "integer" "book" "CASCADE" in
  let title := mkField "title" "string" "book" "CASCADE" in
  let query := QueryE (FieldE year) (OpFunc GT) (Lit (PInt 1900)) [] in
  let flt := PDict [(PStr "year", PDict [(PStr "$gt", PInt 1900)])] in
  calls (snd (select sample_runtime sample_server (sample_adapter 1 []) 3 query
                     [Item (FieldE title)]
                     (mkAttributes None (Some (PSeq KTuple [PInt 5; PInt 15])) None)
                     false empty_mongo))
  = [Find "book" flt (Some (mkFindOptions ["title"] (PInt 5) 14 [] false))].
Proof.
  intros year title query flt.
  destruct (select_find_skip_limit sample_runtime sample_server (sample_adapter 1 []) 3
              query [Item (FieldE title)]
              (mkAttributes None (Some (PSeq KTuple [PInt 5; PInt 15])) None)
              false empty_mongo [] "book" flt [FieldE title] ["title"]
              eq_refl eq_refl eq_refl eq_refl eq_refl eq_refl) as [Hwindow _].
  exact (Hwindow (PInt 5) (PInt 15) 15 eq_refl eq_refl).
Defined.

(** C6.  For attributes and a query that compile to a filter which no
    document of the collection matches: a select with an expression among
    its fields (the aggregation) hands the processor exactly one row, the
    tuple of one [None]; a select of plain fields (the direct find) hands it
    no row, provided that the server finds nothing among no documents. *)
Theorem select_no_match_rows (rt : runtime) (sv : server) (ad : adapter) (cfuel : nat)
    (query : expr) (fields : list select_item) (attrs : attributes) (snapshot : bool)
    (st : mongo) (window : pyval * Z) (sorts : list (string * Z)) (name : string)
    (flt : pyval) :
  limit_window (at_limitby attrs) = Ok window ->
  fst (sort_list rt cfuel (at_orderby attrs) st) = Returns sorts ->
  select_table query (all_fields fields) = Ok name ->
  fst (expand rt cfuel false (common_filtered ad query (PStr name)) None) = Returns flt ->
  filter (matches sv flt) (collections st name) = [] ->
  (forall named projection,
      is_aggregation (all_fields fields) = true ->
      fst (name_fields rt cfuel (all_fields fields) [] st) = Returns (named, projection) ->
      exists colnames,
        fst (select rt sv ad cfuel query fields attrs snapshot st)
        = of_res (the_processor ad attrs [PSeq KTuple [PNone]] (map fst named) colnames))
  /\ (forall fs names,
         is_aggregation (all_fields fields) = false ->
         find_fields ad (all_fields fields) name = Ok fs ->
         mapM field_name (unnamed fs) = Ok names ->
         (forall options, sv_find sv options [] = []) ->
         exists colnames,
           fst (select rt sv ad cfuel query fields attrs snapshot st)
           = of_res (the_processor ad attrs [] fs colnames)).
Proof.
  intros Hw Hsort Hname Hflt Hnone. split.
  - intros named projection Hagg Hnamed.
    destruct (colname_of_named name named
                (name_fields_named rt cfuel _ _ _ _ _ Hnamed)) as [cols Hcols].
    exists (map fst cols).
    rewrite (select_aggregate_path rt sv ad cfuel query fields attrs snapshot st window
               sorts name flt named projection cols); try assumption.
    cbn [fst]. rewrite (run_pipeline_group_none sv flt _ _ Hnone). reflexivity.
  - intros fs names Hagg Hfs Hnames Hfind.
    destruct (colname_of_named name (unnamed fs) (field_name_unnamed fs names Hnames))
      as [cols Hcols].
    exists (map fst cols).
    rewrite (select_find_path rt sv ad cfuel query fields attrs snapshot st window
               sorts name flt fs names cols); try assumption.
    cbn [fst]. rewrite Hnone, Hfind. reflexivity.
Qed.

Lemma select_no_match_rows_witness :
  let year := mkField "year" "integer" "book" "CASCADE" in
  let query := QueryE (FieldE year) (OpFunc GT) (Lit (PInt 1900)) [] in
  let total := ExprE (FieldE year) (OpFunc AGGREGATE) (Lit (PStr "SUM")) (Some "integer") [] in
  let attrs := mkAttributes None None None in
  let run fields := fst (select sample_runtime sample_server (sample_adapter 1 []) 4 query
                                fields attrs false empty_mongo) in
  run [Item total] = Returns (PSeq KList [PSeq KTuple [PNone]])
  /\ run [Item (FieldE year)] = Returns (PSeq KList []).
Proof.
  intros year query total attrs run.
  destruct (select_no_match_rows sample_runtime sample_server (sample_adapter 1 []) 4 query
              [Item total] attrs false empty_mongo (PInt 0, 0) [] "book"
              (PDict [(PStr "year", PDict [(PStr "$gt", PInt 1900)])])
              eq_refl eq_refl eq_refl eq_refl eq_refl) as [Hagg _].
  destruct (select_no_match_rows sample_runtime sample_server (sample_adapter 1 []) 4 query
              [Item (FieldE year)] attrs false empty_mongo (PInt 0, 0) [] "book"
              (PDict [(PStr "year", PDict [(PStr "$gt", PInt 1900)])])
              eq_refl eq_refl eq_refl eq_refl eq_refl) as [_ Hfind].
  split.
  - destruct (Hagg _ _ eq_refl eq_refl) as [colnames H]. exact H.
  - destruct (Hfind [FieldE year] ["year"] eq_refl eq_refl eq_refl (fun _ => eq_refl))
      as [colnames H]. exact H.
Defined.

(** ** update on a filter that matches nothing *)

Section UpdateFacts.

Variable rt : runtime.
Variable sv : server.
Variable ad : adapter.
Variable cfuel : nat.

Lemma filter_none_map {A : Type} (p : A -> bool) (f : A -> A) (l : list A) :
  filter p l = [] -> map (fun x => if p x then f x else x) l = l.
Proof.
  induction l as [|x r IH]; [reflexivity|]. cbn.
  destruct (p x); [discriminate|]. intros H. rewrite (IH H). reflexivity.
Qed.

Lemma filter_none_negb {A : Type} (p : A -> bool) (l : list A) :
  filter p l = [] -> filter (fun x => negb (p x)) l = l.
Proof.
  induction l as [|x r IH]; [reflexivity|]. cbn.
  destruct (p x); [discriminate|]. intros H. cbn. rewrite (IH H). reflexivity.
Qed.

(** A pipeline of the filter and a projection yields nothing when the
    filter matches no document. *)
Lemma run_pipeline_project_none (flt spec : pyval) (docs : list document) :
  filter (matches sv flt) docs = [] ->
  run_pipeline sv
    ((if negb (pyval_eqb flt PNone) then [PDict [(PStr "$match", flt)]] else [])
     ++ [PDict [(PStr "$project", spec)]])%list docs = [].
Proof.
  intros Hnone. destruct (pyval_eqb flt PNone) eqn:E; cbn [negb app].
  - apply pyval_eqb_None in E. subst flt.
    assert (docs = []) as ->.
    { rewrite <- Hnone. clear Hnone. induction docs as [|d r IH]; [reflexivity|].
      cbn. f_equal. exact IH. }
    reflexivity.
  - unfold run_pipeline. cbn [String.eqb Ascii.eqb Bool.eqb]. rewrite Hnone. reflexivity.
Qed.

(** The collection [update] writes to when writes are acknowledged. *)
Lemma _get_collection_safe (tablename : string) (safe : pyval) :
  _get_safe ad safe <> 0 ->
  exists w, w <> 0
            /\ _get_collection ad (PStr tablename) (PInt (_get_safe ad safe))
               = Ok (tablename, w).
Proof.
  intros Hs. unfold _get_collection. cbn [connection_getitem res_bind].
  unfold differs_from_safe. cbn [as_int].
  destruct (_get_safe ad safe =? ad_safe ad) eqn:E; cbn [negb fst].
  - exists (ad_safe ad). apply Z.eqb_eq in E. split; [congruence|reflexivity].
  - exists 1. split; [discriminate|]. cbn [_get_safe truthy].
    destruct (_get_safe ad safe =? 0) eqn:E0; [apply Z.eqb_eq in E0; contradiction|].
    reflexivity.
Qed.

Lemma update_unacknowledged (tablename : string) (query : expr)
    (fields : list (Field * expr)) (safe : pyval) (st : mongo) (name : string) (flt : pyval) :
  isinstance_Query query = true ->
  _get_safe ad safe = 0 ->
  get_table query = Ok name ->
  fst (expand rt cfuel false (common_filtered ad query (PStr name)) None) = Returns flt ->
  filter (matches sv flt) (collections st name) = [] ->
  update rt sv ad cfuel tablename query fields safe st
  = (Returns 0, mkMongo (collections st) (calls st ++ [Count name flt])).
Proof.
  intros Hq Hs Hname Hflt Hnone.
  unfold update. rewrite Hq, Hs. cbn [negb Z.eqb].
  erewrite db_bind_eq.
  2:{ unfold count. cbn [truthy]. rewrite Hq. cbn [negb].
      erewrite db_bind_eq.
      2:{ unfold _expand_query. cbn [truthy negb]. rewrite Hname.
          rewrite (db_bind_eq _ _ st st (PStr name)) by reflexivity.
          rewrite (db_bind_eq _ _ st st (name, ad_safe ad)) by reflexivity.
          assert (query_truthy query = true) as -> by (destruct query; try discriminate; reflexivity).
          rewrite (db_bind_eq _ _ st st flt)
            by (apply pure_eq; [apply pure_self_expand|exact Hflt]).
          reflexivity. }
      cbn [fst snd].
      erewrite db_bind_eq by apply count_documents_eq.
      reflexivity. }
  cbn [fst]. rewrite Hnone. reflexivity.
Qed.

Lemma _expand_query_named (tablename : string) (query : expr) (safe : pyval) (st : mongo)
    (c : collection) (flt : pyval) :
  isinstance_Query query = true ->
  PyStr.nonempty tablename = true ->
  _get_collection ad (PStr tablename) safe = Ok c ->
  fst (expand rt cfuel false (common_filtered ad query (PStr tablename)) None) = Returns flt ->
  _expand_query rt ad cfuel query (PStr tablename) safe st = (Returns (c, flt), st).
Proof.
  intros Hq Ht Hc Hflt. unfold _expand_query. cbn [truthy]. rewrite Ht. cbn [negb].
  rewrite (db_bind_eq _ _ st st (PStr tablename)) by reflexivity.
  rewrite Hc. rewrite (db_bind_eq _ _ st st c) by reflexivity.
  assert (query_truthy query = true) as -> by (destruct query; try discriminate; reflexivity).
  rewrite (db_bind_eq _ _ st st flt)
    by (apply pure_eq; [apply pure_self_expand|exact Hflt]).
  reflexivity.
Qed.

Lemma update_acknowledged_values (tablename : string) (query : expr)
    (fields : list (Field * expr)) (safe : pyval) (st : mongo) (flt : pyval)
    (values : list (pyval * pyval)) :
  isinstance_Query query = true ->
  _get_safe ad safe <> 0 ->
  PyStr.nonempty tablename = true ->
  fst (expand rt cfuel false (common_filtered ad query (PStr tablename)) None) = Returns flt ->
  filter (matches sv flt) (collections st tablename) = [] ->
  List.find (fun fv => isinstance_Expression (snd fv)) fields = None ->
  update_set rt fields [] = Ok values ->
  exists w,
    w <> 0
    /\ fst (update rt sv ad cfuel tablename query fields safe st) = Returns 0
    /\ (forall n, collections (snd (update rt sv ad cfuel tablename query fields safe st)) n
                  = collections st n)
    /\ calls (snd (update rt sv ad cfuel tablename query fields safe st))
       = (calls st ++ [UpdateMany tablename w flt (PDict [(PStr "$set", PDict values)])])%list.
Proof.
  intros Hq Hs Ht Hflt Hnone Hfind Hset.
  destruct (_get_collection_safe tablename safe Hs) as (w & Hw & Hc).
  exists w. split; [exact Hw|].
  unfold update. rewrite Hq. cbn [negb].
  destruct (_get_safe ad safe =? 0) eqn:E0; [apply Z.eqb_eq in E0; contradiction|].
  cbn [negb].
  rewrite (db_bind_eq _ _ st st ((tablename, w), flt))
    by (apply _expand_query_named; assumption).
  cbn [fst snd]. unfold update_rows. rewrite Hfind, Hset.
  rewrite (db_bind_eq _ _ st st values) by reflexivity.
  unfold reraise_RuntimeError.
  erewrite db_bind_eq by apply update_many_eq.
  cbn [db_ret fst snd acknowledged affected collections calls].
  rewrite Hnone. cbn [List.length Z.of_nat].
  assert (negb (w =? 0) = true) as ->.
  { destruct (w =? 0) eqn:E; [apply Z.eqb_eq in E; contradiction|reflexivity]. }
  rewrite E0. cbn [andb negb]. split; [reflexivity|]. split; [|reflexivity].
  intros n. destruct (String.eqb n tablename) eqn:En; [|reflexivity].
  apply String.eqb_eq in En. subst n. apply filter_none_map. exact Hnone.
Qed.

Lemma update_acknowledged_expression (tablename : string) (query : expr)
    (fields : list (Field * expr)) (safe : pyval) (st : mongo) (flt : pyval)
    (field : Field) (value : expr) (t : Table) (projection : list (pyval * pyval)) :
  isinstance_Query query = true ->
  _get_safe ad safe <> 0 ->
  PyStr.nonempty tablename = true ->
  fst (expand rt cfuel false (common_filtered ad query (PStr tablename)) None) = Returns flt ->
  filter (matches sv flt) (collections st tablename) = [] ->
  List.find (fun fv => isinstance_Expression (snd fv)) fields = Some (field, value) ->
  db_getitem (ad_tables ad) (f_tablename field) = Ok t ->
  fst (update_projection rt ad cfuel fields
         (fold_left (fun d f => dict_set d (PStr f) (PInt 1))
                    (filter (fun f => negb (is_id_name f)) (map f_name (t_fields t))) [])
         st) = Returns projection ->
  update rt sv ad cfuel tablename query fields safe st
  = (Returns 0,
     mkMongo (collections st)
             (calls st
              ++ [Aggregate tablename
                    ((if negb (pyval_eqb flt PNone)
                      then [PDict [(PStr "$match", flt)]] else [])
                     ++ [PDict [(PStr "$project", PDict projection)]])])%list).
Proof.
  intros Hq Hs Ht Hflt Hnone Hfind Htable Hproj.
  destruct (_get_collection_safe tablename safe Hs) as (w & Hw & Hc).
  unfold update. rewrite Hq. cbn [negb].
  destruct (_get_safe ad safe =? 0) eqn:E0; [apply Z.eqb_eq in E0; contradiction|].
  cbn [negb].
  rewrite (db_bind_eq _ _ st st ((tablename, w), flt))
    by (apply _expand_query_named; assumption).
  cbn [fst snd]. unfold update_rows. rewrite Hfind, Htable.
  rewrite (db_bind_eq _ _ st st t) by reflexivity.
  rewrite (db_bind_eq _ _ st st projection)
    by (apply pure_eq; [apply pure_update_projection|exact Hproj]).
  unfold reraise_RuntimeError.
  erewrite db_bind_eq by apply aggregate_eq.
  cbn [fst snd collections]. rewrite (run_pipeline_project_none flt _ _ Hnone).
  reflexivity.
Qed.

End UpdateFacts.

(** C1 (amended).  On a filter that matches no document, [update] returns
    0.  Without acknowledgment it counts first and issues no write call.
    With acknowledgment it does not count: when every value is a plain value
    it issues an [update_many], which changes no document; when a value is
    an expression it runs the aggregation, which yields nothing to
    replace. *)
Theorem update_no_match (rt : runtime) (sv : server) (ad : adapter) (cfuel : nat)
    (tablename : string) (query : expr) (fields : list (Field * expr)) (safe : pyval)
    (st : mongo) (flt : pyval) :
  isinstance_Query query = true ->
  let run := update rt sv ad cfuel tablename query fields safe st in
  (forall name,
      _get_safe ad safe = 0 ->
      get_table query = Ok name ->
      fst (expand rt cfuel false (common_filtered ad query (PStr name)) None) = Returns flt ->
      filter (matches sv flt) (collections st name) = [] ->
      run = (Returns 0, mkMongo (collections st) (calls st ++ [Count name flt])))
  /\ (_get_safe ad safe <> 0 ->
      PyStr.nonempty tablename = true ->
      fst (expand rt cfuel false (common_filtered ad query (PStr tablename)) None)
      = Returns flt ->
      filter (matches sv flt) (collections st tablename) = [] ->
      (forall values,
          List.find (fun fv => isinstance_Expression (snd fv)) fields = None ->
          update_set rt fields [] = Ok values ->
          exists w,
            w <> 0
            /\ fst run = Returns 0
            /\ (forall n, collections (snd run) n = collections st n)
            /\ calls (snd run)
               = (calls st
                  ++ [UpdateMany tablename w flt (PDict [(PStr "$set", PDict values)])])%list)
      /\ (forall field value t projection,
             List.find (fun fv => isinstance_Expression (snd fv)) fields
             = Some (field, value) ->
             db_getitem (ad_tables ad) (f_tablename field) = Ok t ->
             fst (update_projection rt ad cfuel fields
                    (fold_left (fun d f => dict_set d (PStr f) (PInt 1))
                               (filter (fun f => negb (is_id_name f))
                                       (map f_name (t_fields t))) [])
                    st) = Returns projection ->
             fst run = Returns 0
             /\ collections (snd run) = collections st
             /\ exists pipeline, calls (snd run) = (calls st ++ [Aggregate tablename pipeline])%list)).
Proof.
  intros Hq run. split.
  - intros name Hs Hname Hflt Hnone. apply update_unacknowledged; assumption.
  - intros Hs Ht Hflt Hnone. split.
    + intros values Hfind Hset. apply update_acknowledged_values; assumption.
    + intros field value t projection Hfind Htable Hproj. subst run.
      rewrite (update_acknowledged_expression rt sv ad cfuel tablename query fields safe st
                 flt field value t projection); try assumption.
      cbn [fst snd collections calls]. repeat split. eexists. reflexivity.
Qed.

Lemma update_no_match_witness :
  let year := mkField "year" "integer" "book" "CASCADE" in
  let query := QueryE (FieldE year) (OpFunc GT) (Lit (PInt 1900)) [] in
  let flt := PDict [(PStr "year", PDict [(PStr "$gt", PInt 1900)])] in
  update sample_runtime sample_server (sample_adapter 0 []) 3 "book" query
         [(year, Lit (PInt 2000))] PNone empty_mongo
  = (Returns 0, mkMongo (fun _ => []) [Count "book" flt]).
Proof.
  intros year query flt.
  destruct (update_no_match sample_runtime sample_server (sample_adapter 0 []) 3 "book"
              query [(year, Lit (PInt 2000))] PNone empty_mongo flt eq_refl)
    as [Hunack _].
  exact (Hunack "book" eq_refl eq_refl eq_refl eq_refl).
Defined.

(** C1, as stated, fails when writes are acknowledged, which is the default:
    on an empty collection [update] returns 0 and has issued an
    [update_many]. *)
Lemma update_acknowledged_write_counterexample :
  let year := mkField "year" "integer" "book" "CASCADE" in
  let query := QueryE (FieldE year) (OpFunc GT) (Lit (PInt 1900)) [] in
  let run := update sample_runtime sample_server (sample_adapter 1 []) 3 "book" query
                    [(year, Lit (PInt 2000))] PNone empty_mongo in
  fst run = Returns 0
  /\ calls (snd run)
     = [UpdateMany "book" 1 (PDict [(PStr "year", PDict [(PStr "$gt", PInt 1900)])])
                   (PDict [(PStr "$set", PDict [(PStr "year", PInt 2000)])])]
  /\ existsb is_write (calls (snd run)) = true.
Proof. vm_compute. repeat split. Qed.

(** ** Runs that return, and what they leave in the collections *)

(** The collections of [st] are those of [f]. *)
Definition holds_in (st : mongo) (f : string -> list document) : Prop :=
  forall n, collections st n = f n.

(** From collections [f], [m] returns [a] and leaves collections [g]. *)
Definition runs {A : Type} (m : dbM A) (f : string -> list document) (a : A)
    (g : string -> list document) : Prop :=
  forall st, holds_in st f -> fst (m st) = Returns a /\ holds_in (snd (m st)) g.

(** Collection [name] replaced by [docs]. *)
Definition upd (name : string) (docs : list document) (f : string -> list document)
  : string -> list document :=
  fun n => if String.eqb n name then docs else f n.

Lemma upd_same (name : string) (docs : list document) (f : string -> list document) :
  upd name docs f name = docs.
Proof. unfold upd. rewrite String.eqb_refl. reflexivity. Qed.

Lemma upd_other (name n : string) (docs : list document) (f : string -> list document) :
  n <> name -> upd name docs f n = f n.
Proof.
  intros H. unfold upd. destruct (String.eqb n name) eqn:E; [|reflexivity].
  apply String.eqb_eq in E. contradiction.
Qed.

Lemma runs_bind {A B : Type} (m : dbM A) (k : A -> dbM B) (f g h : string -> list document)
    (a : A) (b : B) :
  runs m f a g -> runs (k a) g b h -> runs (db_bind m k) f b h.
Proof.
  intros Hm Hk st Hst. destruct (Hm st Hst) as [Hr Hg]. unfold db_bind.
  destruct (m st) as [o st1]. cbn [fst snd] in *. subst o. apply Hk. exact Hg.
Qed.

Lemma runs_ret {A : Type} (a : A) (f : string -> list document) : runs (db_ret a) f a f.
Proof. intros st Hst. split; [reflexivity|exact Hst]. Qed.

Lemma runs_out {A : Type} (o : outcome A) (a : A) (f : string -> list document) :
  o = Returns a -> runs (db_out o) f a f.
Proof. intros -> st Hst. split; [reflexivity|exact Hst]. Qed.

Lemma runs_lift {A : Type} (r : res A) (a : A) (f : string -> list document) :
  r = Ok a -> runs (db_lift r) f a f.
Proof. intros -> st Hst. split; [reflexivity|exact Hst]. Qed.

Lemma runs_ext {A : Type} (m : dbM A) (f g g' : string -> list document) (a : A) :
  runs m f a g -> (forall n, g n = g' n) -> runs m f a g'.
Proof.
  intros Hm Hg st Hst. destruct (Hm st Hst) as [Hr Hs]. split; [exact Hr|].
  intros n. rewrite (Hs n). apply Hg.
Qed.

Lemma runs_for {A : Type} (body : A -> dbM unit)
    (step : A -> (string -> list document) -> string -> list document) (l : list A)
    (f : string -> list document) :
  (forall x g, runs (body x) g tt (step x g)) ->
  runs (db_for l body) f tt (fold_left (fun g x => step x g) l f).
Proof.
  intros Hbody. revert f. induction l as [|x r IH]; intros f; cbn [db_for fold_left].
  - apply runs_ret.
  - eapply runs_bind; [apply Hbody|apply IH].
Qed.

Lemma runs_for_Forall {A : Type} (P : A -> Prop) (body : A -> dbM unit)
    (step : A -> (string -> list document) -> string -> list document) (l : list A)
    (f : string -> list document) :
  Forall P l ->
  (forall x g, P x -> runs (body x) g tt (step x g)) ->
  runs (db_for l body) f tt (fold_left (fun g x => step x g) l f).
Proof.
  intros Hl Hbody. revert f. induction Hl as [|x r Hx Hr IH]; intros f;
    cbn [db_for fold_left].
  - apply runs_ret.
  - eapply runs_bind; [apply Hbody; exact Hx|apply IH].
Qed.

Lemma runs_for_nil {A : Type} (body : A -> dbM unit) (f : string -> list document) :
  runs (db_for [] body) f tt f.
Proof. apply runs_ret. Qed.

Section DriverRuns.

Variable sv : server.

Lemma runs_find (c : collection) (flt : pyval) (f : string -> list document) :
  runs (find sv c flt None) f (map doc_dict (filter (matches sv flt) (f (fst c)))) f.
Proof.
  intros st Hst. rewrite find_eq. cbn [fst snd]. rewrite (Hst (fst c)).
  split; [reflexivity|exact Hst].
Qed.

Lemma runs_delete_many (c : collection) (flt : pyval) (f : string -> list document) :
  runs (delete_many sv c flt) f
       (mkWriteResult (negb (snd c =? 0))
                      (Z.of_nat (List.length (filter (matches sv flt) (f (fst c))))))
       (upd (fst c) (filter (fun d => negb (matches sv flt d)) (f (fst c))) f).
Proof.
  intros st Hst. rewrite delete_many_eq. cbn [fst snd]. rewrite (Hst (fst c)).
  split; [reflexivity|]. intros n. cbn [collections]. unfold upd.
  destruct (String.eqb n (fst c)); [reflexivity|apply Hst].
Qed.

Lemma runs_update_many (c : collection) (flt update : pyval) (f : string -> list document) :
  runs (update_many sv c flt update) f
       (mkWriteResult (negb (snd c =? 0))
                      (Z.of_nat (List.length (filter (matches sv flt) (f (fst c))))))
       (upd (fst c)
            (map (fun d => if matches sv flt d then apply_update sv update d else d)
                 (f (fst c))) f).
Proof.
  intros st Hst. rewrite update_many_eq. cbn [fst snd]. rewrite (Hst (fst c)).
  split; [reflexivity|]. intros n. cbn [collections]. unfold upd.
  destruct (String.eqb n (fst c)); [reflexivity|apply Hst].
Qed.

End DriverRuns.

(** A loop that rewrites one collection. *)
Lemma fold_upd {A : Type} (name : string) (step : A -> list document -> list document)
    (l : list A) (f : string -> list document) (n : string) :
  fold_left (fun g x => upd name (step x (g name)) g) l f n
  = if String.eqb n name then fold_left (fun docs x => step x docs) l (f name) else f n.
Proof.
  revert f. induction l as [|x r IH]; intros f; cbn [fold_left].
  - destruct (String.eqb n name) eqn:E; [|reflexivity].
    apply String.eqb_eq in E. subst. reflexivity.
  - rewrite IH. rewrite upd_same.
    destruct (String.eqb n name) eqn:E; [reflexivity|].
    unfold upd. rewrite E. reflexivity.
Qed.

(** ** delete and its cascade *)

Section DeleteFacts.

Variable rt : runtime.
Variable sv : server.
Variable ad : adapter.
Variable cfuel : nat.

(** No query has a common filter applied. *)
Hypothesis no_common_filter : forall q, ad_use_common_filters ad q = false.

Lemma common_filtered_id (q : expr) (t : pyval) : common_filtered ad q t = q.
Proof. unfold common_filtered. rewrite no_common_filter, andb_false_r. reflexivity. Qed.

Lemma query_is_truthy (q : expr) : isinstance_Query q = true -> query_truthy q = true.
Proof. destruct q; try discriminate; reflexivity. Qed.

(** [_expand_query(query, None)]: the collection of the table of the
    query, with the default write concern. *)
Lemma runs_expand_query (q : expr) (name : string) (flt : pyval)
    (f : string -> list document) :
  isinstance_Query q = true ->
  get_table q = Ok name ->
  fst (expand rt cfuel false q None) = Returns flt ->
  runs (_expand_query rt ad cfuel q PNone PNone) f ((name, ad_safe ad), flt) f.
Proof.
  intros Hq Hname Hflt. unfold _expand_query. cbn [truthy negb]. rewrite Hname.
  eapply runs_bind; [apply runs_lift; reflexivity|].
  eapply runs_bind; [apply runs_lift; reflexivity|].
  rewrite (query_is_truthy q Hq), common_filtered_id.
  eapply runs_bind; [apply runs_out; exact Hflt|].
  apply runs_ret.
Qed.

Lemma doc_dict_id (d : document) :
  py_getitem (doc_dict d) (PStr "_id") = Ok (POid (doc_id d)).
Proof. unfold doc_dict, py_getitem. cbn [hashable]. apply dict_get_head. Qed.

Lemma ids_of_found (docs : list document) :
  mapM (fun x => py_getitem x (PStr "_id")) (map doc_dict docs) = Ok (ids_of docs).
Proof.
  induction docs as [|d r IH]; [reflexivity|].
  cbn [map mapM ids_of]. rewrite doc_dict_id. cbn [res_bind].
  rewrite IH. reflexivity.
Qed.

Lemma ids_of_length (docs : list document) : List.length (ids_of docs) = List.length docs.
Proof. apply length_map. Qed.

(** [delete] on a table that no field references. *)
Lemma runs_delete_leaf (self_delete : string -> expr -> pyval -> dbM Z) (tablename : string)
    (q : expr) (flt : pyval) (table : Table) (f : string -> list document) :
  isinstance_Query q = true ->
  get_table q = Ok tablename ->
  fst (expand rt cfuel false q None) = Returns flt ->
  db_getitem (ad_tables ad) tablename = Ok table ->
  t_referenced_by table = [] ->
  t_referenced_by_list table = [] ->
  runs (delete_body rt sv ad cfuel self_delete tablename q PNone) f
       (Z.of_nat (List.length (filter (matches sv flt) (f tablename))))
       (upd tablename (filter (fun d => negb (matches sv flt d)) (f tablename)) f).
Proof.
  intros Hq Hname Hflt Htable Hby Hlist. unfold delete_body. rewrite Hq. cbn [negb].
  eapply runs_bind; [apply runs_expand_query; eassumption|]. cbn beta iota.
  eapply runs_bind; [apply runs_find|]. cbn [fst].
  eapply runs_bind; [apply runs_lift; apply ids_of_found|].
  eapply runs_bind; [apply runs_lift; exact Htable|].
  rewrite Hby, Hlist. cbn [with_policy filter].
  eapply runs_bind; [apply runs_delete_many|]. cbn [fst snd acknowledged affected].
  eapply runs_bind.
  - match goal with
    | |- runs (if ?c then _ else _) _ _ _ => destruct c
    end; [|apply runs_ret].
    cbn [db_for].
    eapply runs_bind; [apply runs_ret|].
    eapply runs_bind; [apply runs_ret|].
    eapply runs_bind; [apply runs_ret|].
    apply runs_ret.
  - rewrite ids_of_length.
    destruct (negb (ad_safe ad =? 0)); apply runs_ret.
Qed.

(** *** The query of the cascade *)

Definition is_oid (v : pyval) : Prop := exists o, v = POid o.

Lemma ids_of_oid (docs : list document) : Forall is_oid (ids_of docs).
Proof.
  induction docs as [|d r IH]; constructor; [eexists; reflexivity|exact IH].
Qed.

Lemma filter_Forall {A : Type} (P : A -> Prop) (p : A -> bool) (l : list A) :
  Forall P l -> Forall P (filter p l).
Proof.
  induction 1 as [|x r Hx Hr IH]; cbn; [constructor|].
  destruct (p x); [constructor; assumption|exact IH].
Qed.

Lemma py_set_items_oid (l : list pyval) : Forall is_oid l -> Forall is_oid (py_set_items l).
Proof.
  induction 1 as [|x r Hx Hr IH]; cbn; constructor; [exact Hx|].
  apply filter_Forall. exact IH.
Qed.

Lemma cast_oids (agg : bool) (items : list pyval) :
  Forall is_oid items -> mapM (self_object_id rt agg) items = Ok items.
Proof.
  induction 1 as [|x r [o ->] Hr IH]; [reflexivity|].
  cbn [mapM]. unfold self_object_id at 1. rewrite object_id_oid. cbn [res_bind].
  rewrite IH. reflexivity.
Qed.

Lemma reference_type (ta : string) :
  let ft := "reference " ++ ta in
  String.eqb ft "id" = false
  /\ PyStr.contains "reference" ft = true
  /\ type_given (Some ft) = true
  /\ type_is (Some ft) "date" = false
  /\ type_is (Some ft) "time" = false
  /\ type_is (Some ft) "blob" = false
  /\ PyStr.startswith "list:" ft = false
  /\ PyStr.startswith "reference" ft = true.
Proof. cbn. repeat split; destruct ta; reflexivity. Qed.

Lemma represent_reference_oid (ta : string) (o : ObjectId.t) :
  represent rt false (POid o) (Some ("reference " ++ ta)) = Ok (POid o).
Proof.
  destruct (reference_type ta) as (_ & _ & _ & Hd & Ht & Hb & Hl & Hr).
  unfold represent. cbn [res_bind]. cbv zeta in *.
  rewrite Hd, Ht, Hb, Hl, Hr. reflexivity.
Qed.

(** The query [field.belongs(ids)] of a reference field compiles to
    [{name: {"$in": ids}}]. *)
Lemma expand_belongs (n : nat) (field : Field) (ta : string) (ids : list pyval) :
  f_type field = "reference " ++ ta ->
  Forall is_oid ids ->
  fst (expand rt (S (S n)) false (belongs field ids) None)
  = Returns (PDict [(PStr (f_name field),
                     PDict [(PStr "$in", PSeq KList (py_set_items ids))])]).
Proof.
  intros Hty Hids.
  destruct (reference_type ta) as (Hid & Hc & Hg & _).
  cbv zeta in *.
  pose proof (py_set_items_oid ids Hids) as Hset. unfold belongs.
  remember (py_set_items ids) as items eqn:Eitems. clear Eitems Hids ids.
  cbn [expand]. unfold expand_body. cbn [cast_query].
  unfold is_id_or_reference, rename_id. rewrite Hty, Hid, Hc. cbn [orb].
  cbn [cast_second]. rewrite (cast_oids false items Hset). cbn [res_bind].
  unfold expand_node. cbn [fst snd is_none negb].
  unfold call_operator. cbn [Nat.leb andb negb].
  change (kw_accepted [] []) with true. cbn [negb].
  unfold BELONGS_. unfold op_bind at 1. cbn [get_second snd fst belongs_items as_basestring].
  unfold op_bind at 1. cbn [op_lift py_iter of_res].
  assert (Hmap : forall st,
             fst st = FieldE field ->
             op_map (fun item =>
                       t <~ first_type ;;
                       fun st0 => (fst (expand rt (S n) false (Lit item) t), st0)) items st
             = (Returns items, st)).
  { intros st Hst. induction Hset as [|x r [o ->] Hr IH]; [reflexivity|].
    cbn [op_map]. unfold op_bind at 1. unfold op_bind at 1.
    unfold first_type at 1. rewrite Hst. cbn [type_of of_res].
    rewrite Hty. rewrite expand_lit_typed by exact Hg. cbn [fst].
    rewrite represent_reference_oid. cbn [of_res].
    unfold op_bind at 1. rewrite IH. reflexivity. }
  unfold op_bind at 1. rewrite Hmap by reflexivity.
  unfold op_bind at 1. unfold expand_first, on_first. cbn [fst snd].
  cbn [cast_query]. unfold field_key. rewrite Hty, Hid.
  reflexivity.
Qed.


(** *** What the filters and the update of the cascade do *)

Lemma matches_in (k : string) (ids : list pyval) (d : document) :
  PyStr.startswith "$" k = false ->
  matches sv (PDict [(PStr k, PDict [(PStr "$in", PSeq KList ids)])]) d
  = existsb (field_holds d k) ids.
Proof. intros Hk. unfold matches. rewrite Hk. reflexivity. Qed.

Lemma matches_sole (k : string) (id : pyval) (d : document) :
  PyStr.startswith "$" k = false ->
  matches sv (PDict [(PStr k, PSeq KList [id])]) d = field_holds d k (PSeq KList [id]).
Proof. intros Hk. unfold matches. rewrite Hk. reflexivity. Qed.

Lemma matches_oid (k : string) (id : pyval) (d : document) :
  PyStr.startswith "$" k = false -> is_oid id ->
  matches sv (PDict [(PStr k, id)]) d = field_holds d k id.
Proof. intros Hk [o ->]. unfold matches. rewrite Hk. reflexivity. Qed.

Lemma apply_pull_oid (k : string) (id : pyval) (d : document) :
  is_oid id ->
  apply_update sv (PDict [(PStr "$pull", PDict [(PStr k, id)])]) d = pull k id d.
Proof. intros [o ->]. reflexivity. Qed.

Lemma pyval_eqb_oid (x y : pyval) : is_oid x -> is_oid y -> pyval_eqb y x = true -> y = x.
Proof.
  intros [a ->] [b ->]. cbn. unfold ObjectId.eqb.
  destruct (list_eq_dec N.eq_dec (ObjectId.binary b) (ObjectId.binary a)) as [E|E];
    [|discriminate].
  intros _. destruct a, b. cbn in E. subst. reflexivity.
Qed.

Lemma existsb_without (p : pyval -> bool) (x : pyval) (l : list pyval) :
  is_oid x -> Forall is_oid l -> p x = false ->
  existsb p (filter (fun y => negb (pyval_eqb y x)) l) = existsb p l.
Proof.
  intros Hx Hl Ex. induction Hl as [|y s Hy Hs IHs]; [reflexivity|].
  cbn [filter existsb].
  destruct (pyval_eqb y x) eqn:E; cbn [negb existsb].
  - rewrite (pyval_eqb_oid x y Hx Hy E), Ex. exact IHs.
  - rewrite IHs. reflexivity.
Qed.

(** Passing the identifiers as a set does not change which documents the
    [$in] matches. *)
Lemma existsb_py_set_items (p : pyval -> bool) (l : list pyval) :
  Forall is_oid l -> existsb p (py_set_items l) = existsb p l.
Proof.
  induction 1 as [|x r Hx Hr IH]; [reflexivity|]. cbn [py_set_items existsb].
  destruct (p x) eqn:Ex; [reflexivity|]. cbn [orb]. rewrite <- IH.
  apply existsb_without; [exact Hx|apply py_set_items_oid; exact Hr|exact Ex].
Qed.

Lemma get_table_belongs (field : Field) (ids : list pyval) :
  get_table (belongs field ids) = Ok (f_tablename field).
Proof. reflexivity. Qed.


(** *** The loops of the cascade *)

Lemma filter_ext_eq {A : Type} (p q : A -> bool) (l : list A) :
  (forall x, p x = q x) -> filter p l = filter q l.
Proof. intros H. apply filter_ext. exact H. Qed.

Lemma filter_all {A : Type} (l : list A) : filter (fun _ => true) l = l.
Proof. induction l as [|x r IH]; [reflexivity|]. cbn. rewrite IH. reflexivity. Qed.

Lemma with_policy_cascade (field : Field) (type : string) :
  f_type field = type -> f_ondelete field = "CASCADE" ->
  with_policy [field] type "CASCADE" = [field]
  /\ with_policy [field] type "SET NULL" = [].
Proof.
  intros Ht Ho. unfold with_policy. cbn [filter].
  rewrite Ht, Ho, String.eqb_refl. split; reflexivity.
Qed.

(** [for delete in deleted: dtable.delete_many({name: [delete]})] *)
Lemma runs_drop_sole (field : Field) (deleted : list pyval) (f : string -> list document) :
  PyStr.startswith "$" (f_name field) = false ->
  runs (db_for deleted
          (fun delete =>
             dtable <== db_lift (_get_collection ad (PStr (f_tablename field)) PNone) ;;
             _ <== delete_many sv dtable
                     (PDict [(PStr (f_name field), PSeq KList [delete])]) ;;
             db_ret tt))
       f tt
       (upd (f_tablename field)
            (drop_sole (f_name field) deleted (f (f_tablename field))) f).
Proof.
  intros Hk.
  eapply runs_ext.
  - apply (runs_for _
             (fun id g =>
                upd (f_tablename field)
                    (filter (fun d => negb (field_holds d (f_name field) (PSeq KList [id])))
                            (g (f_tablename field))) g)).
    intros id g.
    eapply runs_bind; [apply runs_lift; reflexivity|].
    eapply runs_bind; [apply runs_delete_many|].
    eapply runs_ext; [apply runs_ret|].
    intros n. cbn [fst]. unfold upd. destruct (String.eqb n (f_tablename field)); [|reflexivity].
    apply filter_ext_eq. intros d. rewrite matches_sole by exact Hk. reflexivity.
  - intros n.
    rewrite (fold_upd (f_tablename field)
               (fun id docs =>
                  filter (fun d => negb (field_holds d (f_name field) (PSeq KList [id])))
                         docs)).
    reflexivity.
Qed.

(** [remove_from_list]: the identifier is pulled where it is held. *)
Lemma runs_remove_from_list (field : Field) (deleted : list pyval)
    (f : string -> list document) :
  PyStr.startswith "$" (f_name field) = false ->
  Forall is_oid deleted ->
  runs (remove_from_list sv ad field deleted PNone) f tt
       (upd (f_tablename field)
            (pull_each (f_name field) deleted (f (f_tablename field))) f).
Proof.
  intros Hk Hids. unfold remove_from_list.
  eapply runs_ext.
  - apply (runs_for_Forall is_oid _
             (fun id g =>
                upd (f_tablename field)
                    (map (fun d => if field_holds d (f_name field) id
                                   then pull (f_name field) id d else d)
                         (g (f_tablename field))) g)); [exact Hids|].
    intros id g Hid.
    eapply runs_bind; [apply runs_lift; reflexivity|].
    eapply runs_bind; [apply runs_update_many|].
    eapply runs_ext; [apply runs_ret|].
    intros n. cbn [fst]. unfold upd. destruct (String.eqb n (f_tablename field)); [|reflexivity].
    apply map_ext. intros d.
    rewrite matches_oid by assumption. rewrite apply_pull_oid by assumption. reflexivity.
  - intros n.
    rewrite (fold_upd (f_tablename field)
               (fun id docs =>
                  map (fun d => if field_holds d (f_name field) id
                                then pull (f_name field) id d else d) docs)).
    reflexivity.
Qed.

(** [db(field.belongs(deleted)).delete()] on a table that nothing
    references: the documents that refer to a deleted one go. *)
Lemma runs_cascade_delete (n m : nat) (field : Field) (ta : string) (table : Table)
    (deleted : list pyval) (f : string -> list document) :
  cfuel = S (S n) ->
  f_type field = "reference " ++ ta ->
  PyStr.startswith "$" (f_name field) = false ->
  db_getitem (ad_tables ad) (f_tablename field) = Ok table ->
  t_referenced_by table = [] ->
  t_referenced_by_list table = [] ->
  Forall is_oid deleted ->
  exists amount,
    runs (Set_delete ad (delete rt sv ad cfuel (S m)) (belongs field deleted)) f amount
         (upd (f_tablename field)
              (filter (fun d => negb (existsb (field_holds d (f_name field)) deleted))
                      (f (f_tablename field))) f).
Proof.
  intros Hfuel Hty Hk Htable Hby Hlist Hids.
  eexists. unfold Set_delete. rewrite get_table_belongs.
  eapply runs_bind; [apply runs_lift; reflexivity|].
  eapply runs_bind; [apply runs_lift; exact Htable|].
  cbn [delete].
  eapply runs_ext.
  - eapply runs_delete_leaf; try eassumption; try reflexivity.
    rewrite Hfuel. apply (expand_belongs n field ta deleted Hty Hids).
  - intros x. unfold upd. destruct (String.eqb x (f_tablename field)); [|reflexivity].
    apply filter_ext_eq. intros d. rewrite matches_in by exact Hk.
    rewrite existsb_py_set_items by exact Hids. reflexivity.
Qed.


(** *** delete with a singular and a list-valued cascade *)

Lemma eqb_neq_false (a b : string) : a <> b -> String.eqb a b = false.
Proof. intros H. apply String.eqb_neq. exact H. Qed.

Lemma runs_delete_cascade (n m : nat) (ta : string) (query : expr) (flt : pyval)
    (A B : Table) (fb fl : Field) (f : string -> list document) :
  cfuel = S (S n) ->
  isinstance_Query query = true ->
  get_table query = Ok ta ->
  fst (expand rt cfuel false query None) = Returns flt ->
  db_getitem (ad_tables ad) ta = Ok A ->
  t_referenced_by A = [fb] ->
  t_referenced_by_list A = [fl] ->
  f_type fb = "reference " ++ ta ->
  f_ondelete fb = "CASCADE" ->
  db_getitem (ad_tables ad) (f_tablename fb) = Ok B ->
  t_referenced_by B = [] ->
  t_referenced_by_list B = [] ->
  f_type fl = "list:reference " ++ ta ->
  f_ondelete fl = "CASCADE" ->
  f_tablename fb <> ta ->
  f_tablename fl <> ta ->
  f_tablename fb <> f_tablename fl ->
  PyStr.startswith "$" (f_name fb) = false ->
  PyStr.startswith "$" (f_name fl) = false ->
  runs (delete rt sv ad cfuel (S (S m)) ta query PNone) f
       (Z.of_nat (List.length (filter (matches sv flt) (f ta))))
       (upd (f_tablename fb)
            (filter (fun d => negb (existsb (field_holds d (f_name fb))
                                            (ids_of (filter (matches sv flt) (f ta)))))
                    (f (f_tablename fb)))
            (upd (f_tablename fl)
                 (pull_each (f_name fl) (ids_of (filter (matches sv flt) (f ta)))
                            (drop_sole (f_name fl) (ids_of (filter (matches sv flt) (f ta)))
                                       (f (f_tablename fl))))
                 (upd ta (filter (fun d => negb (matches sv flt d)) (f ta)) f))).
Proof.
  intros Hfuel Hq Hname Hflt HA Hby Hlist Htyb Hob HB HBby HBlist Htyl Hol
         Hba Hla Hbl Hkb Hkl.
  pose proof (eqb_neq_false _ _ Hba) as Eba.
  pose proof (eqb_neq_false _ _ Hla) as Ela.
  pose proof (eqb_neq_false _ _ Hbl) as Ebl.
  assert (Elb : String.eqb (f_tablename fl) (f_tablename fb) = false)
    by (apply eqb_neq_false; congruence).
  remember (filter (matches sv flt) (f ta)) as matched eqn:Ematched.
  cbn [delete]. unfold delete_body. rewrite Hq. cbn [negb].
  eapply runs_bind; [apply runs_expand_query; eassumption|]. cbn beta iota.
  eapply runs_bind; [apply runs_find|]. cbn [fst]. rewrite <- Ematched.
  eapply runs_bind; [apply runs_lift; apply ids_of_found|].
  eapply runs_bind; [apply runs_lift; exact HA|].
  rewrite Hby, Hlist.
  destruct (with_policy_cascade fb _ Htyb Hob) as [-> ->].
  destruct (with_policy_cascade fl _ Htyl Hol) as [-> ->].
  eapply runs_bind; [apply runs_delete_many|]. cbn [fst snd acknowledged affected].
  rewrite <- Ematched, ids_of_length.
  replace (if negb (ad_safe ad =? 0)
           then Z.of_nat (List.length matched) else Z.of_nat (List.length matched))
    with (Z.of_nat (List.length matched)) by (destruct (negb _); reflexivity).
  eapply runs_bind; [|apply runs_ret].
  destruct matched as [|d0 matched'] eqn:Em.
  - cbn [List.length Z.of_nat Z.eqb negb andb].
    eapply runs_ext; [apply runs_ret|].
    intros x. cbn [ids_of map existsb negb drop_sole pull_each fold_left].
    unfold upd. rewrite !filter_all.
    destruct (String.eqb x (f_tablename fb)) eqn:E1.
    { apply String.eqb_eq in E1. subst x. rewrite Eba. reflexivity. }
    destruct (String.eqb x (f_tablename fl)) eqn:E2.
    { apply String.eqb_eq in E2. subst x. rewrite Ela. reflexivity. }
    reflexivity.
  - rewrite <- Em in *.
    assert (Hids : Forall is_oid (ids_of matched)) by apply ids_of_oid.
    assert (Hcond : negb (Z.of_nat (List.length matched) =? 0)
                    && truthy (PSeq KList (ids_of matched)) = true).
    { rewrite Em. reflexivity. }
    rewrite Hcond.
    pose (g1 := upd ta (filter (fun d => negb (matches sv flt d)) (f ta)) f).
    pose (g2 := upd (f_tablename fl)
                    (pull_each (f_name fl) (ids_of matched)
                       (drop_sole (f_name fl) (ids_of matched) (f (f_tablename fl))))
                    g1).
    destruct (runs_cascade_delete n m fb ta B (ids_of matched) g2
                Hfuel Htyb Hkb HB HBby HBlist Hids) as [amountB HrunB].
    cbn [db_for]. fold g1.
    apply (runs_bind _ _ g1 g2 _ tt).
    { eapply runs_ext.
      - eapply runs_bind; [|apply runs_ret].
        eapply runs_bind; [apply runs_drop_sole; exact Hkl|].
        apply runs_remove_from_list; assumption.
      - intros x. unfold g2, g1, upd. rewrite String.eqb_refl, Ela.
        destruct (String.eqb x (f_tablename fl)); reflexivity. }
    eapply runs_bind; [apply runs_ret|].
    eapply runs_bind; [|apply runs_ret].
    eapply runs_ext.
    + eapply runs_bind; [|apply runs_ret].
      eapply runs_bind; [exact HrunB|apply runs_ret].
    + intros x. unfold g2, g1, upd. rewrite Ebl, Eba. reflexivity.
Qed.


End DeleteFacts.

(** ** delete: the cascade along references *)

(** [delete] with CASCADE references.  Table [ta] is referenced by the
    field [fb] (type [reference ta]) of another table and by the field [fl]
    (type [list:reference ta]) of a third one, both with the policy CASCADE,
    and [delete] is called with the default [safe].  Then it returns the
    number of documents of [ta] that the filter matches, and afterwards:
    these documents are gone from [ta]; the documents of [fb]'s table that
    hold a deleted identifier in [fb] are gone; in [fl]'s table the
    documents whose [fl] was the list of one deleted identifier alone are
    gone and every deleted identifier is pulled from the lists that remain;
    no other collection has changed. *)
Theorem delete_cascades_references (rt : runtime) (sv : server) (ad : adapter)
    (n m : nat) (ta : string) (query : expr) (flt : pyval) (A B : Table) (fb fl : Field)
    (st : mongo) :
  (forall q, ad_use_common_filters ad q = false) ->
  isinstance_Query query = true ->
  get_table query = Ok ta ->
  fst (expand rt (S (S n)) false query None) = Returns flt ->
  db_getitem (ad_tables ad) ta = Ok A ->
  t_referenced_by A = [fb] ->
  t_referenced_by_list A = [fl] ->
  f_type fb = "reference " ++ ta ->
  f_ondelete fb = "CASCADE" ->
  db_getitem (ad_tables ad) (f_tablename fb) = Ok B ->
  t_referenced_by B = [] ->
  t_referenced_by_list B = [] ->
  f_type fl = "list:reference " ++ ta ->
  f_ondelete fl = "CASCADE" ->
  f_tablename fb <> ta ->
  f_tablename fl <> ta ->
  f_tablename fb <> f_tablename fl ->
  PyStr.startswith "$" (f_name fb) = false ->
  PyStr.startswith "$" (f_name fl) = false ->
  let run := delete rt sv ad (S (S n)) (S (S m)) ta query PNone st in
  let deleted := filter (matches sv flt) (collections st ta) in
  fst run = Returns (Z.of_nat (List.length deleted))
  /\ collections (snd run) ta
     = filter (fun d => negb (matches sv flt d)) (collections st ta)
  /\ collections (snd run) (f_tablename fb)
     = filter (fun d => negb (existsb (field_holds d (f_name fb)) (ids_of deleted)))
              (collections st (f_tablename fb))
  /\ collections (snd run) (f_tablename fl)
     = pull_each (f_name fl) (ids_of deleted)
                 (drop_sole (f_name fl) (ids_of deleted) (collections st (f_tablename fl)))
  /\ (forall x, x <> ta -> x <> f_tablename fb -> x <> f_tablename fl ->
                collections (snd run) x = collections st x).
Proof.
  intros Hcf Hq Hname Hflt HA Hby Hlist Htyb Hob HB HBby HBlist Htyl Hol
         Hba Hla Hbl Hkb Hkl run deleted.
  pose proof (runs_delete_cascade rt sv ad (S (S n)) Hcf n m ta query flt A B fb fl
                (collections st) eq_refl Hq Hname Hflt HA Hby Hlist Htyb Hob HB HBby
                HBlist Htyl Hol Hba Hla Hbl Hkb Hkl) as Hrun.
  destruct (Hrun st (fun x => eq_refl)) as [Hres Hst].
  fold run in Hres, Hst. fold deleted in Hres, Hst.
  split; [exact Hres|].
  assert (Hab : ta <> f_tablename fb) by congruence.
  assert (Hal : ta <> f_tablename fl) by congruence.
  assert (Hlb : f_tablename fl <> f_tablename fb) by congruence.
  split; [|split; [|split]].
  - rewrite (Hst ta). rewrite upd_other by exact Hab. rewrite upd_other by exact Hal.
    apply upd_same.
  - rewrite (Hst (f_tablename fb)). apply upd_same.
  - rewrite (Hst (f_tablename fl)). rewrite upd_other by exact Hlb. apply upd_same.
  - intros x Hxa Hxb Hxl. rewrite (Hst x). rewrite !upd_other by assumption. reflexivity.
Qed.

Lemma delete_cascades_references_witness :
  let a1 := ObjectId.make [0; 0; 0; 0; 0; 0; 0; 0; 0; 0; 0; 1]%N in
  let a2 := ObjectId.make [0; 0; 0; 0; 0; 0; 0; 0; 0; 0; 0; 2]%N in
  let b1 := ObjectId.make [0; 0; 0; 0; 0; 0; 0; 0; 0; 0; 1; 1]%N in
  let c1 := ObjectId.make [0; 0; 0; 0; 0; 0; 0; 0; 0; 0; 2; 1]%N in
  let c2 := ObjectId.make [0; 0; 0; 0; 0; 0; 0; 0; 0; 0; 2; 2]%N in
  let name := mkField "name" "string" "a" "CASCADE" in
  let owner := mkField "owner" "reference a" "b" "CASCADE" in
  let owners := mkField "owners" "list:reference a" "c" "CASCADE" in
  let ts := [mkTable "a" [name] [owner] [owners];
             mkTable "b" [owner] [] [];
             mkTable "c" [owners] [] []] in
  let st :=
    mkMongo (fun t =>
               if String.eqb t "a" then [mkDoc a1 [("name", PStr "x")];
                                         mkDoc a2 [("name", PStr "y")]]
               else if String.eqb t "b" then [mkDoc b1 [("owner", POid a1)]]
               else if String.eqb t "c"
                    then [mkDoc c1 [("owners", PSeq KList [POid a1])];
                          mkDoc c2 [("owners", PSeq KList [POid a1; POid a2])]]
               else []) [] in
  let run := delete sample_runtime sample_server (sample_adapter 1 ts) 2 2 "a"
                    (q_eq name (Lit (PStr "x"))) PNone st in
  fst run = Returns 1
  /\ collections (snd run) "a" = [mkDoc a2 [("name", PStr "y")]]
  /\ collections (snd run) "b" = []
  /\ collections (snd run) "c" = [mkDoc c2 [("owners", PSeq KList [POid a2])]].
Proof.
  intros a1 a2 b1 c1 c2 name owner owners ts st run.
  destruct (delete_cascades_references sample_runtime sample_server (sample_adapter 1 ts)
              0 0 "a" (q_eq name (Lit (PStr "x"))) (PDict [(PStr "name", PStr "x")])
              (mkTable "a" [name] [owner] [owners]) (mkTable "b" [owner] [] [])
              owner owners st)
    as (H1 & H2 & H3 & H4 & _);
    try reflexivity; try discriminate.
  split; [exact H1|split; [exact H2|split; [exact H3|exact H4]]].
Defined.

(** ** The identifier codec: texts, and the way back from an identifier *)

Module TextFacts.

Import PyInt CodecFacts.

(** The values of the hexadecimal digits of a text. *)
Fixpoint text_digits (s : string) : option (list N) :=
  match s with
  | EmptyString => Some []
  | String c r =>
      match digit16 c, text_digits r with
      | Some d, Some ds => Some (d :: ds)
      | _, _ => None
      end
  end.

(** Pairs of digits read as bytes. *)
Fixpoint bytes_of (ds : list N) : option (list N) :=
  match ds with
  | [] => Some []
  | hi :: lo :: r =>
      match bytes_of r with
      | Some bs => Some ((16 * hi + lo)%N :: bs)
      | None => None
      end
  | [_] => None
  end.

(** The two digits of each byte. *)
Definition nibbles (bs : list N) : list N :=
  flat_map (fun b => [(b / 16)%N; (b mod 16)%N]) bs.

Lemma string_ind2 (P : string -> Prop) :
  P EmptyString ->
  (forall a, P (String a EmptyString)) ->
  (forall a b r, P r -> P (String a (String b r))) ->
  forall s, P s.
Proof.
  intros H0 H1 H2.
  assert (H : forall s, P s /\ forall a, P (String a s)).
  { induction s as [|b r [IHr IHr']].
    - split; [exact H0|exact H1].
    - split; [apply IHr'|]. intros a. apply H2. exact IHr. }
  intros s. apply H.
Qed.

Lemma digit16_bound (c : ascii) (d : N) : digit16 c = Some d -> (d < 16)%N.
Proof.
  unfold digit16.
  destruct ((48 <=? N_of_ascii c) && (N_of_ascii c <=? 57))%N eqn:E1.
  { intros [= <-]. apply andb_prop in E1. destruct E1 as [A B].
    apply N.leb_le in A. apply N.leb_le in B. lia. }
  destruct ((97 <=? N_of_ascii c) && (N_of_ascii c <=? 102))%N eqn:E2.
  { intros [= <-]. apply andb_prop in E2. destruct E2 as [A B].
    apply N.leb_le in A. apply N.leb_le in B. lia. }
  destruct ((65 <=? N_of_ascii c) && (N_of_ascii c <=? 70))%N eqn:E3; [|discriminate].
  intros [= <-]. apply andb_prop in E3. destruct E3 as [A B].
  apply N.leb_le in A. apply N.leb_le in B. lia.
Qed.

(** A hexadecimal digit is alphanumeric and is none of the characters the
    codec gives a meaning to. *)
Lemma digit16_class (c : ascii) (d : N) :
  digit16 c = Some d ->
  PyStr.is_alnum_char c = true
  /\ c <> "x"%char /\ c <> "L"%char /\ c <> "l"%char /\ c <> "<"%char.
Proof.
  destruct c as [[] [] [] [] [] [] [] []]; vm_compute; intros H;
    try discriminate H; repeat split; discriminate.
Qed.

Lemma text_digits_bound (s : string) :
  forall ds, text_digits s = Some ds -> Forall (fun d => (d < 16)%N) ds.
Proof.
  induction s as [|c r IH]; intros ds; cbn [text_digits].
  - intros [= <-]. constructor.
  - destruct (digit16 c) as [d|] eqn:Ec; [|discriminate].
    destruct (text_digits r) as [ds'|]; [|discriminate].
    intros [= <-]. constructor; [exact (digit16_bound c d Ec)|apply IH; reflexivity].
Qed.

Lemma text_digits_length (s : string) :
  forall ds, text_digits s = Some ds -> List.length ds = String.length s.
Proof.
  induction s as [|c r IH]; intros ds; cbn [text_digits].
  - intros [= <-]. reflexivity.
  - destruct (digit16 c) as [d|]; [|discriminate].
    destruct (text_digits r) as [ds'|]; [|discriminate].
    intros [= <-]. cbn. f_equal. apply IH. reflexivity.
Qed.

Lemma text_digits_str (ds : list N) :
  Forall (fun d => (d < 16)%N) ds -> text_digits (digits_str ds) = Some ds.
Proof.
  induction 1 as [|d r Hd Hr IH]; [reflexivity|].
  change (digits_str (d :: r)) with (String (hex_char d) (digits_str r)).
  cbn [text_digits]. rewrite (digit16_hex_char d Hd), IH. reflexivity.
Qed.

Lemma parse_digits_text (s : string) :
  forall ds acc, text_digits s = Some ds ->
    parse_digits digit16 16 acc s = Some (fold_left (fun a d => (a * 16 + d)%N) ds acc).
Proof.
  induction s as [|c r IH]; intros ds acc; cbn [text_digits parse_digits].
  - intros [= <-]. reflexivity.
  - destruct (digit16 c) as [d|]; [|discriminate].
    destruct (text_digits r) as [ds'|] eqn:Er; [|discriminate].
    intros [= <-]. cbn [fold_left]. apply IH. reflexivity.
Qed.

Lemma unhexlify_text (s : string) :
  ObjectId.unhexlify s
  = match text_digits s with
    | Some ds => bytes_of ds
    | None => None
    end.
Proof.
  induction s as [|a|a b r IH] using string_ind2.
  - reflexivity.
  - cbn. destruct (digit16 a); reflexivity.
  - rewrite unhexlify_cons2, IH. cbn [text_digits].
    destruct (digit16 a) as [hi|]; [|reflexivity].
    destruct (digit16 b) as [lo|]; [|reflexivity].
    destruct (text_digits r) as [ds|]; [|reflexivity].
    reflexivity.
Qed.

Lemma all_chars_text (p : ascii -> bool) (s : string) :
  (forall c d, digit16 c = Some d -> p c = true) ->
  forall ds, text_digits s = Some ds -> PyStr.all_chars p s = true.
Proof.
  intros Hp. induction s as [|c r IH]; intros ds; cbn [text_digits PyStr.all_chars].
  - reflexivity.
  - destruct (digit16 c) as [d|] eqn:Ec; [|discriminate].
    destruct (text_digits r) as [ds'|]; [|discriminate].
    intros _. rewrite (Hp c d Ec), (IH ds' eq_refl). reflexivity.
Qed.

(** A pattern that holds the character [x] is no prefix of a text
    without [x]. *)
Lemma prefix_absent (x : ascii) (old s : string) :
  PyStr.all_chars (fun c => negb (Ascii.eqb c x)) s = true ->
  String.prefix (String x old) s = false.
Proof.
  destruct s as [|c r]; [reflexivity|]. cbn [PyStr.all_chars String.prefix].
  intros H. apply andb_prop in H. destruct H as [H _].
  destruct (ascii_dec x c) as [->|_]; [|reflexivity].
  rewrite Ascii.eqb_refl in H. discriminate.
Qed.

Lemma prefix_absent_second (a x : ascii) (old s : string) :
  PyStr.all_chars (fun c => negb (Ascii.eqb c x)) s = true ->
  String.prefix (String a (String x old)) s = false.
Proof.
  destruct s as [|c r]; [reflexivity|]. cbn [PyStr.all_chars].
  intros H. apply andb_prop in H. destruct H as [_ H].
  change (String.prefix (String a (String x old)) (String c r))
    with (if ascii_dec a c then String.prefix (String x old) r else false).
  destruct (ascii_dec a c); [|reflexivity]. apply prefix_absent. exact H.
Qed.

(** A replacement whose pattern occurs nowhere leaves the text as it is. *)
Lemma replace_from_id (old new : string) (s : string) :
  (forall u t, s = u ++ t -> String.prefix old t = false \/ t = EmptyString) ->
  PyStr.replace_from old new s 0 = s.
Proof.
  induction s as [|c r IH]; intros H; [reflexivity|].
  cbn [PyStr.replace_from].
  destruct (H EmptyString (String c r) eq_refl) as [E|E]; [|discriminate].
  rewrite E. f_equal. apply IH. intros u t ->.
  apply (H (String c u) t). reflexivity.
Qed.

Lemma all_chars_suffix (p : ascii -> bool) (u t : string) :
  PyStr.all_chars p (u ++ t) = true -> PyStr.all_chars p t = true.
Proof.
  induction u as [|c u IH]; [auto|]. cbn [append PyStr.all_chars].
  intros H. apply andb_prop in H. apply IH, H.
Qed.

Lemma replace_0x_absent (s : string) :
  PyStr.all_chars (fun c => negb (Ascii.eqb c "x")) s = true ->
  PyStr.replace "0x" "" s = s.
Proof.
  intros H. unfold PyStr.replace. apply replace_from_id.
  intros u t ->. left. apply prefix_absent_second. exact (all_chars_suffix _ u t H).
Qed.

Lemma replace_L_absent (s : string) :
  PyStr.all_chars (fun c => negb (Ascii.eqb c "L")) s = true ->
  PyStr.replace "L" "" s = s.
Proof.
  intros H. unfold PyStr.replace. apply replace_from_id.
  intros u t ->. left. apply prefix_absent. exact (all_chars_suffix _ u t H).
Qed.

Lemma strip_long_suffix_absent (s : string) :
  PyStr.all_chars (fun c => negb (Ascii.eqb c "L" || Ascii.eqb c "l")) s = true ->
  strip_long_suffix s = s.
Proof.
  induction s as [|c r IH]; [reflexivity|]. cbn [PyStr.all_chars].
  intros H. apply andb_prop in H. destruct H as [Hc Hr].
  cbn [strip_long_suffix]. destruct r as [|c' r'].
  - apply negb_true_iff in Hc. rewrite Hc. reflexivity.
  - f_equal. apply IH. exact Hr.
Qed.

Lemma neq_eqb (c x : ascii) : c <> x -> negb (Ascii.eqb c x) = true.
Proof. intros H. destruct (Ascii.eqb_spec c x); [contradiction|reflexivity]. Qed.

(** What the codec sees in a text of hexadecimal digits. *)
Lemma text_classes (s : string) (ds : list N) :
  text_digits s = Some ds ->
  PyStr.all_chars PyStr.is_alnum_char s = true
  /\ PyStr.replace "L" "" (PyStr.replace "0x" "" s) = s
  /\ strip_long_suffix s = s
  /\ PyStr.all_chars (fun c => negb (Ascii.eqb c "x")) s = true.
Proof.
  intros H.
  assert (Hx : PyStr.all_chars (fun c => negb (Ascii.eqb c "x")) s = true).
  { apply (all_chars_text _ s) with (ds := ds); [|exact H].
    intros c d Hc. apply neq_eqb. apply (digit16_class c d Hc). }
  split; [|split; [|split; [|exact Hx]]].
  - apply (all_chars_text _ s) with (ds := ds); [|exact H].
    intros c d Hc. apply (digit16_class c d Hc).
  - rewrite replace_0x_absent by exact Hx. apply replace_L_absent.
    apply (all_chars_text _ s) with (ds := ds); [|exact H].
    intros c d Hc. apply neq_eqb. apply (digit16_class c d Hc).
  - apply strip_long_suffix_absent.
    apply (all_chars_text _ s) with (ds := ds); [|exact H].
    intros c d Hc. destruct (digit16_class c d Hc) as (_ & _ & HL & Hl & _).
    apply negb_true_iff, orb_false_iff. split.
    + destruct (Ascii.eqb_spec c "L"); [contradiction|reflexivity].
    + destruct (Ascii.eqb_spec c "l"); [contradiction|reflexivity].
Qed.

(** Digit lists of one length with one value are equal. *)
Lemma value_lsb_inj (l : list N) :
  forall m, List.length l = List.length m ->
    Forall (fun d => (d < 16)%N) l -> Forall (fun d => (d < 16)%N) m ->
    value_lsb l = value_lsb m -> l = m.
Proof.
  induction l as [|a l IH]; intros [|b m] Hlen Hl Hm Hv; try discriminate; [reflexivity|].
  inversion Hl as [|? ? Ha Hl']; subst. inversion Hm as [|? ? Hb Hm']; subst.
  cbn [value_lsb fold_right] in Hv.
  fold (value_lsb l) in Hv. fold (value_lsb m) in Hv.
  assert (a = b /\ value_lsb l = value_lsb m) as [-> Hv'] by lia.
  f_equal. apply IH; [cbn in Hlen; lia|assumption|assumption|exact Hv'].
Qed.

Lemma digits_inj (l m : list N) :
  List.length l = List.length m ->
  Forall (fun d => (d < 16)%N) l -> Forall (fun d => (d < 16)%N) m ->
  fold_left (fun a d => (a * 16 + d)%N) l 0%N = fold_left (fun a d => (a * 16 + d)%N) m 0%N ->
  l = m.
Proof.
  intros Hlen Hl Hm Hv.
  rewrite <- (rev_involutive l), <- (rev_involutive m) in Hv.
  rewrite !value_lsb_rev in Hv.
  apply value_lsb_inj in Hv.
  - rewrite <- (rev_involutive l), <- (rev_involutive m), Hv. reflexivity.
  - rewrite !length_rev. exact Hlen.
  - apply Forall_rev. exact Hl.
  - apply Forall_rev. exact Hm.
Qed.

Lemma value_lsb_lt (l : list N) :
  Forall (fun d => (d < 16)%N) l -> (value_lsb l < 16 ^ N.of_nat (List.length l))%N.
Proof.
  induction 1 as [|d r Hd Hr IH]; [cbn; lia|].
  cbn [value_lsb fold_right List.length]. fold (value_lsb r).
  rewrite Nnat.Nat2N.inj_succ, N.pow_succ_r'. lia.
Qed.

Lemma digits_lt (l : list N) :
  Forall (fun d => (d < 16)%N) l ->
  (fold_left (fun a d => (a * 16 + d)%N) l 0%N < 16 ^ N.of_nat (List.length l))%N.
Proof.
  intros Hl.
  replace (fold_left (fun a d => (a * 16 + d)%N) l 0%N) with (value_lsb (rev l))
    by (rewrite <- value_lsb_rev, rev_involutive; reflexivity).
  rewrite <- length_rev. apply value_lsb_lt, Forall_rev, Hl.
Qed.

(** The padded digits of the value of 24 digits are these digits. *)
Lemma padded_digits_of_value (ds : list N) :
  List.length ds = 24%nat -> Forall (fun d => (d < 16)%N) ds ->
  padded_digits (fold_left (fun a d => (a * 16 + d)%N) ds 0%N) = ds.
Proof.
  intros Hlen Hds.
  pose proof (digits_lt ds Hds) as Hlt. rewrite Hlen in Hlt.
  destruct (padded_digits_ok _ Hlt) as (Hl & Hb & Hv).
  apply digits_inj; [congruence|assumption|assumption|exact Hv].
Qed.

Lemma hexlify_nibbles (bs : list N) : ObjectId.hexlify bs = digits_str (nibbles bs).
Proof.
  induction bs as [|b r IH]; [reflexivity|].
  cbn [ObjectId.hexlify nibbles flat_map app]. rewrite IH. reflexivity.
Qed.

Lemma nibbles_bound (bs : list N) :
  Forall (fun b => (b < 256)%N) bs -> Forall (fun d => (d < 16)%N) (nibbles bs).
Proof.
  induction 1 as [|b r Hb Hr IH]; [constructor|].
  cbn [nibbles flat_map app]. constructor; [|constructor; [|exact IH]].
  - apply N.Div0.div_lt_upper_bound. exact Hb.
  - apply N.mod_lt. discriminate.
Qed.

Lemma nibbles_length (bs : list N) : List.length (nibbles bs) = (2 * List.length bs)%nat.
Proof.
  induction bs as [|b r IH]; [reflexivity|].
  cbn [nibbles flat_map app List.length]. fold (nibbles r). rewrite IH. lia.
Qed.

Lemma bytes_of_nibbles (bs : list N) : bytes_of (nibbles bs) = Some bs.
Proof.
  induction bs as [|b r IH]; [reflexivity|].
  cbn [nibbles flat_map app bytes_of]. fold (nibbles r). rewrite IH.
  f_equal. f_equal. pose proof (N.div_mod b 16). lia.
Qed.

End TextFacts.

(** ** The identifier codec: what [object_id] accepts *)

(** A native identifier as bson builds it: twelve bytes. *)
Definition well_formed (o : ObjectId.t) : Prop :=
  List.length (ObjectId.binary o) = 12%nat
  /\ Forall (fun b => (b < 256)%N) (ObjectId.binary o).

Section IdentifierText.

Import PyInt CodecFacts TextFacts.

Variable py : python.
Variable random_choice : nat -> nat.
Variable has_random : bool.

Lemma of_str_digits (s : string) (o : ObjectId.t) :
  ObjectId.of_str s = Ok o ->
  exists ds, text_digits s = Some ds
             /\ List.length ds = 24%nat
             /\ String.length s = 24%nat
             /\ bytes_of ds = Some (ObjectId.binary o).
Proof.
  unfold ObjectId.of_str. destruct (String.length s =? 24)%nat eqn:E; [|discriminate].
  apply Nat.eqb_eq in E.
  rewrite unhexlify_text. destruct (text_digits s) as [ds|] eqn:Ed; [|discriminate].
  destruct (bytes_of ds) as [bs|] eqn:Eb; [|discriminate]. intros [= <-].
  exists ds. split; [reflexivity|]. split; [|split; [exact E|exact Eb]].
  rewrite (text_digits_length s ds Ed). exact E.
Qed.

Lemma of_str_of_digits (ds bs : list N) :
  List.length ds = 24%nat -> Forall (fun d => (d < 16)%N) ds -> bytes_of ds = Some bs ->
  ObjectId.of_str (digits_str ds) = Ok (ObjectId.make bs).
Proof.
  intros Hlen Hds Hb. unfold ObjectId.of_str.
  rewrite digits_str_length, Hlen. cbn [Nat.eqb].
  rewrite unhexlify_text, (text_digits_str ds Hds), Hb. reflexivity.
Qed.

(** The identifier of the value of 24 digits holds the bytes of these
    digits. *)
Lemma object_id_of_value (ds bs : list N) :
  List.length ds = 24%nat -> Forall (fun d => (d < 16)%N) ds -> bytes_of ds = Some bs ->
  object_id py random_choice has_random
            (PInt (Z.of_N (fold_left (fun a d => (a * 16 + d)%N) ds 0%N)))
  = Ok (POid (ObjectId.make bs)).
Proof.
  intros Hlen Hds Hb.
  pose proof (digits_lt ds Hds) as Hlt. rewrite Hlen in Hlt.
  rewrite object_id_int_normal, hexvalue_of_nonneg.
  - rewrite N2Z.id, (padded_digits_of_value ds Hlen Hds).
    rewrite (of_str_of_digits ds bs Hlen Hds Hb). reflexivity.
  - change (2 ^ 96) with (Z.of_N (16 ^ N.of_nat 24)). lia.
Qed.

Lemma nonempty_length (s : string) (n : nat) :
  String.length s = S n -> PyStr.nonempty s = true.
Proof. destruct s; [discriminate|reflexivity]. Qed.

(** The branch of [object_id] on a text of 24 hexadecimal digits. *)
Lemma object_id_of_string_text (s : string) (ds : list N) :
  text_digits s = Some ds ->
  String.length s = 24%nat ->
  object_id_of_string py random_choice has_random (PStr s) s
  = Ok (Z.of_N (fold_left (fun a d => (a * 16 + d)%N) ds 0%N)).
Proof.
  intros Hds Hlen.
  destruct (text_classes s ds Hds) as (Halnum & Hrep & Hstrip & Hx).
  unfold object_id_of_string. rewrite Hrep, Hlen. cbn [Nat.eqb negb].
  rewrite andb_false_r.
  assert (Hr : pyval_eqb (PStr s) (PStr "<random>") = false).
  { cbn [pyval_eqb]. destruct (String.eqb_spec s "<random>") as [E|_]; [|reflexivity].
    subst s. discriminate. }
  rewrite Hr. unfold PyStr.isalnum. rewrite (nonempty_length s 23 Hlen), Halnum.
  cbn [andb]. unfold PyStr.startswith at 1.
  rewrite (prefix_absent_second "0" "x" EmptyString s Hx).
  change (if false then s else "0x" ++ s) with ("0x" ++ s).
  unfold int_literal_0x.
  assert (Hp : PyStr.startswith "0x" ("0x" ++ s) = true)
    by (unfold PyStr.startswith; cbn; destruct s; reflexivity).
  rewrite Hp. cbn [orb].
  change (PyStr.drop 2 ("0x" ++ s)) with s. rewrite Hstrip.
  unfold parse_nonempty. rewrite (parse_digits_text s ds 0%N Hds).
  destruct s; [discriminate|reflexivity].
Qed.

Lemma object_id_text (s : string) (o : ObjectId.t) :
  ObjectId.of_str s = Ok o ->
  object_id py random_choice has_random (PStr s) = Ok (POid o).
Proof.
  intros Ho. destruct (of_str_digits s o Ho) as (ds & Hds & Hlen & Hslen & Hb).
  pose proof (text_digits_bound s ds Hds) as Hbound.
  pose proof (object_id_of_value ds (ObjectId.binary o) Hlen Hbound Hb) as Hv.
  rewrite object_id_int_normal in Hv.
  unfold object_id. cbn [truthy]. rewrite (nonempty_length s 23 Hslen).
  cbn [as_basestring]. rewrite (object_id_of_string_text s ds Hds Hslen).
  cbn [res_bind]. cbn [res_bind] in Hv. rewrite Hv. destruct o. reflexivity.
Qed.

Lemma of_str_str (o : ObjectId.t) : well_formed o -> ObjectId.of_str (ObjectId.str o) = Ok o.
Proof.
  intros [Hlen Hb]. unfold ObjectId.str. rewrite hexlify_nibbles.
  rewrite (of_str_of_digits (nibbles (ObjectId.binary o)) (ObjectId.binary o)).
  - destruct o. reflexivity.
  - rewrite nibbles_length, Hlen. reflexivity.
  - apply nibbles_bound. exact Hb.
  - apply bytes_of_nibbles.
Qed.

(** Decimal digits. *)
Lemma is_digit_char_digit (c : ascii) :
  PyStr.is_digit_char c = true ->
  exists d, digit16 c = Some d /\ digit10 c = Some d.
Proof.
  destruct c as [[] [] [] [] [] [] [] []]; vm_compute; intros H;
    try discriminate H; eexists; split; reflexivity.
Qed.

Lemma decimal_text (s : string) :
  PyStr.all_chars PyStr.is_digit_char s = true ->
  (exists ds, text_digits s = Some ds)
  /\ forall acc, exists n, parse_digits digit10 10 acc s = Some n.
Proof.
  induction s as [|c r IH]; cbn [PyStr.all_chars text_digits parse_digits].
  - intros _. split; [eexists; reflexivity|]. intros acc. eexists. reflexivity.
  - intros H. apply andb_prop in H. destruct H as [Hc Hr].
    destruct (is_digit_char_digit c Hc) as (d & H16 & H10).
    destruct (IH Hr) as [[ds Hds] Hp]. rewrite H16, H10, Hds.
    split; [eexists; reflexivity|]. intros acc. apply Hp.
Qed.

Lemma text_digits_app_x (u r : string) : text_digits (u ++ String "x" r) = None.
Proof.
  induction u as [|c u IH]; [reflexivity|].
  cbn [append text_digits]. rewrite IH. destruct (digit16 c); reflexivity.
Qed.

Lemma of_str_with_x (u r : string) : ObjectId.of_str (u ++ String "x" r) = Err InvalidId.
Proof.
  unfold ObjectId.of_str. rewrite unhexlify_text, text_digits_app_x.
  destruct (_ =? _)%nat; reflexivity.
Qed.

Lemma rstrip_keeps (c d : ascii) (r : string) :
  PyStr.rstrip c r = r -> r <> EmptyString -> PyStr.rstrip c (String d r) = String d r.
Proof.
  intros H Hr. cbn [PyStr.rstrip]. rewrite H. destruct r; [contradiction|reflexivity].
Qed.

End IdentifierText.

(** The text of a native identifier is accepted as that identifier.
    Whenever bson's [ObjectId(s)] is valid (24 hexadecimal digits, either
    case), [object_id(s)] is [ObjectId(s)]: such a text is never read as a
    decimal number, even when all its characters are decimal digits. *)
Theorem object_id_accepts_identifier_text (py : python) (random_choice : nat -> nat) (has_random : bool)
    (s : string) (o : ObjectId.t) :
  ObjectId.of_str s = Ok o ->
  object_id py random_choice has_random (PStr s) = Ok (POid o).
Proof. apply object_id_text. Qed.

Lemma object_id_accepts_identifier_text_witness :
  object_id (Python3 7) (fun x => x) true (PStr "000000000000000000000010")
  = Ok (POid (ObjectId.make [0; 0; 0; 0; 0; 0; 0; 0; 0; 0; 0; 16]%N)).
Proof.
  apply (object_id_accepts_identifier_text (Python3 7) (fun x => x) true "000000000000000000000010").
  reflexivity.
Defined.

(** The way back from a native identifier.  For every identifier [o] of
    twelve bytes, the integer [n] that [parse_id] reads from its text lies
    in [0, 2^96), [parse_id] hands [n] to the base adapter, and [object_id]
    maps both [n] and the text of [o] back to [o]. *)
Theorem parse_id_object_id_roundtrip (py : python) (random_choice : nat -> nat) (has_random : bool)
    (base_parse_id : pyval -> string -> res pyval) (field_type : string) (o : ObjectId.t) :
  well_formed o ->
  exists n : Z,
    0 <= n < 2 ^ 96
    /\ long_of_oid o = Ok n
    /\ parse_id base_parse_id (POid o) field_type = base_parse_id (PInt n) field_type
    /\ object_id py random_choice has_random (PInt n) = Ok (POid o)
    /\ object_id py random_choice has_random (PStr (ObjectId.str o)) = Ok (POid o).
Proof.
  intros Hwf. pose proof Hwf as [Hlen Hb].
  set (ds := TextFacts.nibbles (ObjectId.binary o)).
  assert (Hdlen : List.length ds = 24%nat)
    by (unfold ds; rewrite TextFacts.nibbles_length, Hlen; reflexivity).
  assert (Hds : Forall (fun d => (d < 16)%N) ds) by (apply TextFacts.nibbles_bound; exact Hb).
  pose proof (TextFacts.digits_lt ds Hds) as Hlt. rewrite Hdlen in Hlt.
  assert (Hlong : long_of_oid o
                  = Ok (Z.of_N (fold_left (fun a d => (a * 16 + d)%N) ds 0%N))).
  { unfold long_of_oid, ObjectId.str. rewrite TextFacts.hexlify_nibbles.
    apply CodecFacts.int16_digits; [fold ds; lia|exact Hds]. }
  exists (Z.of_N (fold_left (fun a d => (a * 16 + d)%N) ds 0%N)).
  split; [|split; [exact Hlong|split; [|split]]].
  - change (2 ^ 96) with (Z.of_N (16 ^ N.of_nat 24)). lia.
  - unfold parse_id. rewrite Hlong. reflexivity.
  - rewrite (object_id_of_value py random_choice has_random ds (ObjectId.binary o) Hdlen Hds
               (TextFacts.bytes_of_nibbles _)).
    destruct o. reflexivity.
  - apply object_id_text. apply of_str_str. exact Hwf.
Qed.

Lemma parse_id_object_id_roundtrip_witness :
  exists n : Z,
    0 <= n < 2 ^ 96
    /\ long_of_oid (ObjectId.make [81; 162; 243; 4; 21; 38; 55; 72; 89; 106; 123; 255]%N)
       = Ok n
    /\ parse_id (fun v _ => Ok v)
                (POid (ObjectId.make [81; 162; 243; 4; 21; 38; 55; 72; 89; 106; 123; 255]%N))
                "id"
       = Ok (PInt n)
    /\ object_id (Python3 7) (fun x => x) true (PInt n)
       = Ok (POid (ObjectId.make [81; 162; 243; 4; 21; 38; 55; 72; 89; 106; 123; 255]%N))
    /\ object_id (Python3 7) (fun x => x) true
                 (PStr (ObjectId.str
                          (ObjectId.make [81; 162; 243; 4; 21; 38; 55; 72; 89; 106; 123; 255]%N)))
       = Ok (POid (ObjectId.make [81; 162; 243; 4; 21; 38; 55; 72; 89; 106; 123; 255]%N)).
Proof.
  apply (parse_id_object_id_roundtrip (Python3 7) (fun x => x) true (fun v _ => Ok v) "id"
           (ObjectId.make [81; 162; 243; 4; 21; 38; 55; 72; 89; 106; 123; 255]%N)).
  split; [reflexivity|]. repeat constructor.
Defined.

(** A text of decimal digits that is not 24 characters long is read as a
    decimal number: [object_id(s)] is [object_id(int(s))]. *)
Theorem object_id_decimal_text (py : python) (random_choice : nat -> nat) (has_random : bool) (s : string) :
  PyStr.isdigit s = true ->
  String.length s <> 24%nat ->
  exists n : Z,
    PyInt.int10 s = Ok n
    /\ object_id py random_choice has_random (PStr s)
       = object_id py random_choice has_random (PInt n).
Proof.
  intros Hd Hlen. unfold PyStr.isdigit in Hd. apply andb_prop in Hd. destruct Hd as [Hne Hall].
  destruct (decimal_text s Hall) as [[ds Hds] Hp]. destruct (Hp 0%N) as [n Hn].
  assert (Hint : PyInt.int10 s = Ok (Z.of_N n)).
  { unfold PyInt.int10, PyInt.parse_nonempty. rewrite Hn. destruct s; [discriminate|reflexivity]. }
  exists (Z.of_N n). split; [exact Hint|].
  destruct (TextFacts.text_classes s ds Hds) as (_ & Hrep & _ & _).
  rewrite object_id_int_normal.
  unfold object_id. cbn [truthy]. rewrite Hne. cbn [as_basestring].
  unfold object_id_of_string. rewrite Hrep.
  destruct (Nat.eqb_spec (String.length s) 24) as [E|_]; [contradiction|].
  unfold PyStr.isdigit. rewrite Hne, Hall. cbn [andb negb]. rewrite Hint. reflexivity.
Qed.

Lemma object_id_decimal_text_witness :
  exists n : Z,
    PyInt.int10 "255" = Ok n
    /\ object_id (Python3 7) (fun x => x) true (PStr "255") = object_id (Python3 7) (fun x => x) true (PInt n).
Proof.
  apply (object_id_decimal_text (Python3 7) (fun x => x) true "255"); [reflexivity|discriminate].
Defined.

(** Edge cases of [object_id].  Every argument that is false ([None], 0,
    the empty string, an empty container) gives the identifier of twelve
    zero bytes; a negative integer is rejected by bson as an invalid
    identifier, because the sign leaves an [x] in the text. *)
Theorem object_id_falsy_and_negative (py : python) (random_choice : nat -> nat) (has_random : bool) :
  (forall v, truthy v = false ->
             object_id py random_choice has_random v
             = Ok (POid (ObjectId.make (repeat 0%N 12))))
  /\ (forall n, n < 0 -> object_id py random_choice has_random (PInt n) = Err InvalidId).
Proof.
  split.
  - intros v Hv. unfold object_id. rewrite Hv. reflexivity.
  - intros n Hn. rewrite object_id_int_normal. unfold PyInt.hex.
    destruct (Z.ltb_spec n 0) as [_|?]; [|lia].
    change (PyStr.drop 2 ("-0x" ++ PyInt.hex_digits (Z.abs_N n)))
      with (String "x" (PyInt.hex_digits (Z.abs_N n))).
    rewrite CodecFacts.hex_digits_str.
    set (ds := if (Z.abs_N n =? 0)%N then [0%N]
               else rev (PyInt.to_digits16 (N.to_nat (N.size (Z.abs_N n))) (Z.abs_N n))).
    assert (Hds : Forall (fun d => (d < 16)%N) ds) by apply CodecFacts.unpadded_bound.
    rewrite rstrip_keeps.
    + rewrite CodecFacts.zfill_unsigned by reflexivity.
      rewrite of_str_with_x. reflexivity.
    + apply CodecFacts.rstrip_digits. exact Hds.
    + unfold ds. destruct (Z.abs_N n =? 0)%N eqn:E; [discriminate|].
      apply N.eqb_neq in E. intros H.
      apply (CodecFacts.to_digits16_nonempty (N.to_nat (N.size (Z.abs_N n))) (Z.abs_N n) E).
      * destruct (Z.abs_N n); [contradiction|]. cbn. lia.
      * destruct (PyInt.to_digits16 _ _) as [|d l]; [reflexivity|].
        cbn [rev] in H. destruct (rev l); discriminate.
Qed.

Lemma object_id_falsy_and_negative_witness :
  object_id (Python3 7) (fun x => x) true (PStr "") = Ok (POid (ObjectId.make (repeat 0%N 12)))
  /\ object_id (Python3 7) (fun x => x) true (PInt (-5)) = Err InvalidId.
Proof.
  destruct (object_id_falsy_and_negative (Python3 7) (fun x => x) true) as [Hf Hn].
  split; [apply Hf; reflexivity|apply Hn; reflexivity].
Defined.

(** [object_id] is idempotent: what it returns is a native identifier, and
    it maps a native identifier to itself, with or without a random
    generator. *)
Theorem object_id_idempotent (py : python) (random_choice : nat -> nat) (hr hr' : bool) (v w : pyval) :
  object_id py random_choice hr v = Ok w ->
  (exists o, w = POid o) /\ object_id py random_choice hr' w = Ok w.
Proof.
  intros H. destruct (object_id_returns_oid py random_choice hr v w H) as [o ->].
  split; [eexists; reflexivity|apply object_id_oid].
Qed.

Lemma object_id_idempotent_witness :
  (exists o, POid (ObjectId.make [0; 0; 0; 0; 0; 0; 0; 0; 0; 0; 0; 255]%N) = POid o)
  /\ object_id (Python3 7) (fun x => x) false
               (POid (ObjectId.make [0; 0; 0; 0; 0; 0; 0; 0; 0; 0; 0; 255]%N))
     = Ok (POid (ObjectId.make [0; 0; 0; 0; 0; 0; 0; 0; 0; 0; 0; 255]%N)).
Proof.
  apply (object_id_idempotent (Python3 7) (fun x => x) true false (PStr "ff")). reflexivity.
Defined.

(** ** Value coercion: references are stored as native identifiers *)

Lemma prefix_empty (s : string) : String.prefix "" s = true.
Proof. destruct s; reflexivity. Qed.

Lemma prefix_app (a b s : string) :
  String.prefix (a ++ b) s = true -> String.prefix a s = true.
Proof.
  revert s. induction a as [|x a IH]; intros s; [intros _; apply prefix_empty|].
  destruct s as [|c r]; [discriminate|]. cbn [append String.prefix].
  destruct (ascii_dec x c); [apply IH|discriminate].
Qed.

(** What [represent] returns for a field of type id or [reference ...] is a
    native identifier, and for a field of type [list:reference ...] a list
    of native identifiers, whatever the base adapter made of the value. *)
Theorem represent_reference_yields_identifiers (rt : runtime) (agg : bool) (obj : pyval)
    (ft : string) (w : pyval) :
  represent rt agg obj (Some ft) = Ok w ->
  (ft = "id" \/ PyStr.startswith "reference" ft = true -> is_oid w)
  /\ (PyStr.startswith "list:reference" ft = true ->
      exists l, w = PSeq KList l /\ Forall is_oid l).
Proof.
  intros H. unfold represent in H.
  destruct (match obj with POid _ => Ok obj | _ => rt_base_represent rt obj (Some ft) end)
    as [value|e]; [|discriminate].
  cbn [res_bind] in H. unfold type_is in H.
  destruct (String.eqb_spec ft "date") as [->|_].
  { split; [intros [Hx|Hx]; discriminate Hx|intros Hx; discriminate Hx]. }
  destruct (String.eqb_spec ft "time") as [->|_].
  { split; [intros [Hx|Hx]; discriminate Hx|intros Hx; discriminate Hx]. }
  cbn [orb] in H.
  destruct (String.eqb_spec ft "blob") as [->|_].
  { split; [intros [Hx|Hx]; discriminate Hx|intros Hx; discriminate Hx]. }
  split.
  - intros Hx.
    assert (Hl : PyStr.startswith "list:" ft = false).
    { destruct Hx as [->|Hx]; [reflexivity|].
      destruct ft as [|c r]; [discriminate|]. unfold PyStr.startswith in *.
      cbn [String.prefix] in *. destruct (ascii_dec "r" c) as [<-|]; [reflexivity|discriminate]. }
    assert (Hr : (PyStr.startswith "reference" ft || String.eqb ft "id")%bool = true).
    { destruct Hx as [->|Hx]; [reflexivity|rewrite Hx; reflexivity]. }
    rewrite Hl, Hr in H. unfold self_object_id in H.
    destruct (object_id_returns_oid _ _ _ _ _ H) as [o ->]. eexists. reflexivity.
  - intros Hx.
    assert (Hl : PyStr.startswith "list:" ft = true)
      by (apply (prefix_app "list:" "reference"); exact Hx).
    rewrite Hl, Hx in H.
    destruct (py_iter value) as [items|e]; [|discriminate]. cbn [res_bind] in H.
    destruct (mapM (self_object_id rt agg) items) as [oids|e] eqn:E; [|discriminate].
    injection H as <-. exists oids. split; [reflexivity|].
    apply (mapM_Forall is_oid _ _ _ (fun x y Hxy => object_id_returns_oid _ _ _ x y Hxy) E).
Qed.

Lemma represent_reference_yields_identifiers_witness :
  is_oid (POid (ObjectId.make [0; 0; 0; 0; 0; 0; 0; 0; 0; 0; 0; 255]%N))
  /\ exists l, PSeq KList [POid (ObjectId.make [0; 0; 0; 0; 0; 0; 0; 0; 0; 0; 0; 255]%N)]
               = PSeq KList l /\ Forall is_oid l.
Proof.
  destruct (represent_reference_yields_identifiers sample_runtime false (PInt 255)
              "reference person"
              (POid (ObjectId.make [0; 0; 0; 0; 0; 0; 0; 0; 0; 0; 0; 255]%N)) eq_refl)
    as [H1 _].
  destruct (represent_reference_yields_identifiers sample_runtime false
              (PSeq KList [PStr "ff"]) "list:reference person"
              (PSeq KList [POid (ObjectId.make [0; 0; 0; 0; 0; 0; 0; 0; 0; 0; 0; 255]%N)])
              eq_refl)
    as [_ H2].
  split; [apply H1; right; reflexivity|apply H2; reflexivity].
Defined.

(** ** The expression compiler: compiling twice *)

(** The compiler mutates the object it compiles (the name of an id field,
    the right operand cast to an identifier).  Compiling the object again,
    as it was left, gives the same result: the same fragment or the same
    exception. *)
Theorem expand_again_same_result (rt : runtime) (n : nat) (agg : bool) (e : expr)
    (ft : option string) :
  fst (expand rt n agg (snd (expand rt n agg e ft)) ft) = fst (expand rt n agg e ft).
Proof.
  destruct (expand_NOT_settled rt n) as [A _].
  destruct (expand_NOT_settled_eq rt n) as [B _].
  apply B. apply A.
Qed.

(** ** The expression compiler: negating an inequality *)

Definition q_ne (f : Field) (v : expr) : expr := QueryE (FieldE f) (OpFunc NE) v [].

Section NotNe.

Variable rt : runtime.

Lemma EQ_NE_outcomes (ex : expander) (agg : bool) (st : expr * expr) :
  match fst (EQ_ ex agg st) with
  | Returns frag =>
      exists k x, frag = PDict [(k, x)] /\ hashable k = true
                  /\ fst (NE_ ex agg st) = Returns (PDict [(k, PDict [(PStr "$ne", x)])])
  | Raises e => fst (NE_ ex agg st) = Raises e
  | OutOfFuel => fst (NE_ ex agg st) = OutOfFuel
  end.
Proof.
  unfold EQ_, NE_, compare, op_bind, expand_first, expand_second, on_first, on_second,
    first_type, op_lift.
  destruct (ex agg (fst st) None) as [[k|e|] f1]; cbn [fst snd]; try reflexivity.
  destruct (type_of f1) as [t|e]; cbn [of_res]; [|reflexivity].
  destruct (ex agg (snd st) t) as [[v|e|] s1]; cbn [fst snd]; try reflexivity.
  unfold dict1. destruct (hashable k) eqn:Hk; cbn [of_res fst]; [|reflexivity].
  exists k, v. repeat split. exact Hk.
Qed.

Lemma expand_node_EQ_NE (n : nat) (agg : bool) (st : expr * expr) :
  match fst (expand_node rt (expand rt n) (NOT_ rt n) agg (OpFunc EQ) [] st) with
  | Returns frag =>
      exists k x, frag = PDict [(k, x)] /\ hashable k = true
                  /\ fst (expand_node rt (expand rt n) (NOT_ rt n) agg (OpFunc NE) [] st)
                     = Returns (PDict [(k, PDict [(PStr "$ne", x)])])
  | Raises e =>
      fst (expand_node rt (expand rt n) (NOT_ rt n) agg (OpFunc NE) [] st) = Raises e
  | OutOfFuel =>
      fst (expand_node rt (expand rt n) (NOT_ rt n) agg (OpFunc NE) [] st) = OutOfFuel
  end.
Proof.
  unfold expand_node.
  destruct (negb (is_none (snd st))); [apply EQ_NE_outcomes|].
  destruct (negb (is_none (fst st))); [apply EQ_NE_outcomes|].
  reflexivity.
Qed.

Lemma expand_ne_of_eq (n : nat) (agg : bool) (f : Field) (v : expr) :
  match fst (expand rt n agg (q_eq f v) None) with
  | Returns frag =>
      exists k x, frag = PDict [(k, x)] /\ hashable k = true
                  /\ fst (expand rt n agg (q_ne f v) None)
                     = Returns (PDict [(k, PDict [(PStr "$ne", x)])])
  | Raises e => fst (expand rt n agg (q_ne f v) None) = Raises e
  | OutOfFuel => fst (expand rt n agg (q_ne f v) None) = OutOfFuel
  end.
Proof.
  destruct n as [|n]; [reflexivity|].
  unfold q_eq, q_ne. cbn [expand]. unfold expand_body. cbn [cast_query].
  assert (H : forall f' s',
             match fst (let (r, st') :=
                          expand_node rt (expand rt n) (NOT_ rt n) agg (OpFunc EQ) []
                                      (FieldE f', s') in
                        (r, QueryE (fst st') (OpFunc EQ) (snd st') [])) with
             | Returns frag =>
                 exists k x, frag = PDict [(k, x)] /\ hashable k = true
                   /\ fst (let (r, st') :=
                             expand_node rt (expand rt n) (NOT_ rt n) agg (OpFunc NE) []
                                         (FieldE f', s') in
                           (r, QueryE (fst st') (OpFunc NE) (snd st') []))
                      = Returns (PDict [(k, PDict [(PStr "$ne", x)])])
             | Raises e =>
                 fst (let (r, st') :=
                        expand_node rt (expand rt n) (NOT_ rt n) agg (OpFunc NE) []
                                    (FieldE f', s') in
                      (r, QueryE (fst st') (OpFunc NE) (snd st') [])) = Raises e
             | OutOfFuel =>
                 fst (let (r, st') :=
                        expand_node rt (expand rt n) (NOT_ rt n) agg (OpFunc NE) []
                                    (FieldE f', s') in
                      (r, QueryE (fst st') (OpFunc NE) (snd st') [])) = OutOfFuel
             end).
  { intros f' s'. pose proof (expand_node_EQ_NE n agg (FieldE f', s')) as H.
    destruct (expand_node rt (expand rt n) (NOT_ rt n) agg (OpFunc EQ) [] (FieldE f', s'))
      as [r1 st1].
    destruct (expand_node rt (expand rt n) (NOT_ rt n) agg (OpFunc NE) [] (FieldE f', s'))
      as [r2 st2].
    exact H. }
  destruct (is_id_or_reference f); [|apply H].
  destruct (cast_second rt agg v) as [v'|e]; [apply H|reflexivity].
Qed.

End NotNe.

(** [NOT(f != v)] compiles to what [f == v] compiles to: the same fragment,
    or the same exception. *)
Theorem not_ne_compiles_to_eq (rt : runtime) (n : nat) (agg : bool) (f : Field) (v : expr) :
  fst (expand rt (S (S n)) agg (q_not (q_ne f v)) None)
  = fst (expand rt n agg (q_eq f v) None).
Proof.
  rewrite expand_q_not by exact I. cbn [fst]. rewrite NOT_S. unfold NOT_body.
  pose proof (expand_ne_of_eq rt n agg f v) as H.
  destruct (expand rt n agg (q_ne f v) None) as [r e1]. cbn [fst] in H.
  destruct (fst (expand rt n agg (q_eq f v) None)) as [frag|e|].
  - destruct H as (k & x & -> & Hk & ->). unfold NOT_rewrite.
    rewrite NOT_step_ne by exact Hk. reflexivity.
  - subst r. reflexivity.
  - subst r. reflexivity.
Qed.

(** ** The expression compiler: what is not supported *)

(** [AS] and [ON] never compile: whatever the operands, the keyword
    arguments and the expected type, [expand] returns no fragment; called
    with two operands and no keyword it raises NotImplementedError. *)
Theorem as_and_on_never_compile (rt : runtime) (n : nat) (agg : bool) (o : operator)
    (a b : expr) (ty : option string) (kw : kwargs) (ft : option string) :
  o = AS \/ o = ON ->
  returned (fst (expand rt n agg (ExprE a (OpFunc o) b ty kw) ft)) = None
  /\ (is_none b = false -> kw = [] ->
      fst (expand rt (S n) agg (ExprE a (OpFunc o) b ty kw) ft)
      = Raises NotImplementedError).
Proof.
  intros Ho. split.
  - destruct n as [|n]; [reflexivity|].
    cbn [expand]. unfold expand_body. cbn [cast_query]. unfold expand_node. cbn [fst snd].
    destruct (negb (is_none b)); [|destruct (negb (is_none a))];
      destruct Ho as [-> | ->]; unfold call_operator;
      match goal with
      | |- context [if ?c then _ else _] => destruct c
      end; reflexivity.
  - intros Hb ->. cbn [expand]. unfold expand_body. cbn [cast_query]. unfold expand_node.
    cbn [fst snd]. rewrite Hb. destruct Ho as [-> | ->]; reflexivity.
Qed.

Lemma as_and_on_never_compile_witness :
  returned (fst (expand sample_runtime 5 false
                   (ExprE (FieldE (mkField "name" "string" "person" "")) (OpFunc AS)
                          (Lit (PStr "n")) None []) None)) = None
  /\ fst (expand sample_runtime 5 false
                 (ExprE (FieldE (mkField "name" "string" "person" "")) (OpFunc AS)
                        (Lit (PStr "n")) None []) None)
     = Raises NotImplementedError.
Proof.
  destruct (as_and_on_never_compile sample_runtime 4 false AS
              (FieldE (mkField "name" "string" "person" "")) (Lit (PStr "n")) None []
              None (or_introl eq_refl)) as [_ H2].
  destruct (as_and_on_never_compile sample_runtime 5 false AS
              (FieldE (mkField "name" "string" "person" "")) (Lit (PStr "n")) None []
              None (or_introl eq_refl)) as [H1 _].
  split; [exact H1|apply H2; reflexivity].
Defined.

(** ** The expression compiler: anchors of the pattern operators *)

(** On a field that is neither id nor reference typed, with a base adapter
    that hands a string of a 'string' field back as it is, for every string
    [s] and on every interpreter, where [e] is [re.escape(s)]: [ENDSWITH]
    compiles to [e] anchored at the end only; [ILIKE] compiles to [e] in
    which every escaped percent sign has become [.*] and every underscore,
    escaped or not, has become [.], anchored at both ends, with the option
    [i].  What [re.escape] leaves of a percent sign depends on the
    interpreter: before Python 3.7 it is escaped and [ILIKE] of "a%" gives
    [^a.*$]; from 3.7 on it is not, and [ILIKE] of "a%" gives [^a%$]. *)
Theorem endswith_and_ilike_regex (rt : runtime) (n : nat) (agg : bool) (f : Field)
    (s : string) :
  is_id_or_reference f = false ->
  rt_base_represent rt (PStr s) (Some "string") = Ok (PStr s) ->
  fst (expand rt (S (S n)) agg (QueryE (FieldE f) (OpFunc ENDSWITH) (Lit (PStr s)) []) None)
  = Returns (PDict [(PStr (field_key agg f),
                     PDict [(PStr "$regex",
                             PStr (re_escape (rt_python rt) s ++ "$"))])])
  /\ fst (expand rt (S (S n)) agg (QueryE (FieldE f) (OpFunc ILIKE) (Lit (PStr s)) []) None)
     = Returns (PDict [(PStr (field_key agg f),
                        PDict [(PStr "$regex",
                                PStr ("^" ++ PyStr.replace "_" "."
                                               (PyStr.replace "\_" "."
                                                  (PyStr.replace "\%" ".*"
                                                     (re_escape (rt_python rt) s)))
                                          ++ "$"));
                               (PStr "$options", PStr "i")])]).
Proof.
  intros Hid Hbase. split.
  - rewrite (expand_pattern_query rt n agg f ENDSWITH s true true false true false);
      [reflexivity|assumption|assumption|reflexivity|reflexivity].
  - rewrite (expand_pattern_query rt n agg f ILIKE s false false false true true);
      [reflexivity|assumption|assumption|reflexivity|reflexivity].
Qed.

Lemma endswith_and_ilike_regex_witness :
  let name := mkField "name" "string" "person" "" in
  let run rt o s := fst (expand rt 2 false (QueryE (FieldE name) (OpFunc o) (Lit (PStr s)) [])
                                None) in
  run sample_runtime ENDSWITH "a.b"
  = Returns (PDict [(PStr "name", PDict [(PStr "$regex", PStr "a\.b$")])])
  /\ run sample_runtime_py3 ENDSWITH "a.b"
     = Returns (PDict [(PStr "name", PDict [(PStr "$regex", PStr "a\.b$")])])
  /\ (rt_python sample_runtime = Python2 64
      /\ run sample_runtime ILIKE "a%"
         = Returns (PDict [(PStr "name",
                            PDict [(PStr "$regex", PStr "^a.*$");
                                   (PStr "$options", PStr "i")])]))
  /\ (rt_python sample_runtime_py3 = Python3 7
      /\ run sample_runtime_py3 ILIKE "a%"
         = Returns (PDict [(PStr "name",
                            PDict [(PStr "$regex", PStr "^a%$");
                                   (PStr "$options", PStr "i")])]))
  /\ run sample_runtime_py3 ILIKE "a_b"
     = Returns (PDict [(PStr "name",
                        PDict [(PStr "$regex", PStr "^a.b$"); (PStr "$options", PStr "i")])]).
Proof.
  intros name run.
  split; [|split; [|split; [|split]]].
  - exact (proj1 (endswith_and_ilike_regex sample_runtime 0 false name "a.b"
                    eq_refl eq_refl)).
  - exact (proj1 (endswith_and_ilike_regex sample_runtime_py3 0 false name "a.b"
                    eq_refl eq_refl)).
  - split; [reflexivity|].
    exact (proj2 (endswith_and_ilike_regex sample_runtime 0 false name "a%"
                    eq_refl eq_refl)).
  - split; [reflexivity|].
    exact (proj2 (endswith_and_ilike_regex sample_runtime_py3 0 false name "a%"
                    eq_refl eq_refl)).
  - exact (proj2 (endswith_and_ilike_regex sample_runtime_py3 0 false name "a_b"
                    eq_refl eq_refl)).
Defined.

(** ** The expression compiler: CONTAINS *)

(** A pattern without wildcards, built for a field and a string. *)
Lemma pattern_on_field (rt : runtime) (n : nat) (agg : bool) (f : Field) (s : string)
    (cs ew sw ws : bool) :
  rt_base_represent rt (PStr s) (Some "string") = Ok (PStr s) ->
  fst ((val <~ _build_like_regex rt (expand rt (S n)) agg cs ew sw ws false ;;
        k <~ expand_first (expand rt (S n)) agg None ;;
        op_lift (dict1 k val)) (FieldE f, Lit (PStr s)))
  = Returns
      (PDict [(PStr (field_key agg f),
               if (ws || negb cs || sw || ew)%bool
               then PDict ((PStr "$regex",
                            PStr (let esc := re_escape (rt_python rt) s in
                                  if sw then "^" ++ esc
                                  else if ew then esc ++ "$"
                                  else if ws then "^" ++ esc ++ "$"
                                  else esc))
                           :: (if negb cs then [(PStr "$options", PStr "i")] else []))
               else PStr s)]).
Proof.
  intros Hbase.
  unfold _build_like_regex, op_bind, expand_second, expand_first, on_second, on_first.
  cbn [fst snd].
  rewrite expand_lit_typed by reflexivity.
  rewrite (represent_string rt agg s Hbase). cbn [of_res].
  destruct (ws || negb cs || sw || ew)%bool eqn:E; cbn [op_lift of_res negb];
    unfold op_ret; cbn [fst snd]; rewrite expand_field;
    cbn [fst snd op_lift dict1 hashable of_res]; reflexivity.
Qed.

(** [CONTAINS] of a field that is neither id nor reference typed and a
    string [s], with a base adapter that hands a 'string' value back as it
    is.  On a [list:string] field it compiles to the escaped string
    anchored at both ends.  On any other field it compiles, case-sensitive
    as by default, to the plain value [{field: s}], which is no pattern at
    all, and with [case_sensitive=False] to the escaped string without
    anchors and the option [i]. *)
Theorem contains_compiles (rt : runtime) (n : nat) (agg : bool) (f : Field) (s : string) :
  is_id_or_reference f = false ->
  rt_base_represent rt (PStr s) (Some "string") = Ok (PStr s) ->
  let q kw := QueryE (FieldE f) (OpFunc CONTAINS) (Lit (PStr s)) kw in
  let key := PStr (field_key agg f) in
  let esc := re_escape (rt_python rt) s in
  (f_type f = "list:string" ->
   fst (expand rt (S (S n)) agg (q []) None)
   = Returns (PDict [(key, PDict [(PStr "$regex", PStr ("^" ++ esc ++ "$"))])]))
  /\ (f_type f <> "list:string" ->
      fst (expand rt (S (S n)) agg (q []) None) = Returns (PDict [(key, PStr s)])
      /\ fst (expand rt (S (S n)) agg (q [("case_sensitive", PBool false)]) None)
         = Returns (PDict [(key, PDict [(PStr "$regex", PStr esc);
                                        (PStr "$options", PStr "i")])])).
Proof.
  intros Hid Hbase q key esc.
  assert (H : forall kw,
             kw = [] \/ kw = [("case_sensitive", PBool false)] ->
             fst (expand rt (S (S n)) agg (q kw) None)
             = fst ((if String.eqb (f_type f) "list:string"
                     then
                       val <~ _build_like_regex rt (expand rt (S n)) agg
                                (truthy (kw_default kw "case_sensitive" (PBool true)))
                                false false true false ;;
                       k <~ expand_first (expand rt (S n)) agg None ;;
                       op_lift (dict1 k val)
                     else
                       val <~ _build_like_regex rt (expand rt (S n)) agg
                                (truthy (kw_default kw "case_sensitive" (PBool true)))
                                false false false false ;;
                       k <~ expand_first (expand rt (S n)) agg None ;;
                       op_lift (dict1 k val)) (FieldE f, Lit (PStr s)))).
  { intros kw Hkw. unfold q.
    change (expand rt (S (S n)) agg ?e None)
      with (expand_body rt (expand rt (S n)) (NOT_ rt (S n)) agg e None).
    unfold expand_body. cbn [cast_query]. rewrite Hid.
    unfold expand_node. cbn [snd fst is_none negb].
    unfold call_operator.
    assert (Hacc : kw_accepted ["case_sensitive"] kw = true)
      by (destruct Hkw as [-> | ->]; reflexivity).
    rewrite Hacc. cbn [Nat.leb andb negb].
    unfold CONTAINS_. unfold op_bind at 1. unfold get_first at 1.
    unfold op_bind at 1. unfold get_second at 1. cbn [fst snd].
    match goal with
    | |- fst (let (r, st') := ?X in _) = _ => destruct X as [r st']
    end. reflexivity. }
  split.
  - intros Hty. rewrite (H [] (or_introl eq_refl)). rewrite Hty, String.eqb_refl.
    rewrite pattern_on_field by exact Hbase. reflexivity.
  - intros Hty.
    assert (E : String.eqb (f_type f) "list:string" = false)
      by (apply String.eqb_neq; exact Hty).
    split.
    + rewrite (H [] (or_introl eq_refl)). rewrite E.
      rewrite pattern_on_field by exact Hbase. reflexivity.
    + rewrite (H _ (or_intror eq_refl)). rewrite E.
      rewrite pattern_on_field by exact Hbase. reflexivity.
Qed.

Lemma contains_compiles_witness :
  fst (expand sample_runtime 2 false
         (QueryE (FieldE (mkField "tags" "list:string" "book" "")) (OpFunc CONTAINS)
                 (Lit (PStr "a.b")) []) None)
  = Returns (PDict [(PStr "tags", PDict [(PStr "$regex", PStr "^a\.b$")])])
  /\ fst (expand sample_runtime 2 false
            (QueryE (FieldE (mkField "title" "string" "book" "")) (OpFunc CONTAINS)
                    (Lit (PStr "a.b")) []) None)
     = Returns (PDict [(PStr "title", PStr "a.b")])
  /\ fst (expand sample_runtime 2 false
            (QueryE (FieldE (mkField "title" "string" "book" "")) (OpFunc CONTAINS)
                    (Lit (PStr "a.b")) [("case_sensitive", PBool false)]) None)
     = Returns (PDict [(PStr "title",
                        PDict [(PStr "$regex", PStr "a\.b"); (PStr "$options", PStr "i")])]).
Proof.
  destruct (contains_compiles sample_runtime 0 false (mkField "tags" "list:string" "book" "")
              "a.b" eq_refl eq_refl) as [H1 _].
  destruct (contains_compiles sample_runtime 0 false (mkField "title" "string" "book" "")
              "a.b" eq_refl eq_refl) as [_ H2].
  destruct H2 as [H2 H3]; [discriminate|].
  split; [apply H1; reflexivity|split; [exact H2|exact H3]].
Defined.

(** ** select: the sort keys of an ordering *)

Definition no_comma (s : string) : Prop :=
  PyStr.all_chars (fun c => negb (Ascii.eqb c ",")) s = true.

Lemma split_on_app (a r : string) :
  no_comma a -> split_on "," (a ++ String "," r) = a :: split_on "," r.
Proof.
  unfold no_comma. induction a as [|x a IH]; [reflexivity|].
  cbn [PyStr.all_chars append split_on]. intros H. apply andb_prop in H. destruct H as [Hx Ha].
  apply negb_true_iff in Hx. rewrite Hx, (IH Ha). reflexivity.
Qed.

Lemma split_on_none (a : string) : no_comma a -> split_on "," a = [a].
Proof.
  unfold no_comma. induction a as [|x a IH]; [reflexivity|].
  cbn [PyStr.all_chars split_on]. intros H. apply andb_prop in H. destruct H as [Hx Ha].
  apply negb_true_iff in Hx. rewrite Hx, (IH Ha). reflexivity.
Qed.

(** [~field] and [a | b] on orderings: expressions of the operators
    INVERT and COMMA, whatever type the DAL gives them. *)
Definition q_invert (ty : option string) (f : Field) : expr :=
  ExprE (FieldE f) (OpFunc INVERT) (Lit PNone) ty [].

Definition q_comma (ty : option string) (a b : expr) : expr :=
  ExprE a (OpFunc COMMA) b ty [].

Lemma expand_invert_field (rt : runtime) (n : nat) (ty : option string) (f : Field) :
  fst (expand rt (S (S n)) false (q_invert ty f) None)
  = Returns (PStr ("-" ++ field_key false f)).
Proof.
  unfold q_invert.
  change (expand rt (S (S n)) false ?e None)
    with (expand_body rt (expand rt (S n)) (NOT_ rt (S n)) false e None).
  unfold expand_body. cbn [cast_query]. unfold expand_node. cbn [snd fst is_none negb].
  unfold call_operator. cbn [Nat.leb andb negb].
  change (kw_accepted [] []) with true. cbn [negb].
  unfold INVERT_, op_bind, expand_first, on_first. cbn [fst snd].
  rewrite expand_field. reflexivity.
Qed.

Lemma expand_comma (rt : runtime) (n : nat) (ty : option string) (a b : expr)
    (x y : string) :
  is_none b = false ->
  fst (expand rt n false a None) = Returns (PStr x) ->
  fst (expand rt n false b None) = Returns (PStr y) ->
  fst (expand rt (S n) false (q_comma ty a b) None) = Returns (PStr (x ++ ", " ++ y)).
Proof.
  intros Hb Ha Hy. unfold q_comma.
  cbn [expand]. unfold expand_body. cbn [cast_query]. unfold expand_node. cbn [snd fst].
  rewrite Hb. cbn [negb].
  unfold call_operator. cbn [Nat.leb andb negb].
  change (kw_accepted [] []) with true. cbn [negb].
  unfold COMMA_, op_bind, expand_first, expand_second, on_first, on_second. cbn [fst snd].
  destruct (expand rt n false a None) as [ra a1]. cbn [fst] in Ha. subst ra. cbn [fst snd].
  destruct (expand rt n false b None) as [rb b1]. cbn [fst] in Hy. subst rb. reflexivity.
Qed.

Lemma sort_list_of_text (rt : runtime) (n : nat) (e : expr) (s : string) (st : mongo) :
  query_truthy e = true ->
  fst (expand rt n false e None) = Returns (PStr s) ->
  fst (sort_list rt n (Some (OrderBy e)) st) = Returns (map sort_key (split_on "," s)).
Proof.
  intros Ht He. unfold sort_list. cbn [order_truthy]. rewrite Ht.
  unfold db_bind, db_lift, self_expand, db_out, of_res. rewrite He. reflexivity.
Qed.

(** The sort keys that [select] hands to [find], for fields [f] and [g]
    whose keys hold no comma (and the key of [f] no leading dash).  The
    ordering [~f] gives the key of [f], descending.  The ordering [f | g]
    gives the key of [f] and, for [g], its key after a space, because
    the text of the two orderings is joined with a comma and a space and
    split at the comma alone; by the same space the dash of [f | ~g] is not
    seen, and the second key is sorted ascending under the name [ -g]. *)
Theorem select_sort_keys (rt : runtime) (n : nat) (ty ty' : option string) (f g : Field)
    (st : mongo) :
  no_comma (field_key false f) ->
  no_comma (field_key false g) ->
  PyStr.startswith "-" (field_key false f) = false ->
  fst (sort_list rt (S (S n)) (Some (OrderBy (q_invert ty f))) st)
  = Returns [(field_key false f, -1)]
  /\ fst (sort_list rt (S (S n)) (Some (OrderBy (q_comma ty (FieldE f) (FieldE g)))) st)
     = Returns [(field_key false f, 1); (" " ++ field_key false g, 1)]
  /\ fst (sort_list rt (S (S (S n)))
                    (Some (OrderBy (q_comma ty (FieldE f) (q_invert ty' g)))) st)
     = Returns [(field_key false f, 1); (" -" ++ field_key false g, 1)].
Proof.
  intros Hf Hg Hm. split; [|split].
  - rewrite (sort_list_of_text rt _ _ ("-" ++ field_key false f));
      [|reflexivity|apply expand_invert_field].
    rewrite split_on_none by exact Hf. cbn [map]. unfold sort_key.
    assert (Hd : PyStr.startswith "-" ("-" ++ field_key false f) = true)
      by (unfold PyStr.startswith; destruct (field_key false f); reflexivity).
    rewrite Hd. reflexivity.
  - rewrite (sort_list_of_text rt _ _ (field_key false f ++ ", " ++ field_key false g));
      [|reflexivity|apply expand_comma; [reflexivity|reflexivity|reflexivity]].
    change (field_key false f ++ ", " ++ field_key false g)
      with (field_key false f ++ String "," (" " ++ field_key false g)).
    rewrite split_on_app by exact Hf. rewrite split_on_none by exact Hg.
    cbn [map]. unfold sort_key. rewrite Hm. reflexivity.
  - rewrite (sort_list_of_text rt _ _
               (field_key false f ++ ", " ++ ("-" ++ field_key false g)));
      [|reflexivity
       |apply expand_comma; [reflexivity|reflexivity|apply expand_invert_field]].
    change (field_key false f ++ ", " ++ ("-" ++ field_key false g))
      with (field_key false f ++ String "," (" -" ++ field_key false g)).
    rewrite split_on_app by exact Hf. rewrite split_on_none by exact Hg.
    cbn [map]. unfold sort_key. rewrite Hm. reflexivity.
Qed.

Lemma select_sort_keys_witness :
  let year := mkField "year" "integer" "book" "" in
  let title := mkField "title" "string" "book" "" in
  fst (sort_list sample_runtime 3 (Some (OrderBy (q_invert None year))) empty_mongo)
  = Returns [("year", -1)]
  /\ fst (sort_list sample_runtime 3
                    (Some (OrderBy (q_comma None (FieldE year) (FieldE title)))) empty_mongo)
     = Returns [("year", 1); (" title", 1)]
  /\ fst (sort_list sample_runtime 4
                    (Some (OrderBy (q_comma None (FieldE year) (q_invert None title))))
                    empty_mongo)
     = Returns [("year", 1); (" -title", 1)].
Proof.
  intros year title.
  destruct (select_sort_keys sample_runtime 1 None None year title empty_mongo
              eq_refl eq_refl eq_refl) as (H1 & H2 & H3).
  split; [exact H1|split; [exact H2|exact H3]].
Defined.

(** ** update with plain values: what it returns and what it writes *)

(** The documents of a collection after an [update_many]. *)
Definition updated (sv : server) (flt update : pyval) (docs : list document)
  : list document :=
  map (fun d => if matches sv flt d then apply_update sv update d else d) docs.

Section UpdateMatched.

Variable rt : runtime.
Variable sv : server.
Variable ad : adapter.
Variable cfuel : nat.

(** [count(query, distinct=False, return_tuple=True)] on a query. *)
Lemma count_named (query : expr) (st : mongo) (name : string) (flt : pyval) :
  isinstance_Query query = true ->
  get_table query = Ok name ->
  fst (expand rt cfuel false (common_filtered ad query (PStr name)) None) = Returns flt ->
  count rt sv ad cfuel query (PBool false) st
  = (Returns ((name, ad_safe ad), flt,
              Z.of_nat (List.length (filter (matches sv flt) (collections st name)))),
     mkMongo (collections st) (calls st ++ [Count name flt])).
Proof.
  intros Hq Hname Hflt. unfold count. cbn [truthy]. rewrite Hq. cbn [negb].
  erewrite db_bind_eq.
  2:{ unfold _expand_query. cbn [truthy negb]. rewrite Hname.
      rewrite (db_bind_eq _ _ st st (PStr name)) by reflexivity.
      rewrite (db_bind_eq _ _ st st (name, ad_safe ad)) by reflexivity.
      assert (query_truthy query = true) as ->
        by (destruct query; try discriminate; reflexivity).
      rewrite (db_bind_eq _ _ st st flt)
        by (apply pure_eq; [apply pure_self_expand|exact Hflt]).
      reflexivity. }
  cbn [fst snd].
  erewrite db_bind_eq by apply count_documents_eq.
  reflexivity.
Qed.

(** The tail of [update] when no value is an expression: one
    [update_many] through the collection object at hand. *)
Lemma update_rows_values (c : collection) (flt : pyval) (safe amount : Z)
    (fields : list (Field * expr)) (values : list (pyval * pyval)) (st : mongo) :
  List.find (fun fv => isinstance_Expression (snd fv)) fields = None ->
  update_set rt fields [] = Ok values ->
  update_rows rt sv ad cfuel c flt safe amount fields st
  = (Returns (if negb (safe =? 0) && negb (snd c =? 0)
              then Z.of_nat (List.length (filter (matches sv flt) (collections st (fst c))))
              else amount),
     mkMongo (fun n => if String.eqb n (fst c)
                       then updated sv flt (PDict [(PStr "$set", PDict values)])
                                    (collections st (fst c))
                       else collections st n)
             (calls st
              ++ [UpdateMany (fst c) (snd c) flt (PDict [(PStr "$set", PDict values)])])).
Proof.
  intros Hfind Hset. unfold update_rows. rewrite Hfind, Hset.
  rewrite (db_bind_eq _ _ st st values) by reflexivity.
  unfold reraise_RuntimeError.
  erewrite db_bind_eq by apply update_many_eq.
  reflexivity.
Qed.

End UpdateMatched.

(** [update] with acknowledged writes ([safe] resolves to 1) and plain
    values: it returns the number of documents of the collection
    [tablename] that the filter matches, taken from the write result; these
    documents, and no others, have the [$set] applied; no other collection
    changes; and the one call it issues is an [update_many] under a write
    concern other than 0.  The table the filter is compiled for, and the
    collection written to, are those of the argument [tablename]. *)
Theorem update_acknowledged_returns_matched (rt : runtime) (sv : server) (ad : adapter)
    (cfuel : nat) (tablename : string) (query : expr) (fields : list (Field * expr))
    (safe : pyval) (st : mongo) (flt : pyval) (values : list (pyval * pyval)) :
  isinstance_Query query = true ->
  _get_safe ad safe <> 0 ->
  PyStr.nonempty tablename = true ->
  fst (expand rt cfuel false (common_filtered ad query (PStr tablename)) None) = Returns flt ->
  List.find (fun fv => isinstance_Expression (snd fv)) fields = None ->
  update_set rt fields [] = Ok values ->
  let run := update rt sv ad cfuel tablename query fields safe st in
  let change := PDict [(PStr "$set", PDict values)] in
  fst run = Returns (Z.of_nat (List.length (filter (matches sv flt) (collections st tablename))))
  /\ collections (snd run) tablename = updated sv flt change (collections st tablename)
  /\ (forall n, n <> tablename -> collections (snd run) n = collections st n)
  /\ exists w, w <> 0 /\ calls (snd run) = (calls st ++ [UpdateMany tablename w flt change])%list.
Proof.
  intros Hq Hs Ht Hflt Hfind Hset run change.
  destruct (_get_collection_safe ad tablename safe Hs) as (w & Hw & Hc).
  assert (Hrun : run = update_rows rt sv ad cfuel (tablename, w) flt (_get_safe ad safe) 0
                                   fields st).
  { subst run. unfold update. rewrite Hq. cbn [negb].
    destruct (_get_safe ad safe =? 0) eqn:E0; [apply Z.eqb_eq in E0; contradiction|].
    cbn [negb].
    rewrite (db_bind_eq _ _ st st ((tablename, w), flt))
      by (apply _expand_query_named; assumption).
    reflexivity. }
  rewrite Hrun, (update_rows_values rt sv ad cfuel _ _ _ _ _ values) by assumption.
  cbn [fst snd collections calls].
  assert (negb (w =? 0) = true) as ->.
  { destruct (w =? 0) eqn:E; [apply Z.eqb_eq in E; contradiction|reflexivity]. }
  assert (negb (_get_safe ad safe =? 0) = true) as ->.
  { destruct (_get_safe ad safe =? 0) eqn:E; [apply Z.eqb_eq in E; contradiction|reflexivity]. }
  cbn [andb]. rewrite String.eqb_refl.
  split; [reflexivity|]. split; [reflexivity|]. split.
  - intros n Hn. apply String.eqb_neq in Hn. rewrite Hn. reflexivity.
  - exists w. split; [exact Hw|reflexivity].
Qed.

Lemma update_acknowledged_returns_matched_witness :
  let o1 := ObjectId.make [0; 0; 0; 0; 0; 0; 0; 0; 0; 0; 0; 1]%N in
  let o2 := ObjectId.make [0; 0; 0; 0; 0; 0; 0; 0; 0; 0; 0; 2]%N in
  let year := mkField "year" "integer" "book" "CASCADE" in
  let st := mkMongo (fun t => if String.eqb t "book"
                              then [mkDoc o1 [("year", PInt 1950)];
                                    mkDoc o2 [("year", PInt 1960)]]
                              else []) [] in
  let run := update sample_runtime sample_server (sample_adapter 1 []) 3 "book"
                    (q_eq year (Lit (PInt 1950))) [(year, Lit (PInt 2000))] PNone st in
  fst run = Returns 1
  /\ exists w, w <> 0
       /\ calls (snd run)
          = [UpdateMany "book" w (PDict [(PStr "year", PInt 1950)])
                        (PDict [(PStr "$set", PDict [(PStr "year", PInt 2000)])])].
Proof.
  intros o1 o2 year st run.
  destruct (update_acknowledged_returns_matched sample_runtime sample_server
              (sample_adapter 1 []) 3 "book" (q_eq year (Lit (PInt 1950)))
              [(year, Lit (PInt 2000))] PNone st (PDict [(PStr "year", PInt 1950)])
              [(PStr "year", PInt 2000)])
    as (H1 & _ & _ & H4); try reflexivity; try discriminate.
  split; [exact H1|exact H4].
Defined.

(** [update] without acknowledgment ([safe] resolves to 0) and plain
    values, on a filter that matches at least one document: the number it
    returns is that of the count it runs first; the collection counted and
    written to is the one of the table of the query, whatever the argument
    [tablename]; and the [update_many] goes through the collection object
    with the write concern the adapter was configured with, which [safe]
    does not lower. *)
Theorem update_unacknowledged_counts_first (rt : runtime) (sv : server) (ad : adapter)
    (cfuel : nat) (tablename : string) (query : expr) (fields : list (Field * expr))
    (safe : pyval) (st : mongo) (name : string) (flt : pyval) (values : list (pyval * pyval)) :
  isinstance_Query query = true ->
  _get_safe ad safe = 0 ->
  get_table query = Ok name ->
  fst (expand rt cfuel false (common_filtered ad query (PStr name)) None) = Returns flt ->
  filter (matches sv flt) (collections st name) <> [] ->
  List.find (fun fv => isinstance_Expression (snd fv)) fields = None ->
  update_set rt fields [] = Ok values ->
  let run := update rt sv ad cfuel tablename query fields safe st in
  let change := PDict [(PStr "$set", PDict values)] in
  fst run = Returns (Z.of_nat (List.length (filter (matches sv flt) (collections st name))))
  /\ collections (snd run) name = updated sv flt change (collections st name)
  /\ (forall n, n <> name -> collections (snd run) n = collections st n)
  /\ calls (snd run)
     = (calls st ++ [Count name flt; UpdateMany name (ad_safe ad) flt change])%list.
Proof.
  intros Hq Hs Hname Hflt Hsome Hfind Hset run change.
  assert (Hrun : run = update_rows rt sv ad cfuel (name, ad_safe ad) flt 0
                         (Z.of_nat (List.length (filter (matches sv flt) (collections st name))))
                         fields
                         (mkMongo (collections st) (calls st ++ [Count name flt]))).
  { subst run. unfold update. rewrite Hq, Hs. cbn [negb Z.eqb].
    erewrite db_bind_eq by (apply count_named; eassumption).
    cbv beta iota.
    destruct (Z.of_nat (List.length (filter (matches sv flt) (collections st name))) =? 0)
      eqn:E; [|reflexivity].
    apply Z.eqb_eq in E.
    destruct (filter (matches sv flt) (collections st name)); [contradiction|discriminate]. }
  rewrite Hrun, (update_rows_values rt sv ad cfuel _ _ _ _ _ values) by assumption.
  cbn [fst snd collections calls Z.eqb negb andb]. rewrite String.eqb_refl.
  split; [reflexivity|]. split; [reflexivity|]. split.
  - intros n Hn. apply String.eqb_neq in Hn. rewrite Hn. reflexivity.
  - rewrite <- app_assoc. reflexivity.
Qed.

Lemma update_unacknowledged_counts_first_witness :
  let o1 := ObjectId.make [0; 0; 0; 0; 0; 0; 0; 0; 0; 0; 0; 1]%N in
  let o2 := ObjectId.make [0; 0; 0; 0; 0; 0; 0; 0; 0; 0; 0; 2]%N in
  let year := mkField "year" "integer" "book" "CASCADE" in
  let st := mkMongo (fun t => if String.eqb t "book"
                              then [mkDoc o1 [("year", PInt 1950)];
                                    mkDoc o2 [("year", PInt 1960)]]
                              else []) [] in
  let run := update sample_runtime sample_server (sample_adapter 1 []) 3 "shelf"
                    (q_eq year (Lit (PInt 1950))) [(year, Lit (PInt 2000))] (PBool false) st in
  fst run = Returns 1
  /\ calls (snd run)
     = [Count "book" (PDict [(PStr "year", PInt 1950)]);
        UpdateMany "book" 1 (PDict [(PStr "year", PInt 1950)])
                   (PDict [(PStr "$set", PDict [(PStr "year", PInt 2000)])])].
Proof.
  intros o1 o2 year st run.
  destruct (update_unacknowledged_counts_first sample_runtime sample_server
              (sample_adapter 1 []) 3 "shelf" (q_eq year (Lit (PInt 1950)))
              [(year, Lit (PInt 2000))] (PBool false) st "book"
              (PDict [(PStr "year", PInt 1950)]) [(PStr "year", PInt 2000)])
    as (H1 & _ & _ & H4); try reflexivity; try discriminate.
  split; [exact H1|exact H4].
Defined.

(** *** The keys of the [$set] *)

Lemma dict_set_keys (d : list (pyval * pyval)) (k v x : pyval) :
  In x (map fst (dict_set d k v)) -> In x (map fst d) \/ x = k.
Proof.
  induction d as [|[k' v'] r IH]; cbn [dict_set map fst In].
  - intros [<-|[]]. right. reflexivity.
  - destruct (pyval_eqb k' k); cbn [map fst In].
    + intros H. left. exact H.
    + intros [H|H]; [left; left; exact H|].
      destruct (IH H) as [H'|H']; [left; right; exact H'|right; exact H'].
Qed.

Lemma dict_set_keeps (d : list (pyval * pyval)) (k v x : pyval) :
  In x (map fst d) -> In x (map fst (dict_set d k v)).
Proof.
  induction d as [|[k' v'] r IH]; cbn [dict_set map fst In]; [intros []|].
  destruct (pyval_eqb k' k); cbn [map fst In]; [intros H; exact H|].
  intros [H|H]; [left; exact H|right; apply IH; exact H].
Qed.

Definition text_keys (d : list (pyval * pyval)) : Prop :=
  Forall (fun k => exists name, k = PStr name) (map fst d).

Lemma dict_set_has (d : list (pyval * pyval)) (name : string) (v : pyval) :
  text_keys d -> In (PStr name) (map fst (dict_set d (PStr name) v)).
Proof.
  unfold text_keys.
  induction d as [|[k' v'] r IH]; cbn [dict_set map fst In]; intros H.
  - left. reflexivity.
  - inversion H as [|? ? [name' ->] Hr]; subst.
    cbn [pyval_eqb]. destruct (String.eqb name' name) eqn:E; cbn [map fst In].
    + apply String.eqb_eq in E. subst. left. reflexivity.
    + right. apply IH. exact Hr.
Qed.

Lemma dict_set_text_keys (d : list (pyval * pyval)) (name : string) (v : pyval) :
  text_keys d -> text_keys (dict_set d (PStr name) v).
Proof.
  unfold text_keys. intros H. apply Forall_forall. intros x Hx.
  destruct (dict_set_keys _ _ _ _ Hx) as [Hin| ->]; [|eexists; reflexivity].
  rewrite Forall_forall in H. apply H. exact Hin.
Qed.

Lemma update_set_keys_from (rt : runtime) (fields : list (Field * expr))
    (acc values : list (pyval * pyval)) :
  text_keys acc ->
  update_set rt fields acc = Ok values ->
  text_keys values
  /\ forall k, In k (map fst values)
               <-> In k (map fst acc)
                   \/ exists name, k = PStr name /\ is_id_name name = false
                                   /\ In name (map (fun fv => f_name (fst fv)) fields).
Proof.
  revert acc. induction fields as [|[f v] r IH]; intros acc Hacc; cbn [update_set].
  - intros [= <-]. split; [exact Hacc|]. intros k. split; [intros H; left; exact H|].
    intros [H|(name & _ & _ & [])]. exact H.
  - destruct (is_id_name (f_name f)) eqn:Eid; cbn [negb].
    + intros H. destruct (IH acc Hacc H) as [Ht Hk]. split; [exact Ht|].
      intros k. rewrite Hk. split.
      * intros [Hin|(name & -> & Hn & Hin)]; [left; exact Hin|].
        right. exists name. split; [reflexivity|]. split; [exact Hn|]. right. exact Hin.
      * intros [Hin|(name & -> & Hn & Hin)]; [left; exact Hin|].
        right. exists name. split; [reflexivity|]. split; [exact Hn|].
        destruct Hin as [Hin|Hin]; [|exact Hin]. cbn [fst] in Hin. congruence.
    + destruct v as [x| | |]; try discriminate.
      destruct (represent rt false x (Some (f_type f))) as [value|e]; [|discriminate].
      cbn [res_bind]. intros H.
      destruct (IH _ (dict_set_text_keys acc (f_name f) value Hacc) H) as [Ht Hk].
      split; [exact Ht|]. intros k. rewrite Hk. split.
      * intros [Hin|(name & -> & Hn & Hin)].
        -- destruct (dict_set_keys _ _ _ _ Hin) as [Hin'| ->]; [left; exact Hin'|].
           right. exists (f_name f). split; [reflexivity|]. split; [exact Eid|].
           left. reflexivity.
        -- right. exists name. split; [reflexivity|]. split; [exact Hn|]. right. exact Hin.
      * intros [Hin|(name & -> & Hn & [Hin|Hin])].
        -- left. apply dict_set_keeps. exact Hin.
        -- cbn [fst] in Hin. subst name. left. apply dict_set_has. exact Hacc.
        -- right. exists name. split; [reflexivity|]. split; [exact Hn|exact Hin].
Qed.

(** [update] does not update id fields: the keys of the [$set] document it
    builds are exactly the names of the given fields other than [id] and
    [_id]; in particular neither of the two is ever a key. *)
Theorem update_never_sets_id (rt : runtime) (fields : list (Field * expr))
    (values : list (pyval * pyval)) :
  update_set rt fields [] = Ok values ->
  ~ In (PStr "id") (map fst values)
  /\ ~ In (PStr "_id") (map fst values)
  /\ forall k, In k (map fst values)
               <-> exists name, k = PStr name /\ is_id_name name = false
                                /\ In name (map (fun fv => f_name (fst fv)) fields).
Proof.
  intros H.
  destruct (update_set_keys_from rt fields [] values (Forall_nil _) H) as [_ Hk].
  assert (Hk' : forall k, In k (map fst values)
                          <-> exists name, k = PStr name /\ is_id_name name = false
                                           /\ In name (map (fun fv => f_name (fst fv)) fields)).
  { intros k. rewrite Hk. split; [intros [[]|Hx]; exact Hx|intros Hx; right; exact Hx]. }
  split; [|split; [|exact Hk']].
  - intros Hin. apply Hk' in Hin. destruct Hin as (name & [= <-] & Hn & _). discriminate.
  - intros Hin. apply Hk' in Hin. destruct Hin as (name & [= <-] & Hn & _). discriminate.
Qed.

Lemma update_never_sets_id_witness :
  let id := mkField "id" "id" "book" "CASCADE" in
  let year := mkField "year" "integer" "book" "CASCADE" in
  ~ In (PStr "id") (map fst [(PStr "year", PInt 2000)])
  /\ ~ In (PStr "_id") (map fst [(PStr "year", PInt 2000)]).
Proof.
  intros id year.
  destruct (update_never_sets_id sample_runtime
              [(id, Lit (PInt 7)); (year, Lit (PInt 2000))] [(PStr "year", PInt 2000)]
              eq_refl) as (H1 & H2 & _).
  split; [exact H1|exact H2].
Defined.

(** ** count, and the [safe] argument of delete *)

(** [count]: a true [distinct] is refused first, then a query that is not
    a [Query], both before any call; otherwise it issues one count on the
    collection of the table of the query and returns the number of its
    documents that the compiled filter matches, leaving every collection as
    it was. *)
Theorem count_returns_matching (rt : runtime) (sv : server) (ad : adapter) (cfuel : nat)
    (query : expr) (distinct : pyval) (st : mongo) :
  let run := count rt sv ad cfuel query distinct st in
  (truthy distinct = true -> run = (Raises RuntimeError, st))
  /\ (truthy distinct = false -> isinstance_Query query = false ->
      run = (Raises SyntaxError, st))
  /\ (forall name flt,
         truthy distinct = false ->
         isinstance_Query query = true ->
         get_table query = Ok name ->
         fst (expand rt cfuel false (common_filtered ad query (PStr name)) None) = Returns flt ->
         run = (Returns ((name, ad_safe ad), flt,
                         Z.of_nat (List.length (filter (matches sv flt) (collections st name)))),
                mkMongo (collections st) (calls st ++ [Count name flt]))).
Proof.
  intros run. subst run. split; [|split].
  - intros Hd. unfold count. rewrite Hd. reflexivity.
  - intros Hd Hq. unfold count. rewrite Hd, Hq. reflexivity.
  - intros name flt Hd Hq Hname Hflt. unfold count. rewrite Hd, Hq. cbn [negb].
    erewrite db_bind_eq.
    2:{ unfold _expand_query. cbn [truthy negb]. rewrite Hname.
        rewrite (db_bind_eq _ _ st st (PStr name)) by reflexivity.
        rewrite (db_bind_eq _ _ st st (name, ad_safe ad)) by reflexivity.
        assert (query_truthy query = true) as ->
          by (destruct query; try discriminate; reflexivity).
        rewrite (db_bind_eq _ _ st st flt)
          by (apply pure_eq; [apply pure_self_expand|exact Hflt]).
        reflexivity. }
    cbn [fst snd].
    erewrite db_bind_eq by apply count_documents_eq.
    reflexivity.
Qed.

Lemma count_returns_matching_witness :
  let o1 := ObjectId.make [0; 0; 0; 0; 0; 0; 0; 0; 0; 0; 0; 1]%N in
  let o2 := ObjectId.make [0; 0; 0; 0; 0; 0; 0; 0; 0; 0; 0; 2]%N in
  let year := mkField "year" "integer" "book" "CASCADE" in
  let st := mkMongo (fun t => if String.eqb t "book"
                              then [mkDoc o1 [("year", PInt 1950)];
                                    mkDoc o2 [("year", PInt 1960)]]
                              else []) [] in
  count sample_runtime sample_server (sample_adapter 1 []) 3 (q_eq year (Lit (PInt 1950)))
        PNone st
  = (Returns (("book", 1), PDict [(PStr "year", PInt 1950)], 1),
     mkMongo (collections st) [Count "book" (PDict [(PStr "year", PInt 1950)])]).
Proof.
  intros o1 o2 year st.
  destruct (count_returns_matching sample_runtime sample_server (sample_adapter 1 []) 3
              (q_eq year (Lit (PInt 1950))) PNone st) as (_ & _ & H).
  exact (H "book" (PDict [(PStr "year", PInt 1950)]) eq_refl eq_refl eq_refl eq_refl).
Defined.

(** [delete] hands its [safe] to [_expand_query] in the place of the table
    name.  So with a [safe] that is [True] or an integer other than 0 the
    collection is looked up under a name that is no string: the driver
    refuses it and [delete] raises [TypeError] before any call, whatever the
    table and the query. *)
Theorem delete_with_true_safe_raises (rt : runtime) (sv : server) (ad : adapter)
    (cfuel fuel : nat) (tablename : string) (query : expr) (safe : pyval) (z : Z)
    (st : mongo) :
  isinstance_Query query = true ->
  as_int safe = Some z ->
  z <> 0 ->
  delete rt sv ad cfuel (S fuel) tablename query safe st = (Raises TypeError, st).
Proof.
  intros Hq Hs Hz. cbn [delete]. unfold delete_body. rewrite Hq. cbn [negb].
  assert (Ht : truthy safe = true).
  { destruct safe as [| b | n | | | | | |]; try discriminate; cbn in Hs |- *.
    - destruct b; [reflexivity|]. injection Hs as <-. contradiction.
    - injection Hs as <-. destruct (n =? 0) eqn:E; [|reflexivity].
      apply Z.eqb_eq in E. contradiction. }
  assert (Hc : _get_collection ad safe PNone = Err TypeError).
  { destruct safe; try discriminate; reflexivity. }
  assert (He : _expand_query rt ad cfuel query safe PNone st = (Raises TypeError, st)).
  { unfold _expand_query. rewrite Ht. cbn [negb].
    rewrite (db_bind_eq _ _ st st safe) by reflexivity.
    rewrite Hc. reflexivity. }
  unfold db_bind. rewrite He. reflexivity.
Qed.

Lemma delete_with_true_safe_raises_witness :
  let year := mkField "year" "integer" "book" "CASCADE" in
  delete sample_runtime sample_server (sample_adapter 1 [mkTable "book" [year] [] []]) 3 1
         "book" (q_eq year (Lit (PInt 1950))) (PBool true) empty_mongo
  = (Raises TypeError, empty_mongo).
Proof.
  intros year.
  apply (delete_with_true_safe_raises sample_runtime sample_server
           (sample_adapter 1 [mkTable "book" [year] [] []]) 3 0 "book"
           (q_eq year (Lit (PInt 1950))) (PBool true) 1 empty_mongo);
    [reflexivity|reflexivity|discriminate].
Defined.

(** ** Invariants of the executor *)

(** [m] takes every state to one related to it by [R], whatever it
    returns or raises. *)
Definition keeps (R : mongo -> mongo -> Prop) {A : Type} (m : dbM A) : Prop :=
  forall st, R st (snd (m st)).

Section Keeps.

Variable R : mongo -> mongo -> Prop.
Hypothesis R_refl : forall st, R st st.
Hypothesis R_trans : forall a b c, R a b -> R b c -> R a c.

Lemma keeps_pure {A : Type} (m : dbM A) : pure m -> keeps R m.
Proof. intros Hp st. rewrite (Hp st). apply R_refl. Qed.

Lemma keeps_bind {A B : Type} (m : dbM A) (k : A -> dbM B) :
  keeps R m -> (forall a, keeps R (k a)) -> keeps R (db_bind m k).
Proof.
  intros Hm Hk st. unfold db_bind. specialize (Hm st).
  destruct (m st) as [[a|e|] st1]; cbn [snd] in *; try exact Hm.
  eapply R_trans; [exact Hm|apply Hk].
Qed.

Lemma keeps_for {A : Type} (l : list A) (body : A -> dbM unit) :
  (forall x, keeps R (body x)) -> keeps R (db_for l body).
Proof.
  intros Hb. induction l as [|x r IH]; cbn [db_for].
  - apply keeps_pure, pure_ret.
  - apply keeps_bind; [apply Hb|intros _; exact IH].
Qed.

Lemma keeps_reraise {A : Type} (m : dbM A) :
  keeps R m -> keeps R (reraise_RuntimeError m).
Proof.
  intros Hm st. unfold reraise_RuntimeError. specialize (Hm st).
  destruct (m st) as [[a|e|] st1]; exact Hm.
Qed.

Variable rt : runtime.
Variable sv : server.
Variable ad : adapter.
Variable cfuel : nat.

Lemma keeps_expand_query (query : expr) (tablename safe : pyval) :
  keeps R (_expand_query rt ad cfuel query tablename safe).
Proof.
  unfold _expand_query.
  apply keeps_bind.
  { destruct (negb (truthy tablename)); apply keeps_pure;
      [apply pure_lift|apply pure_ret]. }
  intros t. apply keeps_bind; [apply keeps_pure, pure_lift|]. intros c.
  destruct (query_truthy query); [|apply keeps_pure, pure_ret].
  apply keeps_bind; [apply keeps_pure, pure_self_expand|].
  intros f. apply keeps_pure, pure_ret.
Qed.

Hypothesis keeps_count_documents : forall c flt, keeps R (count_documents sv c flt).

Lemma keeps_count (query : expr) (distinct : pyval) :
  keeps R (count rt sv ad cfuel query distinct).
Proof.
  unfold count. destruct (truthy distinct); [apply keeps_pure, pure_raise|].
  destruct (negb (isinstance_Query query)); [apply keeps_pure, pure_raise|].
  apply keeps_bind; [apply keeps_expand_query|]. intros cf.
  apply keeps_bind; [apply keeps_count_documents|]. intros r.
  apply keeps_pure, pure_ret.
Qed.

Hypothesis keeps_find : forall c flt o, keeps R (find sv c flt o).
Hypothesis keeps_aggregate : forall c p, keeps R (aggregate sv c p).

Lemma keeps_select (query : expr) (fields : list select_item) (attrs : attributes)
    (snapshot : bool) :
  keeps R (select rt sv ad cfuel query fields attrs snapshot).
Proof.
  unfold select.
  apply keeps_bind; [apply keeps_pure, pure_lift|]. intros window.
  apply keeps_bind; [apply keeps_pure, pure_sort_list|]. intros sorts.
  apply keeps_bind; [apply keeps_pure, pure_lift|]. intros tablename.
  apply keeps_bind; [apply keeps_pure, pure_self_expand|]. intros flt.
  apply keeps_bind; [apply keeps_pure, pure_lift|]. intros ctable.
  apply keeps_bind.
  - destruct (is_aggregation (all_fields fields)).
    + apply keeps_bind; [apply keeps_pure, pure_name_fields|]. intros named.
      apply keeps_bind; [apply keeps_aggregate|]. intros docs.
      apply keeps_pure, pure_ret.
    + apply keeps_bind; [apply keeps_pure, pure_lift|]. intros fs.
      apply keeps_bind; [apply keeps_pure, pure_lift|]. intros names.
      apply keeps_bind; [apply keeps_find|]. intros docs.
      apply keeps_pure, pure_ret.
  - intros [[named docs] null_rows].
    apply keeps_bind; [apply keeps_pure, pure_lift|]. intros names.
    apply keeps_pure, pure_lift.
Qed.

Hypothesis keeps_update_many : forall c flt u, keeps R (update_many sv c flt u).
Hypothesis keeps_replace_one : forall c flt d, keeps R (replace_one sv c flt d).

Lemma keeps_replace_each (ctable : collection) (safe : Z) (docs : list pyval) (amount : Z) :
  keeps R (replace_each sv ctable safe docs amount).
Proof.
  revert amount. induction docs as [|doc r IH]; intros amount; cbn [replace_each].
  - apply keeps_pure, pure_ret.
  - apply keeps_bind; [apply keeps_pure, pure_lift|]. intros id.
    apply keeps_bind; [apply keeps_replace_one|]. intros result. apply IH.
Qed.

Lemma keeps_update_rows (ctable : collection) (flt : pyval) (safe amount : Z)
    (fields : list (Field * expr)) :
  keeps R (update_rows rt sv ad cfuel ctable flt safe amount fields).
Proof.
  unfold update_rows.
  destruct (List.find _ fields) as [[field value]|].
  - apply keeps_bind; [apply keeps_pure, pure_lift|]. intros t.
    apply keeps_bind; [apply keeps_pure, pure_update_projection|]. intros projection.
    apply keeps_reraise.
    apply keeps_bind; [apply keeps_aggregate|]. intros docs.
    apply keeps_replace_each.
  - apply keeps_bind; [apply keeps_pure, pure_lift|]. intros values.
    apply keeps_reraise.
    apply keeps_bind; [apply keeps_update_many|]. intros result.
    apply keeps_pure, pure_ret.
Qed.

Lemma keeps_update (tablename : string) (query : expr) (fields : list (Field * expr))
    (safe : pyval) :
  keeps R (update rt sv ad cfuel tablename query fields safe).
Proof.
  unfold update.
  destruct (negb (isinstance_Query query)); [apply keeps_pure, pure_raise|].
  destruct (negb (_get_safe ad safe =? 0)).
  - apply keeps_bind; [apply keeps_expand_query|]. intros cf. apply keeps_update_rows.
  - apply keeps_bind; [apply keeps_count|]. intros [[ctable flt] amount].
    destruct (amount =? 0); [apply keeps_pure, pure_ret|apply keeps_update_rows].
Qed.

Hypothesis keeps_delete_many : forall c flt, keeps R (delete_many sv c flt).

Lemma keeps_remove_from_list (field : Field) (deleted : list pyval) (safe : pyval) :
  keeps R (remove_from_list sv ad field deleted safe).
Proof.
  unfold remove_from_list. apply keeps_for. intros id.
  apply keeps_bind; [apply keeps_pure, pure_lift|]. intros dtable.
  apply keeps_bind; [apply keeps_update_many|]. intros r.
  apply keeps_pure, pure_ret.
Qed.

Lemma keeps_delete_body (self_delete : string -> expr -> pyval -> dbM Z)
    (tablename : string) (query : expr) (safe : pyval) :
  (forall t q s, keeps R (self_delete t q s)) ->
  keeps R (delete_body rt sv ad cfuel self_delete tablename query safe).
Proof.
  intros Hself. unfold delete_body.
  destruct (negb (isinstance_Query query)); [apply keeps_pure, pure_raise|].
  apply keeps_bind; [apply keeps_expand_query|]. intros [ctable flt].
  apply keeps_bind; [apply keeps_find|]. intros found.
  apply keeps_bind; [apply keeps_pure, pure_lift|]. intros deleted.
  apply keeps_bind; [apply keeps_pure, pure_lift|]. intros table.
  apply keeps_bind; [apply keeps_delete_many|]. intros result.
  apply keeps_bind; [|intros _; apply keeps_pure, pure_ret].
  match goal with
  | |- keeps R (if ?c then _ else _) => destruct c
  end; [|apply keeps_pure, pure_ret].
  apply keeps_bind.
  { apply keeps_for. intros field.
    apply keeps_bind; [|intros _; apply keeps_remove_from_list].
    apply keeps_for. intros id.
    apply keeps_bind; [apply keeps_pure, pure_lift|]. intros dtable.
    apply keeps_bind; [apply keeps_delete_many|]. intros r.
    apply keeps_pure, pure_ret. }
  intros _. apply keeps_bind.
  { apply keeps_for. intros field. apply keeps_remove_from_list. }
  intros _. apply keeps_bind.
  { apply keeps_for. intros field.
    apply keeps_bind; [|intros _; apply keeps_pure, pure_ret].
    unfold Set_delete.
    apply keeps_bind; [apply keeps_pure, pure_lift|]. intros t.
    apply keeps_bind; [apply keeps_pure, pure_lift|]. intros tb.
    apply Hself. }
  intros _. apply keeps_for. intros field.
  apply keeps_bind; [|intros _; apply keeps_pure, pure_ret].
  unfold Set_update.
  apply keeps_bind; [apply keeps_pure, pure_lift|]. intros t.
  apply keeps_bind; [apply keeps_pure, pure_lift|]. intros tb.
  apply keeps_update.
Qed.

Lemma keeps_delete (fuel : nat) (tablename : string) (query : expr) (safe : pyval) :
  keeps R (delete rt sv ad cfuel fuel tablename query safe).
Proof.
  revert tablename query safe. induction fuel as [|n IH]; intros tablename query safe;
    cbn [delete].
  - apply keeps_pure, pure_out.
  - apply keeps_delete_body. exact IH.
Qed.

End Keeps.

(** The state relations. *)

(** Only read calls were added, and every collection is as it was. *)
Definition only_read (st st' : mongo) : Prop :=
  collections st' = collections st
  /\ exists extra, calls st' = (calls st ++ extra)%list
                   /\ forallb (fun c => negb (is_write c)) extra = true.

Lemma only_read_refl (st : mongo) : only_read st st.
Proof. split; [reflexivity|]. exists []. rewrite app_nil_r. split; reflexivity. Qed.

Lemma only_read_trans (a b c : mongo) : only_read a b -> only_read b c -> only_read a c.
Proof.
  intros [H1 (x & Hx & Px)] [H2 (y & Hy & Py)]. split; [congruence|].
  exists (x ++ y)%list. rewrite Hy, Hx, app_assoc. split; [reflexivity|].
  rewrite forallb_app, Px, Py. reflexivity.
Qed.

(** No collection has gained or lost a document. *)
Definition same_sizes (st st' : mongo) : Prop :=
  forall n, List.length (collections st' n) = List.length (collections st n).

(** No collection has gained a document. *)
Definition no_larger (st st' : mongo) : Prop :=
  forall n, (List.length (collections st' n) <= List.length (collections st n))%nat.

Lemma replace_first_length (sv : server) (flt r : pyval) (docs : list document) :
  List.length (fst (replace_first sv flt r docs)) = List.length docs.
Proof.
  induction docs as [|d l IH]; [reflexivity|]. cbn [replace_first].
  destruct (matches sv flt d); [reflexivity|].
  destruct (replace_first sv flt r l) as [l' n]. cbn [fst] in *. cbn. rewrite IH. reflexivity.
Qed.

(** [select] and [count] only read, whatever their arguments and however
    they end: every collection is afterwards as it was, and each call they
    have issued is a [find], a [count] or an [aggregate]. *)
Theorem select_and_count_only_read (rt : runtime) (sv : server) (ad : adapter) (cfuel : nat)
    (query : expr) (fields : list select_item) (attrs : attributes) (snapshot : bool)
    (distinct : pyval) (st : mongo) :
  only_read st (snd (select rt sv ad cfuel query fields attrs snapshot st))
  /\ only_read st (snd (count rt sv ad cfuel query distinct st)).
Proof.
  assert (Hfind : forall c flt o, keeps only_read (find sv c flt o)).
  { intros c flt o s. rewrite find_eq. split; [reflexivity|].
    eexists. split; reflexivity. }
  assert (Hagg : forall c p, keeps only_read (aggregate sv c p)).
  { intros c p s. rewrite aggregate_eq. split; [reflexivity|].
    eexists. split; reflexivity. }
  assert (Hcount : forall c flt, keeps only_read (count_documents sv c flt)).
  { intros c flt s. rewrite count_documents_eq. split; [reflexivity|].
    eexists. split; reflexivity. }
  split.
  - apply (keeps_select only_read only_read_refl only_read_trans rt sv ad cfuel Hfind Hagg).
  - apply (keeps_count only_read only_read_refl only_read_trans rt sv ad cfuel Hcount).
Qed.

Lemma same_sizes_refl (st : mongo) : same_sizes st st.
Proof. intros n. reflexivity. Qed.

Lemma same_sizes_trans (a b c : mongo) : same_sizes a b -> same_sizes b c -> same_sizes a c.
Proof. intros H1 H2 n. rewrite (H2 n). apply H1. Qed.

Lemma no_larger_refl (st : mongo) : no_larger st st.
Proof. intros n. apply Nat.le_refl. Qed.

Lemma no_larger_trans (a b c : mongo) : no_larger a b -> no_larger b c -> no_larger a c.
Proof. intros H1 H2 n. eapply Nat.le_trans; [apply H2|apply H1]. Qed.

Lemma same_sizes_no_larger (a b : mongo) : same_sizes a b -> no_larger a b.
Proof. intros H n. rewrite (H n). apply Nat.le_refl. Qed.

Section Sizes.

Variable sv : server.

Lemma same_sizes_reads :
  (forall c flt o, keeps same_sizes (find sv c flt o))
  /\ (forall c p, keeps same_sizes (aggregate sv c p))
  /\ (forall c flt, keeps same_sizes (count_documents sv c flt)).
Proof.
  split; [|split]; intros; intros s n; reflexivity.
Qed.

Lemma same_sizes_update_many (c : collection) (flt u : pyval) :
  keeps same_sizes (update_many sv c flt u).
Proof.
  intros s n. rewrite update_many_eq. cbn [snd collections].
  destruct (String.eqb n (fst c)) eqn:E; [|reflexivity].
  apply String.eqb_eq in E. subst n. apply length_map.
Qed.

Lemma same_sizes_replace_one (c : collection) (flt d : pyval) :
  keeps same_sizes (replace_one sv c flt d).
Proof.
  intros s n. cbn [replace_one db_bind log documents store db_ret snd collections fst].
  destruct (String.eqb n (fst c)) eqn:E; [|reflexivity].
  apply String.eqb_eq in E. subst n. apply replace_first_length.
Qed.

Lemma no_larger_delete_many (c : collection) (flt : pyval) :
  keeps no_larger (delete_many sv c flt).
Proof.
  intros s n. rewrite delete_many_eq. cbn [snd collections].
  destruct (String.eqb n (fst c)) eqn:E; [|apply Nat.le_refl].
  apply String.eqb_eq in E. subst n. apply filter_length_le.
Qed.

End Sizes.

(** [update] neither adds nor removes a document: whatever its arguments
    and however it ends, every collection holds as many documents
    afterwards as before. *)
Theorem update_keeps_document_counts (rt : runtime) (sv : server) (ad : adapter)
    (cfuel : nat) (tablename : string) (query : expr) (fields : list (Field * expr))
    (safe : pyval) (st : mongo) (n : string) :
  List.length (collections (snd (update rt sv ad cfuel tablename query fields safe st)) n)
  = List.length (collections st n).
Proof.
  destruct (same_sizes_reads sv) as (Hfind & Hagg & Hcount).
  apply (keeps_update same_sizes same_sizes_refl same_sizes_trans rt sv ad cfuel
           Hcount Hagg (same_sizes_update_many sv) (same_sizes_replace_one sv)).
Qed.

(** [delete], its cascade included, adds no document: whatever its
    arguments, however deep the cascade goes and however it ends, no
    collection holds more documents afterwards than before. *)
Theorem delete_never_adds_documents (rt : runtime) (sv : server) (ad : adapter)
    (cfuel fuel : nat) (tablename : string) (query : expr) (safe : pyval) (st : mongo)
    (n : string) :
  (List.length (collections (snd (delete rt sv ad cfuel fuel tablename query safe st)) n)
   <= List.length (collections st n))%nat.
Proof.
  destruct (same_sizes_reads sv) as (Hfind & Hagg & Hcount).
  apply (keeps_delete no_larger no_larger_refl no_larger_trans rt sv ad cfuel).
  - intros c flt s. apply same_sizes_no_larger. apply Hcount.
  - intros c flt o s. apply same_sizes_no_larger. apply Hfind.
  - intros c p s. apply same_sizes_no_larger. apply Hagg.
  - intros c flt u s. apply same_sizes_no_larger. apply same_sizes_update_many.
  - intros c flt d s. apply same_sizes_no_larger. apply same_sizes_replace_one.
  - apply no_larger_delete_many.
Qed.

(** ** delete: references with the policy SET NULL *)

Section SetNullFacts.

Variable rt : runtime.
Variable sv : server.
Variable ad : adapter.
Variable cfuel : nat.

Hypothesis no_common_filter : forall q, ad_use_common_filters ad q = false.

Lemma runs_count_documents (c : collection) (flt : pyval) (f : string -> list document) :
  runs (count_documents sv c flt) f
       (Z.of_nat (List.length (filter (matches sv flt) (f (fst c))))) f.
Proof.
  intros st Hst. rewrite count_documents_eq. cbn [fst snd]. rewrite (Hst (fst c)).
  split; [reflexivity|exact Hst].
Qed.

(** [_expand_query(query, tablename, safe)] for the table of the query and
    the write concern of the adapter. *)
Lemma runs_expand_query_named (q : expr) (name : string) (flt : pyval)
    (f : string -> list document) :
  isinstance_Query q = true ->
  get_table q = Ok name ->
  fst (expand rt cfuel false q None) = Returns flt ->
  runs (_expand_query rt ad cfuel q (PStr name) (PInt (ad_safe ad))) f
       ((name, ad_safe ad), flt) f.
Proof.
  intros Hq Hname Hflt. unfold _expand_query.
  assert (Hc : _get_collection ad (PStr name) (PInt (ad_safe ad)) = Ok (name, ad_safe ad)).
  { unfold _get_collection, differs_from_safe. cbn [connection_getitem res_bind as_int].
    rewrite Z.eqb_refl. reflexivity. }
  eapply runs_bind.
  { instantiate (1 := f). instantiate (1 := PStr name).
    cbn [truthy]. destruct (PyStr.nonempty name); cbn [negb].
    - apply runs_ret.
    - rewrite Hname. apply runs_lift. reflexivity. }
  eapply runs_bind; [apply runs_lift; exact Hc|].
  rewrite (query_is_truthy q Hq), (common_filtered_id ad no_common_filter).
  eapply runs_bind; [apply runs_out; exact Hflt|].
  apply runs_ret.
Qed.

Lemma runs_update_rows_values (c : collection) (flt : pyval) (safe amount : Z)
    (fields : list (Field * expr)) (values : list (pyval * pyval))
    (f : string -> list document) :
  List.find (fun fv => isinstance_Expression (snd fv)) fields = None ->
  update_set rt fields [] = Ok values ->
  runs (update_rows rt sv ad cfuel c flt safe amount fields) f
       (if negb (safe =? 0) && negb (snd c =? 0)
        then Z.of_nat (List.length (filter (matches sv flt) (f (fst c))))
        else amount)
       (upd (fst c) (updated sv flt (PDict [(PStr "$set", PDict values)]) (f (fst c))) f).
Proof.
  intros Hfind Hset st Hst.
  rewrite (update_rows_values rt sv ad cfuel c flt safe amount fields values st Hfind Hset).
  cbn [fst snd]. rewrite (Hst (fst c)). split; [reflexivity|].
  intros n. cbn [collections]. unfold upd.
  destruct (String.eqb n (fst c)); [reflexivity|apply Hst].
Qed.

(** [update] with the default [safe], on the table of the query, with
    plain values. *)
Lemma runs_update_values (tablename : string) (q : expr) (fields : list (Field * expr))
    (flt : pyval) (values : list (pyval * pyval)) (f : string -> list document) :
  isinstance_Query q = true ->
  get_table q = Ok tablename ->
  fst (expand rt cfuel false q None) = Returns flt ->
  List.find (fun fv => isinstance_Expression (snd fv)) fields = None ->
  update_set rt fields [] = Ok values ->
  runs (update rt sv ad cfuel tablename q fields PNone) f
       (Z.of_nat (List.length (filter (matches sv flt) (f tablename))))
       (upd tablename (updated sv flt (PDict [(PStr "$set", PDict values)]) (f tablename)) f).
Proof.
  intros Hq Hname Hflt Hfind Hset. unfold update. rewrite Hq. cbn [negb _get_safe].
  destruct (ad_safe ad =? 0) eqn:E0; cbn [negb].
  - eapply runs_bind.
    { unfold count. cbn [truthy]. rewrite Hq. cbn [negb].
      eapply runs_bind; [apply (runs_expand_query rt ad cfuel no_common_filter); eassumption|].
      eapply runs_bind; [apply runs_count_documents|]. apply runs_ret. }
    cbn [fst snd].
    destruct (Z.of_nat (List.length (filter (matches sv flt) (f tablename))) =? 0) eqn:E.
    + eapply runs_ext; [apply runs_ret|]. intros n. unfold upd.
      destruct (String.eqb n tablename) eqn:En; [|reflexivity].
      apply String.eqb_eq in En. subst n. unfold updated. symmetry.
      apply filter_none_map. apply Z.eqb_eq in E.
      destruct (filter (matches sv flt) (f tablename)); [reflexivity|discriminate].
    + eapply runs_ext.
      * pose proof (runs_update_rows_values (tablename, ad_safe ad) flt (ad_safe ad)
                      (Z.of_nat (List.length (filter (matches sv flt) (f tablename))))
                      fields values f Hfind Hset) as H.
        cbn [fst snd] in H. rewrite E0 in H. cbn [negb andb] in H. exact H.
      * intros n. reflexivity.
  - eapply runs_bind; [apply runs_expand_query_named; eassumption|].
    cbn [fst snd].
    pose proof (runs_update_rows_values (tablename, ad_safe ad) flt (ad_safe ad) 0
                  fields values f Hfind Hset) as H.
    cbn [fst snd] in H. rewrite E0 in H. cbn [negb andb] in H. exact H.
Qed.

Lemma with_policy_set_null (field : Field) (type : string) :
  f_type field = type -> f_ondelete field = "SET NULL" ->
  with_policy [field] type "CASCADE" = []
  /\ with_policy [field] type "SET NULL" = [field].
Proof.
  intros Ht Ho. unfold with_policy. cbn [filter].
  rewrite Ht, Ho, String.eqb_refl. split; reflexivity.
Qed.

(** The value [update] stores for [None] in a reference field. *)
Lemma represent_reference_none (ta : string) :
  rt_base_represent rt PNone (Some ("reference " ++ ta)) = Ok PNone ->
  represent rt false PNone (Some ("reference " ++ ta))
  = Ok (POid (ObjectId.make (repeat 0%N 12))).
Proof.
  intros Hb.
  destruct (reference_type ta) as (_ & _ & _ & Hd & Ht & Hbl & Hl & Hr).
  unfold represent. rewrite Hb. cbn [res_bind]. cbv zeta in *.
  rewrite Hd, Ht, Hbl, Hl, Hr. reflexivity.
Qed.

(** [db(field.belongs(deleted)).update(name=None)] for the name of the
    field. *)
Lemma runs_set_null (n : nat) (field : Field) (ta : string) (table : Table)
    (deleted : list pyval) (f : string -> list document) :
  cfuel = S (S n) ->
  f_type field = "reference " ++ ta ->
  PyStr.startswith "$" (f_name field) = false ->
  is_id_name (f_name field) = false ->
  rt_base_represent rt PNone (Some (f_type field)) = Ok PNone ->
  db_getitem (ad_tables ad) (f_tablename field) = Ok table ->
  Forall is_oid deleted ->
  exists amount,
    runs (Set_update rt sv ad cfuel (belongs field deleted) field PNone) f amount
         (upd (f_tablename field)
              (map (fun d => if existsb (field_holds d (f_name field)) deleted
                             then sv_update sv
                                    (PDict [(PStr "$set",
                                             PDict [(PStr (f_name field),
                                                     POid (ObjectId.make (repeat 0%N 12)))])])
                                    d
                             else d)
                   (f (f_tablename field))) f).
Proof.
  intros Hfuel Hty Hk Hid Hbase Htable Hids.
  eexists. unfold Set_update. rewrite get_table_belongs.
  eapply runs_bind; [apply runs_lift; reflexivity|].
  eapply runs_bind; [apply runs_lift; exact Htable|].
  eapply runs_ext.
  - eapply (runs_update_values (f_tablename field) (belongs field deleted)
              [(field, Lit PNone)]).
    + reflexivity.
    + reflexivity.
    + rewrite Hfuel. apply (expand_belongs rt n field ta deleted Hty Hids).
    + reflexivity.
    + cbn [update_set]. rewrite Hid. cbn [negb]. rewrite Hty in *.
      rewrite (represent_reference_none ta Hbase). reflexivity.
  - intros x. unfold upd. destruct (String.eqb x (f_tablename field)); [|reflexivity].
    unfold updated. apply map_ext. intros d. rewrite (matches_in sv) by exact Hk.
    rewrite existsb_py_set_items by exact Hids.
    reflexivity.
Qed.

Lemma pull_each_nil (k : string) (docs : list document) : pull_each k [] docs = docs.
Proof. reflexivity. Qed.

Lemma runs_delete_set_null (n m : nat) (ta : string) (query : expr) (flt : pyval)
    (A B : Table) (fb fl : Field) (f : string -> list document) :
  cfuel = S (S n) ->
  isinstance_Query query = true ->
  get_table query = Ok ta ->
  fst (expand rt cfuel false query None) = Returns flt ->
  db_getitem (ad_tables ad) ta = Ok A ->
  t_referenced_by A = [fb] ->
  t_referenced_by_list A = [fl] ->
  f_type fb = "reference " ++ ta ->
  f_ondelete fb = "SET NULL" ->
  db_getitem (ad_tables ad) (f_tablename fb) = Ok B ->
  is_id_name (f_name fb) = false ->
  rt_base_represent rt PNone (Some (f_type fb)) = Ok PNone ->
  f_type fl = "list:reference " ++ ta ->
  f_ondelete fl = "SET NULL" ->
  f_tablename fb <> ta ->
  f_tablename fl <> ta ->
  f_tablename fb <> f_tablename fl ->
  PyStr.startswith "$" (f_name fb) = false ->
  PyStr.startswith "$" (f_name fl) = false ->
  runs (delete rt sv ad cfuel (S m) ta query PNone) f
       (Z.of_nat (List.length (filter (matches sv flt) (f ta))))
       (upd (f_tablename fb)
            (map (fun d => if existsb (field_holds d (f_name fb))
                                      (ids_of (filter (matches sv flt) (f ta)))
                           then sv_update sv
                                  (PDict [(PStr "$set",
                                           PDict [(PStr (f_name fb),
                                                   POid (ObjectId.make (repeat 0%N 12)))])])
                                  d
                           else d)
                 (f (f_tablename fb)))
            (upd (f_tablename fl)
                 (pull_each (f_name fl) (ids_of (filter (matches sv flt) (f ta)))
                            (f (f_tablename fl)))
                 (upd ta (filter (fun d => negb (matches sv flt d)) (f ta)) f))).
Proof.
  intros Hfuel Hq Hname Hflt HA Hby Hlist Htyb Hob HB Hidb Hbase Htyl Hol
         Hba Hla Hbl Hkb Hkl.
  pose proof (eqb_neq_false _ _ Hba) as Eba.
  pose proof (eqb_neq_false _ _ Hla) as Ela.
  pose proof (eqb_neq_false _ _ Hbl) as Ebl.
  remember (filter (matches sv flt) (f ta)) as matched eqn:Ematched.
  cbn [delete]. unfold delete_body. rewrite Hq. cbn [negb].
  eapply runs_bind; [apply (runs_expand_query rt ad cfuel no_common_filter); eassumption|].
  cbn beta iota.
  eapply runs_bind; [apply runs_find|]. cbn [fst]. rewrite <- Ematched.
  eapply runs_bind; [apply runs_lift; apply ids_of_found|].
  eapply runs_bind; [apply runs_lift; exact HA|].
  rewrite Hby, Hlist.
  destruct (with_policy_set_null fb _ Htyb Hob) as [-> ->].
  destruct (with_policy_set_null fl _ Htyl Hol) as [-> ->].
  eapply runs_bind; [apply runs_delete_many|]. cbn [fst snd acknowledged affected].
  rewrite <- Ematched, ids_of_length.
  replace (if negb (ad_safe ad =? 0)
           then Z.of_nat (List.length matched) else Z.of_nat (List.length matched))
    with (Z.of_nat (List.length matched)) by (destruct (negb _); reflexivity).
  eapply runs_bind; [|apply runs_ret].
  destruct matched as [|d0 matched'] eqn:Em.
  - cbn [List.length Z.of_nat Z.eqb negb andb].
    eapply runs_ext; [apply runs_ret|].
    intros x. cbn [ids_of map existsb].
    rewrite pull_each_nil, map_id.
    unfold upd.
    destruct (String.eqb x (f_tablename fb)) eqn:E1.
    { apply String.eqb_eq in E1. subst x. rewrite Eba. reflexivity. }
    destruct (String.eqb x (f_tablename fl)) eqn:E2.
    { apply String.eqb_eq in E2. subst x. rewrite Ela. reflexivity. }
    reflexivity.
  - rewrite <- Em in *.
    assert (Hids : Forall is_oid (ids_of matched)) by apply ids_of_oid.
    assert (Hcond : negb (Z.of_nat (List.length matched) =? 0)
                    && truthy (PSeq KList (ids_of matched)) = true).
    { rewrite Em. reflexivity. }
    rewrite Hcond.
    pose (g1 := upd ta (filter (fun d => negb (matches sv flt d)) (f ta)) f).
    pose (g2 := upd (f_tablename fl)
                    (pull_each (f_name fl) (ids_of matched) (f (f_tablename fl))) g1).
    destruct (runs_set_null n fb ta B (ids_of matched) g2
                Hfuel Htyb Hkb Hidb Hbase HB Hids) as [amountB HrunB].
    cbn [db_for]. fold g1.
    eapply runs_bind; [apply runs_ret|].
    apply (runs_bind _ _ g1 g2 _ tt).
    { eapply runs_ext.
      - eapply runs_bind; [|apply runs_ret].
        apply (runs_remove_from_list sv ad); assumption.
      - intros x. unfold g2, g1, upd. rewrite Ela.
        destruct (String.eqb x (f_tablename fl)); reflexivity. }
    eapply runs_bind; [apply runs_ret|].
    eapply runs_ext.
    + eapply runs_bind; [|apply runs_ret].
      eapply runs_bind; [exact HrunB|apply runs_ret].
    + intros x. unfold g2, g1, upd. rewrite Ebl, Eba. reflexivity.
Qed.

End SetNullFacts.

(** [delete] with SET NULL references.  Table [ta] is referenced by the
    field [fb] (type [reference ta]) of another table and by the field [fl]
    (type [list:reference ta]) of a third one, both with the policy
    SET NULL, and [delete] is called with the default [safe]; the base
    adapter represents [None] as [None].  Then it returns the number of
    documents of [ta] that the filter matches, and afterwards: these
    documents are gone from [ta]; no document of the two other tables is
    removed; every document of [fb]'s table that holds a deleted
    identifier in [fb] has received the update [$set] of [fb] to the
    identifier of twelve zero bytes, which is what [represent] makes of
    [None] for a reference, and not to null; in [fl]'s table every deleted
    identifier is pulled from the lists that hold it, a list of that
    identifier alone staying behind empty; no other collection has
    changed. *)
Theorem delete_set_null_references (rt : runtime) (sv : server) (ad : adapter)
    (n m : nat) (ta : string) (query : expr) (flt : pyval) (A B : Table) (fb fl : Field)
    (st : mongo) :
  (forall q, ad_use_common_filters ad q = false) ->
  isinstance_Query query = true ->
  get_table query = Ok ta ->
  fst (expand rt (S (S n)) false query None) = Returns flt ->
  db_getitem (ad_tables ad) ta = Ok A ->
  t_referenced_by A = [fb] ->
  t_referenced_by_list A = [fl] ->
  f_type fb = "reference " ++ ta ->
  f_ondelete fb = "SET NULL" ->
  db_getitem (ad_tables ad) (f_tablename fb) = Ok B ->
  is_id_name (f_name fb) = false ->
  rt_base_represent rt PNone (Some (f_type fb)) = Ok PNone ->
  f_type fl = "list:reference " ++ ta ->
  f_ondelete fl = "SET NULL" ->
  f_tablename fb <> ta ->
  f_tablename fl <> ta ->
  f_tablename fb <> f_tablename fl ->
  PyStr.startswith "$" (f_name fb) = false ->
  PyStr.startswith "$" (f_name fl) = false ->
  let run := delete rt sv ad (S (S n)) (S m) ta query PNone st in
  let deleted := filter (matches sv flt) (collections st ta) in
  let change :=
    PDict [(PStr "$set", PDict [(PStr (f_name fb), POid (ObjectId.make (repeat 0%N 12)))])] in
  fst run = Returns (Z.of_nat (List.length deleted))
  /\ collections (snd run) ta
     = filter (fun d => negb (matches sv flt d)) (collections st ta)
  /\ collections (snd run) (f_tablename fb)
     = map (fun d => if existsb (field_holds d (f_name fb)) (ids_of deleted)
                     then sv_update sv change d else d)
           (collections st (f_tablename fb))
  /\ collections (snd run) (f_tablename fl)
     = pull_each (f_name fl) (ids_of deleted) (collections st (f_tablename fl))
  /\ (forall x, x <> ta -> x <> f_tablename fb -> x <> f_tablename fl ->
                collections (snd run) x = collections st x).
Proof.
  intros Hcf Hq Hname Hflt HA Hby Hlist Htyb Hob HB Hidb Hbase Htyl Hol
         Hba Hla Hbl Hkb Hkl run deleted change.
  pose proof (runs_delete_set_null rt sv ad (S (S n)) Hcf n m ta query flt A B fb fl
                (collections st) eq_refl Hq Hname Hflt HA Hby Hlist Htyb Hob HB Hidb
                Hbase Htyl Hol Hba Hla Hbl Hkb Hkl) as Hrun.
  destruct (Hrun st (fun x => eq_refl)) as [Hres Hst].
  fold run in Hres, Hst. fold deleted in Hres, Hst. fold change in Hst.
  split; [exact Hres|].
  assert (Hab : ta <> f_tablename fb) by congruence.
  assert (Hal : ta <> f_tablename fl) by congruence.
  assert (Hlb : f_tablename fl <> f_tablename fb) by congruence.
  split; [|split; [|split]].
  - rewrite (Hst ta). rewrite upd_other by exact Hab. rewrite upd_other by exact Hal.
    apply upd_same.
  - rewrite (Hst (f_tablename fb)). apply upd_same.
  - rewrite (Hst (f_tablename fl)). rewrite upd_other by exact Hlb. apply upd_same.
  - intros x Hxa Hxb Hxl. rewrite (Hst x). rewrite !upd_other by assumption. reflexivity.
Qed.

Lemma delete_set_null_references_witness :
  let a1 := ObjectId.make [0; 0; 0; 0; 0; 0; 0; 0; 0; 0; 0; 1]%N in
  let a2 := ObjectId.make [0; 0; 0; 0; 0; 0; 0; 0; 0; 0; 0; 2]%N in
  let b1 := ObjectId.make [0; 0; 0; 0; 0; 0; 0; 0; 0; 0; 1; 1]%N in
  let c1 := ObjectId.make [0; 0; 0; 0; 0; 0; 0; 0; 0; 0; 2; 1]%N in
  let c2 := ObjectId.make [0; 0; 0; 0; 0; 0; 0; 0; 0; 0; 2; 2]%N in
  let name := mkField "name" "string" "a" "CASCADE" in
  let owner := mkField "owner" "reference a" "b" "SET NULL" in
  let owners := mkField "owners" "list:reference a" "c" "SET NULL" in
  let ts := [mkTable "a" [name] [owner] [owners];
             mkTable "b" [owner] [] [];
             mkTable "c" [owners] [] []] in
  let set_fields (u : pyval) (d : document) :=
    match u with
    | PDict [(PStr _, PDict [(PStr k, c)])] =>
        mkDoc (doc_id d)
              (map (fun kv => if String.eqb (fst kv) k then (k, c) else kv) (doc_fields d))
    | _ => d
    end in
  let sv := mkServer (fun _ _ => false) (fun _ docs => map doc_dict docs) (fun _ _ => [])
                     (fun _ d => d) (fun _ docs => docs) set_fields (fun _ d => d) in
  let st :=
    mkMongo (fun t =>
               if String.eqb t "a" then [mkDoc a1 [("name", PStr "x")];
                                         mkDoc a2 [("name", PStr "y")]]
               else if String.eqb t "b" then [mkDoc b1 [("owner", POid a1)]]
               else if String.eqb t "c"
                    then [mkDoc c1 [("owners", PSeq KList [POid a1])];
                          mkDoc c2 [("owners", PSeq KList [POid a1; POid a2])]]
               else []) [] in
  let run := delete sample_runtime sv (sample_adapter 1 ts) 2 1 "a"
                    (q_eq name (Lit (PStr "x"))) PNone st in
  fst run = Returns 1
  /\ collections (snd run) "a" = [mkDoc a2 [("name", PStr "y")]]
  /\ collections (snd run) "b"
     = [mkDoc b1 [("owner", POid (ObjectId.make (repeat 0%N 12)))]]
  /\ collections (snd run) "c"
     = [mkDoc c1 [("owners", PSeq KList [])];
        mkDoc c2 [("owners", PSeq KList [POid a2])]].
Proof.
  intros a1 a2 b1 c1 c2 name owner owners ts set_fields sv st run.
  destruct (delete_set_null_references sample_runtime sv (sample_adapter 1 ts)
              0 0 "a" (q_eq name (Lit (PStr "x"))) (PDict [(PStr "name", PStr "x")])
              (mkTable "a" [name] [owner] [owners]) (mkTable "b" [owner] [] [])
              owner owners st)
    as (H1 & H2 & H3 & H4 & _);
    try reflexivity; try discriminate.
  split; [exact H1|split; [exact H2|split; [exact H3|exact H4]]].
Defined.

(** ** The compiler on aggregates, comparisons, arithmetic and BELONGS *)

Lemma aggregate_codes_miss (what : string) :
  ~ In what ["SUM"; "MAX"; "MIN"; "AVG"] ->
  dict_get _aggregate_map (PStr what) = Err KeyError.
Proof.
  intros H. cbn [dict_get _aggregate_map pyval_eqb].
  repeat match goal with
  | |- context [String.eqb ?a what] =>
      let E := fresh "E" in
      destruct (String.eqb a what) eqn:E;
      [apply String.eqb_eq in E; subst what; exfalso; apply H; cbn; tauto|]
  end.
  reflexivity.
Qed.

(** SUM, MAX, MIN and AVG of a field compile to [{code: key}] where the
    key is always the one the aggregate expander gives, on the adapter
    itself too: the name with a dollar sign before it, but the bare string
    [_id], with no dollar sign, for a field of type id.  Any other name of
    an aggregate raises NotImplementedError. *)
Theorem aggregate_compiles (rt : runtime) (n : nat) (agg : bool) (f : Field)
    (ty ft : option string) :
  let run what :=
    fst (expand rt (S (S n)) agg
           (ExprE (FieldE f) (OpFunc AGGREGATE) (Lit (PStr what)) ty []) ft) in
  (forall what code,
      In (what, code) [("SUM", "$sum"); ("MAX", "$max"); ("MIN", "$min"); ("AVG", "$avg")] ->
      run what = Returns (PDict [(PStr code, PStr (field_key true f))]))
  /\ (forall what, ~ In what ["SUM"; "MAX"; "MIN"; "AVG"] ->
                   run what = Raises NotImplementedError).
Proof.
  intros run. subst run. cbv beta.
  assert (Hstep : forall what,
             fst (expand rt (S (S n)) agg
                    (ExprE (FieldE f) (OpFunc AGGREGATE) (Lit (PStr what)) ty []) ft)
             = match dict_get _aggregate_map (PStr what) with
               | Ok code =>
                   match dict1 code (PStr (field_key true f)) with
                   | Ok d => Returns d
                   | Err _ => Raises NotImplementedError
                   end
               | Err _ => Raises NotImplementedError
               end).
  { intros what.
    change (expand rt (S (S n)) agg ?e ft)
      with (expand_body rt (expand rt (S n)) (NOT_ rt (S n)) agg e ft).
    unfold expand_body. cbn [cast_query].
    unfold expand_node. cbn [snd fst is_none negb].
    unfold call_operator. cbn [Nat.leb andb negb].
    change (kw_accepted [] []) with true. cbn [negb].
    unfold AGGREGATE_, op_bind, get_second, op_lift, on_first. cbn [fst snd hashable].
    destruct (dict_get _aggregate_map (PStr what)) as [code|e]; cbn [of_res]; [|reflexivity].
    rewrite expand_field. cbn [fst snd].
    destruct (dict1 code _); reflexivity. }
  split.
  - intros what code Hin. rewrite Hstep.
    cbn in Hin. destruct Hin as [[= <- <-]|[[= <- <-]|[[= <- <-]|[[= <- <-]|[]]]]]; reflexivity.
  - intros what Hout. rewrite Hstep, (aggregate_codes_miss what Hout). reflexivity.
Qed.

Lemma aggregate_compiles_witness :
  let id := mkField "id" "id" "book" "CASCADE" in
  let year := mkField "year" "integer" "book" "CASCADE" in
  fst (expand sample_runtime 2 false
         (ExprE (FieldE year) (OpFunc AGGREGATE) (Lit (PStr "MAX")) None []) None)
  = Returns (PDict [(PStr "$max", PStr "$year")])
  /\ fst (expand sample_runtime 2 false
            (ExprE (FieldE id) (OpFunc AGGREGATE) (Lit (PStr "MAX")) None []) None)
     = Returns (PDict [(PStr "$max", PStr "_id")])
  /\ fst (expand sample_runtime 2 false
            (ExprE (FieldE year) (OpFunc AGGREGATE) (Lit (PStr "MEDIAN")) None []) None)
     = Raises NotImplementedError.
Proof.
  intros id year.
  destruct (aggregate_compiles sample_runtime 0 false year None None) as [Hy Hn].
  destruct (aggregate_compiles sample_runtime 0 false id None None) as [Hi _].
  split; [|split].
  - apply (Hy "MAX" "$max"). cbn. tauto.
  - apply (Hi "MAX" "$max"). cbn. tauto.
  - apply (Hn "MEDIAN"). cbn. intros [H|[H|[H|[H|[]]]]]; discriminate.
Defined.


Section CompilerForms.

Variable rt : runtime.
Variable n : nat.
Variable agg : bool.

Lemma expand_step (e : expr) (ft : option string) :
  expand rt (S (S n)) agg e ft
  = expand_body rt (expand rt (S n)) (NOT_ rt (S n)) agg e ft.
Proof. reflexivity. Qed.

(** The three steps the comparisons and the arithmetic share: the key of
    the left operand, its type, the right operand coerced to that type. *)
Lemma compare_on_field (code : string) (f : Field) (v r : pyval) (st : expr * expr) :
  st = (FieldE f, Lit v) ->
  type_given (Some (f_type f)) = true ->
  represent rt agg v (Some (f_type f)) = Ok r ->
  fst (compare (expand rt (S n)) agg code st)
  = Returns (PDict [(PStr (field_key agg f), PDict [(PStr code, r)])]).
Proof.
  intros -> Hty Hr. unfold compare, op_bind, expand_first, expand_second, on_first, on_second,
    first_type.
  cbn [fst snd]. rewrite expand_field. cbn [fst snd type_of of_res].
  rewrite expand_lit_typed by exact Hty. cbn [fst snd]. rewrite Hr. reflexivity.
Qed.

End CompilerForms.

(** The comparisons of a field that is neither id nor reference typed
    with a plain value [v], where [r] is what [represent] makes of [v] for
    the type of the field: [==] compiles to [{key: r}] and [!=] to
    [{key: {$ne: r}}], for [None] as for any other value; [<], [<=], [>]
    and [>=] compile to [{key: {code: r}}] when [v] is not [None]. *)
Theorem comparisons_compile (rt : runtime) (n : nat) (agg : bool) (f : Field) (v r : pyval) :
  is_id_or_reference f = false ->
  type_given (Some (f_type f)) = true ->
  represent rt agg v (Some (f_type f)) = Ok r ->
  let run o := fst (expand rt (S (S n)) agg (QueryE (FieldE f) (OpFunc o) (Lit v) []) None) in
  run EQ = Returns (PDict [(PStr (field_key agg f), r)])
  /\ run NE = Returns (PDict [(PStr (field_key agg f), PDict [(PStr "$ne", r)])])
  /\ (v <> PNone ->
      forall o code,
        In (o, code) [(LT, "$lt"); (LE, "$lte"); (GT, "$gt"); (GE, "$gte")] ->
        run o = Returns (PDict [(PStr (field_key agg f), PDict [(PStr code, r)])])).
Proof.
  intros Hid Hty Hr run.
  assert (Hnode : forall o,
             run o
             = fst (expand_node rt (expand rt (S n)) (NOT_ rt (S n)) agg (OpFunc o) []
                                (FieldE f, Lit v))).
  { intros o. subst run. cbv beta. rewrite expand_step. unfold expand_body.
    cbn [cast_query]. rewrite Hid.
    destruct (expand_node _ _ _ _ _ _ _) as [res st']. reflexivity. }
  assert (Hcall : forall o,
             In o [EQ; NE; LT; LE; GT; GE] ->
             (In o [LT; LE; GT; GE] -> v <> PNone) ->
             expand_node rt (expand rt (S n)) (NOT_ rt (S n)) agg (OpFunc o) []
                         (FieldE f, Lit v)
             = match o with
               | EQ => EQ_ (expand rt (S n)) agg (FieldE f, Lit v)
               | NE => compare (expand rt (S n)) agg "$ne" (FieldE f, Lit v)
               | LT => compare (expand rt (S n)) agg "$lt" (FieldE f, Lit v)
               | LE => compare (expand rt (S n)) agg "$lte" (FieldE f, Lit v)
               | GT => compare (expand rt (S n)) agg "$gt" (FieldE f, Lit v)
               | _ => compare (expand rt (S n)) agg "$gte" (FieldE f, Lit v)
               end).
  { intros o Ho Hv. unfold expand_node. cbn [fst snd is_none].
    destruct v as [| | | | | | | |];
      cbn in Ho; destruct Ho as [<-|[<-|[<-|[<-|[<-|[<-|[]]]]]]];
      try reflexivity;
      exfalso; apply Hv; cbn; tauto. }
  split; [|split].
  - rewrite Hnode, Hcall; [|cbn; tauto|intros [H|[H|[H|[H|[]]]]]; discriminate].
    unfold EQ_, op_bind, expand_first, expand_second, on_first, on_second, first_type.
    cbn [fst snd]. rewrite expand_field. cbn [fst snd type_of of_res].
    rewrite expand_lit_typed by exact Hty. cbn [fst snd]. rewrite Hr. reflexivity.
  - rewrite Hnode, Hcall; [|cbn; tauto|intros [H|[H|[H|[H|[]]]]]; discriminate].
    apply (compare_on_field rt n agg _ f v r _ eq_refl Hty Hr).
  - intros Hv o code Hin. rewrite Hnode.
    cbn in Hin.
    destruct Hin as [[= <- <-]|[[= <- <-]|[[= <- <-]|[[= <- <-]|[]]]]];
      (rewrite Hcall; [|cbn; tauto|intros _; exact Hv]);
      apply (compare_on_field rt n agg _ f v r _ eq_refl Hty Hr).
Qed.

Lemma comparisons_compile_witness :
  let year := mkField "year" "integer" "book" "CASCADE" in
  fst (expand sample_runtime 2 false (QueryE (FieldE year) (OpFunc EQ) (Lit PNone) []) None)
  = Returns (PDict [(PStr "year", PNone)])
  /\ fst (expand sample_runtime 2 false
            (QueryE (FieldE year) (OpFunc GE) (Lit (PInt 1900)) []) None)
     = Returns (PDict [(PStr "year", PDict [(PStr "$gte", PInt 1900)])]).
Proof.
  intros year.
  destruct (comparisons_compile sample_runtime 0 false year PNone PNone
              eq_refl eq_refl eq_refl) as (He & _ & _).
  destruct (comparisons_compile sample_runtime 0 false year (PInt 1900) (PInt 1900)
              eq_refl eq_refl eq_refl) as (_ & _ & Hc).
  split; [exact He|].
  apply (Hc ltac:(discriminate) GE "$gte"). cbn. tauto.
Defined.


(** Arithmetic on two fields compiles to [{code: [key, key]}] with the
    codes [$subtract], [$multiply], [$divide] and [$mod]; the sum has
    [$concat] when the type of one of the two fields is 'string', 'text'
    or 'password', and [$add] when neither is. *)
Theorem arithmetic_compiles (rt : runtime) (n : nat) (agg : bool) (f g : Field)
    (ty ft : option string) :
  let run o := fst (expand rt (S (S n)) agg (ExprE (FieldE f) (OpFunc o) (FieldE g) ty []) ft) in
  let operands := PSeq KList [PStr (field_key agg f); PStr (field_key agg g)] in
  (In (f_type f) ["string"; "text"; "password"]
   \/ In (f_type g) ["string"; "text"; "password"] ->
   run ADD = Returns (PDict [(PStr "$concat", operands)]))
  /\ (~ In (f_type f) ["string"; "text"; "password"] ->
      ~ In (f_type g) ["string"; "text"; "password"] ->
      run ADD = Returns (PDict [(PStr "$add", operands)]))
  /\ run SUB = Returns (PDict [(PStr "$subtract", operands)])
  /\ run MUL = Returns (PDict [(PStr "$multiply", operands)])
  /\ run DIV = Returns (PDict [(PStr "$divide", operands)])
  /\ run MOD = Returns (PDict [(PStr "$mod", operands)]).
Proof.
  intros run operands.
  assert (Harith : forall code,
             fst (arith (expand rt (S n)) agg code (FieldE f, FieldE g))
             = Returns (PDict [(PStr code, operands)])).
  { intros code. unfold arith, op_bind, expand_first, expand_second, on_first, on_second,
      first_type.
    cbn [fst snd]. rewrite expand_field. cbn [fst snd type_of of_res].
    rewrite expand_field. reflexivity. }
  assert (Hnode : forall o,
             run o
             = fst (expand_node rt (expand rt (S n)) (NOT_ rt (S n)) agg (OpFunc o) []
                                (FieldE f, FieldE g))).
  { intros o. subst run. cbv beta. rewrite expand_step. unfold expand_body.
    cbn [cast_query].
    destruct (expand_node _ _ _ _ _ _ _) as [res st']. reflexivity. }
  assert (Htext : forall h : Field,
             is_text_type (FieldE h) = true <-> In (f_type h) ["string"; "text"; "password"]).
  { intros h. unfold is_text_type. cbn [type_of]. rewrite existsb_exists. split.
    - intros (x & Hx & E). apply String.eqb_eq in E. subst x. exact Hx.
    - intros Hx. exists (f_type h). split; [exact Hx|apply String.eqb_refl]. }
  assert (Hadd : run ADD
                 = Returns (PDict [(PStr (if is_text_type (FieldE f) || is_text_type (FieldE g)
                                          then "$concat" else "$add"), operands)])).
  { rewrite Hnode. unfold expand_node. cbn [fst snd is_none negb].
    unfold call_operator. cbn [Nat.leb andb negb].
    change (kw_accepted [] []) with true. cbn [negb].
    apply Harith. }
  split; [|split].
  - intros Ht. rewrite Hadd.
    replace (is_text_type (FieldE f) || is_text_type (FieldE g)) with true; [reflexivity|].
    symmetry. apply orb_true_iff. rewrite !Htext. exact Ht.
  - intros Hf Hg. rewrite Hadd.
    replace (is_text_type (FieldE f) || is_text_type (FieldE g)) with false; [reflexivity|].
    symmetry. apply orb_false_iff.
    split; apply not_true_is_false; rewrite Htext; assumption.
  - repeat split; rewrite Hnode; unfold expand_node; cbn [fst snd is_none negb];
      unfold call_operator; cbn [Nat.leb andb negb];
      change (kw_accepted [] []) with true; cbn [negb];
      apply Harith.
Qed.

Lemma arithmetic_compiles_witness :
  let title := mkField "title" "string" "book" "CASCADE" in
  let notes := mkField "notes" "text" "book" "CASCADE" in
  let secret := mkField "secret" "password" "book" "CASCADE" in
  let year := mkField "year" "integer" "book" "CASCADE" in
  let run a b := fst (expand sample_runtime 2 false
                        (ExprE (FieldE a) (OpFunc ADD) (FieldE b) None []) None) in
  run title year = Returns (PDict [(PStr "$concat", PSeq KList [PStr "title"; PStr "year"])])
  /\ run year notes = Returns (PDict [(PStr "$concat", PSeq KList [PStr "year"; PStr "notes"])])
  /\ run secret year
     = Returns (PDict [(PStr "$concat", PSeq KList [PStr "secret"; PStr "year"])])
  /\ run year year = Returns (PDict [(PStr "$add", PSeq KList [PStr "year"; PStr "year"])]).
Proof.
  intros title notes secret year run.
  assert (Hyear : ~ In (f_type year) ["string"; "text"; "password"]).
  { cbn. intros [H|[H|[H|[]]]]; discriminate. }
  split; [|split; [|split]].
  - apply (arithmetic_compiles sample_runtime 0 false title year None None).
    left. cbn. tauto.
  - apply (arithmetic_compiles sample_runtime 0 false year notes None None).
    right. cbn. tauto.
  - apply (arithmetic_compiles sample_runtime 0 false secret year None None).
    left. cbn. tauto.
  - apply (arithmetic_compiles sample_runtime 0 false year year None None); exact Hyear.
Defined.

(** BELONGS on a field that is neither id nor reference typed: a string
    as the right operand raises RuntimeError (nested queries are not
    supported); a list, tuple or set compiles to [{key: {$in: values}}]
    where the values are its elements, each coerced to the type of the
    field, in their order. *)
Theorem belongs_compiles (rt : runtime) (n : nat) (agg : bool) (f : Field) :
  is_id_or_reference f = false ->
  let run v :=
    fst (expand rt (S (S n)) agg (QueryE (FieldE f) (OpFunc BELONGS) (Lit v) []) None) in
  (forall s, run (PStr s) = Raises RuntimeError)
  /\ (forall k items rs,
         type_given (Some (f_type f)) = true ->
         mapM (fun v => represent rt agg v (Some (f_type f))) items = Ok rs ->
         run (PSeq k items)
         = Returns (PDict [(PStr (field_key agg f), PDict [(PStr "$in", PSeq KList rs)])])).
Proof.
  intros Hid run.
  assert (Hnode : forall v,
             v <> PNone ->
             run v = fst (BELONGS_ (expand rt (S n)) agg (FieldE f, Lit v))).
  { intros v Hv. subst run. cbv beta. rewrite expand_step. unfold expand_body.
    cbn [cast_query]. rewrite Hid. unfold expand_node. cbn [fst snd is_none].
    destruct v; try (exfalso; apply Hv; reflexivity);
      cbn [negb]; unfold call_operator; cbn [Nat.leb andb negb];
      change (kw_accepted [] []) with true; cbn [negb];
      destruct (BELONGS_ _ _ _) as [res st']; reflexivity. }
  split.
  - intros s. rewrite Hnode by discriminate. reflexivity.
  - intros k items rs Hty Hrs. rewrite Hnode by discriminate.
    unfold BELONGS_. unfold op_bind at 1. cbn [get_second snd fst belongs_items as_basestring].
    unfold op_bind at 1. cbn [op_lift py_iter of_res].
    assert (Hmap : forall st,
               fst st = FieldE f ->
               op_map (fun item =>
                         t <~ first_type ;;
                         fun st0 => (fst (expand rt (S n) agg (Lit item) t), st0)) items st
               = (Returns rs, st)).
    { intros st Hst. clear Hnode. revert rs Hrs.
      induction items as [|x l IH]; intros rs Hrs.
      - injection Hrs as <-. reflexivity.
      - cbn [mapM] in Hrs.
        destruct (represent rt agg x (Some (f_type f))) as [y|e] eqn:Ex; [|discriminate].
        cbn [res_bind] in Hrs.
        destruct (mapM _ l) as [ys|e] eqn:El; [|discriminate].
        injection Hrs as <-.
        cbn [op_map]. unfold op_bind at 1. unfold op_bind at 1.
        unfold first_type at 1. rewrite Hst. cbn [type_of of_res].
        rewrite expand_lit_typed by exact Hty. cbn [fst]. rewrite Ex. cbn [of_res].
        unfold op_bind at 1. rewrite (IH ys eq_refl). reflexivity. }
    unfold op_bind at 1. rewrite Hmap by reflexivity.
    unfold op_bind at 1. unfold expand_first, on_first. cbn [fst snd].
    rewrite expand_field. reflexivity.
Qed.

Lemma belongs_compiles_witness :
  let year := mkField "year" "integer" "book" "CASCADE" in
  fst (expand sample_runtime 2 false
         (QueryE (FieldE year) (OpFunc BELONGS) (Lit (PStr "SELECT year FROM book;")) [])
         None)
  = Raises RuntimeError
  /\ fst (expand sample_runtime 2 false
            (QueryE (FieldE year) (OpFunc BELONGS)
                    (Lit (PSeq KTuple [PInt 1950; PInt 1960])) []) None)
     = Returns (PDict [(PStr "year", PDict [(PStr "$in", PSeq KList [PInt 1950; PInt 1960])])]).
Proof.
  intros year.
  destruct (belongs_compiles sample_runtime 0 false year eq_refl) as [Hs Hl].
  split; [apply Hs|].
  apply (Hl KTuple [PInt 1950; PInt 1960] [PInt 1950; PInt 1960]); reflexivity.
Defined.


(** ** The write concern of a collection object *)

(** [_get_collection] and [_get_safe] agree.  The adapter keeps [safe] as 0
    or 1; then, for every table name that is a string and every [safe], the
    collection object [_get_collection] returns has the write concern
    [_get_safe(safe)]: the default for [None], 1 for a true value and 0 for a
    false one, also when [safe] compares equal to the default and the
    collection object of the connection is returned as it is.  A table name
    that is no string is refused with TypeError. *)
Theorem get_collection_write_concern (ad : adapter) (tablename safe : pyval) :
  ad_safe ad = 0 \/ ad_safe ad = 1 ->
  (forall name, tablename = PStr name ->
                _get_collection ad tablename safe = Ok (name, _get_safe ad safe))
  /\ ((forall name, tablename <> PStr name) ->
      _get_collection ad tablename safe = Err TypeError).
Proof.
  intros Hs. split.
  - intros name ->. unfold _get_collection. cbn [connection_getitem res_bind fst].
    destruct safe as [|b|z| | | | | |]; try reflexivity;
      unfold differs_from_safe; cbn [as_int];
      match goal with
      | |- context [negb (?x =? ad_safe ad)] => destruct (x =? ad_safe ad) eqn:E
      end; cbn [negb]; try reflexivity; apply Z.eqb_eq in E.
    + cbn [_get_safe truthy]. destruct b; destruct Hs as [H|H]; rewrite H in E |- *;
        try discriminate; reflexivity.
    + cbn [_get_safe truthy]. subst z.
      destruct Hs as [H|H]; rewrite H; reflexivity.
  - intros Hn. destruct tablename; try reflexivity. exfalso. apply (Hn s). reflexivity.
Qed.

Lemma get_collection_write_concern_witness :
  _get_collection (sample_adapter 1 []) (PStr "book") (PBool true) = Ok ("book", 1)
  /\ _get_collection (sample_adapter 1 []) (PStr "book") (PInt 0) = Ok ("book", 0)
  /\ _get_collection (sample_adapter 1 []) (PInt 7) PNone = Err TypeError.
Proof.
  destruct (get_collection_write_concern (sample_adapter 1 []) (PStr "book") (PBool true)
              (or_intror eq_refl)) as [H1 _].
  destruct (get_collection_write_concern (sample_adapter 1 []) (PStr "book") (PInt 0)
              (or_intror eq_refl)) as [H2 _].
  destruct (get_collection_write_concern (sample_adapter 1 []) (PInt 7) PNone
              (or_intror eq_refl)) as [_ H3].
  split; [exact (H1 "book" eq_refl)|split; [exact (H2 "book" eq_refl)|]].
  apply H3. intros name. discriminate.
Defined.

(** ** The ordered comparisons and [None] *)

Lemma prefix_split (p s : string) :
  String.prefix p s = true -> exists r, s = p ++ r.
Proof.
  revert s. induction p as [|c p IH]; intros s H.
  - exists s. reflexivity.
  - destruct s as [|d s]; [discriminate|]. cbn in H.
    destruct (ascii_dec c d) as [->|]; [|discriminate].
    destruct (IH s H) as [r ->]. exists r. reflexivity.
Qed.

Lemma list_reference_contains (t : string) :
  PyStr.startswith "list:reference" t = true -> PyStr.contains "reference" t = true.
Proof.
  intros H. destruct (prefix_split _ _ H) as [r ->]. destruct r; vm_compute; reflexivity.
Qed.

Lemma object_id_None (py : python) (rc : nat -> nat) (hr : bool) :
  object_id py rc hr PNone = Ok (POid (ObjectId.make (repeat 0%N 12))).
Proof. reflexivity. Qed.

Lemma reference_type_given (t : string) :
  t = "id" \/ PyStr.contains "reference" t = true -> type_given (Some t) = true.
Proof. intros [->|H]; [reflexivity|]. destruct t; [discriminate H|reflexivity]. Qed.

Lemma represent_oid_reference (rt : runtime) (agg : bool) (o : ObjectId.t) (t : string) :
  t = "id" \/ PyStr.contains "reference" t = true ->
  represent rt agg (POid o) (Some t)
  = if PyStr.startswith "list:reference" t then Err TypeError else Ok (POid o).
Proof.
  intros H. unfold represent. cbn [res_bind type_is].
  assert (Hn : forall s, PyStr.contains "reference" s = false -> s <> "id" -> String.eqb t s = false).
  { intros s Hs Hi. apply String.eqb_neq. intros ->. destruct H as [H|H]; [contradiction|congruence]. }
  rewrite !Hn by (reflexivity || discriminate). cbn [orb].
  destruct (PyStr.startswith "list:reference" t) eqn:Hl.
  - destruct (prefix_split _ _ Hl) as [r ->]. destruct r; vm_compute; reflexivity.
  - destruct (PyStr.startswith "list:" t); [reflexivity|].
    destruct (PyStr.startswith "reference" t || (t =? "id")%string); reflexivity.
Qed.

Lemma field_key_rename_id (agg : bool) (f : Field) :
  field_key agg (rename_id f) = field_key agg f.
Proof.
  unfold rename_id, field_key. destruct (String.eqb (f_type f) "id") eqn:E.
  - cbn. rewrite E. reflexivity.
  - rewrite E. reflexivity.
Qed.

Lemma f_type_rename_id (f : Field) : f_type (rename_id f) = f_type f.
Proof. unfold rename_id. destruct (String.eqb (f_type f) "id"); reflexivity. Qed.

Lemma expand_ordered_comparison_None_id (rt : runtime) (n : nat) (agg : bool) (f : Field)
      (o : operator) (code : string) (ft : option string) :
  In (o, code) [(LT, "$lt"); (LE, "$lte"); (GT, "$gt"); (GE, "$gte")] ->
  f_type f = "id" \/ PyStr.contains "reference" (f_type f) = true ->
  fst (expand rt (S (S n)) agg (QueryE (FieldE f) (OpFunc o) (Lit PNone) []) ft)
  = if PyStr.startswith "list:reference" (f_type f) then Raises TypeError
    else Returns (PDict [(PStr (field_key agg f),
                          PDict [(PStr code, POid (ObjectId.make (repeat 0%N 12)))])]).
Proof.
  intros Ho Hty.
  assert (Hid : is_id_or_reference f = true).
  { unfold is_id_or_reference. destruct Hty as [-> | ->]; [reflexivity|apply orb_true_r]. }
  rewrite expand_step. unfold expand_body. cbn [cast_query]. rewrite Hid.
  cbn [cast_second]. unfold self_object_id. rewrite object_id_None. cbn [res_bind].
  unfold expand_node. cbn [fst snd is_none negb].
  assert (Hc : fst (compare (expand rt (S n)) agg code
                      (FieldE (rename_id f), Lit (POid (ObjectId.make (repeat 0%N 12)))))
               = if PyStr.startswith "list:reference" (f_type f) then Raises TypeError
                 else Returns (PDict [(PStr (field_key agg f),
                          PDict [(PStr code, POid (ObjectId.make (repeat 0%N 12)))])])).
  { unfold compare, op_bind, expand_first, expand_second, on_first, on_second, first_type.
    cbn [fst snd]. rewrite expand_field. cbn [fst snd type_of of_res].
    rewrite f_type_rename_id, field_key_rename_id.
    rewrite expand_lit_typed by (apply reference_type_given; exact Hty). cbn [fst snd].
    rewrite represent_oid_reference by exact Hty.
    destruct (PyStr.startswith "list:reference" (f_type f)); reflexivity. }
  assert (Hv : forall st, is_none (snd st) = false ->
                          (_ <~ _validate_second ;; compare (expand rt (S n)) agg code) st
                          = compare (expand rt (S n)) agg code st).
  { intros [a b] Hs. cbn [snd] in Hs.
    unfold _validate_second, get_second, op_bind. cbn [fst snd].
    rewrite Hs. reflexivity. }
  cbn in Ho.
  destruct Ho as [[= <- <-]|[[= <- <-]|[[= <- <-]|[[= <- <-]|[]]]]];
    unfold call_operator; cbn [Nat.leb andb negb];
    change (kw_accepted [] []) with true; cbn [negb];
    unfold LT_, LE_, GT_, GE_; rewrite Hv by reflexivity;
    destruct (compare _ _ _ _) as [r st']; exact Hc.
Qed.

(** C8 (amended).  The methods [LT], [LE], [GT] and [GE], called on a
    field and [None] (given, or left out), raise RuntimeError for every
    field.  Compiled by [expand], the query [f < None] (and [<=], [>],
    [>=]) raises RuntimeError when the type of [f] is neither id nor holds
    "reference".  When the type is id or holds "reference", [expand] casts
    the right operand first, [None] becomes the identifier of 0 and the
    method is never given [None]: the query compiles to
    [{key: {code: ObjectId(0)}}], with the code of the comparison, unless
    the type starts with "list:reference", where the coercion of the
    identifier as a list raises TypeError. *)
Theorem ordered_comparison_with_None :
  forall (rt : runtime) (n : nat) (aggregate : bool) (f : Field) (o : operator)
         (code : string) (field_type : option string),
    In (o, code) [(LT, "$lt"); (LE, "$lte"); (GT, "$gt"); (GE, "$gte")] ->
    (forall (ex : expander) (nt : negator) (nargs : nat),
        In nargs [1%nat; 2%nat] ->
        call_operator rt ex nt aggregate o nargs [] (FieldE f, Lit PNone)
        = (Raises RuntimeError, (FieldE f, Lit PNone)))
    /\ (f_type f <> "id" -> PyStr.contains "reference" (f_type f) = false ->
        fst (expand rt (S n) aggregate
               (QueryE (FieldE f) (OpFunc o) (Lit PNone) []) field_type)
        = Raises RuntimeError)
    /\ (f_type f = "id" \/ PyStr.contains "reference" (f_type f) = true ->
        PyStr.startswith "list:reference" (f_type f) = false ->
        fst (expand rt (S (S n)) aggregate
               (QueryE (FieldE f) (OpFunc o) (Lit PNone) []) field_type)
        = Returns (PDict [(PStr (if String.eqb (f_type f) "id" then "_id"
                                 else if aggregate then "$" ++ f_name f
                                 else f_name f),
                           PDict [(PStr code,
                                   POid (ObjectId.make
                                           [0; 0; 0; 0; 0; 0; 0; 0; 0; 0; 0; 0]%N))])]))
    /\ (PyStr.startswith "list:reference" (f_type f) = true ->
        fst (expand rt (S (S n)) aggregate
               (QueryE (FieldE f) (OpFunc o) (Lit PNone) []) field_type)
        = Raises TypeError).
Proof.
  intros rt n agg f o code ft Ho.
  assert (Ho' : In o [LT; LE; GT; GE]).
  { cbn in Ho. cbn.
    destruct Ho as [[= <- <-]|[[= <- <-]|[[= <- <-]|[[= <- <-]|[]]]]]; tauto. }
  split; [|split; [|split]].
  - intros ex nt nargs Hn. cbn in Ho', Hn.
    destruct Hn as [<-|[<-|[]]];
      destruct Ho' as [<-|[<-|[<-|[<-|[]]]]]; reflexivity.
  - intros Hid Href. apply expand_ordered_comparison_None; [exact Ho'|].
    unfold is_id_or_reference. rewrite Href.
    apply String.eqb_neq in Hid. rewrite Hid. reflexivity.
  - intros Hty Hl.
    rewrite (expand_ordered_comparison_None_id rt n agg f o code ft Ho Hty), Hl.
    reflexivity.
  - intros Hl.
    rewrite (expand_ordered_comparison_None_id rt n agg f o code ft Ho
               (or_intror (list_reference_contains _ Hl))), Hl.
    reflexivity.
Qed.

Lemma ordered_comparison_with_None_witness :
  let age := mkField "age" "integer" "person" "" in
  let id := mkField "id" "id" "person" "" in
  let friends := mkField "friends" "list:reference person" "person" "" in
  call_operator sample_runtime (expand sample_runtime 3) (NOT_ sample_runtime 3) false
                GT 2 [] (FieldE id, Lit PNone)
  = (Raises RuntimeError, (FieldE id, Lit PNone))
  /\ fst (expand sample_runtime 2 false (QueryE (FieldE age) (OpFunc GT) (Lit PNone) []) None)
     = Raises RuntimeError
  /\ fst (expand sample_runtime 2 false (QueryE (FieldE id) (OpFunc GT) (Lit PNone) []) None)
     = Returns (PDict [(PStr "_id",
                        PDict [(PStr "$gt",
                                POid (ObjectId.make
                                        [0; 0; 0; 0; 0; 0; 0; 0; 0; 0; 0; 0]%N))])])
  /\ fst (expand sample_runtime 2 false
            (QueryE (FieldE friends) (OpFunc GT) (Lit PNone) []) None)
     = Raises TypeError.
Proof.
  intros age id friends.
  assert (Ho : In (GT, "$gt") [(LT, "$lt"); (LE, "$lte"); (GT, "$gt"); (GE, "$gte")])
    by (cbn; tauto).
  split; [|split; [|split]].
  - destruct (ordered_comparison_with_None sample_runtime 0 false id GT "$gt" None Ho)
      as (H & _).
    apply H. cbn. tauto.
  - destruct (ordered_comparison_with_None sample_runtime 1 false age GT "$gt" None Ho)
      as (_ & H & _).
    apply H; [discriminate|reflexivity].
  - destruct (ordered_comparison_with_None sample_runtime 0 false id GT "$gt" None Ho)
      as (_ & _ & H & _).
    apply H; [left; reflexivity|reflexivity].
  - destruct (ordered_comparison_with_None sample_runtime 0 false friends GT "$gt" None Ho)
      as (_ & _ & _ & H).
    apply H. reflexivity.
Defined.

(** C8, as stated for every field, fails on a field of type id: the
    query [id > None] compiles to a fragment that compares [_id] with the
    identifier of 0, and raises nothing. *)
Lemma ordered_comparison_id_counterexample :
  let id := mkField "id" "id" "person" "" in
  fst (expand sample_runtime 2 false (QueryE (FieldE id) (OpFunc GT) (Lit PNone) []) None)
  = Returns (PDict [(PStr "_id",
                     PDict [(PStr "$gt",
                             POid (ObjectId.make [0; 0; 0; 0; 0; 0; 0; 0; 0; 0; 0; 0]%N))])])
  /\ fst (expand sample_runtime 2 false (QueryE (FieldE id) (OpFunc GT) (Lit PNone) []) None)
     <> Raises RuntimeError.
Proof.
  cbv zeta. split; [vm_compute; reflexivity|]. vm_compute. intros E. discriminate E.
Qed.

(** ** The expression compiler: mutation of the query *)

Lemma mapM_Forall2 {A B : Type} (f : A -> res B) (l : list A) (l' : list B) :
  Forall2 (fun x y => f x = Ok y) l l' -> mapM f l = Ok l'.
Proof.
  induction 1 as [|x y l l' Hx _ IH]; [reflexivity|].
  cbn [mapM]. rewrite Hx. cbn [res_bind]. rewrite IH. reflexivity.
Qed.

Lemma mapM_Exists {A B : Type} (f : A -> res B) (l : list A) :
  Exists (fun x => exists e, f x = Err e) l -> exists e, mapM f l = Err e.
Proof.
  induction 1 as [x l [e He]|x l _ [e IH]]; cbn [mapM].
  - rewrite He. exists e. reflexivity.
  - destruct (f x) as [y|e']; cbn [res_bind]; [|exists e'; reflexivity].
    rewrite IH. exists e. reflexivity.
Qed.

(** C9.  Compiling a Query node whose left operand is a Field of type id,
    or of a type that holds "reference", alters the node itself, whatever
    the operator is and whether or not the call then succeeds.  After the
    call the left operand is the same field, its name overwritten with
    '_id' when its type is id, and the operator and the optional arguments
    are as before.  A right operand that is a plain value [v] which
    [object_id] casts to [w] has become [w], a native identifier; a tuple,
    list or set whose elements [object_id] casts has become the list of
    their identifiers.  When [object_id] raises, for the value or for one
    of the elements, the right operand is as it was, the rename having
    happened. *)
Theorem expand_mutates_id_query :
  forall (rt : runtime) (n : nat) (aggregate : bool) (f : Field) (op : opref)
         (second : expr) (kw : kwargs) (field_type : option string),
    f_type f = "id" \/ PyStr.contains "reference" (f_type f) = true ->
    exists second' : expr,
      snd (expand rt (S n) aggregate (QueryE (FieldE f) op second kw) field_type)
      = QueryE (FieldE (mkField (if String.eqb (f_type f) "id" then "_id" else f_name f)
                                (f_type f) (f_tablename f) (f_ondelete f)))
               op second' kw
      /\ (forall v w,
             second = Lit v -> (forall k items, v <> PSeq k items) ->
             object_id (rt_python rt) (rt_random_choice rt) (negb aggregate) v = Ok w ->
             second' = Lit w /\ exists o, w = POid o)
      /\ (forall k items oids,
             second = Lit (PSeq k items) ->
             Forall2 (fun v w => object_id (rt_python rt) (rt_random_choice rt)
                                           (negb aggregate) v = Ok w) items oids ->
             second' = Lit (PSeq KList oids) /\ Forall (fun w => exists o, w = POid o) oids)
      /\ (forall v e,
             second = Lit v -> (forall k items, v <> PSeq k items) ->
             object_id (rt_python rt) (rt_random_choice rt) (negb aggregate) v = Err e ->
             second' = second)
      /\ (forall k items,
             second = Lit (PSeq k items) ->
             Exists (fun v => exists e, object_id (rt_python rt) (rt_random_choice rt)
                                                  (negb aggregate) v = Err e) items ->
             second' = second).
Proof.
  intros rt n agg f op s kw ft Hty.
  assert (Hid : is_id_or_reference f = true).
  { unfold is_id_or_reference. destruct Hty as [-> | ->]; [reflexivity|apply orb_true_r]. }
  assert (Hname : rename_id f
                  = mkField (if String.eqb (f_type f) "id" then "_id" else f_name f)
                            (f_type f) (f_tablename f) (f_ondelete f)).
  { unfold rename_id, set_field_name. destruct (String.eqb (f_type f) "id"); [reflexivity|].
    destruct f; reflexivity. }
  exists (match cast_second rt agg s with
          | Ok s' => s'
          | Err _ => s
          end).
  split.
  - rewrite <- Hname.
    cbn [expand]. unfold expand_body. cbn [cast_query]. rewrite Hid.
    destruct (cast_second rt agg s) as [s'|e] eqn:Hcast; [|reflexivity].
    destruct (cast_second_lit _ _ _ _ Hcast) as [v ->].
    pose proof (expand_node_leaves rt n agg op kw (rename_id f) v) as H.
    destruct (expand_node _ _ _ _ _ _ _) as [r st']. cbn in H. subst st'. reflexivity.
  - split; [|split; [|split]].
    + intros v w -> Hv Hw.
      assert (Hc : cast_second rt agg (Lit v) = Ok (Lit w)).
      { destruct v; try (cbn [cast_second]; unfold self_object_id; rewrite Hw; reflexivity).
        exfalso. exact (Hv _ _ eq_refl). }
      rewrite Hc. split; [reflexivity|].
      exact (object_id_returns_oid _ _ _ _ _ Hw).
    + intros k items oids -> Hall.
      cbn [cast_second].
      rewrite (mapM_Forall2 (self_object_id rt agg) items oids Hall). cbn [res_bind]. split; [reflexivity|].
      clear -Hall. induction Hall as [|v w l l' Hv _ IH]; constructor; [|exact IH].
      exact (object_id_returns_oid _ _ _ _ _ Hv).
    + intros v e -> Hv He.
      assert (Hc : cast_second rt agg (Lit v) = Err e).
      { destruct v; try (cbn [cast_second]; unfold self_object_id; rewrite He; reflexivity).
        exfalso. exact (Hv _ _ eq_refl). }
      rewrite Hc. reflexivity.
    + intros k items -> Hex.
      cbn [cast_second].
      destruct (mapM_Exists (self_object_id rt agg) items Hex) as [e ->]. reflexivity.
Qed.

Lemma expand_mutates_id_query_witness :
  let id := mkField "id" "id" "person" "" in
  let owner := mkField "owner" "reference person" "dog" "CASCADE" in
  snd (expand sample_runtime 2 false
         (QueryE (FieldE id) (OpFunc EQ) (Lit (PStr "12")) []) None)
  = QueryE (FieldE (mkField "_id" "id" "person" "")) (OpFunc EQ)
           (Lit (POid (ObjectId.make [0; 0; 0; 0; 0; 0; 0; 0; 0; 0; 0; 12]%N))) []
  /\ snd (expand sample_runtime 2 false
            (QueryE (FieldE owner) (OpFunc BELONGS)
                    (Lit (PSeq KTuple [PInt 1; PInt 255])) []) None)
     = QueryE (FieldE owner) (OpFunc BELONGS)
              (Lit (PSeq KList
                      [POid (ObjectId.make [0; 0; 0; 0; 0; 0; 0; 0; 0; 0; 0; 1]%N);
                       POid (ObjectId.make [0; 0; 0; 0; 0; 0; 0; 0; 0; 0; 0; 255]%N)])) []
  /\ snd (expand sample_runtime 2 false
            (QueryE (FieldE id) (OpFunc EQ) (Lit (PInt (-5))) []) None)
     = QueryE (FieldE (mkField "_id" "id" "person" "")) (OpFunc EQ) (Lit (PInt (-5))) [].
Proof.
  intros id owner. split; [|split].
  - destruct (expand_mutates_id_query sample_runtime 1 false id (OpFunc EQ)
                (Lit (PStr "12")) [] None (or_introl eq_refl))
      as (s' & Heq & Hv & _).
    destruct (Hv (PStr "12")
                 (POid (ObjectId.make [0; 0; 0; 0; 0; 0; 0; 0; 0; 0; 0; 12]%N))
                 eq_refl ltac:(discriminate) eq_refl) as [-> _].
    exact Heq.
  - destruct (expand_mutates_id_query sample_runtime 1 false owner (OpFunc BELONGS)
                (Lit (PSeq KTuple [PInt 1; PInt 255])) [] None (or_intror eq_refl))
      as (s' & Heq & _ & Hl & _).
    destruct (Hl KTuple [PInt 1; PInt 255]
                 [POid (ObjectId.make [0; 0; 0; 0; 0; 0; 0; 0; 0; 0; 0; 1]%N);
                  POid (ObjectId.make [0; 0; 0; 0; 0; 0; 0; 0; 0; 0; 0; 255]%N)]
                 eq_refl) as [-> _].
    { repeat constructor. }
    exact Heq.
  - destruct (expand_mutates_id_query sample_runtime 1 false id (OpFunc EQ)
                (Lit (PInt (-5))) [] None (or_introl eq_refl))
      as (s' & Heq & _ & _ & He & _).
    rewrite (He (PInt (-5)) InvalidId eq_refl ltac:(discriminate) eq_refl) in Heq.
    exact Heq.
Defined.


(** ** delete: what a cascade does to each referring record *)



